(** * Admin dashboard script (static/js/admin/dashboard.js)

    A shallow embedding of the dashboard controller: the four chart slots,
    the shared modal, the three data loads and the statistics controls.

    JavaScript data is modelled as follows.
    - A parsed JSON payload that is only read is a tree ([json]).
    - Objects that are stored and later read or written through another
      reference (chart configurations, the statistics payload handed to the
      chart library) live in a store ([heap]) and are named by locations.
    - Strings are byte strings; the text the script handles is taken to be
      ASCII, so that the length in bytes is the length JavaScript sees.
    - Numbers are rationals standing for the decimal literal they were
      written as; the script never computes with them.
    - What the host provides (locale formatting, number/string conversion)
      is a parameter, [Host]. *)

From Stdlib Require Import ZArith QArith Qround Ascii String.
From stdpp Require Import base option list gmap strings pretty.

Local Open Scope Z_scope.

(** ** Values *)

(** A parsed JSON text. [JObj] keeps the members in their order; a key is
    looked up by its first occurrence. *)
#[local] Unset Elimination Schemes.
Inductive json : Type :=
  | JNull
  | JBool (b : bool)
  | JNum (q : Q)
  | JStr (s : string)
  | JArr (js : list json)
  | JObj (kvs : list (string * json)).
#[local] Set Elimination Schemes.

(** A JavaScript value read from a payload tree: [None] is [undefined]. *)
Definition jval : Type := option json.

(** A JavaScript value in the store. [VFun] is a built-in function object
    (the script meets one: [Array.prototype.values]). *)
Inductive val : Type :=
  | VUndef
  | VNull
  | VBool (b : bool)
  | VNum (q : Q)
  | VStr (s : string)
  | VFun (name : string)
  | VRef (l : nat).

(** A stored object: its named properties and, for an array, its elements. *)
Record obj : Type := Obj {
  elems : option (list val);
  props : list (string * val)
}.

Abbreviation heap := (list obj).

Inductive error : Type :=
  | TypeError (msg : string)
  | SyntaxError (msg : string)
  | Error (msg : string).

Inductive result (A : Type) : Type :=
  | Ok (a : A)
  | Throw (e : error).
Arguments Ok {A} a.
Arguments Throw {A} e.

Definition is_ok {A} (r : result A) : bool :=
  match r with Ok _ => true | Throw _ => false end.

(** What the browser provides and the script calls. *)
Record Host : Type := {
  (** [Number.prototype.toLocaleString()] in the page's locale *)
  toLocaleString : Q → string;
  (** [String(n)] for a number *)
  number_to_string : Q → string;
  (** [Number(s)] for a string; [None] is [NaN] *)
  string_to_number : string → option Q
}.

(** ** Strings *)

Definition dquote : string := String "034"%char EmptyString.

(** [s.includes(sub)] *)
Definition includes (s sub : string) : bool :=
  match String.index 0 sub s with Some _ => true | None => false end.

(** A string holds a text as its UTF-8 bytes. For the script the text is a
    sequence of UTF-16 code units: a character whose UTF-8 sequence has
    four bytes takes two of them, a surrogate pair, and any other
    character takes one. Half a pair, which a cut can leave behind, is
    written as the three bytes of the surrogate's own code point. *)

(** A byte that continues a sequence, and one that opens a sequence of
    four bytes. *)
Definition is_continuation (a : ascii) : bool :=
  ((128 <=? N_of_ascii a) && (N_of_ascii a <? 192))%N.

Definition is_lead4 (a : ascii) : bool := (240 <=? N_of_ascii a)%N.

(** The payloads of the continuation bytes [s] starts with, [k] at most. *)
Fixpoint continuation (k : nat) (s : string) : list N :=
  match k, s with
  | S k', String a s' =>
      if is_continuation a then (N_of_ascii a mod 64)%N :: continuation k' s' else []
  | _, _ => []
  end.

(** The code point of the character the byte [a] opens, [s] being what
    follows the byte. *)
Definition code_point (a : ascii) (s : string) : N :=
  let n := N_of_ascii a in
  let more k first := foldl (λ cp b, cp * 64 + b)%N first (continuation k s) in
  if (n <? 128)%N then n
  else if (n <? 224)%N then more 1%nat (n mod 32)%N
  else if (n <? 240)%N then more 2%nat (n mod 16)%N
  else more 3%nat (n mod 8)%N.

Definition high_surrogate (cp : N) : N := (55296 + ((cp - 65536) / 1024) mod 1024)%N.
Definition low_surrogate (cp : N) : N := (56320 + cp mod 1024)%N.

(** The UTF-16 code units of a text. *)
Fixpoint utf16 (s : string) : list N :=
  match s with
  | EmptyString => []
  | String a s' =>
      if is_continuation a then utf16 s'
      else if is_lead4 a
           then high_surrogate (code_point a s') :: low_surrogate (code_point a s')
                  :: utf16 s'
           else code_point a s' :: utf16 s'
  end.

(** The three bytes of a surrogate [u]. *)
Definition surrogate_bytes (u : N) : string :=
  String "237"%char
    (String (ascii_of_N (128 + (u / 64) mod 64))
       (String (ascii_of_N (128 + u mod 64)) EmptyString)).

(** [s.substring(0, n)]: the first [n] code units of [s]. The bytes that
    continue a character go with it; a cut inside a pair leaves its first
    half. *)
Fixpoint substring0 (n : nat) (s : string) : string :=
  match s with
  | EmptyString => EmptyString
  | String a s' =>
      if is_continuation a then String a (substring0 n s')
      else
        match n with
        | O => EmptyString
        | S n' =>
            if is_lead4 a then
              match n' with
              | O => surrogate_bytes (high_surrogate (code_point a s'))
              | S n'' => String a (substring0 n'' s')
              end
            else String a (substring0 n' s')
        end
  end.

Fixpoint join (sep : string) (l : list string) : string :=
  match l with
  | [] => EmptyString
  | [s] => s
  | s :: l' => s +:+ sep +:+ join sep l'
  end.

Definition concat_all (l : list string) : string := join EmptyString l.

(** First value bound to [k] in a member list. *)
Fixpoint assoc {A} (k : string) (kvs : list (string * A)) : option A :=
  match kvs with
  | [] => None
  | (k', v) :: kvs' => if String.eqb k k' then Some v else assoc k kvs'
  end.

(** [o[k] = v] on a member list: overwrite in place, else append. *)
Fixpoint assoc_set {A} (k : string) (v : A) (kvs : list (string * A)) : list (string * A) :=
  match kvs with
  | [] => [(k, v)]
  | (k', v') :: kvs' =>
      if String.eqb k k' then (k', v) :: kvs' else (k', v') :: assoc_set k v kvs'
  end.

(** ** Reading a payload tree *)

(** [v.k] for the property names the loaders read. Reading a property of
    [undefined] or [null] throws. *)
Definition jget (v : jval) (k : string) : result jval :=
  match v with
  | None => Throw (TypeError "Cannot read properties of undefined")
  | Some JNull => Throw (TypeError "Cannot read properties of null")
  | Some (JObj kvs) => Ok (assoc k kvs)
  | Some (JArr js) =>
      Ok (if String.eqb k "length" then Some (JNum (inject_Z (Z.of_nat (length js)))) else None)
  | Some (JStr s) =>
      Ok (if String.eqb k "length" then Some (JNum (inject_Z (Z.of_nat (length (utf16 s))))) else None)
  | Some (JBool _) | Some (JNum _) => Ok None
  end.

(** Truthiness of a value read from a tree. *)
Definition jtruthy (v : jval) : bool :=
  match v with
  | None | Some JNull => false
  | Some (JBool b) => b
  | Some (JNum q) => negb (Qeq_bool q 0)
  | Some (JStr s) => negb (String.eqb s EmptyString)
  | Some (JArr _) | Some (JObj _) => true
  end.

(** HTML serialisation of a text node, as [innerHTML] returns it. *)
Fixpoint html_escape (s : string) : string :=
  match s with
  | EmptyString => EmptyString
  | String c s' =>
      if Ascii.eqb c "&"%char then "&amp;" +:+ html_escape s'
      else if Ascii.eqb c "<"%char then "&lt;" +:+ html_escape s'
      else if Ascii.eqb c ">"%char then "&gt;" +:+ html_escape s'
      else
        match s' with
        | String c' s'' =>
            (* U+00A0 in UTF-8 *)
            if Ascii.eqb c "194"%char && Ascii.eqb c' "160"%char
            then "&nbsp;" +:+ html_escape s''
            else String c (html_escape s')
        | EmptyString => String c EmptyString
        end
  end.

(** ** Responses and [fetchJSON] *)

(** A response as the script observes it: [resp_text] is what
    [response.text()] resolves to, [resp_json] what [response.json()]
    resolves to ([None]: the body does not parse, the promise rejects). *)
Record response : Type := Response {
  status : Z;
  content_type : option string;
  resp_text : string;
  resp_json : option json
}.

(** [response.ok] *)
Definition ok (r : response) : bool := (200 <=? status r) && (status r <=? 299).

(** How a [fetch] settles. *)
Inductive fetch_outcome : Type :=
  | Rejected (e : error)
  | Responded (r : response).

Definition unexpected_response (r : response) : error :=
  Error ("Unexpected response (" +:+ pretty (status r) +:+ "): "
         +:+ substring0 200 (resp_text r) +:+ "...").

(** [fetchJSON(url)], given how the request settles. *)
Definition fetchJSON (o : fetch_outcome) : result json :=
  match o with
  | Rejected e => Throw e
  | Responded response =>
      let contentType := default EmptyString (content_type response) in
      if negb (ok response) || negb (includes contentType "application/json")
      then Throw (unexpected_response response)
      else
        match resp_json response with
        | Some data => Ok data
        | None => Throw (SyntaxError "Unexpected token")
        end
  end.

(** ** Query strings *)

Definition hex_digit (n : N) : ascii :=
  match n with
  | 0%N => "0" | 1%N => "1" | 2%N => "2" | 3%N => "3" | 4%N => "4"
  | 5%N => "5" | 6%N => "6" | 7%N => "7" | 8%N => "8" | 9%N => "9"
  | 10%N => "A" | 11%N => "B" | 12%N => "C" | 13%N => "D" | 14%N => "E"
  | _ => "F"
  end%char.

Definition is_alnum (c : ascii) : bool :=
  let n := N_of_ascii c in
  ((48 <=? n) && (n <=? 57) || (65 <=? n) && (n <=? 90) || (97 <=? n) && (n <=? 122))%N.

(** Bytes the form-urlencoded serialiser leaves as they are. *)
Definition url_safe (c : ascii) : bool :=
  is_alnum c || Ascii.eqb c "*" || Ascii.eqb c "-" || Ascii.eqb c "." || Ascii.eqb c "_".

(** The application/x-www-form-urlencoded byte serialiser. *)
Fixpoint urlencode (s : string) : string :=
  match s with
  | EmptyString => EmptyString
  | String c s' =>
      if url_safe c then String c (urlencode s')
      else if Ascii.eqb c " " then String "+" (urlencode s')
      else
        let n := N_of_ascii c in
        String "%" (String (hex_digit (n / 16)) (String (hex_digit (n mod 16)) (urlencode s')))
  end.

(** A [URLSearchParams] object: its list of name-value pairs. *)
Definition URLSearchParams : Type := list (string * string).

(** [params.set(name, value)]: the first pair named [name] takes the value
    and the others with that name go; with none, a pair is appended. *)
Definition params_set (name value : string) (params : URLSearchParams) : URLSearchParams :=
  match assoc name params with
  | None => (params ++ [(name, value)])%list
  | Some _ =>
      (fix go (ps : list (string * string)) (seen : bool) :=
         match ps with
         | [] => []
         | (k, v) :: ps' =>
             if String.eqb name k
             then (if seen then go ps' true else (k, value) :: go ps' true)
             else (k, v) :: go ps' seen
         end) params false
  end.

(** [params.toString()] *)
Definition params_toString (params : URLSearchParams) : string :=
  join "&" (map (λ kv, urlencode kv.1 +:+ "=" +:+ urlencode kv.2) params).

(** Reading a query string back: the pieces between [&], each split at
    its first [=]. Names and values are left percent-encoded. *)
Fixpoint has (c : ascii) (s : string) : bool :=
  match s with
  | EmptyString => false
  | String a s' => Ascii.eqb a c || has c s'
  end.

Fixpoint split_on (c : ascii) (s : string) : list string :=
  match s with
  | EmptyString => [EmptyString]
  | String a s' =>
      if Ascii.eqb a c then EmptyString :: split_on c s'
      else match split_on c s' with
           | p :: ps => String a p :: ps
           | [] => [String a EmptyString]
           end
  end.

Fixpoint split_pair (s : string) : string * string :=
  match s with
  | EmptyString => (EmptyString, EmptyString)
  | String a s' =>
      if Ascii.eqb a "=" then (EmptyString, s')
      else let '(k, v) := split_pair s' in (String a k, v)
  end.

Definition query_params (qs : string) : list (string * string) :=
  map split_pair (split_on "&" qs).

(** The value of the parameter [name] in the query string [qs]. *)
Definition query_param (name qs : string) : option string :=
  assoc name (query_params qs).

(** ** The store *)

Definition bindR {A B} (r : result A) (k : A → result B) : result B :=
  match r with Ok a => k a | Throw e => Throw e end.

Fixpoint mapR {A B} (f : A → result B) (l : list A) : result (list B) :=
  match l with
  | [] => Ok []
  | a :: l' => bindR (f a) (λ b, bindR (mapR f l') (λ bs, Ok (b :: bs)))
  end.

(** Computations on the store; a throw keeps the store reached so far. *)
Definition H (A : Type) : Type := heap → heap * result A.

Definition retH {A} (a : A) : H A := λ h, (h, Ok a).
Definition throwH {A} (e : error) : H A := λ h, (h, Throw e).
Definition bindH {A B} (m : H A) (k : A → H B) : H B :=
  λ h, match m h with
       | (h', Ok a) => k a h'
       | (h', Throw e) => (h', Throw e)
       end.

#[export] Instance H_ret : MRet H := @retH.
#[export] Instance H_bind : MBind H := λ A B k m, bindH m k.

Fixpoint mapH {A B} (f : A → H B) (l : list A) : H (list B) :=
  match l with
  | [] => retH []
  | a :: l' => b ← f a; bs ← mapH f l'; retH (b :: bs)
  end.

(** A fresh object takes the next location. *)
Definition alloc (o : obj) : H val := λ h, ((h ++ [o])%list, Ok (VRef (length h))).

(** An array literal, an object literal. *)
Definition new_array (vs : list val) : H val := alloc (Obj (Some vs) []).
Definition new_object (kvs : list (string * val)) : H val := alloc (Obj None kvs).

Definition truthy (v : val) : bool :=
  match v with
  | VUndef | VNull => false
  | VBool b => b
  | VNum q => negb (Qeq_bool q 0)
  | VStr s => negb (String.eqb s EmptyString)
  | VFun _ | VRef _ => true
  end.

Definition num_of_nat (n : nat) : val := VNum (inject_Z (Z.of_nat n)).

(** [o.k] on a stored object, for the property names the script reads:
    an array has its [length] and inherits [values]. *)
Definition obj_get (o : obj) (k : string) : val :=
  match elems o with
  | Some vs =>
      if String.eqb k "length" then num_of_nat (length vs)
      else match assoc k (props o) with
           | Some v => v
           | None => if String.eqb k "values" then VFun "values" else VUndef
           end
  | None => default VUndef (assoc k (props o))
  end.

(** [v.k] *)
Definition get_prop (v : val) (k : string) : H val :=
  λ h, (h,
    match v with
    | VUndef => Throw (TypeError "Cannot read properties of undefined")
    | VNull => Throw (TypeError "Cannot read properties of null")
    | VBool _ | VNum _ => Ok VUndef
    | VStr s => Ok (if String.eqb k "length" then num_of_nat (length (utf16 s)) else VUndef)
    | VFun name =>
        Ok (if String.eqb k "name" then VStr name
            else if String.eqb k "length" then num_of_nat 0 else VUndef)
    | VRef l =>
        match h !! l with
        | Some o => Ok (obj_get o k)
        | None => Ok VUndef
        end
    end).

(** [v.k = x] in strict mode. *)
Definition set_prop (v : val) (k : string) (x : val) : H unit :=
  λ h,
    match v with
    | VRef l =>
        match h !! l with
        | Some o => (<[l := Obj (elems o) (assoc_set k x (props o))]> h, Ok ())
        | None => (h, Ok ())
        end
    | VUndef | VNull => (h, Throw (TypeError "Cannot set properties of undefined"))
    | VBool _ | VNum _ | VStr _ => (h, Throw (TypeError "Cannot create property"))
    | VFun _ => (h, Ok ())
    end.

(** [a || b], with [b] evaluated only when needed. *)
Definition or_else (a : val) (b : H val) : H val :=
  if truthy a then retH a else b.

(** [v.slice(0, n)]: arrays and strings have the method; on anything else
    the call throws. *)
Definition call_slice (v : val) (n : nat) : H val :=
  λ h,
    match v with
    | VRef l =>
        match h !! l with
        | Some (Obj (Some vs) _) => new_array (take n vs) h
        | _ => (h, Throw (TypeError "slice is not a function"))
        end
    | VStr s => (h, Ok (VStr (substring0 n s)))
    | VUndef | VNull => (h, Throw (TypeError "Cannot read properties of undefined"))
    | _ => (h, Throw (TypeError "slice is not a function"))
    end.

(** [v.map(f)]: only arrays have the method. *)
Definition call_map (v : val) (f : val → H val) : H val :=
  λ h,
    match v with
    | VRef l =>
        match h !! l with
        | Some (Obj (Some vs) _) => (ws ← mapH f vs; new_array ws) h
        | _ => (h, Throw (TypeError "map is not a function"))
        end
    | VUndef | VNull => (h, Throw (TypeError "Cannot read properties of undefined"))
    | _ => (h, Throw (TypeError "map is not a function"))
    end.

(** *** JSON.stringify and JSON.parse *)

(** The tree of a stored value, [None] for a value without one
    ([undefined], a function). [n] bounds the depth of the walk. A
    location that names no object does not occur in a program's store;
    the walk stops there with an error. *)
Fixpoint stringify (n : nat) (h : heap) (v : val) : result (option json) :=
  match v with
  | VUndef | VFun _ => Ok None
  | VNull => Ok (Some JNull)
  | VBool b => Ok (Some (JBool b))
  | VNum q => Ok (Some (JNum q))
  | VStr s => Ok (Some (JStr s))
  | VRef l =>
      match n with
      | O => Throw (TypeError "Converting circular structure to JSON")
      | S n' =>
          match h !! l with
          | None => Throw (Error "no such object")
          | Some o =>
              match elems o with
              | Some vs =>
                  bindR (mapR (λ x, bindR (stringify n' h x) (λ j, Ok (default JNull j))) vs)
                        (λ js, Ok (Some (JArr js)))
              | None =>
                  bindR (mapR (λ kx, bindR (stringify n' h kx.2) (λ j, Ok (kx.1, j))) (props o))
                        (λ kjs, Ok (Some (JObj (omap (λ kj, pair kj.1 <$> kj.2) kjs))))
              end
          end
      end
  end.

(** [JSON.stringify(v)]. A walk deeper than the number of stored objects
    has met an object twice: the structure is circular and the call throws. *)
Definition JSON_stringify (h : heap) (v : val) : result (option json) :=
  stringify (S (length h)) h v.

(** Allocating the values of a list, left to right. *)
Fixpoint alloc_each {A} (f : A → heap → heap * val) (l : list A) (h : heap)
    : heap * list val :=
  match l with
  | [] => (h, [])
  | a :: l' =>
      let '(h1, v) := f a h in
      let '(h2, vs) := alloc_each f l' h1 in (h2, v :: vs)
  end.

(** The objects of a parsed tree, children before their parent. *)
Fixpoint alloc_json (j : json) (h : heap) : heap * val :=
  match j with
  | JNull => (h, VNull)
  | JBool b => (h, VBool b)
  | JNum q => (h, VNum q)
  | JStr s => (h, VStr s)
  | JArr js =>
      let '(h', vs) := alloc_each alloc_json js h in
      ((h' ++ [Obj (Some vs) []])%list, VRef (length h'))
  | JObj kvs =>
      let '(h', vs) := alloc_each (λ kj, alloc_json kj.2) kvs h in
      ((h' ++ [Obj None (zip kvs.*1 vs)])%list, VRef (length h'))
  end.

(** [JSON.parse] of the text of tree [j]. *)
Definition JSON_parse (j : json) : H val :=
  λ h, let '(h', v) := alloc_json j h in (h', Ok v).

(** [JSON.parse(JSON.stringify(v))]: [JSON.stringify] gives [undefined]
    for a value without a tree, which [JSON.parse] rejects. *)
Definition json_clone (v : val) : H val :=
  λ h,
    match JSON_stringify h v with
    | Throw e => (h, Throw e)
    | Ok None => (h, Throw (SyntaxError "undefined is not valid JSON"))
    | Ok (Some j) => JSON_parse j h
    end.

(** ** The page and the controller's state *)

(** The four chart slots; each is a module-level variable of the script and
    a canvas of the page. *)
Inductive slot : Type := BooksPerCategory | LoansOverTime | LoanStatus | Language.

#[export] Instance slot_eq_dec : EqDecision slot.
Proof. solve_decision. Defined.

Definition all_slots : list slot := [BooksPerCategory; LoansOverTime; LoanStatus; Language].

Definition canvas_id (s : slot) : string :=
  match s with
  | BooksPerCategory => "booksPerCategoryChart"
  | LoansOverTime => "loansOverTimeChart"
  | LoanStatus => "loanStatusChart"
  | Language => "languageChart"
  end.

(** The canvas inside the modal. *)
Definition modal_canvas : string := "modalChart".

(** The bodies of the function expressions the script registers. *)
Inductive closure : Type :=
  | OnPeriodChange
  | OpenModal (s : slot) (title : string)
  | CloseModal
  | BackdropClick
  | ResetZoom.

(** A function object: the declared function [loadBookStats], or the
    object a function expression made ([id] tells two evaluations of the
    same expression apart). *)
Inductive callback : Type :=
  | LoadBookStats
  | Closure (id : nat) (body : closure).

Record listener : Type := Listener { on : string; handler : callback }.

#[export] Instance closure_eq_dec : EqDecision closure.
Proof. solve_decision. Defined.
#[export] Instance callback_eq_dec : EqDecision callback.
Proof. solve_decision. Defined.
#[export] Instance listener_eq_dec : EqDecision listener.
Proof. solve_decision. Defined.

(** What an element shows: the text or the markup last assigned to it. *)
Inductive content : Type :=
  | Text (s : string)
  | Html (s : string).

Record element : Type := Element {
  contents : content;
  value : string;
  style_display : string;
  listeners : list listener
}.

(** [el.addEventListener(type, f)]: a listener already registered (same
    type, same function object) is not registered again. *)
Definition add_listener (type : string) (f : callback) (ls : list listener) : list listener :=
  if decide (Listener type f ∈ ls) then ls else (ls ++ [Listener type f])%list.

(** A chart-library instance: the canvas it draws on, the type, data and
    options it was constructed with, and whether it has been destroyed. *)
Record Chart : Type := MkChart {
  canvas : string;
  chart_type : string;
  config_data : val;
  config_options : val;
  alive : bool
}.

(** The modal subtree [ensureModal] builds: the overlay, its title and the
    listeners of the close button, the overlay and the reset button. *)
Record Modal : Type := MkModal {
  modal_display : string;
  modal_title : string;
  close_listeners : list listener;
  overlay_listeners : list listener;
  reset_listeners : list listener
}.

Inductive level : Type := LogError | LogWarn.

Record State : Type := MkState {
  statsApiUrl : string;
  activityApiUrl : string;
  booksPerCategoryChart : option nat;
  loansOverTimeChart : option nat;
  loanStatusChart : option nat;
  languageChart : option nat;
  modal : option Modal;
  modalChartInstance : option nat;
  (** the elements of the page, by id *)
  dom : gmap string element;
  (** the stored objects *)
  store : heap;
  (** every chart instance constructed so far *)
  charts : list Chart;
  zoom_registered : bool;
  (** function objects made so far *)
  next_fn : nat;
  console : list (level * string * error);
  (** the URLs fetched so far *)
  requests : list string
}.

Definition set_urls (a b : string) (st : State) : State :=
  MkState a b (booksPerCategoryChart st) (loansOverTimeChart st) (loanStatusChart st)
    (languageChart st) (modal st) (modalChartInstance st) (dom st) (store st) (charts st)
    (zoom_registered st) (next_fn st) (console st) (requests st).

Definition slot_var (s : slot) (st : State) : option nat :=
  match s with
  | BooksPerCategory => booksPerCategoryChart st
  | LoansOverTime => loansOverTimeChart st
  | LoanStatus => loanStatusChart st
  | Language => languageChart st
  end.

Definition set_slot_var (s : slot) (c : option nat) (st : State) : State :=
  MkState (statsApiUrl st) (activityApiUrl st)
    (if decide (s = BooksPerCategory) then c else booksPerCategoryChart st)
    (if decide (s = LoansOverTime) then c else loansOverTimeChart st)
    (if decide (s = LoanStatus) then c else loanStatusChart st)
    (if decide (s = Language) then c else languageChart st)
    (modal st) (modalChartInstance st) (dom st) (store st) (charts st)
    (zoom_registered st) (next_fn st) (console st) (requests st).

Definition set_modal (m : option Modal) (st : State) : State :=
  MkState (statsApiUrl st) (activityApiUrl st) (booksPerCategoryChart st)
    (loansOverTimeChart st) (loanStatusChart st) (languageChart st) m
    (modalChartInstance st) (dom st) (store st) (charts st)
    (zoom_registered st) (next_fn st) (console st) (requests st).

Definition set_modalChartInstance (c : option nat) (st : State) : State :=
  MkState (statsApiUrl st) (activityApiUrl st) (booksPerCategoryChart st)
    (loansOverTimeChart st) (loanStatusChart st) (languageChart st) (modal st)
    c (dom st) (store st) (charts st)
    (zoom_registered st) (next_fn st) (console st) (requests st).

Definition set_dom (d : gmap string element) (st : State) : State :=
  MkState (statsApiUrl st) (activityApiUrl st) (booksPerCategoryChart st)
    (loansOverTimeChart st) (loanStatusChart st) (languageChart st) (modal st)
    (modalChartInstance st) d (store st) (charts st)
    (zoom_registered st) (next_fn st) (console st) (requests st).

Definition set_store (h : heap) (st : State) : State :=
  MkState (statsApiUrl st) (activityApiUrl st) (booksPerCategoryChart st)
    (loansOverTimeChart st) (loanStatusChart st) (languageChart st) (modal st)
    (modalChartInstance st) (dom st) h (charts st)
    (zoom_registered st) (next_fn st) (console st) (requests st).

Definition set_charts (cs : list Chart) (st : State) : State :=
  MkState (statsApiUrl st) (activityApiUrl st) (booksPerCategoryChart st)
    (loansOverTimeChart st) (loanStatusChart st) (languageChart st) (modal st)
    (modalChartInstance st) (dom st) (store st) cs
    (zoom_registered st) (next_fn st) (console st) (requests st).

Definition set_zoom_registered (b : bool) (st : State) : State :=
  MkState (statsApiUrl st) (activityApiUrl st) (booksPerCategoryChart st)
    (loansOverTimeChart st) (loanStatusChart st) (languageChart st) (modal st)
    (modalChartInstance st) (dom st) (store st) (charts st)
    b (next_fn st) (console st) (requests st).

Definition set_next_fn (n : nat) (st : State) : State :=
  MkState (statsApiUrl st) (activityApiUrl st) (booksPerCategoryChart st)
    (loansOverTimeChart st) (loanStatusChart st) (languageChart st) (modal st)
    (modalChartInstance st) (dom st) (store st) (charts st)
    (zoom_registered st) n (console st) (requests st).

Definition set_console (c : list (level * string * error)) (st : State) : State :=
  MkState (statsApiUrl st) (activityApiUrl st) (booksPerCategoryChart st)
    (loansOverTimeChart st) (loanStatusChart st) (languageChart st) (modal st)
    (modalChartInstance st) (dom st) (store st) (charts st)
    (zoom_registered st) (next_fn st) c (requests st).

Definition set_requests (r : list string) (st : State) : State :=
  MkState (statsApiUrl st) (activityApiUrl st) (booksPerCategoryChart st)
    (loansOverTimeChart st) (loanStatusChart st) (languageChart st) (modal st)
    (modalChartInstance st) (dom st) (store st) (charts st)
    (zoom_registered st) (next_fn st) (console st) r.

(** The state when the script has been evaluated, on a page with the
    elements [page]. *)
Definition initial (page : gmap string element) : State :=
  MkState EmptyString EmptyString None None None None None None page [] [] false O [] [].

(** ** Effects *)

(** Computations on the state; a throw keeps the state reached so far. *)
Definition M (A : Type) : Type := State → State * result A.

Definition retM {A} (a : A) : M A := λ st, (st, Ok a).
Definition throwM {A} (e : error) : M A := λ st, (st, Throw e).
Definition bindM {A B} (m : M A) (k : A → M B) : M B :=
  λ st, match m st with
        | (st', Ok a) => k a st'
        | (st', Throw e) => (st', Throw e)
        end.

#[export] Instance M_ret : MRet M := @retM.
#[export] Instance M_bind : MBind M := λ A B k m, bindM m k.

(** [try { m } catch (e) { handle e }] *)
Definition try_catch {A} (m : M A) (handle : error → M A) : M A :=
  λ st, match m st with
        | (st', Ok a) => (st', Ok a)
        | (st', Throw e) => handle e st'
        end.

Definition liftH {A} (m : H A) : M A :=
  λ st, let '(h, r) := m (store st) in (set_store h st, r).

Definition modify (f : State → State) : M () := λ st, (f st, Ok ()).

(** [console.error(msg, e)], [console.warn(msg, e)] *)
Definition console_log (l : level) (msg : string) (e : error) : M () :=
  modify (λ st, set_console (console st ++ [(l, msg, e)])%list st).

(** [document.getElementById(id)]: the element's id when it is there. *)
Definition getElementById (id : string) : M (option string) :=
  λ st, (st, Ok (match dom st !! id with Some _ => Some id | None => None end)).

Definition update_element (id : string) (f : element → element) : M () :=
  modify (λ st, set_dom (alter f id (dom st)) st).

Definition set_contents (c : content) (el : element) : element :=
  Element c (value el) (style_display el) (listeners el).
Definition set_value (v : string) (el : element) : element :=
  Element (contents el) v (style_display el) (listeners el).
Definition set_style_display (d : string) (el : element) : element :=
  Element (contents el) (value el) d (listeners el).
Definition set_listeners (ls : list listener) (el : element) : element :=
  Element (contents el) (value el) (style_display el) ls.

(** [el.addEventListener(type, f)] *)
Definition addEventListener (id : string) (type : string) (f : callback) : M () :=
  update_element id (λ el, set_listeners (add_listener type f (listeners el)) el).

(** Evaluating a function expression makes a new function object. *)
Definition function_expression (body : closure) : M callback :=
  λ st, (set_next_fn (S (next_fn st)) st, Ok (Closure (next_fn st) body)).

(** *** The chart library *)

(** [new Chart(canvas.getContext('2d'), { type, data, options })] *)
Definition new_Chart (cv type : string) (data options : val) : M nat :=
  λ st, (set_charts (charts st ++ [MkChart cv type data options true])%list st,
         Ok (length (charts st))).

Definition destroyed (c : Chart) : Chart :=
  MkChart (canvas c) (chart_type c) (config_data c) (config_options c) false.

(** [chart.destroy()] *)
Definition destroy (i : nat) : M () :=
  modify (λ st, set_charts (alter destroyed i (charts st)) st).

(** How many live instances draw on canvas [cv]. *)
Definition on_canvas (cv : string) (c : Chart) : bool :=
  alive c && String.eqb (canvas c) cv.

Definition live_count (cv : string) (st : State) : nat :=
  length (filter (λ c, on_canvas cv c = true) (charts st)).

Section Dashboard.
Context (host : Host).

(** [String(v)] for a value of a payload tree. *)
Fixpoint to_string (j : json) : string :=
  match j with
  | JNull => "null"
  | JBool true => "true"
  | JBool false => "false"
  | JNum q => number_to_string host q
  | JStr s => s
  | JArr js =>
      join "," (map (λ j', match j' with JNull => EmptyString | _ => to_string j' end) js)
  | JObj _ => "[object Object]"
  end.

(** [Number(v)]; [None] is [NaN]. *)
Definition to_number (v : jval) : option Q :=
  match v with
  | None => None
  | Some JNull => Some 0%Q
  | Some (JBool b) => Some (if b then 1%Q else 0%Q)
  | Some (JNum q) => Some q
  | Some (JStr s) => string_to_number host s
  | Some (JArr js) => string_to_number host (to_string (JArr js))
  | Some (JObj _) => None
  end.

(** [v > 0] *)
Definition gt_zero (v : jval) : bool :=
  match to_number v with
  | Some q => match (0 ?= q)%Q with Lt => true | _ => false end
  | None => false
  end.

(** What assigning [v] to [textContent] stores: [null] and [undefined]
    give the empty text. *)
Definition text_of (v : jval) : string :=
  match v with
  | None | Some JNull => EmptyString
  | Some j => to_string j
  end.

(** [escapeHtml(text)]: a detached element takes [text] as its text and is
    read back as markup. *)
Definition escapeHtml (text : jval) : string := html_escape (text_of text).

(** ** The summary counters *)

Definition liftR {A} (r : result A) : M A := λ st, (st, r).

(** [fetch(url, ...)]: the request goes out; how it settles comes later. *)
Definition fetch (url : string) : M () :=
  modify (λ st, set_requests (requests st ++ [url])%list st).

(** [updateElement(id, value)] *)
Definition updateElement (id : string) (value : jval) : M () :=
  el ← getElementById id;
  match el with
  | Some el =>
      update_element el
        (set_contents (Text match value with
                            | Some (JNum n) => toLocaleString host n
                            | _ => text_of value
                            end))
  | None => mret ()
  end.

Definition counter_ids : list string :=
  ["books-count"; "users-count"; "pending-requests"; "overdue-loans"].

Definition placeholder : jval := Some (JStr "-").

(** The synchronous part of [loadDashboardStats()]. *)
Definition loadDashboardStats : M () :=
  url ← (λ st, (st, Ok (statsApiUrl st)));
  fetch url.

(** Its [then] callback. *)
Definition stats_then (data : json) : M () :=
  basic ← liftR (jget (Some data) "basic");
  total_books ← liftR (jget basic "total_books");
  updateElement "books-count" total_books;;
  basic ← liftR (jget (Some data) "basic");
  total_users ← liftR (jget basic "total_users");
  updateElement "users-count" total_users;;
  reqs ← liftR (jget (Some data) "requests");
  pending ← liftR (jget reqs "pending");
  updateElement "pending-requests" pending;;
  loans ← liftR (jget (Some data) "loans");
  overdue ← liftR (jget loans "overdue");
  updateElement "overdue-loans" overdue.

Fixpoint forEach {A} (f : A → M ()) (l : list A) : M () :=
  match l with
  | [] => mret ()
  | a :: l' => f a;; forEach f l'
  end.

(** Its [catch] callback. *)
Definition stats_catch (error : error) : M () :=
  console_log LogError "Error loading stats:" error;;
  forEach (λ id, updateElement id placeholder) counter_ids.

(** The promise chain of [loadDashboardStats()], run when the request has
    settled as [o]: first the part before [.catch], then the whole. *)
Definition summary_chain (o : fetch_outcome) : M () :=
  data ← liftR (fetchJSON o); stats_then data.

Definition loadDashboardStats_settled (o : fetch_outcome) : M () :=
  try_catch (summary_chain o) stats_catch.

(** ** The activity feed *)

Definition nl : string := String "010"%char EmptyString.

Fixpoint spaces (n : nat) : string :=
  match n with O => EmptyString | S n' => String " " (spaces n') end.

(** The template literal of one activity entry. *)
Definition activity_item (activity : jval) : result string :=
  bindR (jget activity "message") (λ message,
  bindR (jget activity "details") (λ details,
  bindR (jget activity "ago") (λ ago,
  Ok (concat_all
    [ nl; spaces 24; "<div class="; dquote; "activity-item"; dquote; ">";
      nl; spaces 28; "<div>";
      nl; spaces 32; "<strong>"; escapeHtml message; "</strong>";
      nl; spaces 32; "<br><small>"; escapeHtml details; "</small>";
      nl; spaces 28; "</div>";
      nl; spaces 28; "<div class="; dquote; "activity-time"; dquote; ">";
        escapeHtml ago; "</div>";
      nl; spaces 24; "</div>";
      nl; spaces 20 ])))).

(** [v.map(f)] on a payload tree: only arrays have the method. *)
Definition jmap {B} (v : jval) (f : jval → result B) : result (list B) :=
  match v with
  | Some (JArr js) => mapR (λ j, f (Some j)) js
  | None => Throw (TypeError "Cannot read properties of undefined")
  | Some JNull => Throw (TypeError "Cannot read properties of null")
  | _ => Throw (TypeError "map is not a function")
  end.

Definition loadRecentActivity : M () :=
  url ← (λ st, (st, Ok (activityApiUrl st)));
  fetch url.

Definition activity_then (data : json) : M () :=
  activityList ← getElementById "recent-activity-list";
  match activityList with
  | None => mret ()
  | Some activityList =>
      activities ← liftR (jget (Some data) "activities");
      nonempty ← (if jtruthy activities
                  then len ← liftR (jget activities "length"); mret (gt_zero len)
                  else mret false);
      if nonempty : bool then
        activities ← liftR (jget (Some data) "activities");
        items ← liftR (jmap activities activity_item);
        update_element activityList (set_contents (Html (concat_all items)))
      else
        update_element activityList (set_contents (Html "<p>No recent activity</p>"))
  end.

Definition activity_catch (error : error) : M () :=
  console_log LogError "Error loading activity:" error;;
  activityList ← getElementById "recent-activity-list";
  match activityList with
  | Some activityList =>
      update_element activityList
        (set_contents (Html "<p>Error loading recent activity</p>"))
  | None => mret ()
  end.

Definition activity_chain (o : fetch_outcome) : M () :=
  data ← liftR (fetchJSON o); activity_then data.

Definition loadRecentActivity_settled (o : fetch_outcome) : M () :=
  try_catch (activity_chain o) activity_catch.

(** ** The statistics request *)

Definition value_of (id : string) : M string :=
  λ st, (st, Ok (match dom st !! id with Some el => value el | None => EmptyString end)).

(** The query of a statistics request: [period] and [year], and [month]
    unless the period is [year]. *)
Definition stats_params (period y m : string) : URLSearchParams :=
  let params := [("period", period); ("year", y)] in
  if negb (String.eqb period "year") then params_set "month" m params else params.

(** The synchronous part of [loadBookStats()]. The fallback month is the
    number [1], which the query holds as the string [1]. *)
Definition loadBookStats : M () :=
  periodEl ← getElementById "stats-period";
  yearEl ← getElementById "stats-year";
  monthEl ← getElementById "stats-month";
  match periodEl, yearEl with
  | Some periodEl, Some yearEl =>
      period ← value_of periodEl;
      y ← value_of yearEl;
      m ← match monthEl with
          | Some monthEl => value_of monthEl
          | None => mret "1"
          end;
      let params := stats_params period y m in
      url ← (λ st, (st, Ok (statsApiUrl st)));
      fetch (url +:+ "?" +:+ params_toString params)
  | _, _ => mret ()
  end.

(** ** Rendering the charts *)

Definition base_colors : list string :=
  ["#007cba"; "#00a8e8"; "#17a2b8"; "#28a745"; "#20c997";
   "#6f42c1"; "#6610f2"; "#e83e8c"; "#fd7e14"; "#ffc107"].

(** [buildBarColors(n)], for the number of turns [n] that [i < n] allows. *)
Definition bar_colors (n : nat) : list val :=
  map (λ i, VStr (default EmptyString (base_colors !! (i mod length base_colors)%nat)))
      (seq 0 n).

(** The number of turns of [for (i = 0; i < n; i++)]; the script passes
    the length of an array. *)
Definition turns (n : val) : nat :=
  match n with
  | VNum q => Z.to_nat (Qceiling q)
  | VBool true => 1
  | _ => 0
  end.

Definition buildBarColors (n : val) : H val := new_array (bar_colors (turns n)).

Definition slot_of_var (s : slot) : M (option nat) := λ st, (st, Ok (slot_var s st)).

(** [el.addEventListener(type, () => ...)]: the function expression is
    evaluated, then registered. *)
Definition listen (id type : string) (body : closure) : M () :=
  f ← function_expression body;
  addEventListener id type f.

(** The part the four render functions share, once the slot's canvas
    [ctx] has been found: destroy the slot's chart if there is one,
    construct the new one on the canvas from the configuration literal,
    keep it in the slot's variable, and register the click listener. *)
Definition install (s : slot) (type : string) (config : H (val * val))
    (title : string) : M () :=
  let ctx := canvas_id s in
  old ← slot_of_var s;
  match old with Some c => destroy c | None => mret () end;;
  cfg ← liftH config;
  c ← new_Chart ctx type cfg.1 cfg.2;
  modify (set_slot_var s (Some c));;
  listen ctx "click" (OpenModal s title).

Definition renderBooksPerCategoryChart (data : val) : M () :=
  prep ← liftH (
    counts ← get_prop data "category_book_counts";
    counts ← or_else counts (new_array []);
    bpc ← call_slice counts 20;
    labels ← call_map bpc (λ x, get_prop x "name");
    values ← call_map bpc (λ x, get_prop x "total_books");
    n ← get_prop bpc "length";
    colors ← buildBarColors n;
    mret (labels, values, colors));
  let '(labels, values, colors) := prep in
  ctx ← getElementById (canvas_id BooksPerCategory);
  match ctx with
  | None => mret ()
  | Some _ =>
      install BooksPerCategory "doughnut"
        (dataset ← new_object [("label", VStr "Sách"); ("data", values);
                               ("backgroundColor", colors)];
         datasets ← new_array [dataset];
         data ← new_object [("labels", labels); ("datasets", datasets)];
         legend ← new_object [("position", VStr "bottom")];
         plugins ← new_object [("legend", legend)];
         options ← new_object [("responsive", VBool true); ("plugins", plugins)];
         mret (data, options))
        "Số lượng sách theo thể loại"
  end.

Definition renderLoansOverTimeChart (data : val) : M () :=
  ts ← liftH (
    ts ← get_prop data "time_series";
    or_else ts (labels ← new_array []; values ← new_array [];
                new_object [("labels", labels); ("values", values)]));
  ctx ← getElementById (canvas_id LoansOverTime);
  match ctx with
  | None => mret ()
  | Some _ =>
      install LoansOverTime "line"
        (labels ← get_prop ts "labels";
         values ← get_prop ts "values";
         dataset ← new_object [("label", VStr "Lượt mượn"); ("data", values);
                               ("borderColor", VStr "#007cba");
                               ("backgroundColor", VStr "rgba(0,124,186,0.1)");
                               ("fill", VBool true); ("tension", VNum (2 # 10))];
         datasets ← new_array [dataset];
         data ← new_object [("labels", labels); ("datasets", datasets)];
         legend ← new_object [("display", VBool false)];
         plugins ← new_object [("legend", legend)];
         y ← new_object [("beginAtZero", VBool true); ("precision", VNum 0)];
         scales ← new_object [("y", y)];
         options ← new_object [("responsive", VBool true); ("plugins", plugins);
                               ("scales", scales)];
         mret (data, options))
        "Xu hướng mượn theo thời gian"
  end.

Definition renderLoanStatusChart (data : val) : M () :=
  prep ← liftH (
    sd ← get_prop data "status_distribution";
    sd ← or_else sd (new_array []);
    labels ← call_map sd (λ x, get_prop x "status");
    values ← call_map sd (λ x, get_prop x "total");
    n ← get_prop sd "length";
    colors ← buildBarColors n;
    mret (labels, values, colors));
  let '(labels, values, colors) := prep in
  ctx ← getElementById (canvas_id LoanStatus);
  match ctx with
  | None => mret ()
  | Some _ =>
      install LoanStatus "doughnut"
        (dataset ← new_object [("label", VStr "Yêu cầu"); ("data", values);
                               ("backgroundColor", colors)];
         datasets ← new_array [dataset];
         data ← new_object [("labels", labels); ("datasets", datasets)];
         legend ← new_object [("position", VStr "bottom")];
         plugins ← new_object [("legend", legend)];
         options ← new_object [("responsive", VBool true); ("plugins", plugins)];
         mret (data, options))
        "Trạng thái yêu cầu mượn sách"
  end.

Definition renderLanguageChart (data : val) : M () :=
  prep ← liftH (
    dist ← get_prop data "language_distribution";
    dist ← or_else dist (new_array []);
    ld ← call_slice dist 12;
    labels ← call_map ld (λ x, get_prop x "language");
    values ← call_map ld (λ x, get_prop x "total");
    n ← get_prop ld "length";
    colors ← buildBarColors n;
    mret (labels, values, colors));
  let '(labels, values, colors) := prep in
  ctx ← getElementById (canvas_id Language);
  match ctx with
  | None => mret ()
  | Some _ =>
      install Language "bar"
        (dataset ← new_object [("label", VStr "Số lượng sách"); ("data", values);
                               ("backgroundColor", colors)];
         datasets ← new_array [dataset];
         data ← new_object [("labels", labels); ("datasets", datasets)];
         legend ← new_object [("display", VBool false)];
         plugins ← new_object [("legend", legend)];
         y ← new_object [("beginAtZero", VBool true); ("precision", VNum 0)];
         scales ← new_object [("y", y)];
         options ← new_object [("responsive", VBool true); ("plugins", plugins);
                               ("scales", scales)];
         mret (data, options))
        "Ngôn ngữ sách trong thư viện"
  end.

Definition renderCharts (data : val) : M () :=
  renderBooksPerCategoryChart data;;
  renderLoansOverTimeChart data;;
  renderLoanStatusChart data;;
  renderLanguageChart data.

(** The render function of a slot. *)
Definition render (s : slot) : val → M () :=
  match s with
  | BooksPerCategory => renderBooksPerCategoryChart
  | LoansOverTime => renderLoansOverTimeChart
  | LoanStatus => renderLoanStatusChart
  | Language => renderLanguageChart
  end.

(** The promise chain of [loadBookStats()]: [r.json()] and [renderCharts],
    then the [catch] that logs. *)
Definition stats_chain (o : fetch_outcome) : M () :=
  match o with
  | Rejected e => throwM e
  | Responded r =>
      match resp_json r with
      | None => throwM (SyntaxError "Unexpected token")
      | Some j => data ← liftH (JSON_parse j); renderCharts data
      end
  end.

Definition stats_catch_log (err : error) : M () :=
  console_log LogError "Error loading book stats:" err.

Definition loadBookStats_settled (o : fetch_outcome) : M () :=
  try_catch (stats_chain o) stats_catch_log.

(** ** The modal *)

(** [ensureModal()]: the first call builds the subtree and registers the
    three listeners; later calls do nothing. *)
Definition ensureModal : M () :=
  λ st,
    match modal st with
    | Some _ => (st, Ok ())
    | None =>
        (closeModal ← function_expression CloseModal;
         onOverlay ← function_expression BackdropClick;
         onReset ← function_expression ResetZoom;
         modify (set_modal (Some
           (MkModal EmptyString "Biểu đồ"
              (add_listener "click" closeModal [])
              (add_listener "click" onOverlay [])
              (add_listener "click" onReset []))))) st
    end.

Definition update_modal (f : Modal → Modal) : M () :=
  modify (λ st, set_modal (f <$> modal st) st).

Definition set_modal_display (d : string) (m : Modal) : Modal :=
  MkModal d (modal_title m) (close_listeners m) (overlay_listeners m) (reset_listeners m).
Definition set_modal_title (t : string) (m : Modal) : Modal :=
  MkModal (modal_display m) t (close_listeners m) (overlay_listeners m) (reset_listeners m).

Definition the_modalChartInstance : M (option nat) :=
  λ st, (st, Ok (modalChartInstance st)).

(** [closeModal()] *)
Definition closeModal : M () :=
  update_modal (set_modal_display "none");;
  inst ← the_modalChartInstance;
  match inst with
  | Some c => destroy c;; modify (set_modalChartInstance None)
  | None => mret ()
  end.

(** [sourceChart.config], which throws when the variable holds [null]. *)
Definition config_of (sourceChart : option nat) : M Chart :=
  λ st,
    match sourceChart with
    | None => (st, Throw (TypeError "Cannot read properties of null"))
    | Some i =>
        match charts st !! i with
        | Some c => (st, Ok c)
        | None => (st, Throw (TypeError "Cannot read properties of undefined"))
        end
    end.

(** The zoom options the modal adds. *)
Definition zoom_options : H val :=
  wheel ← new_object [("enabled", VBool true)];
  pinch ← new_object [("enabled", VBool true)];
  drag ← new_object [("enabled", VBool true)];
  zoom ← new_object [("wheel", wheel); ("pinch", pinch); ("drag", drag);
                     ("mode", VStr "xy")];
  pan ← new_object [("enabled", VBool true); ("mode", VStr "xy");
                    ("modifierKey", VStr "shift")];
  new_object [("zoom", zoom); ("pan", pan)].

(** The options of the modal chart: a copy of the source's options, with
    the zoom options merged in. *)
Definition modal_options (srcOpts : val) : H val :=
  options ← json_clone srcOpts;
  plugins ← get_prop options "plugins";
  plugins ← or_else plugins (new_object []);
  set_prop options "plugins" plugins;;
  plugins ← get_prop options "plugins";
  legend ← get_prop plugins "legend";
  legend ← or_else legend (new_object [("position", VStr "top")]);
  plugins ← get_prop options "plugins";
  set_prop plugins "legend" legend;;
  plugins ← get_prop options "plugins";
  zoom ← zoom_options;
  set_prop plugins "zoom" zoom;;
  set_prop options "maintainAspectRatio" (VBool false);;
  mret options.

(** The data and the options the modal chart is constructed with. *)
Definition modal_config (src : Chart) : H (val * val) :=
  dataClone ← json_clone (config_data src);
  srcOpts ← or_else (config_options src) (new_object []);
  options ← modal_options srcOpts;
  mret (dataClone, options).

(** [if (modalChartInstance) modalChartInstance.destroy();
    modalChartInstance = new Chart(modalCtx, ...)] *)
Definition replace_modal_chart (type : string) (cfg : val * val) : M () :=
  inst ← the_modalChartInstance;
  match inst with Some c => destroy c | None => mret () end;;
  c ← new_Chart modal_canvas type cfg.1 cfg.2;
  modify (set_modalChartInstance (Some c)).

(** [openModalForChart(sourceChart, titleText)] *)
Definition openModalForChart (sourceChart : option nat) (titleText : string) : M () :=
  ensureModal;;
  update_modal (set_modal_title
    (if String.eqb titleText EmptyString then "Biểu đồ" else titleText));;
  src ← config_of sourceChart;
  cfg ← liftH (modal_config src);
  replace_modal_chart (chart_type src) cfg;;
  update_modal (set_modal_display "flex").

(** ** The controls *)

(** [toggleMonthVisibility()] *)
Definition toggleMonthVisibility : M () :=
  period ← value_of "stats-period";
  let shown := if String.eqb period "year" then "none" else "inline-block" in
  update_element "stats-month" (set_style_display shown);;
  labelMonth ← getElementById "label-month";
  match labelMonth with
  | Some labelMonth => update_element labelMonth (set_style_display shown)
  | None => mret ()
  end.

(** [setupStatsControls()], at a time when [new Date()] has the year
    [year] and the month [month0] (counted from zero). *)
Definition setupStatsControls (year month0 : Z) : M () :=
  periodEl ← getElementById "stats-period";
  yearEl ← getElementById "stats-year";
  monthEl ← getElementById "stats-month";
  match periodEl, yearEl, monthEl with
  | Some periodEl, Some yearEl, Some monthEl =>
      update_element yearEl (set_value (pretty year));;
      update_element monthEl (set_value (pretty (month0 + 1)));;
      listen periodEl "change" OnPeriodChange;;
      addEventListener yearEl "change" LoadBookStats;;
      addEventListener yearEl "input" LoadBookStats;;
      addEventListener monthEl "change" LoadBookStats;;
      addEventListener monthEl "input" LoadBookStats;;
      toggleMonthVisibility
  | _, _, _ => mret ()
  end.

(** What the page offers as a zoom plugin. *)
Inductive zoom_plugin : Type :=
  | NoPlugin
  | Plugin
  | FailingPlugin (e : error).

(** [registerZoomPlugin()] *)
Definition registerZoomPlugin (z : zoom_plugin) : M () :=
  match z with
  | NoPlugin => mret ()
  | Plugin => modify (set_zoom_registered true)
  | FailingPlugin e => console_log LogWarn "Zoom plugin register failed:" e
  end.

(** [init(statsUrl, activityUrl)] *)
Definition init (statsUrl activityUrl : string) (z : zoom_plugin) (year month0 : Z) : M () :=
  modify (set_urls statsUrl activityUrl);;
  registerZoomPlugin z;;
  loadDashboardStats;;
  loadRecentActivity;;
  setupStatsControls year month0;;
  loadBookStats.

(** ** Events *)

(** Calling a registered function. [on_overlay] tells whether the event's
    target is the overlay itself. *)
Definition call (on_overlay : bool) (f : callback) : M () :=
  match f with
  | LoadBookStats => loadBookStats
  | Closure _ OnPeriodChange => toggleMonthVisibility;; loadBookStats
  | Closure _ (OpenModal s title) => c ← slot_of_var s; openModalForChart c title
  | Closure _ CloseModal => closeModal
  | Closure _ BackdropClick => if on_overlay then closeModal else mret ()
  | Closure _ ResetZoom => mret ()
  end.

(** The listeners of one event type run in the order they were
    registered; what one throws is reported and the next one runs. *)
Fixpoint dispatch (on_overlay : bool) (type : string) (ls : list listener) : M () :=
  match ls with
  | [] => mret ()
  | l :: ls' =>
      (if String.eqb (on l) type
       then try_catch (call on_overlay (handler l)) (console_log LogError "Uncaught")
       else mret ());;
      dispatch on_overlay type ls'
  end.

Inductive modal_target : Type := OnOverlay | OnContent | OnCloseButton | OnResetButton.

Inductive event : Type :=
  (** the page calls [AdminDashboard.init] *)
  | EvInit (statsUrl activityUrl : string) (z : zoom_plugin) (year month0 : Z)
  (** a request of one of the three loads settles *)
  | EvSummary (o : fetch_outcome)
  | EvActivity (o : fetch_outcome)
  | EvStats (o : fetch_outcome)
  (** the user changes the value of a control *)
  | EvEdit (id value : string)
  (** an event of type [type] reaches the element [id] *)
  | EvFire (id type : string)
  (** a click in the modal *)
  | EvModalClick (t : modal_target).

Definition fire (id type : string) : M () :=
  λ st,
    match dom st !! id with
    | Some el => dispatch false type (listeners el) st
    | None => (st, Ok ())
    end.

Definition modal_click (t : modal_target) : M () :=
  λ st,
    match modal st with
    | None => (st, Ok ())
    | Some m =>
        (match t with
         | OnOverlay => dispatch true "click" (overlay_listeners m)
         | OnContent => dispatch false "click" (overlay_listeners m)
         | OnCloseButton =>
             dispatch false "click" (close_listeners m);;
             dispatch false "click" (overlay_listeners m)
         | OnResetButton =>
             dispatch false "click" (reset_listeners m);;
             dispatch false "click" (overlay_listeners m)
         end) st
    end.

Definition handle (e : event) : M () :=
  match e with
  | EvInit statsUrl activityUrl z year month0 => init statsUrl activityUrl z year month0
  | EvSummary o => loadDashboardStats_settled o
  | EvActivity o => loadRecentActivity_settled o
  | EvStats o => loadBookStats_settled o
  | EvEdit id v => update_element id (set_value v)
  | EvFire id type => fire id type
  | EvModalClick t => modal_click t
  end.

Definition step (e : event) (st : State) : State := (handle e st).1.

(** The state after the events [es], in order. *)
Definition run (es : list event) (st : State) : State := foldl (λ st e, step e st) st es.

(** ** Notions the statements use *)

(** The response declares a JSON body. *)
Definition declares_json (r : response) : bool :=
  includes (default EmptyString (content_type r)) "application/json".

(** A value whose properties can be read. *)
Definition readable (v : jval) : bool :=
  match v with
  | None | Some JNull => false
  | Some _ => true
  end.

(** [v.k], as [undefined] where the read would throw. *)
Definition field (v : jval) (k : string) : jval :=
  match jget v k with Ok x => x | Throw _ => None end.

(** The summary payload has the three objects the counters are read from. *)
Definition stats_shape_ok (data : json) : bool :=
  readable (Some data) && readable (field (Some data) "basic")
  && readable (field (Some data) "requests") && readable (field (Some data) "loans").

(** The summary payload has the four counter fields. *)
Definition has_counter_fields (data : json) : bool :=
  bool_decide (is_Some (field (field (Some data) "basic") "total_books"))
  && bool_decide (is_Some (field (field (Some data) "basic") "total_users"))
  && bool_decide (is_Some (field (field (Some data) "requests") "pending"))
  && bool_decide (is_Some (field (field (Some data) "loans") "overdue")).

(** What a counter shows for a value. *)
Definition counter_text (value : jval) : string :=
  match value with
  | Some (JNum n) => toLocaleString host n
  | _ => text_of value
  end.

(** The text element [id] shows, if it is in the page. *)
Definition shown (id : string) (st : State) : option content :=
  contents <$> dom st !! id.

(** Instance [i] is alive and draws on canvas [cv]. *)
Definition live_in (cs : list Chart) (i : nat) (cv : string) : Prop :=
  ∃ c, cs !! i = Some c ∧ alive c = true ∧ canvas c = cv.

Definition live (st : State) (i : nat) (cv : string) : Prop :=
  live_in (charts st) i cv.

(** The instances once the one a variable holds has been destroyed. *)
Definition charts_after_destroy (old : option nat) (cs : list Chart) : list Chart :=
  match old with
  | Some c => alter destroyed c cs
  | None => cs
  end.

(** Every live instance on a slot's canvas is the one the slot's variable
    holds, and every live instance on the modal's canvas is the one
    [modalChartInstance] holds. *)
Definition charts_inv (st : State) : Prop :=
  (∀ s i, live st i (canvas_id s) → slot_var s st = Some i) ∧
  (∀ i, live st i modal_canvas → modalChartInstance st = Some i).

(** The function object is one made before the [n]-th. *)
Definition fn_before (n : nat) (f : callback) : Prop :=
  match f with
  | LoadBookStats => True
  | Closure id _ => (id < n)%nat
  end.

(** The listeners of the page are function objects made so far. *)
Definition listeners_inv (st : State) : Prop :=
  ∀ id el l, dom st !! id = Some el → l ∈ listeners el →
             fn_before (next_fn st) (handler l).

(** A page on which nothing has been registered yet. *)
Definition unscripted (page : gmap string element) : Prop :=
  map_Forall (λ _ el, listeners el = []) page.

(** The number of click listeners on the canvas of a slot. *)
Definition click_listeners (s : slot) (st : State) : nat :=
  match dom st !! canvas_id s with
  | Some el => length (filter (λ l, on l = "click") (listeners el))
  | None => 0
  end.

(** One arrival of statistics for slot [s]: the payload is parsed and the
    slot rendered. *)
Definition rerender_once (s : slot) (j : json) : M () :=
  data ← liftH (JSON_parse j); render s data.

(** Rendering slot [s] once for each payload, in order. *)
Definition rerender (s : slot) (payloads : list json) : M () :=
  forEach (rerender_once s) payloads.

(** *** Stored values and trees *)

Fixpoint json_depth (j : json) : nat :=
  match j with
  | JArr js => S (foldr (λ j n, max (json_depth j) n) 0%nat js)
  | JObj kvs => S (foldr (λ kj n, max (json_depth kj.2) n) 0%nat kvs)
  | _ => 0%nat
  end.

(** The stored value [v] is the tree [j], as [JSON.parse] builds it. *)
#[local] Unset Elimination Schemes.
Inductive repr (h : heap) : json → val → Prop :=
  | repr_null : repr h JNull VNull
  | repr_bool b : repr h (JBool b) (VBool b)
  | repr_num q : repr h (JNum q) (VNum q)
  | repr_str s : repr h (JStr s) (VStr s)
  | repr_arr l js vs :
      h !! l = Some (Obj (Some vs) []) →
      Forall2 (repr h) js vs →
      repr h (JArr js) (VRef l)
  | repr_obj l kvs ps :
      h !! l = Some (Obj None ps) →
      Forall2 (λ kj p, p.1 = kj.1 ∧ repr h kj.2 p.2) kvs ps →
      repr h (JObj kvs) (VRef l).
#[local] Set Elimination Schemes.

(** Every object of [h] is in [h'], at its place and unchanged. *)
Definition extends (h h' : heap) : Prop :=
  ∀ l o, h !! l = Some o → h' !! l = Some o.

(** The values an object refers to. *)
Definition obj_vals (o : obj) : list val :=
  (default [] (elems o) ++ (props o).*2)%list.

(** Location [l] can be reached from the value [v]. *)
Inductive reach (h : heap) : val → nat → Prop :=
  | reach_here l : reach h (VRef l) l
  | reach_step l o v l' :
      h !! l = Some o → v ∈ obj_vals o → reach h v l' → reach h (VRef l) l'.

(** The value is no reference into the first [n] objects of the store. *)
Definition fresh_val (n : nat) (v : val) : Prop :=
  match v with
  | VRef l => (n ≤ l)%nat
  | _ => True
  end.

(** From the [n]-th on, the objects refer to each other only. *)
Definition closed_from (n : nat) (h : heap) : Prop :=
  ∀ l o, (n ≤ l)%nat → h !! l = Some o → Forall (fresh_val n) (obj_vals o).

(** [h'] is [h] with new objects after it, which refer to new objects
    only. *)
Definition grown (h h' : heap) : Prop :=
  (∃ k, h' = (h ++ k)%list) ∧
  ∀ l o, (length h ≤ l)%nat → h' !! l = Some o →
         Forall (fresh_val (length h)) (obj_vals o).

(** The stored value [v] has the tree [r] ([None]: it has none). *)
Definition reads_as (h : heap) (v : val) (r : option json) : Prop :=
  ∃ n, stringify n h v = Ok r.

(** The stored value [w] is what reading a property of a parsed tree
    gave: the subtree, or [undefined] or an inherited method. *)
Definition repr_opt (h : heap) (r : jval) (w : val) : Prop :=
  match r with
  | Some j => repr h j w
  | None => w = VUndef ∨ ∃ f, w = VFun f
  end.

(** The colours [buildBarColors] gives to [n] entries. *)
Definition palette (n : nat) : list json :=
  map (λ i, JStr (default EmptyString (base_colors !! (i mod 10)%nat))) (seq 0 n).

(** The data of a chart with one dataset. *)
Definition chart_data (label : string) (labels values colors : list json) : json :=
  JObj [("labels", JArr labels);
        ("datasets", JArr [JObj [("label", JStr label); ("data", JArr values);
                                 ("backgroundColor", JArr colors)]])].

(** The property [k] of each entry, [null] where an entry has none. *)
Definition column (k : string) (entries : list json) : list json :=
  map (λ e, default JNull (field (Some e) k)) entries.

(** The chart a slot's variable holds, and the tree of its data. *)
Definition slot_chart (s : slot) (st : State) : option Chart :=
  slot_var s st ≫= λ i, charts st !! i.

Definition slot_data (s : slot) (st : State) : option (result (option json)) :=
  (λ c, JSON_stringify (store st) (config_data c)) <$> slot_chart s st.

(** The chart in slot [s] has the data [j]. *)
Definition slot_shows (s : slot) (st : State) (j : json) : Prop :=
  ∃ c, slot_chart s st = Some c ∧ alive c = true ∧
       reads_as (store st) (config_data c) (Some j).

(** The store [h] has every object of [h0] unchanged, and what it has
    after them refers to objects after them only. *)
Definition apart_from (h0 h : heap) : Prop :=
  extends h0 h ∧ closed_from (length h0) h.

(** The computation keeps the objects of [h0] unchanged and apart from the
    later ones, and what it returns satisfies [Q]. *)
Definition writes_apart (h0 : heap) {A} (m : H A) (Q : A → Prop) : Prop :=
  ∀ h, apart_from h0 h → apart_from h0 (m h).1 ∧ ∀ a, (m h).2 = Ok a → Q a.

(** The variables hold instances that draw on their own canvas. *)
Definition vars_inv (st : State) : Prop :=
  (∀ s i, slot_var s st = Some i →
          ∃ c, charts st !! i = Some c ∧ canvas c = canvas_id s) ∧
  (∀ i, modalChartInstance st = Some i →
        ∃ c, charts st !! i = Some c ∧ canvas c = modal_canvas).

(** *** Markup *)

(** How often the character [c] occurs in [s]. *)
Fixpoint count_char (c : ascii) (s : string) : nat :=
  match s with
  | EmptyString => 0
  | String a s' => (if Ascii.eqb a c then 1 else 0) + count_char c s'
  end.

(** A text that [innerHTML] gives back as it is: it has no [&], [<], [>]
    and no no-break space. *)
Definition plain_text (s : string) : Prop :=
  has "&" s = false ∧ has "<" s = false ∧ has ">" s = false ∧ has "194" s = false.

(** The modal, once built, has its three listeners: one on the close
    button, one on the overlay and one on the reset button. *)
Definition modal_inv (st : State) : Prop :=
  ∀ m, modal st = Some m →
    ∃ a b c,
      close_listeners m = [Listener "click" (Closure a CloseModal)] ∧
      overlay_listeners m = [Listener "click" (Closure b BackdropClick)] ∧
      reset_listeners m = [Listener "click" (Closure c ResetZoom)].

(** The member of the statistics payload a slot is rendered from, and the
    label of its dataset. *)
Definition list_key (s : slot) : string :=
  match s with
  | BooksPerCategory => "category_book_counts"
  | LoansOverTime => "time_series"
  | LoanStatus => "status_distribution"
  | Language => "language_distribution"
  end.

Definition dataset_label (s : slot) : string :=
  match s with
  | BooksPerCategory => "Sách"
  | LoansOverTime => "Lượt mượn"
  | LoanStatus => "Yêu cầu"
  | Language => "Số lượng sách"
  end.

(** The data of the line chart for the labels [L] and the values [V]. *)
Definition line_data (L V : json) : json :=
  JObj [("labels", L);
        ("datasets",
         JArr [JObj [("label", JStr "Lượt mượn"); ("data", V);
                     ("borderColor", JStr "#007cba");
                     ("backgroundColor", JStr "rgba(0,124,186,0.1)");
                     ("fill", JBool true); ("tension", JNum (2 # 10))]])].

(** The state [st'] is [st] with other contents in the elements [ids] and
    another console: nothing else differs. *)
Definition differs_in_contents (ids : list string) (st st' : State) : Prop :=
  ∃ d c,
    st' = set_console c (set_dom d st) ∧
    (∀ id, set_contents (Text EmptyString) <$> d !! id
           = set_contents (Text EmptyString) <$> dom st !! id) ∧
    (∀ id, id ∉ ids → d !! id = dom st !! id).

(** ** The options of the modal chart *)

(** Values laid out one after the other from location [b]: each has its
    segment of objects, [R b a v K]. *)
Inductive chain {A} (R : nat → A → val → list obj → Prop)
    : nat → list A → list val → list obj → Prop :=
  | chain_nil b : chain R b [] [] []
  | chain_cons b a v K l vs K' :
      R b a v K → chain R (b + length K) l vs K' →
      chain R b (a :: l) (v :: vs) (K ++ K').

(** The segment [K] of objects, placed at location [b], is the tree [j]
    as [JSON.parse] lays it out, with [v] its value: the children first,
    each in its own segment, then the object itself. *)
#[local] Unset Elimination Schemes.
Inductive own : nat → json → val → list obj → Prop :=
  | own_null b : own b JNull VNull []
  | own_bool b x : own b (JBool x) (VBool x) []
  | own_num b q : own b (JNum q) (VNum q) []
  | own_str b s : own b (JStr s) (VStr s) []
  | own_arr b js vs K :
      chain own b js vs K →
      own b (JArr js) (VRef (b + length K)) (K ++ [Obj (Some vs) []])
  | own_obj b kvs vs K :
      chain own b kvs.*2 vs K →
      own b (JObj kvs) (VRef (b + length K)) (K ++ [Obj None (zip kvs.*1 vs)]).
#[local] Set Elimination Schemes.

(** The heap [h] has the objects [K] from location [b] on. *)
Definition fits (h : heap) (b : nat) (K : list obj) : Prop :=
  ∀ i x, K !! i = Some x → h !! (b + i)%nat = Some x.

(** The heap [hh] has the objects of [h], but for those at [S]. *)
Definition agree (S : list nat) (h hh : heap) : Prop :=
  ∀ l x, h !! l = Some x → l ∉ S → hh !! l = Some x.

(** The properties [ps] hold the members [kvs], in the heap [hh]. *)
Abbreviation members hh := (Forall2 (λ (kj : string * json) (p : string * val),
                                   p.1 = kj.1 ∧ repr hh kj.2 p.2)).

(** The tree of the zoom settings [zoom_options] builds. *)
Definition zoom_tree : json :=
  JObj [("zoom", JObj [("wheel", JObj [("enabled", JBool true)]);
                       ("pinch", JObj [("enabled", JBool true)]);
                       ("drag", JObj [("enabled", JBool true)]);
                       ("mode", JStr "xy")]);
        ("pan", JObj [("enabled", JBool true); ("mode", JStr "xy");
                      ("modifierKey", JStr "shift")])].

(** The legend the modal adds. *)
Definition legend_top : json := JObj [("position", JStr "top")].

(** The legend the modal's plugins get: the source's when it counts as
    true, else one at the top. *)
Definition legend_of (pkvs : list (string * json)) : json :=
  match assoc "legend" pkvs with
  | Some l => if jtruthy (Some l) then l else legend_top
  | None => legend_top
  end.

(** The plugins of the source options that the modal keeps: those of an
    object; none when [plugins] is missing or counts as false. *)
Definition plugins_of (kvs : list (string * json)) : list (string * json) :=
  match assoc "plugins" kvs with Some (JObj pkvs) => pkvs | _ => [] end.

(** The source options [kvs] with the plugins [pkvs] after the merge. *)
Definition merged (kvs pkvs : list (string * json)) : json :=
  JObj (assoc_set "maintainAspectRatio" (JBool false)
          (assoc_set "plugins"
             (JObj (assoc_set "zoom" zoom_tree
                      (assoc_set "legend" (legend_of pkvs) pkvs))) kvs)).

(** The options tree of the modal chart for the source options [kvs]. *)
Definition with_zoom (kvs : list (string * json)) : json :=
  merged kvs (plugins_of kvs).

(** The source options have no [plugins], or an object, or a value that
    counts as false. *)
Definition plain_plugins (kvs : list (string * json)) : Prop :=
  match assoc "plugins" kvs with
  | None | Some (JObj _) => True
  | Some j => jtruthy (Some j) = false
  end.

(** What [modal_options] does once the options have their [plugins]. *)
Definition merge_tail (options : val) : H val :=
  plugins ← get_prop options "plugins";
  legend ← get_prop plugins "legend";
  legend ← or_else legend (new_object [("position", VStr "top")]);
  plugins ← get_prop options "plugins";
  set_prop plugins "legend" legend;;
  plugins ← get_prop options "plugins";
  zoom ← zoom_options;
  set_prop plugins "zoom" zoom;;
  set_prop options "maintainAspectRatio" (VBool false);;
  mret options.

(** What [modal_options] does with the clone of the options. *)
Definition merge_plugins (options : val) : H val :=
  plugins ← get_prop options "plugins";
  plugins ← or_else plugins (new_object []);
  set_prop options "plugins" plugins;;
  merge_tail options.

(** ** A whole load of the statistics *)

(** The computation leaves the objects of the store as they are. *)
Definition grows {A} (m : H A) : Prop := ∀ h, extends h (m h).1.

(** The slot [s'] keeps its chart and the chart its data while the store
    grows and another slot's chart is replaced. *)
Definition others_kept (s' : slot) (D : json) (st : State) : Prop :=
  vars_inv st ∧ slot_shows s' st D.

(** The entries of the payload [j] that the chart of slot [s] is drawn
    from: the first 20 categories, the first 12 languages, every status. *)
Definition shown_entries (s : slot) (j : json) : list json :=
  let es := match field (Some j) (list_key s) with Some (JArr es) => es | _ => [] end in
  match s with
  | BooksPerCategory => take 20 es
  | Language => take 12 es
  | _ => es
  end.

(** The data of the chart of slot [s] for the payload [j]. *)
Definition expected (s : slot) (j : json) : json :=
  let es := shown_entries s j in
  match s with
  | BooksPerCategory =>
      chart_data "Sách" (column "name" es) (column "total_books" es) (palette (length es))
  | LoansOverTime =>
      let ts := field (Some j) "time_series" in
      line_data (default JNull (field ts "labels")) (default JNull (field ts "values"))
  | LoanStatus =>
      chart_data "Yêu cầu" (column "status" es) (column "total" es) (palette (length es))
  | Language =>
      chart_data "Số lượng sách" (column "language" es) (column "total" es)
                 (palette (length es))
  end.

(** The payload has the three lists, with entries that are not [null]
    where a chart shows them, and a time series with labels and values. *)
Definition complete (j : json) : bool :=
  forallb (λ s, match field (Some j) (list_key s) with
                | Some (JArr _) => forallb (λ e, readable (Some e)) (shown_entries s j)
                | _ => false
                end) [BooksPerCategory; LoanStatus; Language]
  && bool_decide (is_Some (field (field (Some j) "time_series") "labels"))
  && bool_decide (is_Some (field (field (Some j) "time_series") "values")).

(** The parsed payload is in the store, the page has the four canvases and
    the console is [c0]. *)
Definition ready (j : json) (data : val) (c0 : list (level * string * error))
    (st : State) : Prop :=
  repr (store st) j data ∧ (∀ s, is_Some (dom st !! canvas_id s)) ∧ console st = c0 ∧
  vars_inv st.

(** ** A click on a chart *)

(** The title the click listener of a slot's canvas opens the modal
    with. *)
Definition slot_title (s : slot) : string :=
  match s with
  | BooksPerCategory => "Số lượng sách theo thể loại"
  | LoansOverTime => "Xu hướng mượn theo thời gian"
  | LoanStatus => "Trạng thái yêu cầu mượn sách"
  | Language => "Ngôn ngữ sách trong thư viện"
  end.

(** The listeners of the canvases are the click listeners the renders
    registered, and the canvas of a slot that holds a chart has one. *)
Definition canvas_ok (st : State) : Prop :=
  ∀ s,
    (∀ el l, dom st !! canvas_id s = Some el → l ∈ listeners el →
             ∃ n, l = Listener "click" (Closure n (OpenModal s (slot_title s)))) ∧
    (is_Some (slot_var s st) →
     ∃ el, dom st !! canvas_id s = Some el ∧ listeners el ≠ []).

(** The slot [s] holds the chart [src], whose data and options have the
    trees [jd] and [kvs]; the console is [c0]. *)
Definition holds (s : slot) (i : nat) (src : Chart) (jd : json)
    (kvs : list (string * json)) (c0 : list (level * string * error)) (st : State) : Prop :=
  slot_var s st = Some i ∧ charts st !! i = Some src ∧
  JSON_stringify (store st) (config_data src) = Ok (Some jd) ∧
  JSON_stringify (store st) (config_options src) = Ok (Some (JObj kvs)) ∧
  vars_inv st ∧ console st = c0.

(** The modal is open with the title [title] on a live copy of the chart
    [src]. *)
Definition opened (title : string) (src : Chart) (jd : json)
    (kvs : list (string * json)) (st : State) : Prop :=
  modal_display <$> modal st = Some "flex" ∧
  modal_title <$> modal st = Some title ∧
  ∃ m mc,
    modalChartInstance st = Some m ∧ charts st !! m = Some mc ∧
    alive mc = true ∧ canvas mc = modal_canvas ∧ chart_type mc = chart_type src ∧
    reads_as (store st) (config_data mc) (Some jd) ∧
    reads_as (store st) (config_options mc) (Some (with_zoom kvs)).

(** The options literal of the doughnut charts, and that of the bar and
    line charts. *)
Definition doughnut_tree : list (string * json) :=
  [("responsive", JBool true);
   ("plugins", JObj [("legend", JObj [("position", JStr "bottom")])])].

Definition bar_tree : list (string * json) :=
  [("responsive", JBool true);
   ("plugins", JObj [("legend", JObj [("display", JBool false)])]);
   ("scales", JObj [("y", JObj [("beginAtZero", JBool true); ("precision", JNum 0)])])].

(** The value [o] is an options object of a render, stored in [h]. *)
Definition render_options (h : heap) (o : val) : Prop :=
  ∃ kvs, (kvs = doughnut_tree ∨ kvs = bar_tree) ∧ repr h (JObj kvs) o ∧
         (3 ≤ length h)%nat.

(** The charts of the slots have the options of a render. *)
Definition options_inv (st : State) : Prop :=
  ∀ i c, charts st !! i = Some c → canvas c ≠ modal_canvas →
         render_options (store st) (config_options c).

(** *** Slots across renders *)

(** The slot [s] is in [st'] as it was in [st]: the same instance with the
    same data, and the same listeners on its canvas. *)
Definition kept (s : slot) (st st' : State) : Prop :=
  slot_var s st' = slot_var s st ∧ slot_chart s st' = slot_chart s st ∧
  dom st' !! canvas_id s = dom st !! canvas_id s ∧
  (∀ r, slot_data s st = Some (Ok r) → slot_data s st' = Some (Ok r)).

(** The slot [s] holds in [st'] a live instance made after [st], and the
    instance it held in [st] is destroyed. *)
Definition replaced (s : slot) (st st' : State) : Prop :=
  ∃ i c,
    slot_var s st' = Some i ∧ (length (charts st) ≤ i)%nat ∧
    charts st' !! i = Some c ∧ alive c = true ∧ canvas c = canvas_id s ∧
    ∀ i0, slot_var s st = Some i0 →
          ∃ c0, charts st' !! i0 = Some c0 ∧ alive c0 = false.

(** The render of slot [s] has run to its end between [st] and [st']. *)
Definition rendered (s : slot) (st st' : State) : Prop :=
  (dom st !! canvas_id s = None ∧ kept s st st') ∨
  (is_Some (dom st !! canvas_id s) ∧ replaced s st st').

(** What renders leave as it is, from [st] to [st']. *)
Definition onward (st st' : State) : Prop :=
  extends (store st) (store st') ∧
  (length (charts st) ≤ length (charts st'))%nat ∧
  (∀ i c, charts st !! i = Some c → alive c = false →
          ∃ c', charts st' !! i = Some c' ∧ alive c' = false) ∧
  console st' = console st ∧ modal st' = modal st ∧
  modalChartInstance st' = modalChartInstance st ∧ requests st' = requests st ∧
  (∀ id, (∀ s, id ≠ canvas_id s) → dom st' !! id = dom st !! id).

(** What a render of slot [s] that ends in [res] has done from [st]. *)
Definition outcome (s : slot) (st : State) (res : State * result ()) : Prop :=
  onward st res.1 ∧ vars_inv res.1 ∧ (∀ s', s' ≠ s → kept s' st res.1) ∧
  match res.2 with
  | Ok _ => rendered s st res.1
  | Throw _ => kept s st res.1
  end.

(** The renders of the slots [done] have run to their end between [st]
    and [st'], and no other render has changed a slot. *)
Definition progress (done : list slot) (st st' : State) : Prop :=
  onward st st' ∧ vars_inv st' ∧
  (∀ s, s ∈ done → rendered s st st') ∧ (∀ s, s ∉ done → kept s st st').

(** * Properties *)

(** ** Strings *)

Lemma append_cons (a : ascii) (s t : string) : String a s +:+ t = String a (s +:+ t).
Proof. reflexivity. Qed.

Lemma append_nil_l (s : string) : EmptyString +:+ s = s.
Proof. reflexivity. Qed.

Lemma append_nil_r (s : string) : s +:+ EmptyString = s.
Proof. induction s as [|a s IH]; [done | by rewrite append_cons, IH]. Qed.

Lemma append_assoc (a b c : string) : (a +:+ b) +:+ c = a +:+ (b +:+ c).
Proof. induction a as [|x a IH]; [done | by rewrite !append_cons, IH]. Qed.

Lemma has_append (c : ascii) (a b : string) : has c (a +:+ b) = has c a || has c b.
Proof.
  induction a as [|x a IH]; [done |].
  rewrite append_cons. simpl. rewrite IH. by rewrite orb_assoc.
Qed.

Lemma continuation_substring0 (k n : nat) (s : string) :
  continuation k (substring0 n s) = continuation k s.
Proof.
  revert k n. induction s as [|a s IH]; intros k n; [done |].
  destruct k as [|k]; [by destruct (substring0 n (String a s)) |].
  cbn [substring0 continuation].
  destruct (is_continuation a) eqn:Ea.
  - cbn [continuation]. by rewrite Ea, IH.
  - destruct n as [|[|n]]; [done | |].
    + destruct (is_lead4 a); [done |]. cbn [continuation]. by rewrite Ea.
    + destruct (is_lead4 a); cbn [continuation]; by rewrite Ea.
Qed.

Lemma code_point_substring0 (a : ascii) (n : nat) (s : string) :
  code_point a (substring0 n s) = code_point a s.
Proof. unfold code_point. by rewrite !continuation_substring0. Qed.

Lemma utf16_surrogate_bytes (cp : N) :
  utf16 (surrogate_bytes (high_surrogate cp)) = [high_surrogate cp].
Proof.
  assert (H : forallb (λ k, match utf16 (surrogate_bytes (55296 + N.of_nat k)) with
                            | [u] => (u =? 55296 + N.of_nat k)%N
                            | _ => false
                            end) (seq 0 1024) = true) by (vm_compute; reflexivity).
  rewrite forallb_forall in H.
  unfold high_surrogate. set (m := (((cp - 65536) / 1024) mod 1024)%N).
  assert (Hm : (m < 1024)%N) by (apply N.mod_lt; lia).
  specialize (H (N.to_nat m)). rewrite N2Nat.id in H.
  destruct (utf16 (surrogate_bytes (55296 + m))) as [|u [|]].
  - discriminate H. apply in_seq. lia.
  - f_equal. apply N.eqb_eq, H, in_seq. lia.
  - discriminate H. apply in_seq. lia.
Qed.

(** The cut keeps the first [n] code units of the text. *)
Lemma utf16_substring0 (n : nat) (s : string) :
  utf16 (substring0 n s) = take n (utf16 s).
Proof.
  revert n. induction s as [|a s IH]; intros n; [by destruct n |].
  cbn [substring0 utf16].
  destruct (is_continuation a) eqn:Ea.
  - cbn [utf16]. by rewrite Ea, IH.
  - destruct n as [|n]; [by destruct (is_lead4 a) |].
    destruct (is_lead4 a) eqn:E4.
    + destruct n as [|n].
      * by rewrite utf16_surrogate_bytes.
      * cbn [utf16 take]. by rewrite Ea, E4, code_point_substring0, IH.
    + cbn [utf16 take]. by rewrite Ea, E4, code_point_substring0, IH.
Qed.

Lemma split_on_none (c : ascii) (s : string) :
  has c s = false → split_on c s = [s].
Proof.
  induction s as [|a s IH]; simpl; [done |].
  intros [Ha Hs]%orb_false_elim. rewrite Ha, (IH Hs). done.
Qed.

Lemma split_on_append (c : ascii) (a b : string) :
  has c a = false → split_on c (a +:+ String c b) = a :: split_on c b.
Proof.
  induction a as [|x a IH].
  - intros _. rewrite append_nil_l. simpl. by rewrite Ascii.eqb_refl.
  - rewrite append_cons. simpl.
    intros [Hx Ha]%orb_false_elim. rewrite Hx, (IH Ha). done.
Qed.

Lemma split_pair_append (k v : string) :
  has "=" k = false → split_pair (k +:+ String "=" v) = (k, v).
Proof.
  induction k as [|x k IH]; [done |].
  rewrite append_cons. simpl.
  intros [Hx Hk]%orb_false_elim. rewrite Hx, (IH Hk). done.
Qed.

Lemma hex_digit_safe (n : N) : url_safe (hex_digit n) = true.
Proof.
  destruct n as [|p]; [done |].
  do 4 (try (destruct p as [p|p|]; try done)).
Qed.

Lemma has_cons (c a : ascii) (s : string) :
  has c (String a s) = Ascii.eqb a c || has c s.
Proof. reflexivity. Qed.

Lemma urlencode_cons (a : ascii) (s : string) :
  urlencode (String a s) =
    if url_safe a then String a (urlencode s)
    else if Ascii.eqb a " " then String "+" (urlencode s)
    else String "%" (String (hex_digit (N_of_ascii a / 16))
                       (String (hex_digit (N_of_ascii a mod 16)) (urlencode s))).
Proof. reflexivity. Qed.

(** The serialiser writes no byte that separates parameters. *)
Lemma urlencode_has (c : ascii) (s : string) :
  url_safe c = false → c ≠ "%"%char → c ≠ "+"%char → has c (urlencode s) = false.
Proof.
  intros Hc Hpc Hplus.
  assert (Hsafe : ∀ a, url_safe a = true → Ascii.eqb a c = false).
  { intros a Ha. apply Ascii.eqb_neq. intros ->. congruence. }
  assert (Hne : ∀ a, c ≠ a → Ascii.eqb a c = false).
  { intros a Ha. apply Ascii.eqb_neq. congruence. }
  induction s as [|a s IH]; [done |].
  rewrite urlencode_cons.
  destruct (url_safe a) eqn:Ha; [| destruct (Ascii.eqb a " ")]; rewrite !has_cons, IH.
  - by rewrite (Hsafe a Ha).
  - by rewrite (Hne _ Hplus).
  - rewrite (Hne _ Hpc), !Hsafe by apply hex_digit_safe. done.
Qed.

Lemma urlencode_no_amp (s : string) : has "&" (urlencode s) = false.
Proof. by apply urlencode_has. Qed.

Lemma urlencode_no_eq (s : string) : has "=" (urlencode s) = false.
Proof. by apply urlencode_has. Qed.

Lemma pair_no_amp (k v : string) :
  has "&" (urlencode k +:+ "=" +:+ urlencode v) = false.
Proof. rewrite !has_append, !urlencode_no_amp. done. Qed.

Lemma split_pair_encoded (k v : string) :
  split_pair (urlencode k +:+ "=" +:+ urlencode v) = (urlencode k, urlencode v).
Proof.
  change ("=" +:+ urlencode v) with (String "=" (urlencode v)).
  apply split_pair_append, urlencode_no_eq.
Qed.

(** Reading back what [params.toString()] wrote gives the encoded pairs. *)
Lemma query_params_toString (params : URLSearchParams) :
  params ≠ [] →
  query_params (params_toString params)
  = map (λ kv, (urlencode kv.1, urlencode kv.2)) params.
Proof.
  unfold query_params, params_toString.
  induction params as [|[k v] ps IH]; [done |]. intros _.
  destruct ps as [|kv ps].
  - change (join "&" (map _ [(k, v)])) with (urlencode k +:+ "=" +:+ urlencode v).
    rewrite split_on_none by apply pair_no_amp.
    change (map split_pair [?x]) with [split_pair x].
    by rewrite split_pair_encoded.
  - change (join "&" (map _ ((k, v) :: kv :: ps)))
      with ((urlencode k +:+ "=" +:+ urlencode v) +:+
            String "&" (join "&" (map (λ kv, urlencode kv.1 +:+ "=" +:+ urlencode kv.2)
                                      (kv :: ps)))).
    rewrite split_on_append by apply pair_no_amp.
    rewrite map_cons, IH by done.
    rewrite (map_cons _ (k, v)). f_equal.
    apply split_pair_encoded.
Qed.

(** ** Reasoning about effects *)

(** [m] keeps the property [I] of the state, whether it returns or throws. *)
Definition preserves {A} (I : State → Prop) (m : M A) : Prop :=
  ∀ st, I st → I (m st).1.

Lemma preserves_ret {A} (I : State → Prop) (a : A) : preserves I (mret a).
Proof. by intros st HI. Qed.

Lemma preserves_throw {A} (I : State → Prop) (e : error) : preserves I (@throwM A e).
Proof. by intros st HI. Qed.

Lemma preserves_liftR {A} (I : State → Prop) (r : result A) : preserves I (liftR r).
Proof. by intros st HI. Qed.

Lemma preserves_bind {A B} (I : State → Prop) (m : M A) (k : A → M B) :
  preserves I m → (∀ a, preserves I (k a)) → preserves I (m ≫= k).
Proof.
  intros Hm Hk st HI. unfold mbind, M_bind, bindM.
  specialize (Hm st HI). destruct (m st) as [st' [a|e]]; simpl in *; [by apply Hk | done].
Qed.

Lemma preserves_try_catch {A} (I : State → Prop) (m : M A) (h : error → M A) :
  preserves I m → (∀ e, preserves I (h e)) → preserves I (try_catch m h).
Proof.
  intros Hm Hh st HI. unfold try_catch.
  specialize (Hm st HI). destruct (m st) as [st' [a|e]]; simpl in *; [done | by apply Hh].
Qed.

Lemma preserves_forEach {A} (I : State → Prop) (f : A → M ()) (l : list A) :
  (∀ a, preserves I (f a)) → preserves I (forEach f l).
Proof.
  intros Hf. induction l as [|a l IH]; simpl.
  - apply preserves_ret.
  - apply preserves_bind; [apply Hf | intros _; apply IH].
Qed.

Lemma preserves_modify (I : State → Prop) (f : State → State) :
  (∀ st, I st → I (f st)) → preserves I (modify f).
Proof. intros Hf st HI. by apply Hf. Qed.

Lemma preserves_read {A} (I : State → Prop) (f : State → A) :
  preserves I (λ st, (st, Ok (f st))).
Proof. by intros st HI. Qed.

Lemma set_dom_same (st : State) : set_dom (dom st) st = st.
Proof. by destruct st. Qed.

Lemma alter_absent {A} (f : A → A) (i : string) (m : gmap string A) :
  m !! i = None → alter f i m = m.
Proof.
  intros Hi. apply map_eq. intros j. rewrite lookup_alter.
  case_decide; [subst; by rewrite Hi | done].
Qed.

Lemma update_element_eq (id : string) (f : element → element) (st : State) :
  update_element id f st = (set_dom (alter f id (dom st)) st, Ok ()).
Proof. reflexivity. Qed.

Lemma updateElement_eq (id : string) (v : jval) (st : State) :
  updateElement id v st =
    (set_dom (alter (set_contents (Text (counter_text v))) id (dom st)) st, Ok ()).
Proof.
  unfold updateElement, mbind, M_bind, bindM, getElementById, counter_text.
  destruct (dom st !! id) eqn:Hid; cbv beta iota.
  - reflexivity.
  - rewrite alter_absent by done. by rewrite set_dom_same.
Qed.

Lemma preserves_unchanged {A} (I : State → Prop) (m : M A) :
  (∀ st, (m st).1 = st) → preserves I m.
Proof. intros H st HI. by rewrite H. Qed.

Lemma preserves_liftH {A} (I : State → Prop) (m : H A) :
  (∀ h st, I st → I (set_store h st)) → preserves I (liftH m).
Proof.
  intros HI st Hst. unfold liftH. destruct (m (store st)) as [h r]. by apply HI.
Qed.

Lemma preserves_config_of (I : State → Prop) (c : option nat) : preserves I (config_of c).
Proof. intros st HI. unfold config_of. by repeat case_match. Qed.

Create HintDb pres.

(** Decomposes a goal [preserves I m] along the structure of [m]; what it
    knows about the parts comes from the context and the hints. *)
Ltac pres :=
  repeat first
    [ assumption
    | apply preserves_ret
    | apply preserves_throw
    | apply preserves_liftR
    | apply preserves_config_of
    | solve [eauto 3 with pres]
    | (apply preserves_unchanged; intros ?; reflexivity)
    | (apply preserves_bind; [| intros ?])
    | (apply preserves_try_catch; [| intros ?])
    | (apply preserves_forEach; intros ?)
    | match goal with
      | |- preserves _ (match ?x with _ => _ end) => destruct x
      end ].

(** ** Invariants of the event loop *)

(** A property of the state that the parts of the script which replace
    charts or register listeners keep, and that does not depend on the rest
    of the state, holds after every event. *)
Section Invariant.
Variable I : State → Prop.
Hypothesis I_store : ∀ h st, I st → I (set_store h st).
Hypothesis I_console : ∀ c st, I st → I (set_console c st).
Hypothesis I_requests : ∀ r st, I st → I (set_requests r st).
Hypothesis I_urls : ∀ a b st, I st → I (set_urls a b st).
Hypothesis I_zoom : ∀ b st, I st → I (set_zoom_registered b st).
Hypothesis I_element :
  ∀ id f st, (∀ el, listeners (f el) = listeners el) →
             I st → I (set_dom (alter f id (dom st)) st).
Hypothesis I_listen : ∀ id type body, preserves I (listen id type body).
Hypothesis I_named : ∀ id type, preserves I (addEventListener id type LoadBookStats).
Hypothesis I_install : ∀ s type config title, preserves I (install s type config title).
Hypothesis I_open : ∀ c title, preserves I (openModalForChart c title).
Hypothesis I_close : preserves I closeModal.

Lemma fetch_keeps (url : string) : preserves I (fetch url).
Proof. intros st HI. by apply I_requests. Qed.

Lemma console_log_keeps (l : level) (msg : string) (e : error) :
  preserves I (console_log l msg e).
Proof. intros st HI. by apply I_console. Qed.

Lemma update_element_keeps (id : string) (f : element → element) :
  (∀ el, listeners (f el) = listeners el) → preserves I (update_element id f).
Proof. intros Hf st HI. by apply I_element. Qed.

Lemma liftH_keeps {A} (m : H A) : preserves I (liftH m).
Proof. by apply preserves_liftH. Qed.

Hint Resolve fetch_keeps console_log_keeps liftH_keeps : pres.
Hint Extern 1 (preserves _ (update_element _ _)) =>
  (apply update_element_keeps; intros ?; reflexivity) : pres.

Lemma updateElement_keeps (id : string) (v : jval) : preserves I (updateElement id v).
Proof. unfold updateElement. pres. Qed.
Hint Resolve updateElement_keeps : pres.

Lemma loadDashboardStats_keeps : preserves I loadDashboardStats.
Proof. unfold loadDashboardStats. pres. Qed.

Lemma loadRecentActivity_keeps : preserves I loadRecentActivity.
Proof. unfold loadRecentActivity. pres. Qed.

Lemma loadBookStats_keeps : preserves I loadBookStats.
Proof. unfold loadBookStats. pres. Qed.

Lemma toggleMonthVisibility_keeps : preserves I toggleMonthVisibility.
Proof. unfold toggleMonthVisibility. pres. Qed.

Hint Resolve loadDashboardStats_keeps loadRecentActivity_keeps loadBookStats_keeps
  toggleMonthVisibility_keeps : pres.

Lemma setupStatsControls_keeps (year month0 : Z) :
  preserves I (setupStatsControls year month0).
Proof. unfold setupStatsControls. pres. Qed.

Lemma registerZoomPlugin_keeps (z : zoom_plugin) : preserves I (registerZoomPlugin z).
Proof.
  destruct z; simpl; pres.
  intros st HI. by apply I_zoom.
Qed.

Lemma init_keeps (a b : string) (z : zoom_plugin) (year month0 : Z) :
  preserves I (init a b z year month0).
Proof.
  unfold init. apply preserves_bind; [intros st HI; by apply I_urls | intros _].
  apply preserves_bind; [apply registerZoomPlugin_keeps | intros _].
  apply preserves_bind; [pres | intros _].
  apply preserves_bind; [pres | intros _].
  apply preserves_bind; [apply setupStatsControls_keeps | intros _].
  pres.
Qed.

Lemma loadDashboardStats_settled_keeps (o : fetch_outcome) :
  preserves I (loadDashboardStats_settled o).
Proof. unfold loadDashboardStats_settled, summary_chain, stats_then, stats_catch. pres. Qed.

Lemma loadRecentActivity_settled_keeps (o : fetch_outcome) :
  preserves I (loadRecentActivity_settled o).
Proof.
unfold loadRecentActivity_settled, activity_chain, activity_then, activity_catch. pres.
Qed.

Lemma render_keeps (s : slot) (data : val) : preserves I (render s data).
Proof.
  destruct s; simpl;
    [ unfold renderBooksPerCategoryChart | unfold renderLoansOverTimeChart
    | unfold renderLoanStatusChart | unfold renderLanguageChart ];
    pres.
Qed.

Lemma renderCharts_keeps (data : val) : preserves I (renderCharts data).
Proof.
  unfold renderCharts.
  apply preserves_bind; [apply (render_keeps BooksPerCategory) | intros _].
  apply preserves_bind; [apply (render_keeps LoansOverTime) | intros _].
  apply preserves_bind; [apply (render_keeps LoanStatus) | intros _].
  apply (render_keeps Language).
Qed.
Hint Resolve renderCharts_keeps : pres.

Lemma loadBookStats_settled_keeps (o : fetch_outcome) :
  preserves I (loadBookStats_settled o).
Proof. unfold loadBookStats_settled, stats_chain, stats_catch_log. pres. Qed.

Lemma call_keeps (on_overlay : bool) (f : callback) : preserves I (call on_overlay f).
Proof. destruct f as [|id []]; simpl; pres. Qed.

Lemma dispatch_keeps (on_overlay : bool) (type : string) (ls : list listener) :
  preserves I (dispatch on_overlay type ls).
Proof.
  induction ls as [|l ls IH]; simpl; [pres |].
  apply preserves_bind; [| intros _; apply IH].
  destruct (String.eqb (on l) type); [| pres].
  apply preserves_try_catch; [apply call_keeps | intros e; pres].
Qed.

Lemma handle_keeps (e : event) : preserves I (handle e).
Proof.
  destruct e; simpl.
  - apply init_keeps.
  - apply loadDashboardStats_settled_keeps.
  - apply loadRecentActivity_settled_keeps.
  - apply loadBookStats_settled_keeps.
  - pres.
  - intros st HI. unfold fire. destruct (dom st !! id); [by apply dispatch_keeps | done].
  - intros st HI. unfold modal_click. destruct (modal st) as [m|]; [| done].
    destruct t;
      first [ by apply dispatch_keeps
            | refine (preserves_bind I _ _ _ _ st HI);
              [apply dispatch_keeps | intros _; apply dispatch_keeps] ].
Qed.

(** The property holds after any run of events. *)
Lemma run_keeps (es : list event) (st : State) : I st → I (run es st).
Proof.
  revert st. induction es as [|e es IH]; intros st HI; [done |].
  apply IH. by apply handle_keeps.
Qed.
End Invariant.

(** ** Chart instances *)

Lemma on_canvas_true (cv : string) (c : Chart) :
  on_canvas cv c = true ↔ alive c = true ∧ canvas c = cv.
Proof.
  unfold on_canvas. rewrite andb_true_iff, String.eqb_eq. done.
Qed.

Lemma filter_none {A} (P : A → Prop) `{!∀ x, Decision (P x)} (l : list A) :
  (∀ j x, l !! j = Some x → ¬ P x) → filter P l = [].
Proof.
  induction l as [|a l IH]; intros H; [done |].
  rewrite filter_cons. destruct (decide (P a)) as [Ha|_].
  - by destruct (H 0%nat a).
  - apply IH. intros j x Hj. apply (H (S j) x Hj).
Qed.

Lemma filter_length_le_1 {A} (P : A → Prop) `{!∀ x, Decision (P x)} (l : list A) :
  (∀ i j x y, l !! i = Some x → l !! j = Some y → P x → P y → i = j) →
  (length (filter P l) ≤ 1)%nat.
Proof.
  induction l as [|a l IH]; intros H; [simpl; lia |].
  rewrite filter_cons. destruct (decide (P a)) as [Ha|_].
  - rewrite filter_none; [simpl; lia |].
    intros j x Hj Hx. by specialize (H 0%nat (S j) a x eq_refl Hj Ha Hx).
  - apply IH. intros i j x y Hi Hj Hx Hy.
    by specialize (H (S i) (S j) x y Hi Hj Hx Hy) as [= ->].
Qed.

Lemma filter_length_1 {A} (P : A → Prop) `{!∀ x, Decision (P x)} (l : list A)
    (i : nat) (x : A) :
  l !! i = Some x → P x →
  (∀ j y, l !! j = Some y → P y → j = i) →
  length (filter P l) = 1%nat.
Proof.
  revert i. induction l as [|a l IH]; intros i Hi Hx H; [done |].
  rewrite filter_cons. destruct (decide (P a)) as [Ha|Ha].
  - rewrite filter_none; [done |].
    intros j y Hj Hy.
    pose proof (H 0%nat a eq_refl Ha). pose proof (H (S j) y Hj Hy). lia.
  - destruct i as [|i]; [simpl in Hi; congruence |].
    apply (IH i); [done.. |].
    intros j y Hj Hy. specialize (H (S j) y Hj Hy). lia.
Qed.

Lemma live_count_le_1 (cv : string) (st : State) :
  (∀ i j, live st i cv → live st j cv → i = j) → (live_count cv st ≤ 1)%nat.
Proof.
  intros H. apply filter_length_le_1.
  intros i j x y Hi Hj Hx%on_canvas_true Hy%on_canvas_true.
  apply H; [by exists x | by exists y].
Qed.

Lemma live_count_1 (cv : string) (st : State) (i : nat) :
  live st i cv → (∀ j, live st j cv → j = i) → live_count cv st = 1%nat.
Proof.
  intros (c & Hc & Hlive) H. apply (filter_length_1 _ _ i c); [done | by apply on_canvas_true |].
  intros j y Hj Hy%on_canvas_true. apply H. by exists y.
Qed.

Lemma live_count_0 (cv : string) (st : State) :
  (∀ i, ¬ live st i cv) → live_count cv st = 0%nat.
Proof.
  intros H. unfold live_count. rewrite filter_none; [done |].
  intros j c Hj Hc%on_canvas_true. apply (H j). by exists c.
Qed.

Lemma canvas_id_inj (s s' : slot) : canvas_id s = canvas_id s' → s = s'.
Proof. by destruct s, s'. Qed.

Lemma canvas_id_not_modal (s : slot) : canvas_id s ≠ modal_canvas.
Proof. by destruct s. Qed.

Lemma slot_var_set (s s' : slot) (c : option nat) (st : State) :
  slot_var s' (set_slot_var s c st) = if decide (s' = s) then c else slot_var s' st.
Proof. by destruct s, s'. Qed.

(** The invariant looks at the instances and the variables only. *)
Lemma charts_inv_ext (st st' : State) :
  charts st' = charts st →
  (∀ s, slot_var s st' = slot_var s st) →
  modalChartInstance st' = modalChartInstance st →
  charts_inv st → charts_inv st'.
Proof.
  intros Hc Hs Hm [H1 H2]. unfold charts_inv, live. rewrite Hc, Hm.
  split; [intros s i; rewrite Hs; apply H1 | apply H2].
Qed.

Lemma charts_inv_initial (page : gmap string element) : charts_inv (initial page).
Proof. split; [intros s i | intros i]; intros (c & Hc & _); done. Qed.

Lemma charts_inv_le_1 (st : State) (cv : string) :
  charts_inv st → (cv = modal_canvas ∨ ∃ s, cv = canvas_id s) →
  (live_count cv st ≤ 1)%nat.
Proof.
  intros [H1 H2] Hcv. apply live_count_le_1. intros i j Hi Hj.
  destruct Hcv as [->|[s ->]].
  - apply H2 in Hi, Hj. congruence.
  - apply H1 in Hi, Hj. congruence.
Qed.

(** What is alive after a [destroy] was alive before, and is not the
    destroyed instance. *)
Lemma live_in_destroyed (old : option nat) (cs : list Chart) (i : nat) (cv : string) :
  live_in (charts_after_destroy old cs) i cv → live_in cs i cv ∧ old ≠ Some i.
Proof.
  destruct old as [k|]; simpl; [| done].
  intros (c & Hc & Ha & Hcv).
  rewrite list_lookup_alter in Hc. case_decide as Hik.
  - subst. destruct (cs !! i); simplify_eq/=.
  - split; [by exists c | congruence].
Qed.

Lemma length_after_destroy (old : option nat) (cs : list Chart) :
  length (charts_after_destroy old cs) = length cs.
Proof. destruct old; [apply length_alter | done]. Qed.

Lemma live_in_snoc (cs : list Chart) (c : Chart) (i : nat) (cv : string) :
  live_in (cs ++ [c]) i cv ↔
  live_in cs i cv ∨ (i = length cs ∧ alive c = true ∧ canvas c = cv).
Proof.
  unfold live_in. split.
  - intros (c' & Hc' & Ha & Hcv).
    apply lookup_app_Some in Hc' as [Hc'|[Hlen Hc']]; [left; by exists c' |].
    right. apply list_lookup_singleton_Some in Hc' as [Hi ->].
    split; [lia | done].
  - intros [(c' & Hc' & Ha)|(-> & Ha)].
    + exists c'. split; [by apply lookup_app_l_Some | done].
    + exists c. split; [| done]. rewrite lookup_app_r by done.
      by rewrite Nat.sub_diag.
Qed.

Lemma live_in_lt (cs : list Chart) (i : nat) (cv : string) :
  live_in cs i cv → (i < length cs)%nat.
Proof. intros (c & Hc & _). by eapply lookup_lt_Some. Qed.

(** Destroying an instance keeps the invariant. *)
Lemma charts_inv_destroy (old : option nat) (st : State) :
  charts_inv st → charts_inv (set_charts (charts_after_destroy old (charts st)) st).
Proof.
  intros [H1 H2]. split.
  - intros s i [Hi _]%live_in_destroyed. by apply H1.
  - intros i [Hi _]%live_in_destroyed. by apply H2.
Qed.

(** Replacing the chart of a slot: the old one is destroyed, the new one
    is appended and the variable holds it. *)
Lemma charts_inv_replace_slot (s : slot) (c : Chart) (st : State) :
  canvas c = canvas_id s → charts_inv st →
  let cs := charts_after_destroy (slot_var s st) (charts st) in
  charts_inv (set_slot_var s (Some (length cs)) (set_charts (cs ++ [c])%list st)).
Proof.
  intros Hc [H1 H2] cs. split.
  - intros s' i. unfold live. simpl. rewrite slot_var_set.
    intros [[Hi Hne]%live_in_destroyed|(-> & _ & Hcv)]%live_in_snoc.
    + apply H1 in Hi. case_decide; [subst; congruence | done].
    + rewrite Hc in Hcv. apply canvas_id_inj in Hcv as ->. by rewrite decide_True.
  - intros i. unfold live. simpl.
    intros [[Hi Hne]%live_in_destroyed|(-> & _ & Hcv)]%live_in_snoc.
    + destruct s; by apply H2.
    + rewrite Hc in Hcv. by apply canvas_id_not_modal in Hcv.
Qed.

(** Replacing the chart of the modal. *)
Lemma charts_inv_replace_modal (c : Chart) (st : State) :
  canvas c = modal_canvas → charts_inv st →
  let cs := charts_after_destroy (modalChartInstance st) (charts st) in
  charts_inv (set_modalChartInstance (Some (length cs)) (set_charts (cs ++ [c])%list st)).
Proof.
  intros Hc [H1 H2] cs. split.
  - intros s i. unfold live. simpl.
    intros [[Hi Hne]%live_in_destroyed|(-> & _ & Hcv)]%live_in_snoc.
    + apply H1 in Hi. by destruct s.
    + rewrite Hc in Hcv. symmetry in Hcv. by apply canvas_id_not_modal in Hcv.
  - intros i. unfold live. simpl.
    intros [[Hi Hne]%live_in_destroyed|(-> & _ & Hcv)]%live_in_snoc; [| done].
    apply H2 in Hi. congruence.
Qed.

(** Closing the modal: its chart is destroyed and the variable is empty. *)
Lemma charts_inv_close (st : State) :
  charts_inv st →
  charts_inv (set_modalChartInstance None
                (set_charts (charts_after_destroy (modalChartInstance st) (charts st)) st)).
Proof.
  intros [H1 H2]. split.
  - intros s i. unfold live. simpl. intros [Hi _]%live_in_destroyed.
    apply H1 in Hi. by destruct s.
  - intros i. unfold live. simpl. intros [Hi Hne]%live_in_destroyed.
    apply H2 in Hi. congruence.
Qed.

Lemma listen_eq (id type : string) (body : closure) (st : State) :
  listen id type body st =
    (set_dom
       (alter (λ el, set_listeners
                       (add_listener type (Closure (next_fn st) body) (listeners el)) el)
              id (dom st))
       (set_next_fn (S (next_fn st)) st), Ok ()).
Proof. reflexivity. Qed.

(** What [install] does, in one step. *)
Lemma install_eq (s : slot) (type : string) (config : H (val * val)) (title : string)
    (st : State) :
  install s type config title st =
    let cs := charts_after_destroy (slot_var s st) (charts st) in
    match config (store st) with
    | (h, Throw e) => (set_store h (set_charts cs st), Throw e)
    | (h, Ok cfg) =>
        listen (canvas_id s) "click" (OpenModal s title)
          (set_slot_var s (Some (length cs))
             (set_charts (cs ++ [MkChart (canvas_id s) type cfg.1 cfg.2 true])%list
                (set_store h st)))
    end.
Proof.
  unfold install, mbind, M_bind, bindM, slot_of_var, destroy, modify, liftH, new_Chart.
  destruct (slot_var s st); simpl; destruct (config (store st)) as [h [cfg|e]];
    reflexivity.
Qed.

Lemma replace_modal_chart_eq (type : string) (cfg : val * val) (st : State) :
  replace_modal_chart type cfg st =
    let cs := charts_after_destroy (modalChartInstance st) (charts st) in
    (set_modalChartInstance (Some (length cs))
       (set_charts (cs ++ [MkChart modal_canvas type cfg.1 cfg.2 true])%list st), Ok ()).
Proof.
  unfold replace_modal_chart, mbind, M_bind, bindM, the_modalChartInstance, destroy,
    modify, new_Chart.
  destruct (modalChartInstance st); reflexivity.
Qed.

Lemma closeModal_eq (st : State) :
  closeModal st =
    (set_modalChartInstance None
       (set_charts (charts_after_destroy (modalChartInstance st) (charts st))
          (set_modal (set_modal_display "none" <$> modal st) st)), Ok ()).
Proof.
  unfold closeModal, mbind, M_bind, bindM, the_modalChartInstance, destroy, modify,
    update_modal.
  simpl. destruct (modalChartInstance st) eqn:E; simpl; [reflexivity |].
  destruct st; simpl in *; by subst.
Qed.

Lemma ensureModal_frame (st : State) :
  let st' := (ensureModal st).1 in
  dom st' = dom st ∧ charts st' = charts st ∧ store st' = store st ∧
  (∀ s, slot_var s st' = slot_var s st) ∧
  modalChartInstance st' = modalChartInstance st ∧
  (next_fn st ≤ next_fn st')%nat ∧ is_Some (modal st').
Proof.
  unfold ensureModal. destruct (modal st) eqn:E; simpl.
  all: split_and!; try done; try (by intros []); try lia; rewrite ?E; eauto.
Qed.

Section ChartsInvariant.

Lemma charts_inv_listen (id type : string) (body : closure) :
  preserves charts_inv (listen id type body).
Proof. intros st HI. rewrite listen_eq. eapply charts_inv_ext; [..| exact HI]; done. Qed.

Lemma charts_inv_install (s : slot) (type : string) (config : H (val * val))
    (title : string) :
  preserves charts_inv (install s type config title).
Proof.
  intros st HI. rewrite install_eq. cbv zeta.
  destruct (config (store st)) as [h [cfg|e]].
  - rewrite listen_eq.
    eapply charts_inv_ext;
      [..| apply (charts_inv_replace_slot s
                    (MkChart (canvas_id s) type cfg.1 cfg.2 true) st eq_refl HI)];
      done.
  - eapply charts_inv_ext; [..| apply (charts_inv_destroy (slot_var s st) st HI)]; done.
Qed.

Lemma charts_inv_ensureModal : preserves charts_inv ensureModal.
Proof.
  intros st HI. destruct (ensureModal_frame st) as (_ & ? & _ & ? & ? & _).
  by eapply charts_inv_ext.
Qed.

Lemma charts_inv_replace_modal_chart (type : string) (cfg : val * val) :
  preserves charts_inv (replace_modal_chart type cfg).
Proof.
  intros st HI. rewrite replace_modal_chart_eq.
  by apply (charts_inv_replace_modal (MkChart modal_canvas type cfg.1 cfg.2 true)).
Qed.

Lemma charts_inv_frame (f : State → State) :
  (∀ st, charts (f st) = charts st ∧ (∀ s, slot_var s (f st) = slot_var s st) ∧
         modalChartInstance (f st) = modalChartInstance st) →
  ∀ st, charts_inv st → charts_inv (f st).
Proof. intros Hf st HI. destruct (Hf st) as (? & ? & ?). by eapply charts_inv_ext. Qed.

Lemma charts_inv_open (c : option nat) (title : string) :
  preserves charts_inv (openModalForChart c title).
Proof.
  unfold openModalForChart.
  apply preserves_bind; [apply charts_inv_ensureModal | intros _].
  apply preserves_bind;
    [apply preserves_modify, charts_inv_frame; intros st; split_and!; try done; by intros []
    | intros _].
  apply preserves_bind; [apply preserves_config_of | intros src].
  apply preserves_bind;
    [apply preserves_liftH; intros h; apply charts_inv_frame; intros st;
     split_and!; try done; by intros [] | intros cfg].
  apply preserves_bind; [apply charts_inv_replace_modal_chart | intros _].
  apply preserves_modify, charts_inv_frame; intros st; split_and!; try done; by intros [].
Qed.

Lemma charts_inv_closeModal : preserves charts_inv closeModal.
Proof.
  intros st HI. rewrite closeModal_eq.
  eapply charts_inv_ext; [..| apply (charts_inv_close st HI)]; done.
Qed.

(** The invariant holds after every event. *)
Lemma charts_inv_run (es : list event) (st : State) :
  charts_inv st → charts_inv (run es st).
Proof.
  apply run_keeps.
  1-6: intros; (eapply charts_inv_ext; [..| eassumption]); done.
  - apply charts_inv_listen.
  - intros id type st' HI. eapply charts_inv_ext; [..| exact HI]; done.
  - apply charts_inv_install.
  - apply charts_inv_open.
  - apply charts_inv_closeModal.
Qed.

End ChartsInvariant.

(** ** The variables and their canvases *)

Lemma canvas_after_destroy (old : option nat) (cs : list Chart) (i : nat) (cv : string) :
  (∃ c, cs !! i = Some c ∧ canvas c = cv) →
  ∃ c, charts_after_destroy old cs !! i = Some c ∧ canvas c = cv.
Proof.
  intros (c & Hc & Hcv). destruct old as [k|]; simpl; [| eauto].
  destruct (decide (k = i)) as [->|Hne].
  - exists (destroyed c). rewrite list_lookup_alter, Hc. by rewrite decide_True.
  - exists c. by rewrite list_lookup_alter, decide_False.
Qed.

Lemma canvas_snoc (cs : list Chart) (c' : Chart) (i : nat) (cv : string) :
  (∃ c, cs !! i = Some c ∧ canvas c = cv) →
  ∃ c, (cs ++ [c'])%list !! i = Some c ∧ canvas c = cv.
Proof.
  intros (c & Hc & Hcv). exists c. split; [| done].
  by apply lookup_app_l_Some.
Qed.

Lemma vars_inv_ext (st st' : State) :
  charts st' = charts st →
  (∀ s, slot_var s st' = slot_var s st) →
  modalChartInstance st' = modalChartInstance st →
  vars_inv st → vars_inv st'.
Proof.
  intros Hc Hs Hm [H1 H2]. unfold vars_inv. rewrite Hc, Hm.
  split; [intros s i; rewrite Hs; apply H1 | apply H2].
Qed.

Lemma vars_inv_initial (page : gmap string element) : vars_inv (initial page).
Proof. split; [by intros [] i | by intros i]. Qed.

Lemma vars_inv_install (s : slot) (type : string) (config : H (val * val))
    (title : string) :
  preserves vars_inv (install s type config title).
Proof.
  intros st [H1 H2]. rewrite install_eq. cbv zeta.
  destruct (config (store st)) as [h [cfg|e]].
  - rewrite listen_eq. split.
    + intros s' i. simpl.
      change (slot_var s' (set_dom ?d (set_next_fn ?n ?x))) with (slot_var s' x).
      rewrite slot_var_set. case_decide as Hs.
      * intros [= <-]. subst s'. exists (MkChart (canvas_id s) type cfg.1 cfg.2 true). split; [| done].
        rewrite lookup_app_r by done. by rewrite Nat.sub_diag.
      * change (slot_var s' (set_charts ?c (set_store ?h ?x))) with (slot_var s' x).
        intros Hi. apply canvas_snoc, canvas_after_destroy. by apply H1.
    + intros i. simpl.
      replace (modalChartInstance _) with (modalChartInstance st) by by destruct s.
      intros Hi. apply canvas_snoc, canvas_after_destroy. by apply H2.
  - split.
    + intros s' i. simpl.
      change (slot_var s' (set_store ?h (set_charts ?c ?x))) with (slot_var s' x).
      intros Hi. apply canvas_after_destroy. by apply H1.
    + intros i. simpl. intros Hi. apply canvas_after_destroy. by apply H2.
Qed.

Lemma vars_inv_open (c : option nat) (title : string) :
  preserves vars_inv (openModalForChart c title).
Proof.
  assert (Hframe : ∀ f : State → State,
            (∀ st, charts (f st) = charts st ∧ (∀ s, slot_var s (f st) = slot_var s st) ∧
                   modalChartInstance (f st) = modalChartInstance st) →
            ∀ st, vars_inv st → vars_inv (f st)).
  { intros f Hf st HI. destruct (Hf st) as (? & ? & ?). by eapply vars_inv_ext. }
  unfold openModalForChart.
  apply preserves_bind.
  { intros st HI. destruct (ensureModal_frame st) as (_ & ? & _ & ? & ? & _).
    by eapply vars_inv_ext. }
  intros _. apply preserves_bind;
    [apply preserves_modify, Hframe; intros st; split_and!; try done; by intros []
    | intros _].
  apply preserves_bind; [apply preserves_config_of | intros src].
  apply preserves_bind;
    [apply preserves_liftH; intros h; apply Hframe; intros st;
     split_and!; try done; by intros [] | intros cfg].
  apply preserves_bind.
  { intros st [H1 H2]. rewrite replace_modal_chart_eq. split.
    - intros s i Hi. simpl. apply canvas_snoc, canvas_after_destroy. apply H1.
      revert Hi. by destruct s.
    - intros i. simpl. intros [= <-]. eexists.
      split; [rewrite lookup_app_r by done; by rewrite Nat.sub_diag | reflexivity]. }
  intros _. apply preserves_modify, Hframe; intros st; split_and!; try done; by intros [].
Qed.

Lemma vars_inv_closeModal : preserves vars_inv closeModal.
Proof.
  intros st [H1 H2]. rewrite closeModal_eq. split.
  - intros s i Hi. simpl. apply canvas_after_destroy. apply H1.
    revert Hi. by destruct s.
  - by intros i.
Qed.

(** The variables hold instances on their own canvases after every event. *)
Lemma vars_inv_run (es : list event) (st : State) :
  vars_inv st → vars_inv (run es st).
Proof.
  apply run_keeps.
  1-6: intros; (eapply vars_inv_ext; [..| eassumption]); done.
  - intros id type body st' HI. rewrite listen_eq.
    eapply vars_inv_ext; [..| exact HI]; done.
  - intros id type st' HI. eapply vars_inv_ext; [..| exact HI]; done.
  - apply vars_inv_install.
  - apply vars_inv_open.
  - apply vars_inv_closeModal.
Qed.

(** A render either throws while it prepares the data, or finds no canvas
    and returns, or installs a chart; before that it only allocates. *)
Lemma render_cases (s : slot) (data : val) (st : State) :
  (∃ h e, render s data st = (set_store h st, Throw e)) ∨
  (∃ h, dom st !! canvas_id s = None ∧ render s data st = (set_store h st, Ok ())) ∨
  (∃ h type config title,
      is_Some (dom st !! canvas_id s) ∧
      render s data st = install s type config title (set_store h st)).
Proof.
  remember (render s data st) as res eqn:E.
  destruct s; simpl in E;
    [ unfold renderBooksPerCategoryChart in E | unfold renderLoansOverTimeChart in E
    | unfold renderLoanStatusChart in E | unfold renderLanguageChart in E ];
    unfold mbind at 1, M_bind at 1, bindM at 1, liftH at 1 in E;
    match type of E with
    | context [let '(h, r) := ?m (store st) in _] =>
        destruct (m (store st)) as [h [p|e]]
    end;
    try (left; by exists h, e);
    right;
    try destruct p as [[labels values] colors];
    unfold mbind at 1, M_bind at 1, bindM at 1, getElementById at 1 in E; simpl in E;
    match type of E with
    | context [dom st !! ?id] => destruct (dom st !! id) eqn:Hid
    end;
    first [ right; do 4 eexists; split; [by eexists | exact E]
          | left; exists h; split; [done | exact E] ].
Qed.

(** ** Click listeners *)

Lemma fn_before_mono (n m : nat) (f : callback) :
  (n ≤ m)%nat → fn_before n f → fn_before m f.
Proof. destruct f; simpl; [done | lia]. Qed.

Lemma elem_of_add_listener (type : string) (f : callback) (ls : list listener)
    (l : listener) :
  l ∈ add_listener type f ls → l ∈ ls ∨ l = Listener type f.
Proof.
  unfold add_listener. case_decide; [by left |].
  intros [?|?%list_elem_of_singleton]%elem_of_app; [by left | by right].
Qed.

(** The invariant looks at the page and the count of function objects only. *)
Lemma listeners_inv_ext (st st' : State) :
  dom st' = dom st → (next_fn st ≤ next_fn st')%nat →
  listeners_inv st → listeners_inv st'.
Proof.
  intros Hd Hn H id el l Hel Hl. rewrite Hd in Hel.
  eapply fn_before_mono; [done | by eapply H].
Qed.

Lemma listeners_inv_initial (page : gmap string element) :
  unscripted page → listeners_inv (initial page).
Proof.
  intros Hp id el l Hel Hl. simpl in Hel. rewrite (Hp id el Hel) in Hl.
  by apply elem_of_nil in Hl.
Qed.

Lemma listeners_inv_element (id : string) (f : element → element) (st : State) :
  (∀ el, listeners (f el) = listeners el) →
  listeners_inv st → listeners_inv (set_dom (alter f id (dom st)) st).
Proof.
  intros Hf H id' el l Hel Hl. simpl in *.
  rewrite lookup_alter in Hel. case_decide; [subst | by eapply H].
  destruct (dom st !! id') as [el'|] eqn:E; simplify_eq/=.
  rewrite Hf in Hl. by eapply H.
Qed.

Lemma listeners_inv_add (id type : string) (f : callback) (st : State) :
  fn_before (next_fn st) f → listeners_inv st →
  listeners_inv (addEventListener id type f st).1.
Proof.
  intros Hf H id' el l Hel Hl. simpl in *.
  rewrite lookup_alter in Hel. case_decide; [subst | by eapply H].
  destruct (dom st !! id') as [el'|] eqn:E; simplify_eq/=.
  apply elem_of_add_listener in Hl as [Hl| ->]; [by eapply H | done].
Qed.

Section ListenersInvariant.

Lemma listeners_inv_listen (id type : string) (body : closure) :
  preserves listeners_inv (listen id type body).
Proof.
  intros st HI.
  change (listen id type body st)
    with (addEventListener id type (Closure (next_fn st) body)
            (set_next_fn (S (next_fn st)) st)).
  apply listeners_inv_add; [simpl; lia |].
  eapply listeners_inv_ext; [..| exact HI]; simpl; [done | lia].
Qed.

Lemma listeners_inv_frame (f : State → State) :
  (∀ st, dom (f st) = dom st ∧ (next_fn st ≤ next_fn (f st))%nat) →
  ∀ st, listeners_inv st → listeners_inv (f st).
Proof. intros Hf st HI. destruct (Hf st). by eapply listeners_inv_ext. Qed.

Lemma listeners_inv_install (s : slot) (type : string) (config : H (val * val))
    (title : string) :
  preserves listeners_inv (install s type config title).
Proof.
  intros st HI. rewrite install_eq. cbv zeta.
  destruct (config (store st)) as [h [cfg|e]].
  - apply listeners_inv_listen. eapply listeners_inv_ext; [..| exact HI]; done.
  - eapply listeners_inv_ext; [..| exact HI]; done.
Qed.

Lemma listeners_inv_open (c : option nat) (title : string) :
  preserves listeners_inv (openModalForChart c title).
Proof.
  unfold openModalForChart.
  apply preserves_bind.
  { intros st HI. destruct (ensureModal_frame st) as (? & _ & _ & _ & _ & ? & _).
    by eapply listeners_inv_ext. }
  intros _. apply preserves_bind;
    [apply preserves_modify, listeners_inv_frame; by intros st | intros _].
  apply preserves_bind; [apply preserves_config_of | intros src].
  apply preserves_bind;
    [apply preserves_liftH; intros h; apply listeners_inv_frame; by intros st
    | intros cfg].
  apply preserves_bind.
  { intros st HI. rewrite replace_modal_chart_eq.
    eapply listeners_inv_ext; [..| exact HI]; done. }
  intros _. apply preserves_modify, listeners_inv_frame; by intros st.
Qed.

Lemma listeners_inv_closeModal : preserves listeners_inv closeModal.
Proof.
  intros st HI. rewrite closeModal_eq.
  eapply listeners_inv_ext; [..| exact HI]; done.
Qed.

(** The invariant holds after every event. *)
Lemma listeners_inv_run (es : list event) (st : State) :
  listeners_inv st → listeners_inv (run es st).
Proof.
  apply run_keeps.
  1-5: intros; (eapply listeners_inv_ext; [..| eassumption]); done.
  - intros. by apply listeners_inv_element.
  - apply listeners_inv_listen.
  - intros id type st' HI. by apply listeners_inv_add.
  - apply listeners_inv_install.
  - apply listeners_inv_open.
  - apply listeners_inv_closeModal.
Qed.

End ListenersInvariant.

(** ** One render *)

(** What a render that found its canvas and returned has done. *)
Lemma render_done (s : slot) (data : val) (st st' : State) :
  render s data st = (st', Ok ()) → is_Some (dom st !! canvas_id s) →
  ∃ type dat opts title,
    charts st' =
      (charts_after_destroy (slot_var s st) (charts st)
       ++ [MkChart (canvas_id s) type dat opts true])%list ∧
    slot_var s st' = Some (length (charts st)) ∧
    modalChartInstance st' = modalChartInstance st ∧
    dom st' =
      alter (λ el, set_listeners
                     (add_listener "click" (Closure (next_fn st) (OpenModal s title))
                                   (listeners el)) el)
            (canvas_id s) (dom st) ∧
    next_fn st' = S (next_fn st).
Proof.
  intros Hr Hcv.
  destruct (render_cases s data st)
    as [(h & e & H)|[(h & Hnone & H)|(h & type & config & title & _ & H)]].
  - congruence.
  - rewrite Hnone in Hcv. by destruct Hcv.
  - rewrite Hr, install_eq in H. cbv zeta in H. simpl in H.
    destruct (config h) as [h' [cfg|e]]; [| done].
    rewrite listen_eq in H. injection H as ->.
    exists type, cfg.1, cfg.2, title.
    destruct s; simpl; by rewrite length_after_destroy.
Qed.

Lemma render_done_live (s : slot) (data : val) (st st' : State) :
  charts_inv st →
  render s data st = (st', Ok ()) → is_Some (dom st !! canvas_id s) →
  live st' (length (charts st)) (canvas_id s) ∧
  (∀ i, live st' i (canvas_id s) → i = length (charts st)).
Proof.
  intros [H1 _] Hr Hcv.
  destruct (render_done s data st st' Hr Hcv) as (type & dat & opts & title & Hc & _).
  unfold live. rewrite Hc. split.
  - apply live_in_snoc. right. by rewrite length_after_destroy.
  - intros i [[Hi Hne]%live_in_destroyed|(-> & _)]%live_in_snoc.
    + apply H1 in Hi. congruence.
    + apply length_after_destroy.
Qed.

Lemma render_done_present (s : slot) (data : val) (st st' : State) :
  render s data st = (st', Ok ()) → is_Some (dom st !! canvas_id s) →
  is_Some (dom st' !! canvas_id s).
Proof.
  intros Hr Hcv.
  destruct (render_done s data st st' Hr Hcv) as (type & dat & opts & title & _ & _ & _ & Hd & _).
  rewrite Hd, lookup_alter_eq. destruct Hcv as [el ->]. by eexists.
Qed.

Lemma rerender_once_eq (s : slot) (j : json) (st : State) :
  rerender_once s j st = render s (alloc_json j (store st)).2
                           (set_store (alloc_json j (store st)).1 st).
Proof.
  unfold rerender_once, mbind, M_bind, bindM, liftH, JSON_parse.
  by destruct (alloc_json j (store st)).
Qed.

Lemma charts_inv_rerender_once (s : slot) (j : json) :
  preserves charts_inv (rerender_once s j).
Proof.
  intros st HI. rewrite rerender_once_eq.
  apply render_keeps; [| apply charts_inv_install |].
  - intros h st' HI'. eapply charts_inv_ext; [..| exact HI']; done.
  - eapply charts_inv_ext; [..| exact HI]; done.
Qed.

Lemma listeners_inv_rerender_once (s : slot) (j : json) :
  preserves listeners_inv (rerender_once s j).
Proof.
  intros st HI. rewrite rerender_once_eq.
  apply render_keeps; [| apply listeners_inv_install |].
  - intros h st' HI'. eapply listeners_inv_ext; [..| exact HI']; done.
  - eapply listeners_inv_ext; [..| exact HI]; done.
Qed.

Lemma forEach_cons_ok {A} (f : A → M ()) (a : A) (l : list A) (st st' : State) :
  forEach f (a :: l) st = (st', Ok ()) →
  ∃ st1, f a st = (st1, Ok ()) ∧ forEach f l st1 = (st', Ok ()).
Proof.
  simpl. unfold mbind, M_bind, bindM.
  destruct (f a st) as [st1 [[]|e]]; [| done]. intros H. by exists st1.
Qed.

(** After one or more renders of a slot that all returned, the slot's
    canvas has exactly one live instance. *)
Lemma rerender_live_count (s : slot) (payloads : list json) (st st' : State) :
  charts_inv st → payloads ≠ [] → is_Some (dom st !! canvas_id s) →
  rerender s payloads st = (st', Ok ()) →
  live_count (canvas_id s) st' = 1%nat.
Proof.
  revert st. induction payloads as [|j js IH]; intros st HI Hne Hcv Hr; [done |].
  apply forEach_cons_ok in Hr as (st1 & H1 & Hr).
  pose proof (charts_inv_rerender_once s j st HI) as HI1. rewrite H1 in HI1.
  rewrite rerender_once_eq in H1.
  assert (Hcv1 : is_Some (dom st1 !! canvas_id s)) by by eapply render_done_present.
  destruct js as [|j' js].
  - injection Hr as <-.
    eapply render_done_live in H1 as [Hlive Huniq]; [| | done].
    + by eapply live_count_1.
    + eapply charts_inv_ext; [..| exact HI]; done.
  - by eapply (IH st1).
Qed.

(** Each render of a slot that returned has added one click listener to
    its canvas. *)
Lemma render_done_listeners (s : slot) (data : val) (st st' : State) :
  listeners_inv st →
  render s data st = (st', Ok ()) → is_Some (dom st !! canvas_id s) →
  click_listeners s st' = S (click_listeners s st).
Proof.
  intros HI Hr Hcv.
  destruct (render_done s data st st' Hr Hcv)
    as (type & dat & opts & title & _ & _ & _ & Hd & _).
  unfold click_listeners. rewrite Hd, lookup_alter_eq.
  destruct Hcv as [el Hel]. rewrite Hel. simpl.
  unfold add_listener. case_decide as Hin.
  - specialize (HI _ _ _ Hel Hin). simpl in HI. lia.
  - rewrite filter_app, length_app, filter_cons_True by done. simpl. lia.
Qed.

Lemma rerender_listeners (s : slot) (payloads : list json) (st st' : State) :
  listeners_inv st → is_Some (dom st !! canvas_id s) →
  rerender s payloads st = (st', Ok ()) →
  click_listeners s st' = (click_listeners s st + length payloads)%nat.
Proof.
  revert st. induction payloads as [|j js IH]; intros st HI Hcv Hr.
  - injection Hr as <-. simpl. lia.
  - apply forEach_cons_ok in Hr as (st1 & H1 & Hr).
    pose proof (listeners_inv_rerender_once s j st HI) as HI1. rewrite H1 in HI1.
    rewrite rerender_once_eq in H1.
    assert (Hcv1 : is_Some (dom st1 !! canvas_id s)) by by eapply render_done_present.
    rewrite (IH st1 HI1 Hcv1 Hr).
    eapply render_done_listeners in H1; [| | done].
    + rewrite H1. unfold click_listeners. simpl. lia.
    + eapply listeners_inv_ext; [..| exact HI]; done.
Qed.

(** C1. At every moment each of the four slots has at most one live chart
    instance on its canvas. A render of a slot that reaches its canvas and
    returns leaves every instance that was live on the canvas destroyed
    and exactly one instance live; so does any number of such renders, one
    or more, in a row. *)
Theorem one_live_chart_per_slot (page : gmap string element) (es : list event) (s : slot) :
  let st := run es (initial page) in
  (live_count (canvas_id s) st ≤ 1)%nat ∧
  (∀ data st',
     is_Some (dom st !! canvas_id s) → render s data st = (st', Ok ()) →
     (∀ i, live st i (canvas_id s) → ¬ live st' i (canvas_id s)) ∧
     live_count (canvas_id s) st' = 1%nat) ∧
  (∀ payloads st',
     payloads ≠ [] → is_Some (dom st !! canvas_id s) →
     rerender s payloads st = (st', Ok ()) →
     live_count (canvas_id s) st' = 1%nat).
Proof.
  intros st.
  assert (HI : charts_inv st) by apply charts_inv_run, charts_inv_initial.
  split_and!.
  - apply charts_inv_le_1; [done | right; by exists s].
  - intros data st' Hcv Hr.
    destruct (render_done_live s data st st' HI Hr Hcv) as [Hlive Huniq].
    split; [| by eapply live_count_1].
    intros i Hi%live_in_lt Hi'%Huniq. unfold st in *. lia.
  - intros payloads st' Hne Hcv Hr. by eapply rerender_live_count.
Qed.

(** C2 (amended). On a page where nothing was registered before the
    script ran, each render of a slot that reaches its canvas and returns
    adds one click listener to the canvas and removes none: after [N] such
    renders the canvas has [N] more click listeners than before. *)
Theorem click_listeners_accumulate (page : gmap string element) (es : list event)
    (s : slot) :
  unscripted page →
  let st := run es (initial page) in
  (∀ data st',
     is_Some (dom st !! canvas_id s) → render s data st = (st', Ok ()) →
     click_listeners s st' = S (click_listeners s st)) ∧
  (∀ payloads st',
     is_Some (dom st !! canvas_id s) → rerender s payloads st = (st', Ok ()) →
     click_listeners s st' = (click_listeners s st + length payloads)%nat).
Proof.
  intros Hpage st.
  assert (HI : listeners_inv st) by by apply listeners_inv_run, listeners_inv_initial.
  split.
  - intros data st' Hcv Hr. by eapply render_done_listeners.
  - intros payloads st' Hcv Hr. by eapply rerender_listeners.
Qed.

(** ** The modal *)

Lemma ensureModal_ok (st : State) : (ensureModal st).2 = Ok ().
Proof. unfold ensureModal. by destruct (modal st). Qed.

(** What a call of [openModalForChart] that returned has done. *)
Lemma openModalForChart_done (c : option nat) (title : string) (st st' : State) :
  openModalForChart c title st = (st', Ok ()) →
  ∃ i src cfg,
    c = Some i ∧ charts st !! i = Some src ∧
    modal_config src (store st) = (store st', Ok cfg) ∧
    charts st' =
      (charts_after_destroy (modalChartInstance st) (charts st)
       ++ [MkChart modal_canvas (chart_type src) cfg.1 cfg.2 true])%list ∧
    modalChartInstance st' = Some (length (charts st)) ∧
    (∀ s, slot_var s st' = slot_var s st) ∧
    dom st' = dom st ∧
    modal_display <$> modal st' = Some "flex".
Proof.
  unfold openModalForChart, mbind, M_bind, bindM.
  pose proof (ensureModal_ok st) as Hok.
  destruct (ensureModal_frame st) as (Hd & Hc & Hs & Hv & Hm & _ & [m Hmod]).
  destruct (ensureModal st) as [st1 r]. simpl in *. subst r.
  unfold config_of. simpl. rewrite Hc.
  destruct c as [i|]; [| done].
  destruct (charts st !! i) as [src|] eqn:Hsrc; [| done].
  unfold liftH. simpl. rewrite Hs.
  destruct (modal_config src (store st)) as [h [cfg|e]] eqn:Hcfg; [| done].
  rewrite replace_modal_chart_eq. simpl. intros [= <-].
  exists i, src, cfg. simpl. rewrite Hc, Hm, Hd, Hmod, length_after_destroy.
  split_and!; try done.
Qed.

Lemma openModalForChart_live (c : option nat) (title : string) (st st' : State) :
  charts_inv st →
  openModalForChart c title st = (st', Ok ()) →
  live st' (length (charts st)) modal_canvas ∧
  (∀ i, live st' i modal_canvas → i = length (charts st)).
Proof.
  intros [_ H2] Ho.
  destruct (openModalForChart_done c title st st' Ho) as (i & src & cfg & _ & _ & _ & Hc & _).
  unfold live. rewrite Hc. split.
  - apply live_in_snoc. right. by rewrite length_after_destroy.
  - intros k [[Hk Hne]%live_in_destroyed|(-> & _)]%live_in_snoc.
    + apply H2 in Hk. congruence.
    + apply length_after_destroy.
Qed.

(** C7. At every moment at most one chart instance is live on the modal's
    canvas. A call of [openModalForChart] that returns leaves every
    instance that was live there destroyed and exactly one live, and so
    does a second call right after it. [closeModal] leaves none live and
    the variable empty, and keeps the modal subtree, hidden. *)
Theorem one_modal_chart (page : gmap string element) (es : list event) :
  let st := run es (initial page) in
  (live_count modal_canvas st ≤ 1)%nat ∧
  (∀ c title st1,
     openModalForChart c title st = (st1, Ok ()) →
     (∀ i, live st i modal_canvas → ¬ live st1 i modal_canvas) ∧
     live_count modal_canvas st1 = 1%nat ∧
     ∀ c' title' st2,
       openModalForChart c' title' st1 = (st2, Ok ()) →
       (∀ i, live st1 i modal_canvas → ¬ live st2 i modal_canvas) ∧
       live_count modal_canvas st2 = 1%nat) ∧
  (let st1 := (closeModal st).1 in
   live_count modal_canvas st1 = 0%nat ∧
   modalChartInstance st1 = None ∧
   modal st1 = set_modal_display "none" <$> modal st).
Proof.
  intros st.
  assert (HI : charts_inv st) by apply charts_inv_run, charts_inv_initial.
  assert (Hopen : ∀ c title sa sb,
            charts_inv sa → openModalForChart c title sa = (sb, Ok ()) →
            (∀ i, live sa i modal_canvas → ¬ live sb i modal_canvas) ∧
            live_count modal_canvas sb = 1%nat).
  { intros c title sa sb Ha Ho.
    destruct (openModalForChart_live c title sa sb Ha Ho) as [Hlive Huniq].
    split; [| by eapply live_count_1].
    intros i Hi%live_in_lt Hi'%Huniq. lia. }
  split_and!.
  - apply charts_inv_le_1; [done | by left].
  - intros c title st1 Ho. destruct (Hopen _ _ _ _ HI Ho) as [Hdead Hone].
    split_and!; [done.. |].
    intros c' title' st2 Ho'. apply (Hopen c' title' st1 st2); [| done].
    pose proof (charts_inv_open c title st HI) as HI1. by rewrite Ho in HI1.
  - rewrite closeModal_eq. simpl. split_and!; [| done..].
    apply live_count_0. intros i. unfold live. simpl.
    intros [Hi Hne]%live_in_destroyed. destruct HI as [_ H2]. apply H2 in Hi. congruence.
Qed.

(** ** Stored values and trees *)

Lemma json_ind (P : json → Prop) :
  P JNull → (∀ b, P (JBool b)) → (∀ q, P (JNum q)) → (∀ s, P (JStr s)) →
  (∀ js, Forall P js → P (JArr js)) →
  (∀ kvs, Forall (λ kj, P kj.2) kvs → P (JObj kvs)) →
  ∀ j, P j.
Proof.
  intros Hnull Hbool Hnum Hstr Harr Hobj.
  fix IH 1. intros [|b|q|s|js|kvs]; [done.. | |].
  - apply Harr.
    exact ((fix go (l : list json) : Forall P l :=
              match l with
              | [] => Forall_nil_2 P
              | j :: l' => Forall_cons_2 P j l' (IH j) (go l')
              end) js).
  - apply Hobj.
    exact ((fix go (l : list (string * json)) : Forall (λ kj, P kj.2) l :=
              match l with
              | [] => Forall_nil_2 _
              | kj :: l' => Forall_cons_2 (λ kj, P kj.2) kj l' (IH kj.2) (go l')
              end) kvs).
Qed.

Lemma mapR_ok {A B} (f : A → result B) (l : list A) (bs : list B) :
  mapR f l = Ok bs ↔ Forall2 (λ a b, f a = Ok b) l bs.
Proof.
  revert bs. induction l as [|a l IH]; intros bs; simpl.
  - split; [intros [= <-]; constructor | by intros ->%Forall2_nil_inv_l].
  - destruct (f a) as [b|e] eqn:Hf; simpl.
    + destruct (mapR f l) as [bs'|e] eqn:Hm; simpl.
      * split.
        -- intros [= <-]. constructor; [done | by apply IH].
        -- intros (b' & bs'' & Hb & Hbs & ->)%Forall2_cons_inv_l.
           apply IH in Hbs. congruence.
      * split; [done |].
        intros (b' & bs'' & Hb & Hbs & ->)%Forall2_cons_inv_l.
        apply IH in Hbs. congruence.
    + split; [done |].
      intros (b' & bs'' & Hb & Hbs & ->)%Forall2_cons_inv_l. congruence.
Qed.

Lemma mapR_impl {A B} (f g : A → result B) (l : list A) (bs : list B) :
  (∀ a b, a ∈ l → f a = Ok b → g a = Ok b) → mapR f l = Ok bs → mapR g l = Ok bs.
Proof.
  intros H. rewrite !mapR_ok. intros HF.
  induction HF as [|a b l bs Hab HF IH]; constructor.
  - apply H; [left | done].
  - apply IH. intros a' b' Ha'. apply H. by right.
Qed.

Lemma extends_refl (h : heap) : extends h h.
Proof. by intros l o. Qed.

Lemma extends_trans (h1 h2 h3 : heap) : extends h1 h2 → extends h2 h3 → extends h1 h3.
Proof. intros H12 H23 l o Hl. by apply H23, H12. Qed.

Lemma extends_app (h k : heap) : extends h (h ++ k).
Proof. intros l o Hl. by apply lookup_app_l_Some. Qed.

Lemma extends_insert (h h' : heap) (l : nat) (o : obj) :
  (length h ≤ l)%nat → extends h h' → extends h (<[l := o]> h').
Proof.
  intros Hl H l' o' Hl'. rewrite list_lookup_insert_ne; [by apply H |].
  apply lookup_lt_Some in Hl'. lia.
Qed.

Lemma extends_length (h h' : heap) : extends h h' → (length h ≤ length h')%nat.
Proof.
  intros H. destruct (decide (length h = 0%nat)) as [|Hne]; [lia |].
  destruct (lookup_lt_is_Some_2 h (pred (length h))) as [o Ho]; [lia |].
  apply H, lookup_lt_Some in Ho. lia.
Qed.

(** A walk that succeeded succeeds with more fuel and in a larger store. *)
Lemma stringify_mono (n m : nat) (h h' : heap) (v : val) (r : option json) :
  stringify n h v = Ok r → (n ≤ m)%nat → extends h h' → stringify m h' v = Ok r.
Proof.
  intros Hs Hnm Hext. revert m v r Hs Hnm.
  induction n as [|n IH]; intros m v r Hs Hnm.
  - destruct v; simpl in Hs; try done; destruct m; done.
  - destruct v as [| | | | | |l]; simpl in Hs; try (destruct m; done).
    destruct m as [|m]; [lia |]. simpl.
    destruct (h !! l) as [o|] eqn:Hl; [| done]. rewrite (Hext l o Hl).
    destruct (elems o) as [vs|].
    + destruct (mapR _ vs) as [js|e] eqn:Hm; [| done].
      erewrite mapR_impl; [exact Hs | | exact Hm].
      intros a b _ Hab. simpl in *.
      destruct (stringify n h a) as [ra|] eqn:Ha; [| done].
      rewrite (IH m a ra Ha); [done | lia].
    + destruct (mapR _ (props o)) as [kjs|e] eqn:Hm; [| done].
      erewrite mapR_impl; [exact Hs | | exact Hm].
      intros a b _ Hab. simpl in *.
      destruct (stringify n h a.2) as [ra|] eqn:Ha; [| done].
      rewrite (IH m a.2 ra Ha); [done | lia].
Qed.

Lemma JSON_stringify_extends (h h' : heap) (v : val) (r : option json) :
  JSON_stringify h v = Ok r → extends h h' → JSON_stringify h' v = Ok r.
Proof.
  intros Hs Hext. unfold JSON_stringify in *.
  eapply stringify_mono; [exact Hs | | done].
  apply extends_length in Hext. lia.
Qed.

Lemma foldr_max_le {A} (f : A → nat) (n : nat) (l : list A) :
  Forall (λ x, (f x ≤ n)%nat) l → (foldr (λ x m, max (f x) m) 0%nat l ≤ n)%nat.
Proof. induction 1; simpl; lia. Qed.

Lemma foldr_max_ge {A} (f : A → nat) (l : list A) (x : A) :
  x ∈ l → (f x ≤ foldr (λ x m, max (f x) m) 0%nat l)%nat.
Proof. induction 1; simpl; lia. Qed.

(** A walk leaves a tree no deeper than its fuel. *)
Lemma stringify_depth (n : nat) (h : heap) (v : val) (j : json) :
  stringify n h v = Ok (Some j) → (json_depth j ≤ n)%nat.
Proof.
  revert v j. induction n as [|n IH]; intros v j Hs.
  - destruct v; simpl in Hs; by simplify_eq.
  - destruct v as [| | | | | |l]; simpl in Hs; simplify_eq; simpl; try lia.
    destruct (h !! l) as [o|]; [| done].
    destruct (elems o) as [vs|].
    + destruct (mapR _ vs) as [js|e] eqn:Hm; simplify_eq/=.
      apply le_n_S, foldr_max_le. apply mapR_ok in Hm.
      induction Hm as [|x j' vs js Hx Hm IHm]; constructor; [| done].
      destruct (stringify n h x) as [[j''|]|] eqn:Hsx; simplify_eq/=; [by eapply IH | lia].
    + destruct (mapR _ (props o)) as [kjs|e] eqn:Hm; simplify_eq/=.
      apply le_n_S, foldr_max_le. apply mapR_ok in Hm.
      induction Hm as [|x kj ps kjs Hx Hm IHm]; simpl; [constructor |].
      destruct (stringify n h x.2) as [[j''|]|] eqn:Hsx; simplify_eq/=; [| done].
      constructor; [by eapply IH | done].
Qed.

Lemma Forall2_Forall_impl {A B} (P Q : A → B → Prop) (l : list A) (k : list B) :
  Forall (λ a, ∀ b, P a b → Q a b) l → Forall2 P l k → Forall2 Q l k.
Proof.
  intros HF H2. induction H2 as [|a b l k Hab H2 IH]; [constructor |].
  inversion HF; subst. constructor; auto.
Qed.

Lemma repr_extends (h h' : heap) (j : json) (v : val) :
  repr h j v → extends h h' → repr h' j v.
Proof.
  intros Hr Hext. revert v Hr.
  induction j as [|b|q|s|js IH|kvs IH] using json_ind; intros v Hr;
    inversion Hr; subst; try (by constructor).
  - econstructor; [by apply Hext |]. by eapply Forall2_Forall_impl.
  - econstructor; [by apply Hext |].
    eapply Forall2_Forall_impl; [| done].
    eapply Forall_impl; [exact IH |]. intros kj Hkj p [? ?]. auto.
Qed.

(** The tree of a parsed value is the tree it was parsed from. *)
Lemma repr_stringify (n : nat) (h : heap) (j : json) (v : val) :
  repr h j v → (json_depth j ≤ n)%nat → stringify n h v = Ok (Some j).
Proof.
  revert n v.
  induction j as [|b|q|s|js IH|kvs IH] using json_ind; intros n v Hr Hd;
    inversion Hr; subst; try (by destruct n).
  - destruct n as [|n]; simpl in Hd; [lia |]. simpl.
    match goal with H : h !! _ = _ |- _ => rewrite H end. simpl.
    match goal with H : Forall2 _ js _ |- _ => rename H into HF end.
    assert (Hm : mapR (λ x, bindR (stringify n h x) (λ j, Ok (default JNull j))) vs = Ok js).
    { apply mapR_ok, Forall2_flip.
      eapply Forall2_Forall_impl; [| exact HF].
      apply Forall_forall. intros j Hj v Hjv.
      rewrite Forall_forall in IH. rewrite (IH j Hj n v Hjv); [done |].
      pose proof (foldr_max_ge json_depth js j Hj). lia. }
    by rewrite Hm.
  - destruct n as [|n]; simpl in Hd; [lia |]. simpl.
    match goal with H : h !! _ = _ |- _ => rewrite H end. simpl.
    match goal with H : Forall2 _ kvs _ |- _ => rename H into HF end.
    assert (Hm : mapR (λ kx, bindR (stringify n h kx.2) (λ j, Ok (kx.1, j))) ps
                 = Ok (map (λ kj, (kj.1, Some kj.2)) kvs)).
    { apply mapR_ok, Forall2_flip, Forall2_fmap_l.
      eapply Forall2_Forall_impl; [| exact HF].
      apply Forall_forall. intros kj Hkj p [Hk Hjv].
      rewrite Forall_forall in IH. unfold compose.
      rewrite (IH kj Hkj n p.2 Hjv); [simpl; by rewrite Hk |].
      pose proof (foldr_max_ge (λ kj, json_depth kj.2) kvs kj Hkj). simpl in *. lia. }
    rewrite Hm. simpl. do 3 f_equal.
    clear. induction kvs as [|[k j] kvs IHk]; simpl; [done | f_equal; exact IHk].
Qed.

(** *** Allocation *)

Lemma fresh_val_mono (n m : nat) (v : val) : (n ≤ m)%nat → fresh_val m v → fresh_val n v.
Proof. destruct v; simpl; try done. lia. Qed.

Lemma grown_refl (h : heap) : grown h h.
Proof.
  split; [exists []; by rewrite app_nil_r |].
  intros l o Hl Ho. apply lookup_lt_Some in Ho. lia.
Qed.

Lemma grown_extends (h h' : heap) : grown h h' → extends h h'.
Proof. intros [[k ->] _]. apply extends_app. Qed.

Lemma grown_length (h h' : heap) : grown h h' → (length h ≤ length h')%nat.
Proof. intros [[k ->] _]. rewrite length_app. lia. Qed.

Lemma grown_trans (h1 h2 h3 : heap) : grown h1 h2 → grown h2 h3 → grown h1 h3.
Proof.
  intros [[k1 ->] H1] [[k2 ->] H2]. split; [exists (k1 ++ k2)%list; by rewrite app_assoc |].
  intros l o Hl Ho.
  destruct (decide (l < length (h1 ++ k1))%nat) as [Hlt|Hge].
  - rewrite lookup_app_l in Ho by done. by eapply H1.
  - eapply Forall_impl; [eapply (H2 l o); [lia | done] |].
    intros v. apply fresh_val_mono. rewrite length_app. lia.
Qed.

Lemma grown_snoc (h h' : heap) (o : obj) :
  grown h h' → Forall (fresh_val (length h)) (obj_vals o) → grown h (h' ++ [o]).
Proof.
  intros [[k ->] H1] Ho. split; [exists (k ++ [o])%list; by rewrite app_assoc |].
  intros l o' Hl Hlo.
  apply lookup_app_Some in Hlo as [Hlo|[_ Hlo]]; [by eapply H1 |].
  apply list_lookup_singleton_Some in Hlo as [_ <-]. done.
Qed.

Lemma lookup_snoc_length (h : heap) (o : obj) : (h ++ [o]) !! length h = Some o.
Proof. rewrite lookup_app_r by done. by rewrite Nat.sub_diag. Qed.

Lemma alloc_each_spec {A} (f : A → heap → heap * val) (R : heap → A → val → Prop)
    (l : list A) :
  (∀ h h' a v, R h a v → extends h h' → R h' a v) →
  Forall (λ a, ∀ h h' v, f a h = (h', v) →
                grown h h' ∧ R h' a v ∧ fresh_val (length h) v) l →
  ∀ h h' vs, alloc_each f l h = (h', vs) →
    grown h h' ∧ Forall2 (R h') l vs ∧ Forall (fresh_val (length h)) vs.
Proof.
  intros HR HF. induction HF as [|a l Ha HF IH]; intros h h' vs Hal; simpl in Hal.
  - injection Hal as <- <-. split_and!; [apply grown_refl | constructor..].
  - destruct (f a h) as [h1 v] eqn:Hf.
    destruct (alloc_each f l h1) as [h2 vs'] eqn:Hl. injection Hal as <- <-.
    destruct (Ha h h1 v Hf) as (Hg1 & Hr1 & Hv1).
    destruct (IH h1 h2 vs' Hl) as (Hg2 & Hr2 & Hv2).
    split_and!.
    + by eapply grown_trans.
    + constructor; [| done]. eapply HR; [done | by apply grown_extends].
    + constructor; [done |].
      eapply Forall_impl; [done |]. intros w. apply fresh_val_mono.
      by apply grown_length.
Qed.

(** [JSON.parse] builds the tree it is given, out of new objects. *)
Lemma alloc_json_spec (j : json) (h h' : heap) (v : val) :
  alloc_json j h = (h', v) →
  grown h h' ∧ repr h' j v ∧ fresh_val (length h) v.
Proof.
  revert h h' v.
  induction j as [|b|q|s|js IH|kvs IH] using json_ind; intros h h' v Hal; simpl in Hal;
    try (injection Hal as <- <-; split_and!; [apply grown_refl | constructor | done]).
  - destruct (alloc_each alloc_json js h) as [h1 vs] eqn:Hl. injection Hal as <- <-.
    destruct (alloc_each_spec alloc_json repr js repr_extends IH h h1 vs Hl)
      as (Hg & Hr & Hv).
    split_and!.
    + apply grown_snoc; [done |]. unfold obj_vals. simpl. by rewrite app_nil_r.
    + econstructor; [apply lookup_snoc_length |].
      eapply Forall2_impl; [done |]. intros j w Hjw.
      eapply repr_extends; [done | apply extends_app].
    + simpl. by apply grown_length.
  - destruct (alloc_each _ kvs h) as [h1 vs] eqn:Hl. injection Hal as <- <-.
    destruct (alloc_each_spec (λ kj, alloc_json kj.2) (λ h kj w, repr h kj.2 w) kvs
                (λ h h' kj w, repr_extends h h' kj.2 w) IH h h1 vs Hl)
      as (Hg & Hr & Hv).
    assert (Hlen : length kvs = length vs) by by eapply Forall2_length.
    split_and!.
    + apply grown_snoc; [done |]. unfold obj_vals. simpl.
      rewrite snd_zip; [done |]. rewrite length_fmap. lia.
    + econstructor; [apply lookup_snoc_length |].
      assert (Hr' : Forall2 (λ kj w, repr (h1 ++ [Obj None (zip kvs.*1 vs)]) kj.2 w) kvs vs).
      { eapply Forall2_impl; [exact Hr |]. intros kj w Hkw. simpl in Hkw.
        eapply repr_extends; [exact Hkw | apply extends_app]. }
      revert Hr'. generalize (h1 ++ [Obj None (zip kvs.*1 vs)])%list. intros h2 Hr'.
      clear -Hr'. induction Hr' as [|kj w kvs vs Hkw Hr IHr]; simpl; by constructor.
    + simpl. by apply grown_length.
Qed.

(** *** Reading stored values *)

Lemma reads_as_extends (h h' : heap) (v : val) (r : option json) :
  reads_as h v r → extends h h' → reads_as h' v r.
Proof. intros [n Hn] Hext. exists n. by eapply stringify_mono. Qed.

Lemma repr_reads (h : heap) (j : json) (v : val) : repr h j v → reads_as h v (Some j).
Proof. intros Hr. exists (json_depth j). by apply repr_stringify. Qed.

Lemma repr_opt_reads (h : heap) (r : jval) (w : val) : repr_opt h r w → reads_as h w r.
Proof.
  destruct r as [j|]; simpl; [apply repr_reads |].
  intros [->|[f ->]]; by exists 0%nat.
Qed.

Lemma repr_opt_extends (h h' : heap) (r : jval) (w : val) :
  repr_opt h r w → extends h h' → repr_opt h' r w.
Proof. destruct r; simpl; [apply repr_extends | done]. Qed.

(** Walks that each succeed with some fuel all succeed with one fuel. *)
Lemma reads_as_uniform {A} (h : heap) (f : A → val) (g : A → option json) (l : list A) :
  Forall (λ a, reads_as h (f a) (g a)) l →
  ∃ n, Forall (λ a, stringify n h (f a) = Ok (g a)) l.
Proof.
  induction 1 as [|a l [n Hn] _ [m Hm]]; [by exists 0%nat |].
  exists (max n m). constructor.
  - eapply stringify_mono; [done | lia | apply extends_refl].
  - eapply Forall_impl; [done |]. intros b Hb. simpl in Hb.
    eapply stringify_mono; [done | lia | apply extends_refl].
Qed.

Lemma Forall2_zip {A B} (P : A → B → Prop) (l : list A) (k : list B) :
  Forall2 P l k → Forall (λ x, P x.1 x.2) (zip l k).
Proof. induction 1; simpl; by constructor. Qed.

Lemma reads_array (h : heap) (l : nat) (ws : list val) (ps : list (string * val))
    (rs : list (option json)) :
  h !! l = Some (Obj (Some ws) ps) →
  Forall2 (reads_as h) ws rs →
  reads_as h (VRef l) (Some (JArr (default JNull <$> rs))).
Proof.
  intros Hl HF.
  pose proof (Forall2_zip _ _ _ HF) as Hzip.
  apply reads_as_uniform in Hzip as [n Hn].
  exists (S n). simpl. rewrite Hl. simpl.
  assert (Hm : mapR (λ x, bindR (stringify n h x) (λ j, Ok (default JNull j))) ws
               = Ok (default JNull <$> rs)).
  { apply mapR_ok. clear Hl. induction HF as [|w r ws rs _ HF IH]; simpl; [constructor |].
    inversion Hn; subst. constructor; [| by apply IH].
    simpl in *. by match goal with H : stringify _ _ w = _ |- _ => rewrite H end. }
  by rewrite Hm.
Qed.

Lemma reads_object (h : heap) (l : nat) (ps : list (string * val))
    (rs : list (option json)) :
  h !! l = Some (Obj None ps) →
  Forall2 (reads_as h) ps.*2 rs →
  reads_as h (VRef l)
    (Some (JObj (omap (λ kj, pair kj.1 <$> kj.2) (zip ps.*1 rs)))).
Proof.
  intros Hl HF.
  pose proof (Forall2_zip _ _ _ HF) as Hzip.
  apply reads_as_uniform in Hzip as [n Hn].
  exists (S n). simpl. rewrite Hl. simpl.
  assert (Hm : mapR (λ kx, bindR (stringify n h kx.2) (λ j, Ok (kx.1, j))) ps
               = Ok (zip ps.*1 rs)).
  { apply mapR_ok. clear Hl. revert rs HF Hn.
    induction ps as [|[k w] ps IH]; intros rs HF Hn; simpl in *.
    - apply Forall2_nil_inv_l in HF as ->. constructor.
    - apply Forall2_cons_inv_l in HF as (r & rs' & _ & HF & ->). simpl in *.
      inversion Hn; subst. constructor; [| by apply IH].
      simpl in *. by match goal with H : stringify _ _ w = _ |- _ => rewrite H end. }
  by rewrite Hm.
Qed.

(** *** Reading the statistics payload *)

Lemma repr_members_assoc (h : heap) (kvs : list (string * json))
    (ps : list (string * val)) (k : string) :
  Forall2 (λ kj p, p.1 = kj.1 ∧ repr h kj.2 p.2) kvs ps →
  repr_opt h (assoc k kvs) (default VUndef (assoc k ps)).
Proof.
  induction 1 as [|[k1 j] [k2 w] kvs ps [Hk Hr] _ IH]; simpl in *; [by left |].
  subst k2. destruct (String.eqb k k1); [done | exact IH].
Qed.

(** Reading a property of a parsed object in the store gives what
    reading it in the tree gives. *)
Lemma repr_get_prop (h : heap) (j : json) (v : val) (k : string) :
  repr h j v → readable (Some j) = true →
  ∃ w, get_prop v k h = (h, Ok w) ∧ repr_opt h (field (Some j) k) w.
Proof.
  intros Hr Hj.
  inversion Hr as [|b|q|s|l js vs Hl HF|l kvs ps Hl HF]; subst; try done;
    unfold get_prop, field; simpl.
  - eexists. split; [done |]. by left.
  - eexists. split; [done |]. by left.
  - eexists. split; [done |].
    destruct (String.eqb k "length"); simpl; [constructor | by left].
  - rewrite Hl. eexists. split; [done |]. unfold obj_get. simpl.
    destruct (String.eqb k "length"); simpl.
    + rewrite (Forall2_length _ _ _ HF). constructor.
    + destruct (String.eqb k "values"); [right; by eexists | by left].
  - rewrite Hl. eexists. split; [done |]. unfold obj_get. simpl.
    by apply repr_members_assoc.
Qed.

Lemma mapH_get_prop (h : heap) (k : string) (es : list json) (xs : list val) :
  Forall2 (repr h) es xs →
  Forall (λ e, readable (Some e) = true) es →
  ∃ ws, mapH (λ x, get_prop x k) xs h = (h, Ok ws) ∧
        Forall2 (λ e w, repr_opt h (field (Some e) k) w) es ws.
Proof.
  induction 1 as [|e x es xs Hex _ IH]; intros Hall; simpl.
  - exists []. split; [done | constructor].
  - inversion Hall; subst.
    destruct (repr_get_prop h e x k Hex) as (w & Hw & Hrw); [done |].
    destruct IH as (ws & Hws & Hrws); [done |].
    exists (w :: ws). unfold mbind, H_bind, bindH. rewrite Hw, Hws.
    split; [done | by constructor].
Qed.

Lemma turns_num_of_nat (n : nat) : turns (num_of_nat n) = n.
Proof.
  unfold turns, num_of_nat, Qceiling, Qfloor. simpl.
  rewrite Z.div_1_r, Z.opp_involutive. apply Nat2Z.id.
Qed.

Lemma bar_colors_reads (h : heap) (n : nat) :
  Forall2 (reads_as h) (bar_colors n) (Some <$> palette n).
Proof.
  unfold bar_colors, palette. generalize (seq 0 n). intros l.
  induction l as [|i l IH]; simpl; constructor; [by exists 0%nat | done].
Qed.

(** The preparation the category and the language chart share: the list
    under [list_key], cut to [limit] entries, and of each entry the label
    and the value. *)
Definition prep_entries (list_key : string) (limit : nat) (label_key value_key : string)
    (data : val) : H (val * val * val) :=
  counts ← get_prop data list_key;
  counts ← or_else counts (new_array []);
  bpc ← call_slice counts limit;
  labels ← call_map bpc (λ x, get_prop x label_key);
  values ← call_map bpc (λ x, get_prop x value_key);
  n ← get_prop bpc "length";
  colors ← buildBarColors n;
  mret (labels, values, colors).

Lemma bindH_ok {A B} (m : H A) (k : A → H B) (h h' : heap) (a : A) :
  m h = (h', Ok a) → (m ≫= k) h = k a h'.
Proof. intros Hm. unfold mbind, H_bind, bindH. by rewrite Hm. Qed.

Lemma call_map_get_prop (h : heap) (l : nat) (k : string) (es : list json)
    (xs : list val) (ps : list (string * val)) :
  h !! l = Some (Obj (Some xs) ps) →
  Forall2 (repr h) es xs →
  Forall (λ e, readable (Some e) = true) es →
  ∃ ws, call_map (VRef l) (λ x, get_prop x k) h =
          ((h ++ [Obj (Some ws) []])%list, Ok (VRef (length h))) ∧
        reads_as (h ++ [Obj (Some ws) []]) (VRef (length h)) (Some (JArr (column k es))).
Proof.
  intros Hl HF Hall.
  destruct (mapH_get_prop h k es xs HF Hall) as (ws & Hws & Hrws).
  exists ws. split.
  - unfold call_map. rewrite Hl. unfold mbind, H_bind, bindH. by rewrite Hws.
  - replace (column k es) with (default JNull <$> ((λ e, field (Some e) k) <$> es)).
    2:{ unfold column. by rewrite <- list_fmap_compose. }
    eapply reads_array; [apply lookup_snoc_length |].
    apply Forall2_fmap_r, Forall2_flip.
    eapply Forall2_impl; [exact Hrws |]. intros e w Hew. simpl in Hew.
    apply (reads_as_extends h); [by apply repr_opt_reads | apply extends_app].
Qed.

Lemma prep_entries_spec (h0 : heap) (j : json) (data : val)
    (list_key : string) (limit : nat) (label_key value_key : string)
    (entries : list json) :
  repr h0 j data →
  field (Some j) list_key = Some (JArr entries) →
  Forall (λ e, readable (Some e) = true) (take limit entries) →
  ∃ h4 labels values colors,
    prep_entries list_key limit label_key value_key data h0
      = (h4, Ok (labels, values, colors)) ∧
    extends h0 h4 ∧
    reads_as h4 labels (Some (JArr (column label_key (take limit entries)))) ∧
    reads_as h4 values (Some (JArr (column value_key (take limit entries)))) ∧
    reads_as h4 colors (Some (JArr (palette (length (take limit entries))))).
Proof.
  intros Hr Hf Hall.
  assert (Hj : readable (Some j) = true) by (by destruct j).
  destruct (repr_get_prop h0 j data list_key Hr Hj) as (w & Hw & Hrw).
  rewrite Hf in Hrw. simpl in Hrw.
  inversion Hrw as [| | | |la js vs Hla HF|]; subst.
  set (xs := take limit vs).
  set (h1 := (h0 ++ [Obj (Some xs) []])%list).
  assert (HF1 : Forall2 (repr h1) (take limit entries) xs).
  { apply Forall2_take. eapply Forall2_impl; [exact HF |]. intros e x Hex.
    eapply repr_extends; [done | apply extends_app]. }
  destruct (call_map_get_prop h1 (length h0) label_key (take limit entries) xs []
              (lookup_snoc_length _ _) HF1 Hall) as (ws1 & Hmap1 & Hread1).
  set (h2 := (h1 ++ [Obj (Some ws1) []])%list) in *.
  assert (Hl2 : h2 !! length h0 = Some (Obj (Some xs) [])).
  { apply lookup_app_l_Some, lookup_snoc_length. }
  assert (HF2 : Forall2 (repr h2) (take limit entries) xs).
  { eapply Forall2_impl; [exact HF1 |]. intros e x Hex.
    eapply repr_extends; [done | apply extends_app]. }
  destruct (call_map_get_prop h2 (length h0) value_key (take limit entries) xs []
              Hl2 HF2 Hall) as (ws2 & Hmap2 & Hread2).
  set (h3 := (h2 ++ [Obj (Some ws2) []])%list) in *.
  assert (Hl3 : h3 !! length h0 = Some (Obj (Some xs) [])).
  { by apply lookup_app_l_Some. }
  set (colors := bar_colors (length xs)).
  exists (h3 ++ [Obj (Some colors) []])%list, (VRef (length h1)), (VRef (length h2)),
    (VRef (length h3)).
  split_and!.
  - unfold prep_entries.
    erewrite bindH_ok by exact Hw.
    erewrite bindH_ok by reflexivity.
    erewrite bindH_ok; [| unfold call_slice; rewrite Hla; reflexivity].
    erewrite bindH_ok by exact Hmap1.
    erewrite bindH_ok by exact Hmap2.
    erewrite bindH_ok; [| unfold get_prop; rewrite Hl3; reflexivity].
    erewrite bindH_ok; [reflexivity |].
    change (obj_get _ "length") with (num_of_nat (length xs)).
    unfold buildBarColors. by rewrite turns_num_of_nat.
  - intros l o Hl. by do 4 apply lookup_app_l_Some.
  - eapply reads_as_extends; [exact Hread1 |].
    eapply extends_trans; apply extends_app.
  - eapply reads_as_extends; [exact Hread2 | apply extends_app].
  - replace (length (take limit entries)) with (length xs)
      by (symmetry; by eapply Forall2_length).
    replace (palette (length xs)) with (default JNull <$> (Some <$> palette (length xs))).
    2:{ rewrite <- list_fmap_compose. apply list_fmap_id. }
    eapply reads_array; [apply lookup_snoc_length | apply bar_colors_reads].
Qed.

(** The data literal of a chart with one dataset. *)
Definition data_literal (label : string) (labels values colors : val) : H val :=
  dataset ← new_object [("label", VStr label); ("data", values);
                        ("backgroundColor", colors)];
  datasets ← new_array [dataset];
  new_object [("labels", labels); ("datasets", datasets)].

Lemma data_literal_reads (h : heap) (label : string) (labels values colors : val)
    (L V C : list json) :
  reads_as h labels (Some (JArr L)) →
  reads_as h values (Some (JArr V)) →
  reads_as h colors (Some (JArr C)) →
  ∃ k d, data_literal label labels values colors h = ((h ++ k)%list, Ok d) ∧
         reads_as (h ++ k) d (Some (chart_data label L V C)).
Proof.
  intros HL HV HC.
  set (o1 := Obj None [("label", VStr label); ("data", values); ("backgroundColor", colors)]).
  set (o2 := Obj (Some [VRef (length h)]) []).
  set (o3 := Obj None [("labels", labels); ("datasets", VRef (S (length h)))]).
  exists [o1; o2; o3], (VRef (S (S (length h)))).
  assert (Hl1 : (h ++ [o1; o2; o3]) !! length h = Some o1).
  { rewrite lookup_app_r by done. by rewrite Nat.sub_diag. }
  assert (Hl2 : (h ++ [o1; o2; o3]) !! S (length h) = Some o2).
  { rewrite lookup_app_r by lia. by replace (S (length h) - length h)%nat with 1%nat by lia. }
  assert (Hl3 : (h ++ [o1; o2; o3]) !! S (S (length h)) = Some o3).
  { rewrite lookup_app_r by lia.
    by replace (S (S (length h)) - length h)%nat with 2%nat by lia. }
  assert (Hext : extends h (h ++ [o1; o2; o3])) by apply extends_app.
  split.
  - unfold data_literal, mbind, H_bind, bindH, new_object, new_array, alloc. simpl.
    rewrite !length_app. simpl. rewrite <- !app_assoc. simpl.
    by replace (length h + 1 + 1)%nat with (S (S (length h))) by lia;
       replace (length h + 1)%nat with (S (length h)) by lia.
  - assert (H1 : reads_as (h ++ [o1; o2; o3]) (VRef (length h))
                   (Some (JObj [("label", JStr label); ("data", JArr V);
                                ("backgroundColor", JArr C)]))).
    { apply (reads_object _ _ _ [Some (JStr label); Some (JArr V); Some (JArr C)] Hl1).
      simpl. repeat constructor; [by exists 0%nat | by eapply reads_as_extends..]. }
    assert (H2 : reads_as (h ++ [o1; o2; o3]) (VRef (S (length h)))
                   (Some (JArr [JObj [("label", JStr label); ("data", JArr V);
                                      ("backgroundColor", JArr C)]]))).
    { apply (reads_array _ _ _ _ [Some _] Hl2). by repeat constructor. }
    apply (reads_object _ _ _ [Some (JArr L); Some _] Hl3).
    simpl. repeat constructor; [by eapply reads_as_extends | done].
Qed.

(** The shape the category and the language render share. *)
Definition one_dataset_render (s : slot) (type label title list_key : string)
    (limit : nat) (label_key value_key : string) (options : H val) (data : val) : M () :=
  prep ← liftH (prep_entries list_key limit label_key value_key data);
  let '(labels, values, colors) := prep in
  ctx ← getElementById (canvas_id s);
  match ctx with
  | None => mret ()
  | Some _ =>
      install s type
        (d ← data_literal label labels values colors; o ← options; mret (d, o)) title
  end.

Definition doughnut_options : H val :=
  legend ← new_object [("position", VStr "bottom")];
  plugins ← new_object [("legend", legend)];
  new_object [("responsive", VBool true); ("plugins", plugins)].

Definition bar_options : H val :=
  legend ← new_object [("display", VBool false)];
  plugins ← new_object [("legend", legend)];
  y ← new_object [("beginAtZero", VBool true); ("precision", VNum 0)];
  scales ← new_object [("y", y)];
  new_object [("responsive", VBool true); ("plugins", plugins); ("scales", scales)].

Lemma renderBooksPerCategoryChart_shape (data : val) :
  renderBooksPerCategoryChart data =
    one_dataset_render BooksPerCategory "doughnut" "Sách" "Số lượng sách theo thể loại"
      "category_book_counts" 20 "name" "total_books" doughnut_options data.
Proof. reflexivity. Qed.

Lemma renderLanguageChart_shape (data : val) :
  renderLanguageChart data =
    one_dataset_render Language "bar" "Số lượng sách" "Ngôn ngữ sách trong thư viện"
      "language_distribution" 12 "language" "total" bar_options data.
Proof. reflexivity. Qed.

Lemma lookup_snoc_chart (cs : list Chart) (c : Chart) : (cs ++ [c]) !! length cs = Some c.
Proof. rewrite lookup_app_r by done. by rewrite Nat.sub_diag. Qed.

(** A parsed payload whose list has readable entries is rendered: the
    chart shows the first [limit] entries, in their order. *)
Lemma one_dataset_render_spec (s : slot) (type label title list_key : string)
    (limit : nat) (label_key value_key : string) (options : H val)
    (j : json) (entries : list json) (st : State) :
  (∀ h, ∃ k o, options h = ((h ++ k)%list, Ok o)) →
  field (Some j) list_key = Some (JArr entries) →
  Forall (λ e, readable (Some e) = true) (take limit entries) →
  is_Some (dom st !! canvas_id s) →
  ∃ st',
    (data ← liftH (JSON_parse j);
     one_dataset_render s type label title list_key limit label_key value_key options data)
      st = (st', Ok ()) ∧
    slot_shows s st'
      (chart_data label (column label_key (take limit entries))
                  (column value_key (take limit entries))
                  (palette (length (take limit entries)))).
Proof.
  intros Hopts Hf Hall [el Hel].
  destruct (alloc_json j (store st)) as [h0 data] eqn:Hal.
  destruct (alloc_json_spec j (store st) h0 data Hal) as (_ & Hr & _).
  destruct (prep_entries_spec h0 j data list_key limit label_key value_key entries Hr Hf Hall)
    as (h4 & labels & values & colors & Hprep & _ & HL & HV & HC).
  destruct (data_literal_reads h4 label labels values colors _ _ _ HL HV HC)
    as (k1 & d & Hd & Hread).
  destruct (Hopts (h4 ++ k1)%list) as (k2 & o & Ho).
  eexists. split.
  - unfold mbind at 1, M_bind at 1, bindM at 1, liftH at 1, JSON_parse. rewrite Hal.
    unfold one_dataset_render, mbind at 1, M_bind at 1, bindM at 1, liftH at 1.
    simpl store. rewrite Hprep.
    unfold mbind at 1, M_bind at 1, bindM at 1, getElementById at 1.
    change (dom (set_store h4 (set_store h0 st))) with (dom st). rewrite Hel.
    rewrite install_eq. cbv zeta.
    change (store (set_store h4 (set_store h0 st))) with h4.
    erewrite bindH_ok by exact Hd. erewrite bindH_ok by exact Ho.
    unfold mret, H_ret, retH. cbv beta iota. rewrite listen_eq. reflexivity.
  - exists (MkChart (canvas_id s) type d o true). split_and!.
    + unfold slot_chart. simpl. destruct s; simpl; apply lookup_snoc_chart.
    + done.
    + simpl. eapply reads_as_extends; [exact Hread | apply extends_app].
Qed.

Lemma doughnut_options_grow (h : heap) : ∃ k o, doughnut_options h = ((h ++ k)%list, Ok o).
Proof.
  unfold doughnut_options, mbind, H_bind, bindH, new_object, alloc. simpl.
  rewrite <- !app_assoc. by do 2 eexists.
Qed.

Lemma bar_options_grow (h : heap) : ∃ k o, bar_options h = ((h ++ k)%list, Ok o).
Proof.
  unfold bar_options, mbind, H_bind, bindH, new_object, alloc. simpl.
  rewrite <- !app_assoc. by do 2 eexists.
Qed.

(** C6. When the statistics arrive and the canvases are there, the
    category chart is built from the first 20 entries of
    [category_book_counts] and the language chart from the first 12
    entries of [language_distribution], in the order of the payload:
    the labels and the values of the chart are the names and the totals
    of these entries, one after the other. *)
Theorem charts_show_first_entries (j : json) (st : State) (entries : list json) :
  (field (Some j) "category_book_counts" = Some (JArr entries) →
   Forall (λ e, readable (Some e) = true) (take 20 entries) →
   is_Some (dom st !! canvas_id BooksPerCategory) →
   ∃ st', rerender_once BooksPerCategory j st = (st', Ok ()) ∧
          slot_shows BooksPerCategory st'
            (chart_data "Sách" (column "name" (take 20 entries))
                        (column "total_books" (take 20 entries))
                        (palette (length (take 20 entries))))) ∧
  (field (Some j) "language_distribution" = Some (JArr entries) →
   Forall (λ e, readable (Some e) = true) (take 12 entries) →
   is_Some (dom st !! canvas_id Language) →
   ∃ st', rerender_once Language j st = (st', Ok ()) ∧
          slot_shows Language st'
            (chart_data "Số lượng sách" (column "language" (take 12 entries))
                        (column "total" (take 12 entries))
                        (palette (length (take 12 entries))))).
Proof.
  split; intros Hf Hall Hcv.
  - apply (one_dataset_render_spec BooksPerCategory "doughnut" "Sách"
             "Số lượng sách theo thể loại" "category_book_counts" 20 "name" "total_books"
             doughnut_options j entries st doughnut_options_grow Hf Hall Hcv).
  - apply (one_dataset_render_spec Language "bar" "Số lượng sách"
             "Ngôn ngữ sách trong thư viện" "language_distribution" 12 "language" "total"
             bar_options j entries st bar_options_grow Hf Hall Hcv).
Qed.

(** ** Writes that stay apart from the older objects *)

Lemma apart_from_refl (h : heap) : apart_from h h.
Proof.
  split; [apply extends_refl |]. intros l o Hl Ho. apply lookup_lt_Some in Ho. lia.
Qed.

Lemma grown_apart (h h' : heap) : grown h h' → apart_from h h'.
Proof. intros Hg. split; [by apply grown_extends | exact (proj2 Hg)]. Qed.

Lemma apart_from_grown (h0 h h' : heap) : apart_from h0 h → grown h h' → apart_from h0 h'.
Proof.
  intros [He Hc] Hg. pose proof (extends_length _ _ He) as Hlen.
  split; [eapply extends_trans; [done | by apply grown_extends] |].
  destruct Hg as [[k ->] Hk]. intros l o Hl Ho.
  destruct (decide (l < length h)%nat) as [Hlt|Hge].
  - rewrite lookup_app_l in Ho by done. by eapply Hc.
  - eapply Forall_impl; [eapply (Hk l o); [lia | done] |].
    intros v. by apply fresh_val_mono.
Qed.

Lemma apart_from_trans (h0 h1 h : heap) :
  apart_from h0 h1 → apart_from h1 h → extends h0 h.
Proof. intros [He _] [He' _]. by eapply extends_trans. Qed.

Lemma writes_apart_ret (h0 : heap) {A} (a : A) (Q : A → Prop) :
  Q a → writes_apart h0 (mret a) Q.
Proof. intros HQ h Hh. split; [done |]. by intros a' [= <-]. Qed.

Lemma writes_apart_bind (h0 : heap) {A B} (m : H A) (k : A → H B)
    (Q : A → Prop) (R : B → Prop) :
  writes_apart h0 m Q → (∀ a, Q a → writes_apart h0 (k a) R) →
  writes_apart h0 (m ≫= k) R.
Proof.
  intros Hm Hk h Hh. unfold mbind, H_bind, bindH.
  destruct (Hm h Hh) as [H1 H2]. destruct (m h) as [h1 [a|e]]; simpl in *; [| done].
  apply Hk; [by apply H2 | done].
Qed.

Lemma writes_apart_alloc (h0 : heap) (o : obj) :
  Forall (fresh_val (length h0)) (obj_vals o) →
  writes_apart h0 (alloc o) (fresh_val (length h0)).
Proof.
  intros Ho h [He Hc]. pose proof (extends_length _ _ He) as Hlen. simpl. split.
  - split; [eapply extends_trans; [done | apply extends_app] |].
    intros l o' Hl Hlo.
    apply lookup_app_Some in Hlo as [Hlo|[_ Hlo]]; [by eapply Hc |].
    by apply list_lookup_singleton_Some in Hlo as [_ <-].
  - by intros a [= <-].
Qed.

Lemma assoc_vals {A} (P : A → Prop) (k : string) (kvs : list (string * A)) (v : A) :
  Forall P kvs.*2 → assoc k kvs = Some v → P v.
Proof.
  induction kvs as [|[k' v'] kvs IH]; simpl; [done |].
  intros [Hv Hkvs]%Forall_cons. destruct (String.eqb k k'); [by intros [= <-] | by apply IH].
Qed.

Lemma assoc_set_vals {A} (P : A → Prop) (k : string) (v : A) (kvs : list (string * A)) :
  Forall P kvs.*2 → P v → Forall P (assoc_set k v kvs).*2.
Proof.
  intros Hkvs Hv. induction kvs as [|[k' v'] kvs IH]; simpl; [by repeat constructor |].
  apply Forall_cons in Hkvs as [Hv' Hkvs].
  destruct (String.eqb k k'); simpl; constructor; auto.
Qed.

Lemma obj_get_fresh (n : nat) (o : obj) (k : string) :
  Forall (fresh_val n) (obj_vals o) → fresh_val n (obj_get o k).
Proof.
  unfold obj_vals, obj_get. intros [He Hp]%Forall_app.
  destruct (elems o) as [vs|].
  - destruct (String.eqb k "length"); [done |].
    destruct (assoc k (props o)) as [v|] eqn:E; [by eapply assoc_vals |].
    by destruct (String.eqb k "values").
  - destruct (assoc k (props o)) as [v|] eqn:E; [by eapply assoc_vals | done].
Qed.

Lemma writes_apart_get_prop (h0 : heap) (v : val) (k : string) :
  fresh_val (length h0) v →
  writes_apart h0 (get_prop v k) (fresh_val (length h0)).
Proof.
  intros Hv h [He Hc]. split; [done |]. simpl.
  destruct v as [| | | | | |l]; try by intros a [= <-].
  - intros a [= <-]. by destruct (String.eqb k "length").
  - intros a [= <-]. destruct (String.eqb k "name"); [done |].
    by destruct (String.eqb k "length").
  - destruct (h !! l) as [o|] eqn:Hl; intros a [= <-]; [| done].
    eapply obj_get_fresh, Hc; done.
Qed.

Lemma writes_apart_set_prop (h0 : heap) (v : val) (k : string) (x : val) :
  fresh_val (length h0) v → fresh_val (length h0) x →
  writes_apart h0 (set_prop v k x) (λ _, True).
Proof.
  intros Hv Hx h [He Hc]. split; [| done]. unfold set_prop.
  destruct v as [| | | | | |l]; try done.
  destruct (h !! l) as [o|] eqn:Hl; [| done]. simpl in *. split.
  - by apply extends_insert.
  - intros l' o' Hl' Ho'.
    destruct (decide (l = l')) as [<-|Hne].
    + rewrite list_lookup_insert in Ho'.
      rewrite decide_True in Ho' by (split; [done | by eapply lookup_lt_Some]).
      injection Ho' as <-. specialize (Hc l o Hv Hl).
      unfold obj_vals in *. simpl. apply Forall_app in Hc as [H1 H2].
      apply Forall_app. split; [done | by apply assoc_set_vals].
    + rewrite list_lookup_insert_ne in Ho' by done. by eapply Hc.
Qed.

Lemma writes_apart_or_else (h0 : heap) (a : val) (b : H val) :
  fresh_val (length h0) a →
  writes_apart h0 b (fresh_val (length h0)) →
  writes_apart h0 (or_else a b) (fresh_val (length h0)).
Proof.
  intros Ha Hb. unfold or_else. destruct (truthy a); [| done].
  by apply (writes_apart_ret h0 a).
Qed.

Lemma writes_apart_json_clone (h0 : heap) (v : val) :
  writes_apart h0 (json_clone v) (fresh_val (length h0)).
Proof.
  intros h Hh. unfold json_clone, JSON_parse.
  destruct (JSON_stringify h v) as [[j|]|e]; [| done..].
  destruct (alloc_json j h) as [h' v'] eqn:E.
  apply alloc_json_spec in E as (Hg & _ & Hf). simpl. split.
  - by eapply apart_from_grown.
  - intros a [= <-]. eapply fresh_val_mono; [| done].
    apply extends_length, Hh.
Qed.

Ltac fresh_vals :=
  unfold obj_vals; simpl;
  repeat (apply Forall_cons; split); try apply Forall_nil; try done.

Ltac apart_bind x Hx :=
  eapply writes_apart_bind;
  [ first [ apply writes_apart_json_clone
          | apply writes_apart_get_prop; done
          | apply writes_apart_set_prop; done
          | apply writes_apart_alloc; fresh_vals ]
  | intros x Hx ].

Lemma zoom_options_apart (h0 : heap) :
  writes_apart h0 zoom_options (fresh_val (length h0)).
Proof.
  unfold zoom_options, new_object.
  apart_bind wheel Hwheel. apart_bind pinch Hpinch. apart_bind drag Hdrag.
  apart_bind zoom Hzoom. apart_bind pan Hpan.
  apply writes_apart_alloc. fresh_vals.
Qed.

(** The modal's options are made of new objects only. *)
Lemma modal_options_apart (h0 : heap) (srcOpts : val) :
  writes_apart h0 (modal_options srcOpts) (fresh_val (length h0)).
Proof.
  unfold modal_options, new_object.
  apart_bind options Ho. apart_bind plugins Hp.
  eapply writes_apart_bind;
    [apply writes_apart_or_else; [done | apply writes_apart_alloc; fresh_vals] |].
  intros plugins1 Hp1. apart_bind u1 Hu1. apart_bind plugins2 Hp2.
  apart_bind legend Hl.
  eapply writes_apart_bind;
    [apply writes_apart_or_else; [done | apply writes_apart_alloc; fresh_vals] |].
  intros legend1 Hl1. apart_bind plugins3 Hp3. apart_bind u2 Hu2.
  apart_bind plugins4 Hp4.
  eapply writes_apart_bind; [apply zoom_options_apart | intros zoom Hz].
  apart_bind u3 Hu3. apart_bind u4 Hu4.
  by apply (writes_apart_ret h0 options).
Qed.

(** What [modal_config] makes: the data is a copy of the tree of the
    source's data, and both the data and the options are made of objects
    the call allocated, which refer to each other only; every older object
    is unchanged. *)
Lemma modal_config_spec (src : Chart) (h h' : heap) (cfg : val * val) :
  modal_config src h = (h', Ok cfg) →
  ∃ j, JSON_stringify h (config_data src) = Ok (Some j) ∧
       repr h' j cfg.1 ∧
       apart_from h h' ∧
       fresh_val (length h) cfg.1 ∧ fresh_val (length h) cfg.2.
Proof.
  unfold modal_config, mbind, H_bind, bindH.
  unfold json_clone at 1, JSON_parse.
  destruct (JSON_stringify h (config_data src)) as [[j|]|e] eqn:Hj; [| done..].
  destruct (alloc_json j h) as [h1 d] eqn:Ha.
  apply alloc_json_spec in Ha as (Hg & Hr & Hd).
  assert (Hor : ∃ h2 so, or_else (config_options src) (new_object []) h1 = (h2, Ok so) ∧
                         grown h1 h2).
  { unfold or_else. destruct (truthy (config_options src)).
    - eexists _, _. split; [reflexivity | apply grown_refl].
    - eexists _, _. split; [reflexivity |]. apply grown_snoc; [apply grown_refl | done]. }
  destruct Hor as (h2 & so & -> & Hg2).
  assert (H02 : apart_from h h2).
  { eapply apart_from_grown; [by apply grown_apart | done]. }
  destruct (modal_options_apart h so h2 H02) as [H0 Hf0].
  destruct (modal_options_apart h2 so h2 (apart_from_refl h2)) as [[H2 _] _].
  destruct (modal_options so h2) as [h3 [o|e]]; [| done].
  simpl in *. intros [= <- <-]. exists j. simpl. split_and!; try done.
  - eapply repr_extends; [done |].
    eapply extends_trans; [by apply grown_extends | done].
  - by apply Hf0.
Qed.

(** What can be reached from a new value is new. *)
Lemma reach_fresh (n : nat) (h : heap) (v : val) (l : nat) :
  closed_from n h → fresh_val n v → reach h v l → (n ≤ l)%nat.
Proof.
  intros Hc Hv Hr. induction Hr as [l|l o v l' Hl Hin Hr IH]; [done |].
  apply IH. specialize (Hc l o Hv Hl). rewrite Forall_forall in Hc. by apply Hc.
Qed.

Lemma mapR_ext {A B} (f g : A → result B) (l : list A) :
  Forall (λ a, f a = g a) l → mapR f l = mapR g l.
Proof.
  induction 1 as [|a l Ha Hl IH]; simpl; [done |]. by rewrite Ha, IH.
Qed.

(** The tree of a new value depends on the new objects only. *)
Lemma stringify_agree (n k : nat) (h h' : heap) (v : val) :
  closed_from n h → fresh_val n v →
  (∀ l, (n ≤ l)%nat → h' !! l = h !! l) →
  stringify k h' v = stringify k h v.
Proof.
  intros Hc Hv Hag. revert v Hv.
  induction k as [|k IH]; intros v Hv; destruct v as [| | | | | |l]; simpl; try done.
  simpl in Hv. rewrite Hag by done.
  destruct (h !! l) as [o|] eqn:Hl; [| done].
  specialize (Hc l o Hv Hl). unfold obj_vals in Hc. apply Forall_app in Hc as [He Hp].
  destruct (elems o) as [vs|]; simpl in He.
  - f_equal. apply mapR_ext. eapply Forall_impl; [exact He |].
    intros x Hx. simpl. by rewrite IH.
  - f_equal. apply mapR_ext. rewrite Forall_fmap in Hp.
    eapply Forall_impl; [exact Hp |].
    intros x Hx. simpl in *. by rewrite IH.
Qed.

Lemma set_prop_ref (l : nat) (k : string) (x : val) (h : heap) :
  (set_prop (VRef l) k x h).1 = h ∨ ∃ o, (set_prop (VRef l) k x h).1 = <[l := o]> h.
Proof. simpl. destruct (h !! l) as [o|]; simpl; eauto. Qed.

(** ** The summary counters *)

(** Two pages with the same elements, whatever these show. *)
Definition same_elements (d d' : gmap string element) : Prop :=
  ∀ id, set_contents (Text EmptyString) <$> d !! id
        = set_contents (Text EmptyString) <$> d' !! id.

Lemma same_elements_alter (c : content) (id : string) (d d' : gmap string element) :
  same_elements d d' → same_elements (alter (set_contents c) id d) d'.
Proof.
  intros H j. rewrite <- (H j), lookup_alter.
  case_decide; [subst | done]. by destruct (d !! j).
Qed.

Lemma same_elements_lookup (c : content) (id : string) (d d' : gmap string element)
    (el : element) :
  same_elements d d' → d' !! id = Some el →
  alter (set_contents c) id d !! id = Some (set_contents c el).
Proof.
  intros H Hel. specialize (H id). rewrite Hel in H.
  rewrite lookup_alter_eq. destruct (d !! id) as [el'|]; [| done].
  injection H as H. destruct el, el'. unfold set_contents in *. simpl in *. congruence.
Qed.

Lemma updateElement_same (d0 : gmap string element) (id : string) (v : jval) :
  preserves (λ st, same_elements (dom st) d0) (updateElement id v).
Proof. intros st H. rewrite updateElement_eq. by apply same_elements_alter. Qed.

Lemma stats_then_same (d0 : gmap string element) (data : json) :
  preserves (λ st, same_elements (dom st) d0) (stats_then data).
Proof.
  unfold stats_then.
  repeat first [ apply updateElement_same | apply preserves_liftR
               | apply preserves_bind; [| intros ?] ].
Qed.

Lemma readable_jget (v : jval) (k : string) :
  readable v = true → jget v k = Ok (field v k).
Proof. unfold field. by destruct v as [[]|]. Qed.

Lemma unreadable_jget (v : jval) (k : string) :
  readable v = false → ∃ e, jget v k = Throw e.
Proof. destruct v as [[]|]; simpl; try done; eauto. Qed.

(** The callback throws exactly on a payload without the three objects. *)
Lemma stats_then_throws (data : json) (st : State) :
  stats_shape_ok data = false → ∃ e, (stats_then data st).2 = Throw e.
Proof.
  unfold stats_shape_ok, stats_then, mbind, M_bind, bindM, liftR.
  intros H.
  destruct (readable (Some data)) eqn:H0.
  2:{ destruct (unreadable_jget _ "basic" H0) as [e ->]. eauto. }
  rewrite !(readable_jget (Some data)) by done.
  destruct (readable (field (Some data) "basic")) eqn:H1.
  2:{ destruct (unreadable_jget _ "total_books" H1) as [e ->]. eauto. }
  rewrite !(readable_jget (field (Some data) "basic")) by done.
  rewrite !updateElement_eq.
  destruct (readable (field (Some data) "requests")) eqn:H2.
  2:{ destruct (unreadable_jget _ "pending" H2) as [e ->]. eauto. }
  rewrite !(readable_jget (field (Some data) "requests")) by done.
  rewrite !updateElement_eq.
  destruct (readable (field (Some data) "loans")) eqn:H3; [done |].
  destruct (unreadable_jget _ "overdue" H3) as [e ->]. eauto.
Qed.

(** What the callback leaves on a payload with the three objects. *)
Lemma stats_then_ok (data : json) (st : State) :
  stats_shape_ok data = true →
  stats_then data st =
    (set_dom
       (alter (set_contents (Text (counter_text (field (field (Some data) "loans") "overdue"))))
          "overdue-loans"
       (alter (set_contents (Text (counter_text (field (field (Some data) "requests") "pending"))))
          "pending-requests"
       (alter (set_contents (Text (counter_text (field (field (Some data) "basic") "total_users"))))
          "users-count"
       (alter (set_contents (Text (counter_text (field (field (Some data) "basic") "total_books"))))
          "books-count" (dom st))))) st, Ok ()).
Proof.
  unfold stats_shape_ok. intros (((H0 & H1)%andb_prop & H2)%andb_prop & H3)%andb_prop.
  unfold stats_then, mbind, M_bind, bindM, liftR.
  rewrite !(readable_jget (Some data)) by done.
  rewrite !(readable_jget (field (Some data) "basic")) by done.
  rewrite !(readable_jget (field (Some data) "requests")) by done.
  rewrite !(readable_jget (field (Some data) "loans")) by done.
  rewrite !updateElement_eq. by destruct st.
Qed.

Lemma stats_catch_eq (e : error) (st : State) :
  stats_catch e st =
    (set_dom
       (alter (set_contents (Text "-")) "overdue-loans"
       (alter (set_contents (Text "-")) "pending-requests"
       (alter (set_contents (Text "-")) "users-count"
       (alter (set_contents (Text "-")) "books-count" (dom st)))))
       (set_console (console st ++ [(LogError, "Error loading stats:", e)])%list st),
     Ok ()).
Proof.
  unfold stats_catch, counter_ids, forEach, console_log, modify, mbind, M_bind, bindM.
  rewrite !updateElement_eq. by destruct st.
Qed.

(** After the [catch] callback, each counter of the page shows the dash. *)
Lemma stats_catch_blanks (e : error) (st : State) (d0 : gmap string element)
    (id : string) (el : element) :
  same_elements (dom st) d0 → id ∈ counter_ids → d0 !! id = Some el →
  dom (stats_catch e st).1 !! id = Some (set_contents (Text "-") el).
Proof.
  intros Hsame Hid Hel. rewrite stats_catch_eq. simpl.
  unfold counter_ids in Hid.
  repeat (apply elem_of_cons in Hid as [->|Hid]).
  5: by apply elem_of_nil in Hid.
  all: repeat (rewrite lookup_alter_ne by done).
  all: eapply same_elements_lookup; [| done].
  all: repeat apply same_elements_alter; done.
Qed.

(** The chain reaches its [catch] callback. *)
Definition summary_fails (o : fetch_outcome) : bool :=
  match fetchJSON o with
  | Throw _ => true
  | Ok data => negb (stats_shape_ok data)
  end.

Lemma same_elements_refl (d : gmap string element) : same_elements d d.
Proof. by intros id. Qed.

Lemma stats_then_console (c0 : list (level * string * error)) (data : json) :
  preserves (λ st, console st = c0) (stats_then data).
Proof.
  unfold stats_then.
  repeat first [ apply preserves_liftR
               | (intros st H; rewrite updateElement_eq; exact H)
               | apply preserves_bind; [| intros ?] ].
Qed.

(** C3 (amended). When the summary request fails (the fetch is rejected,
    the status is not a success, the content type is not JSON, the body
    does not parse) or the payload lacks one of the objects [basic],
    [requests], [loans], the error is logged and every counter of the page
    shows the dash, also those the callback had filled before it threw.
    A payload that has the three objects is not a failure, whatever fields
    they have: each counter shows what its field holds, the empty text for
    a field that is missing. *)
Theorem summary_failure_blanks_counters (o : fetch_outcome) (st : State) :
  let st' := (loadDashboardStats_settled o st).1 in
  (summary_fails o = true →
     (∀ id el, id ∈ counter_ids → dom st !! id = Some el →
               dom st' !! id = Some (set_contents (Text "-") el)) ∧
     ∃ e, console st' = (console st ++ [(LogError, "Error loading stats:", e)])%list) ∧
  (∀ data, fetchJSON o = Ok data → stats_shape_ok data = true →
     console st' = console st ∧
     shown "books-count" st' =
       (λ _, Text (counter_text (field (field (Some data) "basic") "total_books")))
         <$> dom st !! "books-count" ∧
     shown "users-count" st' =
       (λ _, Text (counter_text (field (field (Some data) "basic") "total_users")))
         <$> dom st !! "users-count" ∧
     shown "pending-requests" st' =
       (λ _, Text (counter_text (field (field (Some data) "requests") "pending")))
         <$> dom st !! "pending-requests" ∧
     shown "overdue-loans" st' =
       (λ _, Text (counter_text (field (field (Some data) "loans") "overdue")))
         <$> dom st !! "overdue-loans").
Proof.
  unfold loadDashboardStats_settled, summary_chain, try_catch, summary_fails, mbind,
    M_bind, bindM, liftR.
  split.
  - intros Hfail. destruct (fetchJSON o) as [data|e].
    + apply negb_true_iff in Hfail.
      destruct (stats_then_throws data st Hfail) as [e He].
      pose proof (stats_then_same (dom st) data st (same_elements_refl _)) as Hsame.
      pose proof (stats_then_console (console st) data st eq_refl) as Hcon.
      destruct (stats_then data st) as [st1 r]. simpl in *. subst r.
      split.
      * intros id el Hid Hel. by eapply stats_catch_blanks.
      * exists e. rewrite stats_catch_eq. simpl. by rewrite Hcon.
    + split.
      * intros id el Hid Hel. eapply stats_catch_blanks; [apply same_elements_refl | done..].
      * exists e. by rewrite stats_catch_eq.
  - intros data -> Hshape. rewrite (stats_then_ok data st Hshape).
    unfold shown. simpl. split; [done |].
    split_and!; rewrite !lookup_alter; repeat case_decide; try done;
      by destruct (dom st !! _).
Qed.

(** ** Errors of the three loads *)

Lemma stats_catch_ok (e : error) (st : State) : (stats_catch e st).2 = Ok ().
Proof. by rewrite stats_catch_eq. Qed.

Lemma activity_catch_eq (e : error) (st : State) :
  activity_catch e st =
    (set_dom (alter (set_contents (Html "<p>Error loading recent activity</p>"))
                    "recent-activity-list" (dom st))
       (set_console (console st ++ [(LogError, "Error loading activity:", e)])%list st),
     Ok ()).
Proof.
  unfold activity_catch, console_log, modify, mbind, M_bind, bindM, getElementById.
  simpl. destruct (dom st !! "recent-activity-list") eqn:E; simpl; [reflexivity |].
  rewrite alter_absent by done. by destruct st.
Qed.

(** The activity callback changes the page only as its last step: when it
    throws, it has changed nothing. *)
Lemma activity_chain_throws (o : fetch_outcome) (st st1 : State) (e : error) :
  activity_chain o st = (st1, Throw e) → st1 = st.
Proof.
  unfold activity_chain, activity_then, mbind, M_bind, bindM, liftR, getElementById,
    update_element, modify, mret, M_ret, retM.
  destruct (fetchJSON o) as [data|e0]; [| by intros [= <-]].
  destruct (dom st !! "recent-activity-list"); [| done].
  destruct (jget (Some data) "activities") as [acts|e1]; [| by intros [= <-]].
  destruct (jtruthy acts).
  - destruct (jget acts "length") as [len|e2]; [| by intros [= <-]].
    destruct (gt_zero len); [| done].
    destruct (jmap acts activity_item); [done | by intros [= <-]].
  - done.
Qed.

Lemma install_console (c0 : list (level * string * error)) (s : slot) (type : string)
    (config : H (val * val)) (title : string) :
  preserves (λ st, console st = c0) (install s type config title).
Proof.
  intros st HI. rewrite install_eq. cbv zeta.
  destruct (config (store st)) as [h [cfg|e]]; [rewrite listen_eq |]; done.
Qed.

Lemma stats_chain_console (o : fetch_outcome) (c0 : list (level * string * error)) :
  preserves (λ st, console st = c0) (stats_chain o).
Proof.
  unfold stats_chain. destruct o as [e|r]; [apply preserves_throw |].
  destruct (resp_json r) as [j|]; [| apply preserves_throw].
  apply preserves_bind; [by apply preserves_liftH | intros data].
  apply renderCharts_keeps; [done | apply install_console].
Qed.

Lemma summary_chain_same (d0 : gmap string element) (o : fetch_outcome) :
  preserves (λ st, same_elements (dom st) d0) (summary_chain o).
Proof.
  unfold summary_chain.
  apply preserves_bind; [apply preserves_liftR | intros data; apply stats_then_same].
Qed.

Lemma summary_chain_console (c0 : list (level * string * error)) (o : fetch_outcome) :
  preserves (λ st, console st = c0) (summary_chain o).
Proof.
  unfold summary_chain.
  apply preserves_bind; [apply preserves_liftR | intros data; apply stats_then_console].
Qed.

(** ** [fetchJSON] *)

(** C4 (amended). [fetchJSON] resolves to the parsed body exactly when
    the status is a success, the declared content type contains
    [application/json], and the body parses. When the status is not a
    success or the content type is not JSON, it fails with an error whose
    message carries the status code and an excerpt of the body: the first
    200 UTF-16 code units of the body, the whole body when it has no
    more. When status and content type pass and the body does not parse,
    it fails with the parser's error. *)
Theorem fetchJSON_outcomes (r : response) :
  (∀ data, fetchJSON (Responded r) = Ok data ↔
           ok r = true ∧ declares_json r = true ∧ resp_json r = Some data) ∧
  (ok r = false ∨ declares_json r = false →
     ∃ excerpt,
       fetchJSON (Responded r) =
         Throw (Error ("Unexpected response (" +:+ pretty (status r) +:+ "): "
                       +:+ excerpt +:+ "...")) ∧
       utf16 excerpt = take 200 (utf16 (resp_text r)) ∧
       (length (utf16 excerpt) ≤ 200)%nat) ∧
  (ok r = true → declares_json r = true → resp_json r = None →
     ∃ msg, fetchJSON (Responded r) = Throw (SyntaxError msg)).
Proof.
  unfold fetchJSON, declares_json, unexpected_response.
  assert (Hex : utf16 (substring0 200 (resp_text r)) = take 200 (utf16 (resp_text r)) ∧
                (length (utf16 (substring0 200 (resp_text r))) ≤ 200)%nat).
  { split; [apply utf16_substring0 |]. rewrite utf16_substring0, length_take. lia. }
  destruct (ok r), (includes _ _), (resp_json r) as [j|]; simpl; naive_solver.
Qed.

(** ** The statistics request *)

(** The month a request is made with. *)
Definition month_value (st : State) : string :=
  match dom st !! "stats-month" with
  | Some monthEl => value monthEl
  | None => "1"
  end.

Lemma loadBookStats_request (st : State) (periodEl yearEl : element) :
  dom st !! "stats-period" = Some periodEl →
  dom st !! "stats-year" = Some yearEl →
  loadBookStats st =
    (set_requests
       (requests st ++
        [statsApiUrl st +:+ "?" +:+
         params_toString (stats_params (value periodEl) (value yearEl) (month_value st))])%list
       st, Ok ()).
Proof.
  intros Hp Hy.
  unfold loadBookStats, month_value, mbind, M_bind, bindM, getElementById, value_of,
    fetch, modify, mret, M_ret, retM.
  rewrite Hp, Hy.
  destruct (dom st !! "stats-month") eqn:Hm; cbv beta iota; rewrite ?Hp, ?Hy, ?Hm;
    reflexivity.
Qed.

Lemma loadBookStats_disabled (st : State) :
  dom st !! "stats-period" = None ∨ dom st !! "stats-year" = None →
  loadBookStats st = (st, Ok ()).
Proof.
  unfold loadBookStats, mbind, M_bind, bindM, getElementById, mret, M_ret, retM.
  intros [H|H]; rewrite H; repeat case_match; reflexivity.
Qed.

Lemma stats_params_read (period y m : string) :
  query_params (params_toString (stats_params period y m)) =
    if String.eqb period "year"
    then [("period", urlencode period); ("year", urlencode y)]
    else [("period", urlencode period); ("year", urlencode y); ("month", urlencode m)].
Proof.
  unfold stats_params.
  destruct (String.eqb period "year"); simpl negb; cbv iota;
    rewrite query_params_toString by done; reflexivity.
Qed.

(** C5 (amended). When the period and year controls are present,
    [loadBookStats] sends one request whose query string has the period
    and the year, and has the month exactly when the period is not [year]
    (so, of the two periods, exactly for [month]). The month sent is the
    value of the month control as it stands, or 1 without the control; it
    is not checked to be a number from 1 to 12. *)
Theorem stats_query_parameters (st : State) (periodEl yearEl : element) :
  dom st !! "stats-period" = Some periodEl →
  dom st !! "stats-year" = Some yearEl →
  ∃ qs,
    loadBookStats st =
      (set_requests (requests st ++ [statsApiUrl st +:+ "?" +:+ qs])%list st, Ok ()) ∧
    query_param "period" qs = Some (urlencode (value periodEl)) ∧
    query_param "year" qs = Some (urlencode (value yearEl)) ∧
    query_param "month" qs =
      (if String.eqb (value periodEl) "year" then None
       else Some (urlencode (month_value st))).
Proof.
  intros Hp Hy. eexists. split; [by apply loadBookStats_request |].
  unfold query_param. rewrite stats_params_read.
  destruct (String.eqb (value periodEl) "year"); done.
Qed.

(** C10. With the period and year controls present, the month control
    absent and a period other than [year], [loadBookStats] still sends the
    request, and its query string ends with [month=1]. *)
Theorem month_fallback_is_one (st : State) (periodEl yearEl : element) :
  dom st !! "stats-period" = Some periodEl →
  dom st !! "stats-year" = Some yearEl →
  dom st !! "stats-month" = None →
  value periodEl ≠ "year" →
  let qs := "period=" +:+ urlencode (value periodEl) +:+
            "&year=" +:+ urlencode (value yearEl) +:+ "&month=1" in
  loadBookStats st =
    (set_requests (requests st ++ [statsApiUrl st +:+ "?" +:+ qs])%list st, Ok ()) ∧
  query_param "month" qs = Some "1".
Proof.
  intros Hp Hy Hm Hne qs.
  assert (Hqs : params_toString (stats_params (value periodEl) (value yearEl) "1") = qs).
  { unfold stats_params. apply String.eqb_neq in Hne. rewrite Hne.
    unfold qs, params_toString. simpl. by rewrite !append_assoc. }
  split.
  - rewrite (loadBookStats_request st periodEl yearEl Hp Hy).
    unfold month_value. rewrite Hm, Hqs. done.
  - unfold query_param. rewrite <- Hqs, stats_params_read.
    apply String.eqb_neq in Hne. rewrite Hne. done.
Qed.

(** * The rest of the script *)

(** ** [escapeHtml] *)

Lemma count_char_append (c : ascii) (s t : string) :
  count_char c (s +:+ t) = (count_char c s + count_char c t)%nat.
Proof.
  induction s as [|a s IH]; [done |].
  rewrite append_cons. simpl. rewrite IH. lia.
Qed.

Lemma count_char_concat_all (c : ascii) (l : list string) :
  count_char c (concat_all l) = foldr (λ s n, (count_char c s + n)%nat) 0%nat l.
Proof.
  unfold concat_all. induction l as [|s l IH]; [done |].
  destruct l as [|s' l]; simpl in *.
  - lia.
  - rewrite count_char_append, append_nil_l, IH. done.
Qed.

Lemma html_escape_cons (c : ascii) (s : string) :
  html_escape (String c s) =
    if Ascii.eqb c "&" then "&amp;" +:+ html_escape s
    else if Ascii.eqb c "<" then "&lt;" +:+ html_escape s
    else if Ascii.eqb c ">" then "&gt;" +:+ html_escape s
    else match s with
         | String c' s' =>
             if Ascii.eqb c "194" && Ascii.eqb c' "160"
             then "&nbsp;" +:+ html_escape s'
             else String c (html_escape s)
         | EmptyString => String c EmptyString
         end.
Proof. reflexivity. Qed.

(** The markup of a text node has no angle bracket. *)
Lemma html_escape_no_bracket (c : ascii) (s : string) :
  c = "<"%char ∨ c = ">"%char → count_char c (html_escape s) = 0%nat.
Proof.
  intros Hc.
  assert (H : ∀ n s, (String.length s < n)%nat → count_char c (html_escape s) = 0%nat).
  { clear s. induction n as [|n IH]; intros s Hn; [lia |].
    destruct s as [|a s]; [done |]. simpl in Hn.
    rewrite html_escape_cons.
    destruct (Ascii.eqb a "&") eqn:E1.
    { rewrite count_char_append, IH by lia. by destruct Hc as [-> | ->]. }
    destruct (Ascii.eqb a "<") eqn:E2.
    { rewrite count_char_append, IH by lia. by destruct Hc as [-> | ->]. }
    destruct (Ascii.eqb a ">") eqn:E3.
    { rewrite count_char_append, IH by lia. by destruct Hc as [-> | ->]. }
    assert (Ha : Ascii.eqb a c = false) by (by destruct Hc as [-> | ->]).
    destruct s as [|a' s'].
    { simpl. by rewrite Ha. }
    destruct (Ascii.eqb a "194" && Ascii.eqb a' "160").
    - rewrite count_char_append, IH by (simpl in Hn; lia). by destruct Hc as [-> | ->].
    - change (count_char c (String a ?x)) with
        ((if Ascii.eqb a c then 1 else 0) + count_char c x)%nat.
      rewrite Ha, IH by lia. done. }
  apply (H (S (String.length s))). lia.
Qed.

Lemma html_escape_plain (s : string) : plain_text s → html_escape s = s.
Proof.
  unfold plain_text. induction s as [|a s IH]; [done |].
  intros (H1 & H2 & H3 & H4). simpl in H1, H2, H3, H4.
  apply orb_false_iff in H1 as [H1 H1'], H2 as [H2 H2'], H3 as [H3 H3'], H4 as [H4 H4'].
  rewrite html_escape_cons, H1, H2, H3, H4. simpl.
  destruct s as [|a' s']; [done |]. by rewrite IH.
Qed.

(** X1. Whatever value [escapeHtml] is given, the markup it returns has no
    [<] and no [>]: the text cannot open or close a tag. A text without
    [&], [<], [>] and no-break space is returned as it is. *)
Theorem escapeHtml_has_no_tag (text : jval) :
  count_char "<" (escapeHtml text) = 0%nat ∧
  count_char ">" (escapeHtml text) = 0%nat ∧
  (plain_text (text_of text) → escapeHtml text = text_of text).
Proof.
  unfold escapeHtml. split_and!.
  - apply html_escape_no_bracket. by left.
  - apply html_escape_no_bracket. by right.
  - apply html_escape_plain.
Qed.

(** ** The activity feed *)

Lemma count_char_spaces (c : ascii) (n : nat) :
  c ≠ " "%char → count_char c (spaces n) = 0%nat.
Proof.
  intros Hc. induction n as [|n IH]; [done |]. cbn [spaces count_char]. rewrite IH.
  destruct (Ascii.eqb_spec " " c); [congruence | done].
Qed.

(** An entry whose properties can be read gives one item, with the eleven
    tags of the template and no other. *)
Lemma activity_item_ok (e : json) :
  readable (Some e) = true →
  ∃ s, activity_item (Some e) = Ok s ∧
       count_char "<" s = 11%nat ∧ count_char ">" s = 11%nat.
Proof.
  intros He. unfold activity_item.
  rewrite !(readable_jget (Some e)) by done. simpl bindR.
  eexists. split; [reflexivity |].
  rewrite !count_char_concat_all. cbn [foldr]. unfold escapeHtml.
  rewrite !(html_escape_no_bracket "<") by (by left).
  rewrite !(html_escape_no_bracket ">") by (by right).
  split; reflexivity.
Qed.

Lemma activity_item_null :
  activity_item (Some JNull) = Throw (TypeError "Cannot read properties of null").
Proof. reflexivity. Qed.

Lemma activity_items_ok (entries : list json) :
  Forall (λ e, readable (Some e) = true) entries →
  ∃ items, mapR (λ j, activity_item (Some j)) entries = Ok items ∧
           length items = length entries ∧
           Forall (λ s, count_char "<" s = 11%nat ∧ count_char ">" s = 11%nat) items.
Proof.
  induction 1 as [|e entries He _ (items & Hi & Hlen & Hall)]; simpl.
  - by exists [].
  - destruct (activity_item_ok e He) as (s & -> & Hs). rewrite Hi. simpl.
    exists (s :: items). split_and!; [done | simpl; by rewrite Hlen | by constructor].
Qed.

Lemma activity_items_null (entries : list json) :
  JNull ∈ entries →
  mapR (λ j, activity_item (Some j)) entries =
    Throw (TypeError "Cannot read properties of null").
Proof.
  induction entries as [|e entries IH]; [by intros ?%elem_of_nil |].
  intros [<-|Hin]%elem_of_cons; [done |]. simpl.
  destruct (readable (Some e)) eqn:He.
  - destruct (activity_item_ok e He) as (s & -> & _). simpl. by rewrite IH.
  - by destruct e.
Qed.

Lemma count_char_items (c : ascii) (k : nat) (items : list string) :
  Forall (λ s, count_char c s = k) items →
  count_char c (concat_all items) = (k * length items)%nat.
Proof.
  intros H. rewrite count_char_concat_all.
  induction H as [|s items Hs _ IH]; simpl; [lia |]. rewrite Hs, IH. lia.
Qed.

Lemma gt_zero_length (n : nat) :
  gt_zero (Some (JNum (inject_Z (Z.of_nat n)))) = bool_decide (0 < n)%nat.
Proof.
  unfold gt_zero, to_number. destruct n as [|n]; [done |].
  rewrite bool_decide_true by lia. reflexivity.
Qed.

Lemma field_jget (v : jval) (k : string) (j : json) :
  field v k = Some j → jget v k = Ok (Some j).
Proof. unfold field. destruct (jget v k); [by intros -> | done]. Qed.

(** The activity callback on a payload whose [activities] is the array
    [entries], on a page with the list. *)
Lemma activity_then_array (data : json) (entries : list json) (st : State) :
  field (Some data) "activities" = Some (JArr entries) →
  is_Some (dom st !! "recent-activity-list") →
  activity_then data st =
    match entries with
    | [] =>
        (set_dom (alter (set_contents (Html "<p>No recent activity</p>"))
                        "recent-activity-list" (dom st)) st, Ok ())
    | _ =>
        match mapR (λ e, activity_item (Some e)) entries with
        | Ok items =>
            (set_dom (alter (set_contents (Html (concat_all items)))
                            "recent-activity-list" (dom st)) st, Ok ())
        | Throw e => (st, Throw e)
        end
    end.
Proof.
  intros Hf%field_jget [el Hel].
  unfold activity_then, mbind, M_bind, bindM, liftR, getElementById,
    update_element, modify, mret, M_ret, retM.
  rewrite Hel, Hf. cbn [jtruthy jget String.eqb Ascii.eqb Bool.eqb].
  rewrite gt_zero_length.
  destruct entries as [|e entries]; [done |].
  rewrite bool_decide_true by (simpl; lia).
  unfold jmap. by destruct (mapR _ (e :: entries)).
Qed.

(** X2. When the activity request resolves to a payload whose
    [activities] is a non-empty array of entries that are not [null], and
    the page has the list, the list's markup becomes one item per entry,
    in the payload's order. The markup has the eleven tags of the template
    for each entry and no other [<] or [>], whatever the entries hold. *)
Theorem activity_list_shows_entries (o : fetch_outcome) (data : json)
    (entries : list json) (st : State) :
  fetchJSON o = Ok data →
  field (Some data) "activities" = Some (JArr entries) →
  entries ≠ [] →
  Forall (λ e, readable (Some e) = true) entries →
  is_Some (dom st !! "recent-activity-list") →
  ∃ items,
    Forall2 (λ e s, activity_item (Some e) = Ok s) entries items ∧
    loadRecentActivity_settled o st =
      (set_dom (alter (set_contents (Html (concat_all items)))
                      "recent-activity-list" (dom st)) st, Ok ()) ∧
    count_char "<" (concat_all items) = (11 * length entries)%nat ∧
    count_char ">" (concat_all items) = (11 * length entries)%nat.
Proof.
  intros Ho Hf Hne Hall Hel.
  destruct (activity_items_ok entries Hall) as (items & Hitems & Hlen & Hcount).
  exists items. split_and!.
  - by apply mapR_ok.
  - unfold loadRecentActivity_settled, try_catch, activity_chain, mbind, M_bind, bindM,
      liftR.
    rewrite Ho, (activity_then_array data entries st Hf Hel), Hitems.
    by destruct entries.
  - rewrite <- Hlen. apply count_char_items.
    eapply Forall_impl; [exact Hcount |]. by intros s [? _].
  - rewrite <- Hlen. apply count_char_items.
    eapply Forall_impl; [exact Hcount |]. by intros s [_ ?].
Qed.

(** X3. When the activity request resolves to a payload: on a page without
    the list nothing changes, whatever the payload holds. A payload object
    whose [activities] is missing, [null] or the empty array makes the list
    show [No recent activity]. An array with a [null] entry makes the whole
    list show the error text, with the error logged: no item of the other
    entries is shown. *)
Theorem activity_list_fallbacks (o : fetch_outcome) (data : json) (st : State) :
  fetchJSON o = Ok data →
  (dom st !! "recent-activity-list" = None →
     loadRecentActivity_settled o st = (st, Ok ())) ∧
  (readable (Some data) = true →
   field (Some data) "activities" ∈ [None; Some JNull; Some (JArr [])] →
     loadRecentActivity_settled o st =
       (set_dom (alter (set_contents (Html "<p>No recent activity</p>"))
                       "recent-activity-list" (dom st)) st, Ok ())) ∧
  (∀ entries,
     field (Some data) "activities" = Some (JArr entries) → JNull ∈ entries →
     is_Some (dom st !! "recent-activity-list") →
     loadRecentActivity_settled o st =
       (set_dom (alter (set_contents (Html "<p>Error loading recent activity</p>"))
                       "recent-activity-list" (dom st))
          (set_console
             (console st ++ [(LogError, "Error loading activity:",
                              TypeError "Cannot read properties of null")])%list st),
        Ok ())).
Proof.
  intros Ho.
  assert (Hchain : loadRecentActivity_settled o st =
                     match activity_then data st with
                     | (st', Ok a) => (st', Ok a)
                     | (st', Throw e) => activity_catch e st'
                     end).
  { unfold loadRecentActivity_settled, try_catch, activity_chain, mbind, M_bind, bindM,
      liftR. by rewrite Ho. }
  rewrite Hchain. clear Hchain. split_and!.
  - intros Hel. unfold activity_then, mbind, M_bind, bindM, getElementById.
    by rewrite Hel.
  - intros Hdata Hacts.
    unfold activity_then, mbind, M_bind, bindM, liftR, getElementById,
      update_element, modify, mret, M_ret, retM.
    destruct (dom st !! "recent-activity-list") eqn:Hel.
    + rewrite (readable_jget (Some data)) by done.
      set_unfold. destruct Hacts as [->|[->|[->|[]]]]; reflexivity.
    + rewrite alter_absent by done. by rewrite set_dom_same.
  - intros entries Hf Hin Hel.
    rewrite (activity_then_array data entries st Hf Hel).
    rewrite (activity_items_null entries Hin).
    destruct entries as [|e entries]; [by apply elem_of_nil in Hin |].
    apply activity_catch_eq.
Qed.

(** ** [buildBarColors] *)

Lemma bar_colors_lookup (n i : nat) :
  (i < n)%nat →
  bar_colors n !! i =
    Some (VStr (default EmptyString (base_colors !! (i mod length base_colors)%nat))).
Proof.
  intros Hi. unfold bar_colors. rewrite list_lookup_fmap, lookup_seq_lt by done. done.
Qed.

(** X4. For an array length [n], [buildBarColors(n)] returns a new array of
    [n] colours and changes no other object. Colour [i] is entry [i mod 10]
    of the ten base colours, so the colours repeat after ten entries. *)
Theorem buildBarColors_cycles (n : nat) (h : heap) :
  buildBarColors (num_of_nat n) h =
    ((h ++ [Obj (Some (bar_colors n)) []])%list, Ok (VRef (length h))) ∧
  length (bar_colors n) = n ∧
  (∀ i, (i < n)%nat →
        ∃ c, bar_colors n !! i = Some (VStr c) ∧ base_colors !! (i mod 10)%nat = Some c) ∧
  (∀ i, (i + 10 < n)%nat → bar_colors n !! (i + 10)%nat = bar_colors n !! i).
Proof.
  split_and!.
  - unfold buildBarColors. by rewrite turns_num_of_nat.
  - unfold bar_colors. by rewrite length_map, length_seq.
  - intros i Hi. rewrite bar_colors_lookup by done.
    change (length base_colors) with 10%nat.
    destruct (lookup_lt_is_Some_2 base_colors (i mod 10)) as [c Hc].
    { change (length base_colors) with 10%nat. apply Nat.mod_upper_bound. lia. }
    exists c. by rewrite Hc.
  - intros i Hi. rewrite !bar_colors_lookup by lia.
    change (length base_colors) with 10%nat.
    replace ((i + 10) mod 10)%nat with (i mod 10)%nat; [done |].
    replace (i + 10)%nat with (i + 1 * 10)%nat by lia.
    by rewrite Nat.Div0.mod_add.
Qed.

(** ** The controls *)

(** X5. [loadBookStats] never throws and changes nothing but the list of
    requests, to which it adds at most one URL; it adds none exactly when
    the period or the year control is missing from the page. *)
Theorem loadBookStats_effect (st : State) :
  ∃ urls,
    loadBookStats st = (set_requests (requests st ++ urls)%list st, Ok ()) ∧
    (length urls ≤ 1)%nat ∧
    (urls = [] ↔ dom st !! "stats-period" = None ∨ dom st !! "stats-year" = None).
Proof.
  destruct (dom st !! "stats-period") as [periodEl|] eqn:Hp;
    [destruct (dom st !! "stats-year") as [yearEl|] eqn:Hy |].
  - eexists [_]. rewrite (loadBookStats_request st periodEl yearEl Hp Hy).
    split_and!; [done | simpl; lia |]. split; [done | by intros [|]].
  - exists []. rewrite loadBookStats_disabled by (right; done).
    rewrite app_nil_r. split_and!; [by destruct st | simpl; lia | by split; [right |]].
  - exists []. rewrite loadBookStats_disabled by (left; done).
    rewrite app_nil_r. split_and!; [by destruct st | simpl; lia | by split; [left |]].
Qed.

Ltac look_up :=
  repeat first [ rewrite lookup_alter_eq | rewrite lookup_alter_ne by done ].


(** What [setupStatsControls] does on a page with the three controls. *)
Lemma setupStatsControls_present (year month0 : Z) (st : State) (p y m : element) :
  dom st !! "stats-period" = Some p → dom st !! "stats-year" = Some y →
  dom st !! "stats-month" = Some m →
  let st' := (setupStatsControls year month0 st).1 in
  let display := if String.eqb (value p) "year" then "none" else "inline-block" in
  let both ls := add_listener "input" LoadBookStats
                   (add_listener "change" LoadBookStats ls) in
  (setupStatsControls year month0 st).2 = Ok () ∧
  dom st' !! "stats-period" =
    Some (set_listeners
            (add_listener "change" (Closure (next_fn st) OnPeriodChange) (listeners p))
            p) ∧
  dom st' !! "stats-year" =
    Some (Element (contents y) (pretty year) (style_display y) (both (listeners y))) ∧
  dom st' !! "stats-month" =
    Some (Element (contents m) (pretty (month0 + 1)) display (both (listeners m))) ∧
  dom st' !! "label-month" = set_style_display display <$> dom st !! "label-month" ∧
  (∀ id, id ∉ ["stats-period"; "stats-year"; "stats-month"; "label-month"] →
         dom st' !! id = dom st !! id) ∧
  requests st' = requests st ∧ charts st' = charts st ∧
  statsApiUrl st' = statsApiUrl st ∧ next_fn st' = S (next_fn st) ∧
  activityApiUrl st' = activityApiUrl st.
Proof.
  intros Hp Hy Hm.
  unfold setupStatsControls, mbind, M_bind, bindM, getElementById.
  rewrite Hp, Hy, Hm. cbv beta iota.
  unfold toggleMonthVisibility, listen, addEventListener, function_expression,
    update_element, modify, value_of, getElementById, mbind, M_bind, bindM, mret,
    M_ret, retM.
  cbn [dom set_dom set_next_fn next_fn].
  look_up. rewrite Hp. cbn [fmap option_fmap option_map value set_listeners].
  destruct (dom st !! "label-month") as [l|] eqn:Hl; cbv beta iota zeta;
    cbn [dom set_dom set_next_fn fst snd requests charts statsApiUrl next_fn
         activityApiUrl];
    look_up; rewrite ?Hp, ?Hy, ?Hm, ?Hl; split_and!; try reflexivity.
  all: intros id Hid; repeat (rewrite lookup_alter_ne by (intros <-; set_solver)); done.
Qed.

Lemma setupStatsControls_absent (year month0 : Z) (st : State) :
  dom st !! "stats-period" = None ∨ dom st !! "stats-year" = None ∨
  dom st !! "stats-month" = None →
  setupStatsControls year month0 st = (st, Ok ()).
Proof.
  unfold setupStatsControls, mbind, M_bind, bindM, getElementById.
  intros [H|[H|H]]; rewrite H; repeat case_match; reflexivity.
Qed.

(** X6. [setupStatsControls] does nothing when one of the three controls
    is missing. When they are there, the year control holds the current
    year and the month control the current month, counted from one; the
    month control, and its label if the page has one, are hidden exactly
    when the period control holds [year]; the period control has one more
    [change] listener, the year and the month control have [loadBookStats]
    registered for [change] and [input]; no other element is touched and
    no request is sent. *)
Theorem setupStatsControls_effect (year month0 : Z) (st : State) :
  (dom st !! "stats-period" = None ∨ dom st !! "stats-year" = None ∨
   dom st !! "stats-month" = None →
     setupStatsControls year month0 st = (st, Ok ())) ∧
  (∀ p y m,
     dom st !! "stats-period" = Some p → dom st !! "stats-year" = Some y →
     dom st !! "stats-month" = Some m →
     let st' := (setupStatsControls year month0 st).1 in
     let display := if String.eqb (value p) "year" then "none" else "inline-block" in
     let both ls := add_listener "input" LoadBookStats
                      (add_listener "change" LoadBookStats ls) in
     (setupStatsControls year month0 st).2 = Ok () ∧
     dom st' !! "stats-period" =
       Some (set_listeners
               (add_listener "change" (Closure (next_fn st) OnPeriodChange) (listeners p))
               p) ∧
     dom st' !! "stats-year" =
       Some (Element (contents y) (pretty year) (style_display y) (both (listeners y))) ∧
     dom st' !! "stats-month" =
       Some (Element (contents m) (pretty (month0 + 1)) display (both (listeners m))) ∧
     dom st' !! "label-month" = set_style_display display <$> dom st !! "label-month" ∧
     (∀ id, id ∉ ["stats-period"; "stats-year"; "stats-month"; "label-month"] →
            dom st' !! id = dom st !! id) ∧
     requests st' = requests st ∧ charts st' = charts st).
Proof.
  split; [apply setupStatsControls_absent |].
  intros p y m Hp Hy Hm.
  destruct (setupStatsControls_present year month0 st p y m Hp Hy Hm)
    as (H1 & H2 & H3 & H4 & H5 & H6 & H7 & H8 & _).
  cbv zeta. split_and!; assumption.
Qed.

(** ** [init] *)

Lemma init_eq (a b : string) (z : zoom_plugin) (year month0 : Z) (st : State) :
  init a b z year month0 st =
    (fetch a;; fetch b;; setupStatsControls year month0;; loadBookStats)
      (registerZoomPlugin z (set_urls a b st)).1.
Proof. destruct z; reflexivity. Qed.

Lemma registerZoomPlugin_frame (z : zoom_plugin) (st : State) :
  let st' := (registerZoomPlugin z st).1 in
  dom st' = dom st ∧ requests st' = requests st ∧
  statsApiUrl st' = statsApiUrl st ∧ activityApiUrl st' = activityApiUrl st.
Proof. by destruct z. Qed.

(** X7. [init] never throws. It stores the two URLs and requests the
    summary and the activity feed, in this order. On a page with the three
    controls it then requests the statistics of the current year and
    month, whatever the year and month controls held, for the period the
    period control holds. Without the month control, the controls keep
    their values and the statistics are requested for the year control's
    value and month 1; without the period or the year control no
    statistics are requested. *)
Theorem init_requests (a b : string) (z : zoom_plugin) (year month0 : Z) (st : State) :
  let st' := (init a b z year month0 st).1 in
  (init a b z year month0 st).2 = Ok () ∧
  statsApiUrl st' = a ∧ activityApiUrl st' = b ∧
  (∀ p y m,
     dom st !! "stats-period" = Some p → dom st !! "stats-year" = Some y →
     dom st !! "stats-month" = Some m →
     requests st' =
       (requests st ++
        [a; b;
         a +:+ "?" +:+
         params_toString (stats_params (value p) (pretty year) (pretty (month0 + 1)))])%list) ∧
  (∀ p y,
     dom st !! "stats-period" = Some p → dom st !! "stats-year" = Some y →
     dom st !! "stats-month" = None →
     requests st' =
       (requests st ++
        [a; b; a +:+ "?" +:+ params_toString (stats_params (value p) (value y) "1")])%list) ∧
  (dom st !! "stats-period" = None ∨ dom st !! "stats-year" = None →
     requests st' = (requests st ++ [a; b])%list).
Proof.
  intros st'. subst st'. rewrite init_eq.
  destruct (registerZoomPlugin_frame z (set_urls a b st)) as (Hd & Hr & Hs & Ha).
  set (S0 := (registerZoomPlugin z (set_urls a b st)).1) in *.
  simpl in Hd, Hr, Hs, Ha.
  set (S2 := set_requests ((requests S0 ++ [a]) ++ [b])%list S0).
  assert (E : (fetch a;; fetch b;; setupStatsControls year month0;; loadBookStats) S0 =
              (setupStatsControls year month0;; loadBookStats) S2) by reflexivity.
  rewrite E. clear E.
  assert (Hd2 : dom S2 = dom st) by done.
  assert (Hr2 : requests S2 = (requests st ++ [a; b])%list).
  { simpl. by rewrite Hr, <- app_assoc. }
  assert (Hs2 : statsApiUrl S2 = a) by done.
  assert (Ha2 : activityApiUrl S2 = b) by done.
  clearbody S2. clear S0 Hd Hr Hs Ha.
  unfold mbind, M_bind, bindM.
  destruct (dom st !! "stats-period") as [p|] eqn:Hp;
    [destruct (dom st !! "stats-year") as [y|] eqn:Hy;
       [destruct (dom st !! "stats-month") as [m|] eqn:Hm |] |].
  - rewrite <- Hd2 in Hp, Hy, Hm.
    destruct (setupStatsControls_present year month0 S2 p y m Hp Hy Hm)
      as (Hok & Hp' & Hy' & Hm' & _ & _ & Hreq & _ & Hurl & _ & Hact).
    destruct (setupStatsControls year month0 S2) as [S3 r]. simpl in *. subst r.
    rewrite (loadBookStats_request S3 _ _ Hp' Hy'). simpl.
    split_and!; try done; try congruence.
    + intros ? ? ? [= <-] _ _. unfold month_value. rewrite Hm'. simpl.
      by rewrite Hreq, Hr2, Hurl, Hs2, <- app_assoc.
    + by intros [|].
  - rewrite setupStatsControls_absent by (right; right; congruence).
    rewrite <- Hd2 in Hp, Hy.
    rewrite (loadBookStats_request S2 p y Hp Hy). simpl.
    split_and!; try done.
    + intros ? ? [= <-] [= <-] _. unfold month_value. rewrite Hd2, Hm.
      by rewrite Hr2, Hs2, <- app_assoc.
    + by intros [|].
  - rewrite setupStatsControls_absent by (right; left; congruence).
    rewrite loadBookStats_disabled by (right; congruence). simpl.
    split_and!; try done.
  - rewrite setupStatsControls_absent by (left; congruence).
    rewrite loadBookStats_disabled by (left; congruence). simpl.
    split_and!; try done.
Qed.

(** ** Events on the controls *)

(** The state [init] leaves on a page with the three controls. *)
Lemma init_present (a b : string) (z : zoom_plugin) (year month0 : Z) (st : State)
    (p y m : element) :
  dom st !! "stats-period" = Some p → dom st !! "stats-year" = Some y →
  dom st !! "stats-month" = Some m →
  let st' := (init a b z year month0 st).1 in
  let display := if String.eqb (value p) "year" then "none" else "inline-block" in
  let both ls := add_listener "input" LoadBookStats
                   (add_listener "change" LoadBookStats ls) in
  dom st' !! "stats-period" =
    Some (set_listeners
            (add_listener "change" (Closure (next_fn st) OnPeriodChange) (listeners p))
            p) ∧
  dom st' !! "stats-year" =
    Some (Element (contents y) (pretty year) (style_display y) (both (listeners y))) ∧
  dom st' !! "stats-month" =
    Some (Element (contents m) (pretty (month0 + 1)) display (both (listeners m))) ∧
  statsApiUrl st' = a.
Proof.
  intros Hp Hy Hm. cbv zeta. rewrite init_eq.
  destruct (registerZoomPlugin_frame z (set_urls a b st)) as (Hd & _ & Hs & _).
  assert (Hn : next_fn (registerZoomPlugin z (set_urls a b st)).1 = next_fn st)
    by (by destruct z).
  set (S0 := (registerZoomPlugin z (set_urls a b st)).1) in *.
  simpl in Hd, Hs.
  set (S2 := set_requests ((requests S0 ++ [a]) ++ [b])%list S0).
  assert (E : (fetch a;; fetch b;; setupStatsControls year month0;; loadBookStats) S0 =
              (setupStatsControls year month0;; loadBookStats) S2) by reflexivity.
  rewrite E. clear E.
  assert (Hd2 : dom S2 = dom st) by done.
  assert (Hs2 : statsApiUrl S2 = a) by done.
  assert (Hn2 : next_fn S2 = next_fn st) by done.
  clearbody S2. clear S0 Hd Hs Hn.
  unfold mbind, M_bind, bindM.
  rewrite <- Hd2 in Hp, Hy, Hm.
  destruct (setupStatsControls_present year month0 S2 p y m Hp Hy Hm)
    as (Hok & Hp' & Hy' & Hm' & _ & _ & _ & _ & Hurl & _).
  destruct (setupStatsControls year month0 S2) as [S3 r]. simpl in *. subst r.
  rewrite (loadBookStats_request S3 _ _ Hp' Hy'). simpl.
  rewrite <- Hn2. split_and!; congruence.
Qed.

Lemma toggleMonthVisibility_eq (st : State) :
  toggleMonthVisibility st =
    let display :=
      if String.eqb (default EmptyString (value <$> dom st !! "stats-period")) "year"
      then "none" else "inline-block" in
    (set_dom (alter (set_style_display display) "label-month"
                (alter (set_style_display display) "stats-month" (dom st))) st, Ok ()).
Proof.
  unfold toggleMonthVisibility, mbind, M_bind, bindM, value_of, update_element, modify,
    getElementById.
  cbn [dom set_dom]. rewrite lookup_alter_ne by done.
  destruct (dom st !! "stats-period") as [p|]; cbn [fmap option_fmap option_map default];
    destruct (dom st !! "label-month") eqn:Hl; cbv beta iota zeta; cbn [dom set_dom];
    try reflexivity.
  all: rewrite (alter_absent _ "label-month")
         by (by rewrite lookup_alter_ne by done); reflexivity.
Qed.

Lemma fire_eq (id type : string) (st : State) (el : element) :
  dom st !! id = Some el → fire id type st = dispatch false type (listeners el) st.
Proof. intros H. unfold fire. by rewrite H. Qed.

Lemma period_change_eq (st : State) (p y : element) :
  dom st !! "stats-period" = Some p → dom st !! "stats-year" = Some y →
  (toggleMonthVisibility;; loadBookStats) st =
    let display := if String.eqb (value p) "year" then "none" else "inline-block" in
    let d := alter (set_style_display display) "label-month"
               (alter (set_style_display display) "stats-month" (dom st)) in
    (set_requests
       (requests st ++
        [statsApiUrl st +:+ "?" +:+
         params_toString (stats_params (value p) (value y) (month_value st))])%list
       (set_dom d st), Ok ()).
Proof.
  intros Hp Hy. unfold mbind, M_bind, bindM. rewrite toggleMonthVisibility_eq.
  rewrite Hp. cbn [fmap option_fmap option_map default]. cbv zeta.
  erewrite loadBookStats_request;
    [| cbn [dom set_dom]; look_up; exact Hp | cbn [dom set_dom]; look_up; exact Hy].
  unfold month_value. cbn [dom set_dom requests statsApiUrl]. look_up.
  by destruct (dom st !! "stats-month").
Qed.

Lemma dispatch_cons_match (o : bool) (type : string) (f : callback) (ls : list listener)
    (st st' : State) :
  call o f st = (st', Ok ()) →
  dispatch o type (Listener type f :: ls) st = dispatch o type ls st'.
Proof.
  intros H. cbn [dispatch on handler]. rewrite String.eqb_refl.
  unfold try_catch, mbind, M_bind, bindM. by rewrite H.
Qed.

Lemma dispatch_cons_skip (o : bool) (type : string) (l : listener) (ls : list listener)
    (st : State) :
  String.eqb (on l) type = false →
  dispatch o type (l :: ls) st = dispatch o type ls st.
Proof. intros H. cbn [dispatch]. by rewrite H. Qed.

(** X8. After [init] on a page with the three controls and no listeners
    of its own, changing a control sends one statistics request with the
    values the controls then hold: a [change] of the period control, which
    also shows or hides the month control for the new period, and a
    [change] or an [input] of the year or the month control. *)
Theorem control_events_reload (page : gmap string element) (a b : string)
    (z : zoom_plugin) (year month0 : Z) (p y m : element) :
  unscripted page →
  page !! "stats-period" = Some p → page !! "stats-year" = Some y →
  page !! "stats-month" = Some m →
  let st0 := run [EvInit a b z year month0] (initial page) in
  let query period' y' m' :=
    a +:+ "?" +:+ params_toString (stats_params period' y' m') in
  (∀ v,
     let st1 := run [EvEdit "stats-period" v; EvFire "stats-period" "change"] st0 in
     requests st1 = (requests st0 ++ [query v (pretty year) (pretty (month0 + 1))])%list ∧
     style_display <$> dom st1 !! "stats-month" =
       Some (if String.eqb v "year" then "none" else "inline-block")) ∧
  (∀ v type,
     type ∈ ["change"; "input"] →
     requests (run [EvEdit "stats-year" v; EvFire "stats-year" type] st0) =
       (requests st0 ++ [query (value p) v (pretty (month0 + 1))])%list) ∧
  (∀ v type,
     type ∈ ["change"; "input"] →
     requests (run [EvEdit "stats-month" v; EvFire "stats-month" type] st0) =
       (requests st0 ++ [query (value p) (pretty year) v])%list).
Proof.
  intros Hun Hp Hy Hm st0 query.
  pose proof (Hun _ _ Hp) as Lp. pose proof (Hun _ _ Hy) as Ly.
  pose proof (Hun _ _ Hm) as Lm. simpl in Lp, Ly, Lm.
  destruct (init_present a b z year month0 (initial page) p y m Hp Hy Hm)
    as (Hp0 & Hy0 & Hm0 & Hurl).
  change (init a b z year month0 (initial page)).1 with st0 in *.
  rewrite Lp in Hp0. rewrite Ly in Hy0. rewrite Lm in Hm0.
  change (add_listener "input" LoadBookStats (add_listener "change" LoadBookStats []))
    with [Listener "change" LoadBookStats; Listener "input" LoadBookStats] in *.
  change (add_listener "change" (Closure (next_fn (initial page)) OnPeriodChange) [])
    with [Listener "change" (Closure 0 OnPeriodChange)] in *.
  clearbody st0.
  assert (Hrun : ∀ id v type,
            run [EvEdit id v; EvFire id type] st0 =
              (fire id type (set_dom (alter (set_value v) id (dom st0)) st0)).1)
    by reflexivity.
  split_and!.
  - intros v st1. subst st1. rewrite Hrun.
    erewrite fire_eq by (cbn [dom set_dom]; look_up; rewrite Hp0; reflexivity).
    cbn [listeners set_value set_listeners].
    erewrite dispatch_cons_match.
    2:{ apply period_change_eq; cbn [dom set_dom]; look_up;
          [rewrite Hp0 | rewrite Hy0]; reflexivity. }
    cbn [dispatch value set_value set_listeners fst snd requests set_requests set_dom dom
         statsApiUrl mret M_ret retM].
    unfold month_value. cbn [dom set_dom]. look_up. rewrite Hm0, Hurl.
    split; reflexivity.
  - intros v type Hty. rewrite Hrun.
    erewrite fire_eq by (cbn [dom set_dom]; look_up; rewrite Hy0; reflexivity).
    cbn [listeners set_value].
    assert (E : ∃ st', loadBookStats (set_dom (alter (set_value v) "stats-year" (dom st0)) st0)
                         = (st', Ok ()) ∧
                       requests st' =
                         (requests st0 ++ [query (value p) v (pretty (month0 + 1))])%list).
    { eexists. split.
      - apply loadBookStats_request; cbn [dom set_dom]; look_up;
          [rewrite Hp0 | rewrite Hy0]; reflexivity.
      - unfold month_value. cbn [dom set_dom requests set_requests statsApiUrl value].
        look_up. by rewrite Hm0, Hurl. }
    destruct E as (st' & E & Hreq).
    apply elem_of_cons in Hty as [->|Hty]; [| apply list_elem_of_singleton in Hty as ->].
    + erewrite dispatch_cons_match by exact E.
      rewrite dispatch_cons_skip by reflexivity. done.
    + rewrite dispatch_cons_skip by reflexivity.
      erewrite dispatch_cons_match by exact E. done.
  - intros v type Hty. rewrite Hrun.
    erewrite fire_eq by (cbn [dom set_dom]; look_up; rewrite Hm0; reflexivity).
    cbn [listeners set_value].
    assert (E : ∃ st', loadBookStats (set_dom (alter (set_value v) "stats-month" (dom st0)) st0)
                         = (st', Ok ()) ∧
                       requests st' =
                         (requests st0 ++ [query (value p) (pretty year) v])%list).
    { eexists. split.
      - apply loadBookStats_request; cbn [dom set_dom]; look_up;
          [rewrite Hp0 | rewrite Hy0]; reflexivity.
      - unfold month_value. cbn [dom set_dom requests set_requests statsApiUrl value].
        look_up. by rewrite Hm0, Hurl. }
    destruct E as (st' & E & Hreq).
    apply elem_of_cons in Hty as [->|Hty]; [| apply list_elem_of_singleton in Hty as ->].
    + erewrite dispatch_cons_match by exact E.
      rewrite dispatch_cons_skip by reflexivity. done.
    + rewrite dispatch_cons_skip by reflexivity.
      erewrite dispatch_cons_match by exact E. done.
Qed.

(** ** Clicks in the modal *)

Lemma modal_inv_ext (st st' : State) :
  modal st' = modal st → modal_inv st → modal_inv st'.
Proof. intros E HI m. rewrite E. apply HI. Qed.

Lemma modal_inv_update (f : Modal → Modal) :
  (∀ m, close_listeners (f m) = close_listeners m ∧
        overlay_listeners (f m) = overlay_listeners m ∧
        reset_listeners (f m) = reset_listeners m) →
  preserves modal_inv (update_modal f).
Proof.
  intros Hf st HI m. simpl. destruct (modal st) as [m0|] eqn:E; [| done].
  intros [= <-]. destruct (Hf m0) as (-> & -> & ->). by apply HI.
Qed.

Lemma modal_inv_ensureModal : preserves modal_inv ensureModal.
Proof.
  intros st HI. unfold ensureModal. destruct (modal st) as [m0|] eqn:E; [done |].
  intros m. simpl. intros [= <-]. by eexists _, _, _.
Qed.

Lemma modal_inv_open (c : option nat) (title : string) :
  preserves modal_inv (openModalForChart c title).
Proof.
  unfold openModalForChart.
  apply preserves_bind; [apply modal_inv_ensureModal | intros _].
  apply preserves_bind; [by apply modal_inv_update | intros _].
  apply preserves_bind; [apply preserves_config_of | intros src].
  apply preserves_bind; [by apply preserves_liftH | intros cfg].
  apply preserves_bind; [| intros _; by apply modal_inv_update].
  intros st HI. rewrite replace_modal_chart_eq. exact HI.
Qed.

(** The modal has its three listeners after every event. *)
Lemma modal_inv_run (es : list event) (st : State) :
  modal_inv st → modal_inv (run es st).
Proof.
  apply run_keeps.
  1-6: intros; (eapply modal_inv_ext; [| eassumption]); done.
  - intros id type body st' HI. rewrite listen_eq. exact HI.
  - intros id type st' HI. exact HI.
  - intros s type config title st' HI. rewrite install_eq. cbv zeta.
    destruct (config (store st')) as [h [cfg|e]]; [rewrite listen_eq |]; exact HI.
  - apply modal_inv_open.
  - intros st' HI. rewrite closeModal_eq.
    intros m. simpl. destruct (modal st') as [m0|] eqn:E; [| done].
    simpl. intros [= <-]. simpl. by apply HI.
Qed.

(** X9. After any run of events, a click inside the modal's content or on
    its reset button neither closes the modal nor destroys a chart. A
    click on the overlay itself or on the close button does what
    [closeModal] does: the modal is hidden, the modal chart is destroyed
    and its variable emptied. Before the modal has been built a click has
    no effect. *)
Theorem modal_closes_on_overlay_and_button (page : gmap string element)
    (es : list event) :
  let st := run es (initial page) in
  (∀ t, t = OnContent ∨ t = OnResetButton →
     let st1 := (modal_click t st).1 in
     (modal_click t st).2 = Ok () ∧ modal st1 = modal st ∧ charts st1 = charts st ∧
     modalChartInstance st1 = modalChartInstance st) ∧
  (∀ t, t = OnOverlay ∨ t = OnCloseButton → is_Some (modal st) →
     let st1 := (modal_click t st).1 in
     modal_click t st = closeModal st ∧
     modal_display <$> modal st1 = Some "none" ∧
     modalChartInstance st1 = None ∧
     live_count modal_canvas st1 = 0%nat) ∧
  (modal st = None → ∀ t, modal_click t st = (st, Ok ())).
Proof.
  intros st.
  assert (HM : modal_inv st) by (by apply modal_inv_run).
  assert (HC : charts_inv st) by apply charts_inv_run, charts_inv_initial.
  split_and!.
  - intros t Ht. unfold modal_click.
    destruct (modal st) as [m|] eqn:E; [| done].
    destruct (HM m E) as (a & b & c & Hc & Ho & Hr).
    destruct Ht as [-> | ->]; rewrite ?Ho, ?Hr; simpl; by rewrite E.
  - intros t Ht [m E].
    destruct (HM m E) as (a & b & c & Hc & Ho & Hr).
    assert (Hclick : modal_click t st = closeModal st).
    { unfold modal_click. rewrite E.
      destruct Ht as [-> | ->]; rewrite ?Hc, ?Ho.
      - erewrite dispatch_cons_match by apply closeModal_eq.
        by rewrite closeModal_eq.
      - unfold mbind, M_bind, bindM.
        erewrite dispatch_cons_match by apply closeModal_eq.
        by rewrite closeModal_eq. }
    cbv zeta. rewrite Hclick, closeModal_eq. simpl. rewrite E.
    split_and!; try done.
    apply live_count_0. intros i. unfold live. simpl.
    intros [Hi Hne]%live_in_destroyed. destruct HC as [_ H2]. apply H2 in Hi. congruence.
  - intros E t. unfold modal_click. by rewrite E.
Qed.

(** ** The status chart and charts without their list *)

(** A render with one dataset, for any preparation of the labels, values
    and colours. *)
Definition dataset_render (s : slot) (type label title : string)
    (prep : val → H (val * val * val)) (options : H val) (data : val) : M () :=
  prep ← liftH (prep data);
  let '(labels, values, colors) := prep in
  ctx ← getElementById (canvas_id s);
  match ctx with
  | None => mret ()
  | Some _ =>
      install s type
        (d ← data_literal label labels values colors; o ← options; mret (d, o)) title
  end.

(** The preparation of the status chart: every entry of the list. *)
Definition status_entries (data : val) : H (val * val * val) :=
  sd ← get_prop data "status_distribution";
  sd ← or_else sd (new_array []);
  labels ← call_map sd (λ x, get_prop x "status");
  values ← call_map sd (λ x, get_prop x "total");
  n ← get_prop sd "length";
  colors ← buildBarColors n;
  mret (labels, values, colors).

Lemma renderLoanStatusChart_shape (data : val) :
  renderLoanStatusChart data =
    dataset_render LoanStatus "doughnut" "Yêu cầu" "Trạng thái yêu cầu mượn sách"
      status_entries doughnut_options data.
Proof. reflexivity. Qed.

Lemma one_dataset_render_shape (s : slot) (type label title list_key : string)
    (limit : nat) (label_key value_key : string) (options : H val) (data : val) :
  one_dataset_render s type label title list_key limit label_key value_key options data =
    dataset_render s type label title (prep_entries list_key limit label_key value_key)
      options data.
Proof. reflexivity. Qed.

Lemma dataset_render_spec (s : slot) (type label title : string)
    (prep : val → H (val * val * val)) (options : H val) (data : val) (st : State)
    (h : heap) (labels values colors : val) (L V C : list json) :
  prep data (store st) = (h, Ok (labels, values, colors)) →
  reads_as h labels (Some (JArr L)) →
  reads_as h values (Some (JArr V)) →
  reads_as h colors (Some (JArr C)) →
  (∀ h, ∃ k o, options h = ((h ++ k)%list, Ok o)) →
  is_Some (dom st !! canvas_id s) →
  ∃ st', dataset_render s type label title prep options data st = (st', Ok ()) ∧
         slot_shows s st' (chart_data label L V C).
Proof.
  intros Hprep HL HV HC Hopts [el Hel].
  destruct (data_literal_reads h label labels values colors _ _ _ HL HV HC)
    as (k1 & d & Hd & Hread).
  destruct (Hopts (h ++ k1)%list) as (k2 & o & Ho).
  eexists. split.
  - unfold dataset_render, mbind at 1, M_bind at 1, bindM at 1, liftH at 1.
    rewrite Hprep.
    unfold mbind at 1, M_bind at 1, bindM at 1, getElementById at 1.
    change (dom (set_store h st)) with (dom st). rewrite Hel.
    rewrite install_eq. cbv zeta.
    change (store (set_store h st)) with h.
    erewrite bindH_ok by exact Hd. erewrite bindH_ok by exact Ho.
    unfold mret, H_ret, retH. cbv beta iota. rewrite listen_eq. reflexivity.
  - exists (MkChart (canvas_id s) type d o true). split_and!.
    + unfold slot_chart. simpl. destruct s; simpl; apply lookup_snoc_chart.
    + done.
    + simpl. eapply reads_as_extends; [exact Hread | apply extends_app].
Qed.

Lemma members_assoc_none (h : heap) (kvs : list (string * json))
    (ps : list (string * val)) (k : string) :
  Forall2 (λ kj p, p.1 = kj.1 ∧ repr h kj.2 p.2) kvs ps →
  assoc k kvs = None → assoc k ps = None.
Proof.
  induction 1 as [|[k1 j] [k2 w] kvs ps [Hk Hr] _ IH]; simpl in *; [done |].
  subst k2. destruct (String.eqb k k1); [done | exact IH].
Qed.

(** Reading a member that is missing or [null] from a parsed object gives
    a value that is not truthy. *)
Lemma get_prop_missing (h : heap) (kvs : list (string * json)) (v : val) (k : string) :
  repr h (JObj kvs) v →
  assoc k kvs = None ∨ assoc k kvs = Some JNull →
  ∃ w, get_prop v k h = (h, Ok w) ∧ truthy w = false.
Proof.
  intros Hr Hk. inversion Hr as [| | | | |l kvs' ps Hl HF]; subst.
  unfold get_prop. rewrite Hl. eexists. split; [reflexivity |].
  unfold obj_get. simpl.
  destruct Hk as [Hk|Hk].
  - by rewrite (members_assoc_none h kvs ps k HF Hk).
  - pose proof (repr_members_assoc h kvs ps k HF) as Hw. rewrite Hk in Hw.
    simpl in Hw. by inversion Hw.
Qed.

(** The labels, values and colours of every element of a stored array of
    entries. *)
Lemma entries_tail_spec (h : heap) (la : nat) (vs : list val) (ps : list (string * val))
    (entries : list json) (label_key value_key : string) :
  h !! la = Some (Obj (Some vs) ps) →
  Forall2 (repr h) entries vs →
  Forall (λ e, readable (Some e) = true) entries →
  ∃ h' labels values colors,
    (labels ← call_map (VRef la) (λ x, get_prop x label_key);
     values ← call_map (VRef la) (λ x, get_prop x value_key);
     n ← get_prop (VRef la) "length";
     colors ← buildBarColors n;
     mret (labels, values, colors)) h = (h', Ok (labels, values, colors)) ∧
    reads_as h' labels (Some (JArr (column label_key entries))) ∧
    reads_as h' values (Some (JArr (column value_key entries))) ∧
    reads_as h' colors (Some (JArr (palette (length entries)))).
Proof.
  intros Hla HF Hall.
  destruct (call_map_get_prop h la label_key entries vs ps Hla HF Hall)
    as (ws1 & Hmap1 & Hread1).
  set (h1 := (h ++ [Obj (Some ws1) []])%list) in *.
  assert (Hl1 : h1 !! la = Some (Obj (Some vs) ps)) by (by apply lookup_app_l_Some).
  assert (HF1 : Forall2 (repr h1) entries vs).
  { eapply Forall2_impl; [exact HF |]. intros e x Hex.
    eapply repr_extends; [done | apply extends_app]. }
  destruct (call_map_get_prop h1 la value_key entries vs ps Hl1 HF1 Hall)
    as (ws2 & Hmap2 & Hread2).
  set (h2 := (h1 ++ [Obj (Some ws2) []])%list) in *.
  assert (Hl2 : h2 !! la = Some (Obj (Some vs) ps)) by (by apply lookup_app_l_Some).
  set (colors := bar_colors (length vs)).
  exists (h2 ++ [Obj (Some colors) []])%list, (VRef (length h)), (VRef (length h1)),
    (VRef (length h2)).
  split_and!.
  - erewrite bindH_ok by exact Hmap1.
    erewrite bindH_ok by exact Hmap2.
    erewrite bindH_ok; [| unfold get_prop; rewrite Hl2; reflexivity].
    erewrite bindH_ok; [reflexivity |].
    change (obj_get _ "length") with (num_of_nat (length vs)).
    unfold buildBarColors. by rewrite turns_num_of_nat.
  - eapply reads_as_extends; [exact Hread1 |].
    eapply extends_trans; apply extends_app.
  - eapply reads_as_extends; [exact Hread2 | apply extends_app].
  - replace (length entries) with (length vs) by (symmetry; by eapply Forall2_length).
    replace (palette (length vs)) with (default JNull <$> (Some <$> palette (length vs))).
    2:{ rewrite <- list_fmap_compose. apply list_fmap_id. }
    eapply reads_array; [apply lookup_snoc_length | apply bar_colors_reads].
Qed.

Lemma status_entries_spec (h0 : heap) (j : json) (data : val) (entries : list json) :
  repr h0 j data →
  field (Some j) "status_distribution" = Some (JArr entries) →
  Forall (λ e, readable (Some e) = true) entries →
  ∃ h labels values colors,
    status_entries data h0 = (h, Ok (labels, values, colors)) ∧
    reads_as h labels (Some (JArr (column "status" entries))) ∧
    reads_as h values (Some (JArr (column "total" entries))) ∧
    reads_as h colors (Some (JArr (palette (length entries)))).
Proof.
  intros Hr Hf Hall.
  assert (Hj : readable (Some j) = true) by (by destruct j).
  destruct (repr_get_prop h0 j data "status_distribution" Hr Hj) as (w & Hw & Hrw).
  rewrite Hf in Hrw. simpl in Hrw.
  inversion Hrw as [| | | |la js vs Hla HF|]; subst.
  destruct (entries_tail_spec h0 la vs [] entries "status" "total" Hla HF Hall)
    as (h & labels & values & colors & Htail & Hreads).
  exists h, labels, values, colors. split; [| exact Hreads].
  unfold status_entries.
  erewrite bindH_ok by exact Hw.
  erewrite bindH_ok by reflexivity.
  exact Htail.
Qed.

(** Without the list, the status chart is prepared from an empty one. *)
Lemma status_entries_missing (h0 : heap) (kvs : list (string * json)) (data : val) :
  repr h0 (JObj kvs) data →
  assoc "status_distribution" kvs = None ∨ assoc "status_distribution" kvs = Some JNull →
  ∃ h labels values colors,
    status_entries data h0 = (h, Ok (labels, values, colors)) ∧
    reads_as h labels (Some (JArr [])) ∧
    reads_as h values (Some (JArr [])) ∧
    reads_as h colors (Some (JArr [])).
Proof.
  intros Hr Hk.
  destruct (get_prop_missing h0 kvs data "status_distribution" Hr Hk) as (w & Hw & Hfalse).
  destruct (entries_tail_spec (h0 ++ [Obj (Some []) []])%list (length h0) [] [] []
              "status" "total" (lookup_snoc_length _ _) (Forall2_nil_2 _ _ _) (Forall_nil_2 _))
    as (h & labels & values & colors & Htail & Hreads).
  exists h, labels, values, colors. split; [| exact Hreads].
  unfold status_entries.
  erewrite bindH_ok by exact Hw.
  erewrite bindH_ok; [exact Htail |].
  unfold or_else. by rewrite Hfalse.
Qed.

(** Without the list, the category and the language chart are prepared
    from an empty one. *)
Lemma prep_entries_missing (h0 : heap) (kvs : list (string * json)) (data : val)
    (list_key : string) (limit : nat) (label_key value_key : string) :
  repr h0 (JObj kvs) data →
  assoc list_key kvs = None ∨ assoc list_key kvs = Some JNull →
  ∃ h labels values colors,
    prep_entries list_key limit label_key value_key data h0
      = (h, Ok (labels, values, colors)) ∧
    reads_as h labels (Some (JArr [])) ∧
    reads_as h values (Some (JArr [])) ∧
    reads_as h colors (Some (JArr [])).
Proof.
  intros Hr Hk.
  destruct (get_prop_missing h0 kvs data list_key Hr Hk) as (w & Hw & Hfalse).
  set (h1 := (h0 ++ [Obj (Some []) []])%list).
  destruct (entries_tail_spec (h1 ++ [Obj (Some []) []])%list (length h1) [] [] []
              label_key value_key (lookup_snoc_length _ _) (Forall2_nil_2 _ _ _) (Forall_nil_2 _))
    as (h & labels & values & colors & Htail & Hreads).
  exists h, labels, values, colors. split; [| exact Hreads].
  unfold prep_entries.
  erewrite bindH_ok by exact Hw.
  erewrite bindH_ok; [| unfold or_else; by rewrite Hfalse].
  erewrite bindH_ok; [exact Htail |].
  unfold call_slice. rewrite (lookup_snoc_length h0). by rewrite take_nil.
Qed.

Lemma rerender_dataset (s : slot) (type label title : string)
    (prep : val → H (val * val * val)) (options : H val) (j : json) (st : State)
    (L V C : list json) :
  (∀ h0 data, repr h0 j data →
     ∃ h labels values colors,
       prep data h0 = (h, Ok (labels, values, colors)) ∧
       reads_as h labels (Some (JArr L)) ∧
       reads_as h values (Some (JArr V)) ∧
       reads_as h colors (Some (JArr C))) →
  (∀ h, ∃ k o, options h = ((h ++ k)%list, Ok o)) →
  is_Some (dom st !! canvas_id s) →
  ∃ st',
    (data ← liftH (JSON_parse j); dataset_render s type label title prep options data) st
      = (st', Ok ()) ∧
    slot_shows s st' (chart_data label L V C).
Proof.
  intros Hprep Hopts Hcv.
  destruct (alloc_json j (store st)) as [h0 data] eqn:Hal.
  destruct (alloc_json_spec j (store st) h0 data Hal) as (_ & Hr & _).
  destruct (Hprep h0 data Hr) as (h & labels & values & colors & Hp & HL & HV & HC).
  destruct (dataset_render_spec s type label title prep options data (set_store h0 st)
              h labels values colors L V C Hp HL HV HC Hopts Hcv) as (st' & Hrun & Hshow).
  exists st'. split; [| done].
  unfold mbind at 1, M_bind at 1, bindM at 1, liftH at 1, JSON_parse. by rewrite Hal.
Qed.

(** X10. When the statistics arrive and the page has the canvas, the status
    chart is built from every entry of [status_distribution], in the
    payload's order and however many there are: its labels are the
    entries' [status], its values their [total], its colours the palette
    in turn. *)
Theorem status_chart_shows_every_entry (j : json) (entries : list json) (st : State) :
  field (Some j) "status_distribution" = Some (JArr entries) →
  Forall (λ e, readable (Some e) = true) entries →
  is_Some (dom st !! canvas_id LoanStatus) →
  ∃ st', rerender_once LoanStatus j st = (st', Ok ()) ∧
         slot_shows LoanStatus st'
           (chart_data "Yêu cầu" (column "status" entries) (column "total" entries)
                       (palette (length entries))).
Proof.
  intros Hf Hall Hcv.
  apply (rerender_dataset LoanStatus "doughnut" "Yêu cầu" "Trạng thái yêu cầu mượn sách"
           status_entries doughnut_options j st); [| apply doughnut_options_grow | done].
  intros h0 data Hr. by apply (status_entries_spec h0 j).
Qed.

(** X11. A statistics payload object in which the list of a doughnut or
    bar chart is missing or [null] is no error: on a page with the canvas
    the chart is built, with no labels, no values and no colours. *)
Theorem chart_without_list_is_empty (s : slot) (kvs : list (string * json)) (st : State) :
  s ≠ LoansOverTime →
  assoc (list_key s) kvs = None ∨ assoc (list_key s) kvs = Some JNull →
  is_Some (dom st !! canvas_id s) →
  ∃ st', rerender_once s (JObj kvs) st = (st', Ok ()) ∧
         slot_shows s st' (chart_data (dataset_label s) [] [] []).
Proof.
  intros Hs Hk Hcv. destruct s; [| done | |].
  - apply (rerender_dataset BooksPerCategory "doughnut" "Sách" "Số lượng sách theo thể loại"
             (prep_entries "category_book_counts" 20 "name" "total_books") doughnut_options
             (JObj kvs) st); [| apply doughnut_options_grow | done].
    intros h0 data Hr. by apply (prep_entries_missing h0 kvs).
  - apply (rerender_dataset LoanStatus "doughnut" "Yêu cầu" "Trạng thái yêu cầu mượn sách"
             status_entries doughnut_options (JObj kvs) st);
      [| apply doughnut_options_grow | done].
    intros h0 data Hr. by apply (status_entries_missing h0 kvs).
  - apply (rerender_dataset Language "bar" "Số lượng sách" "Ngôn ngữ sách trong thư viện"
             (prep_entries "language_distribution" 12 "language" "total") bar_options
             (JObj kvs) st); [| apply bar_options_grow | done].
    intros h0 data Hr. by apply (prep_entries_missing h0 kvs).
Qed.

(** ** The loans chart *)

(** The time series the loans chart is drawn from: the payload's, or an
    empty one. *)
Definition time_series_of (data : val) : H val :=
  ts ← get_prop data "time_series";
  or_else ts (labels ← new_array []; values ← new_array [];
              new_object [("labels", labels); ("values", values)]).

(** The configuration literal of the loans chart. *)
Definition line_config (ts : val) : H (val * val) :=
  labels ← get_prop ts "labels";
  values ← get_prop ts "values";
  dataset ← new_object [("label", VStr "Lượt mượn"); ("data", values);
                        ("borderColor", VStr "#007cba");
                        ("backgroundColor", VStr "rgba(0,124,186,0.1)");
                        ("fill", VBool true); ("tension", VNum (2 # 10))];
  datasets ← new_array [dataset];
  data ← new_object [("labels", labels); ("datasets", datasets)];
  legend ← new_object [("display", VBool false)];
  plugins ← new_object [("legend", legend)];
  y ← new_object [("beginAtZero", VBool true); ("precision", VNum 0)];
  scales ← new_object [("y", y)];
  options ← new_object [("responsive", VBool true); ("plugins", plugins);
                        ("scales", scales)];
  mret (data, options).

Lemma renderLoansOverTimeChart_shape (data : val) :
  renderLoansOverTimeChart data =
    (ts ← liftH (time_series_of data);
     ctx ← getElementById (canvas_id LoansOverTime);
     match ctx with
     | None => mret ()
     | Some _ => install LoansOverTime "line" (line_config ts) "Xu hướng mượn theo thời gian"
     end).
Proof. reflexivity. Qed.

Lemma line_config_reads (h : heap) (ts lw vw : val) (L V : json) :
  get_prop ts "labels" h = (h, Ok lw) →
  get_prop ts "values" h = (h, Ok vw) →
  reads_as h lw (Some L) → reads_as h vw (Some V) →
  ∃ k d o, line_config ts h = ((h ++ k)%list, Ok (d, o)) ∧
           reads_as (h ++ k) d (Some (line_data L V)).
Proof.
  intros Hlw Hvw HL HV.
  set (n := length h).
  set (o1 := Obj None [("label", VStr "Lượt mượn"); ("data", vw);
                       ("borderColor", VStr "#007cba");
                       ("backgroundColor", VStr "rgba(0,124,186,0.1)");
                       ("fill", VBool true); ("tension", VNum (2 # 10))]).
  set (o2 := Obj (Some [VRef n]) []).
  set (o3 := Obj None [("labels", lw); ("datasets", VRef (n + 1))]).
  set (rest := [Obj None [("display", VBool false)];
                Obj None [("legend", VRef (n + 1 + 1 + 1))];
                Obj None [("beginAtZero", VBool true); ("precision", VNum 0)];
                Obj None [("y", VRef (n + 1 + 1 + 1 + 1 + 1))];
                Obj None [("responsive", VBool true); ("plugins", VRef (n + 1 + 1 + 1 + 1));
                          ("scales", VRef (n + 1 + 1 + 1 + 1 + 1 + 1))]]).
  exists ([o1; o2; o3] ++ rest)%list, (VRef (n + 1 + 1)),
    (VRef (n + 1 + 1 + 1 + 1 + 1 + 1 + 1)).
  assert (Hl1 : (h ++ [o1; o2; o3] ++ rest) !! n = Some o1).
  { rewrite lookup_app_r by done. by rewrite Nat.sub_diag. }
  assert (Hl2 : (h ++ [o1; o2; o3] ++ rest) !! (n + 1)%nat = Some o2).
  { rewrite lookup_app_r by (unfold n; lia).
    by replace (n + 1 - length h)%nat with 1%nat by (unfold n; lia). }
  assert (Hl3 : (h ++ [o1; o2; o3] ++ rest) !! (n + 1 + 1)%nat = Some o3).
  { rewrite lookup_app_r by (unfold n; lia).
    by replace (n + 1 + 1 - length h)%nat with 2%nat by (unfold n; lia). }
  assert (Hext : extends h (h ++ [o1; o2; o3] ++ rest)) by apply extends_app.
  split.
  - unfold line_config.
    erewrite bindH_ok by exact Hlw. erewrite bindH_ok by exact Hvw.
    unfold mbind, H_bind, bindH, new_object, new_array, alloc, mret, H_ret, retH.
    cbv beta iota. rewrite !length_app. cbn [length]. rewrite <- !app_assoc. reflexivity.
  - assert (H1 : reads_as (h ++ [o1; o2; o3] ++ rest) (VRef n)
                   (Some (JObj [("label", JStr "Lượt mượn"); ("data", V);
                                ("borderColor", JStr "#007cba");
                                ("backgroundColor", JStr "rgba(0,124,186,0.1)");
                                ("fill", JBool true); ("tension", JNum (2 # 10))]))).
    { apply (reads_object _ _ _ [Some (JStr "Lượt mượn"); Some V; Some (JStr "#007cba");
                                 Some (JStr "rgba(0,124,186,0.1)"); Some (JBool true);
                                 Some (JNum (2 # 10))] Hl1).
      simpl. repeat constructor; try (by exists 0%nat). by eapply reads_as_extends. }
    assert (H2 : reads_as (h ++ [o1; o2; o3] ++ rest) (VRef (n + 1))
                   (Some (JArr [JObj [("label", JStr "Lượt mượn"); ("data", V);
                                      ("borderColor", JStr "#007cba");
                                      ("backgroundColor", JStr "rgba(0,124,186,0.1)");
                                      ("fill", JBool true); ("tension", JNum (2 # 10))]]))).
    { apply (reads_array _ _ _ _ [Some _] Hl2). by repeat constructor. }
    apply (reads_object _ _ _ [Some L; Some _] Hl3).
    simpl. repeat constructor; [by eapply reads_as_extends | done].
Qed.

(** Installing a chart whose configuration is built without an error. *)
Lemma install_shows (s : slot) (type : string) (config : H (val * val)) (title : string)
    (st : State) (h : heap) (d o : val) (j : json) :
  config (store st) = (h, Ok (d, o)) →
  reads_as h d (Some j) →
  ∃ st', install s type config title st = (st', Ok ()) ∧ slot_shows s st' j.
Proof.
  intros Hc Hread. eexists. split.
  - rewrite install_eq. cbv zeta. rewrite Hc. rewrite listen_eq. reflexivity.
  - exists (MkChart (canvas_id s) type d o true). split_and!; [| done..].
    unfold slot_chart. simpl. destruct s; simpl; apply lookup_snoc_chart.
Qed.

Lemma rerender_loans (j : json) (st : State) (L V : json) :
  (∀ h0 data, repr h0 j data →
     ∃ h ts lw vw,
       time_series_of data h0 = (h, Ok ts) ∧
       get_prop ts "labels" h = (h, Ok lw) ∧ get_prop ts "values" h = (h, Ok vw) ∧
       reads_as h lw (Some L) ∧ reads_as h vw (Some V)) →
  is_Some (dom st !! canvas_id LoansOverTime) →
  ∃ st', rerender_once LoansOverTime j st = (st', Ok ()) ∧
         slot_shows LoansOverTime st' (line_data L V).
Proof.
  intros Hts [el Hel].
  destruct (alloc_json j (store st)) as [h0 data] eqn:Hal.
  destruct (alloc_json_spec j (store st) h0 data Hal) as (_ & Hr & _).
  destruct (Hts h0 data Hr) as (h & ts & lw & vw & Ht & Hlw & Hvw & HL & HV).
  destruct (line_config_reads h ts lw vw L V Hlw Hvw HL HV) as (k & d & o & Hc & Hread).
  destruct (install_shows LoansOverTime "line" (line_config ts)
              "Xu hướng mượn theo thời gian" (set_store h (set_store h0 st))
              (h ++ k)%list d o (line_data L V) Hc Hread) as (st' & Hi & Hshow).
  exists st'. split; [| done].
  unfold rerender_once, mbind at 1, M_bind at 1, bindM at 1, liftH at 1, JSON_parse.
  rewrite Hal. cbn [render]. rewrite renderLoansOverTimeChart_shape.
  unfold mbind at 1, M_bind at 1, bindM at 1, liftH at 1.
  change (store (set_store h0 st)) with h0. rewrite Ht.
  unfold mbind at 1, M_bind at 1, bindM at 1, getElementById at 1.
  change (dom (set_store h (set_store h0 st))) with (dom st). rewrite Hel.
  exact Hi.
Qed.

(** X12. When the statistics arrive and the page has the canvas, the loans
    chart takes the labels and the values of [time_series] as they are,
    whatever they hold and however many there are. A payload object in
    which [time_series] is missing or [null] is no error: the chart is
    built with no labels and no values. *)
Theorem loans_chart_shows_series (st : State) :
  is_Some (dom st !! canvas_id LoansOverTime) →
  (∀ j ts L V,
     field (Some j) "time_series" = Some ts →
     field (Some ts) "labels" = Some L → field (Some ts) "values" = Some V →
     ∃ st', rerender_once LoansOverTime j st = (st', Ok ()) ∧
            slot_shows LoansOverTime st' (line_data L V)) ∧
  (∀ kvs,
     assoc "time_series" kvs = None ∨ assoc "time_series" kvs = Some JNull →
     ∃ st', rerender_once LoansOverTime (JObj kvs) st = (st', Ok ()) ∧
            slot_shows LoansOverTime st' (line_data (JArr []) (JArr []))).
Proof.
  intros Hcv. split.
  - intros j ts L V Hts HL HV. apply rerender_loans; [| done].
    intros h0 data Hr.
    assert (Hj : readable (Some j) = true) by (by destruct j).
    assert (Ht : readable (Some ts) = true) by (by destruct ts).
    destruct (repr_get_prop h0 j data "time_series" Hr Hj) as (w & Hw & Hrw).
    rewrite Hts in Hrw. simpl in Hrw.
    destruct (repr_get_prop h0 ts w "labels" Hrw Ht) as (lw & Hlw & Hrl).
    destruct (repr_get_prop h0 ts w "values" Hrw Ht) as (vw & Hvw & Hrv).
    rewrite HL in Hrl. rewrite HV in Hrv. simpl in Hrl, Hrv.
    exists h0, w, lw, vw. split_and!; [| done | done | by apply repr_reads..].
    unfold time_series_of. erewrite bindH_ok by exact Hw.
    assert (truthy w = true) as Htr; [| unfold or_else; by rewrite Htr].
    destruct ts; try done; by inversion Hrw.
  - intros kvs Hk. apply rerender_loans; [| done].
    intros h0 data Hr.
    destruct (get_prop_missing h0 kvs data "time_series" Hr Hk) as (w & Hw & Hfalse).
    set (n := length h0).
    set (h := (h0 ++ [Obj (Some []) []; Obj (Some []) [];
                      Obj None [("labels", VRef n); ("values", VRef (n + 1))]])%list).
    assert (Hl0 : h !! n = Some (Obj (Some []) [])).
    { unfold h. rewrite lookup_app_r by done. by rewrite Nat.sub_diag. }
    assert (Hl1 : h !! (n + 1)%nat = Some (Obj (Some []) [])).
    { unfold h. rewrite lookup_app_r by (unfold n; lia).
      by replace (n + 1 - length h0)%nat with 1%nat by (unfold n; lia). }
    assert (Hl2 : h !! (n + 1 + 1)%nat =
                    Some (Obj None [("labels", VRef n); ("values", VRef (n + 1))])).
    { unfold h. rewrite lookup_app_r by (unfold n; lia).
      by replace (n + 1 + 1 - length h0)%nat with 2%nat by (unfold n; lia). }
    exists h, (VRef (n + 1 + 1)), (VRef n), (VRef (n + 1)). split_and!.
    + unfold time_series_of. erewrite bindH_ok by exact Hw.
      unfold or_else. rewrite Hfalse.
      unfold mbind, H_bind, bindH, new_object, new_array, alloc.
      cbv beta iota. rewrite !length_app. cbn [length]. rewrite <- !app_assoc. reflexivity.
    + unfold get_prop. by rewrite Hl2.
    + unfold get_prop. by rewrite Hl2.
    + apply (reads_array h n [] [] [] Hl0). constructor.
    + apply (reads_array h (n + 1) [] [] [] Hl1). constructor.
Qed.

(** ** What the summary and the activity load leave alone *)

Lemma differs_refl (ids : list string) (st : State) : differs_in_contents ids st st.
Proof. exists (dom st), (console st). by destruct st. Qed.

Lemma differs_contents (ids : list string) (st0 : State) (id : string) (c : content) :
  id ∈ ids →
  preserves (differs_in_contents ids st0) (update_element id (set_contents c)).
Proof.
  intros Hid st (d & c0 & -> & Hsame & Hout).
  exists (alter (set_contents c) id d), c0. split_and!.
  - reflexivity.
  - intros j. rewrite <- (Hsame j), lookup_alter.
    case_decide; [subst | done]. by destruct (d !! j).
  - intros j Hj. rewrite lookup_alter_ne by (intros ->; done). by apply Hout.
Qed.

Lemma differs_console (ids : list string) (st0 : State) (l : level) (msg : string)
    (e : error) :
  preserves (differs_in_contents ids st0) (console_log l msg e).
Proof. intros st (d & c0 & -> & Hsame & Hout). by eexists d, _. Qed.

Lemma differs_updateElement (ids : list string) (st0 : State) (id : string) (v : jval) :
  id ∈ ids → preserves (differs_in_contents ids st0) (updateElement id v).
Proof.
  intros Hid st HI. rewrite updateElement_eq.
  by apply (differs_contents ids st0 id _ Hid st).
Qed.

Lemma preserves_getElementById {B} (I : State → Prop) (id : string)
    (k : option string → M B) :
  preserves I (k (Some id)) → preserves I (k None) →
  preserves I (getElementById id ≫= k).
Proof.
  intros H1 H2 st HI. unfold mbind, M_bind, bindM, getElementById.
  destruct (dom st !! id); [by apply H1 | by apply H2].
Qed.

(** X13. Neither the summary load nor the activity load, however the
    request settles, sends a request or touches a chart, a variable or the
    store: the summary load changes at most the console and what the four
    counters show, the activity load at most the console and what the list
    shows; values, styles and listeners of these elements are kept. *)
Theorem loads_change_contents_only (o : fetch_outcome) (st : State) :
  differs_in_contents counter_ids st (loadDashboardStats_settled o st).1 ∧
  differs_in_contents ["recent-activity-list"] st (loadRecentActivity_settled o st).1.
Proof.
  split.
  - apply (preserves_try_catch (differs_in_contents counter_ids st));
      [| | apply differs_refl].
    + unfold summary_chain, stats_then.
      repeat first [ apply preserves_liftR
                   | apply differs_updateElement; set_solver
                   | apply preserves_bind; [| intros ?] ].
    + intros e. unfold stats_catch. cbn [forEach counter_ids].
      repeat first [ apply differs_console
                   | apply preserves_ret
                   | apply differs_updateElement; set_solver
                   | apply preserves_bind; [| intros ?] ].
  - apply (preserves_try_catch (differs_in_contents ["recent-activity-list"] st));
      [| | apply differs_refl].
    + unfold activity_chain, activity_then.
      apply preserves_bind; [apply preserves_liftR | intros data].
      apply preserves_getElementById; [| apply preserves_ret].
      apply preserves_bind; [apply preserves_liftR | intros acts].
      apply preserves_bind.
      { destruct (jtruthy acts); [| apply preserves_ret].
        apply preserves_bind; [apply preserves_liftR | intros ?; apply preserves_ret]. }
      intros [|].
      * apply preserves_bind; [apply preserves_liftR | intros ?].
        apply preserves_bind; [apply preserves_liftR | intros items].
        apply differs_contents. set_solver.
      * apply differs_contents. set_solver.
    + intros e. unfold activity_catch.
      apply preserves_bind; [apply differs_console | intros _].
      apply preserves_getElementById; [| apply preserves_ret].
      apply differs_contents. set_solver.
Qed.

(** ** The options of the modal chart *)

Lemma fits_app (h : heap) (b : nat) (K K' : list obj) :
  fits h b (K ++ K') ↔ fits h b K ∧ fits h (b + length K) K'.
Proof.
  unfold fits. split.
  - intros H. split.
    + intros i x Hi. apply H. by apply lookup_app_l_Some.
    + intros i x Hi. replace (b + length K + i)%nat with (b + (length K + i))%nat by lia.
      apply H. rewrite lookup_app_r by lia.
      by replace (length K + i - length K)%nat with i by lia.
  - intros [H1 H2] i x Hi. apply lookup_app_Some in Hi as [Hi|[Hle Hi]]; [by apply H1 |].
    apply H2 in Hi. by replace (b + length K + (i - length K))%nat with (b + i)%nat in Hi by lia.
Qed.

Lemma fits_self (h K : list obj) : fits (h ++ K) (length h) K.
Proof.
  intros i x Hi. rewrite lookup_app_r by lia.
  by replace (length h + i - length h)%nat with i by lia.
Qed.

Lemma alloc_each_chain {A} (f : A → heap → heap * val)
    (R : nat → A → val → list obj → Prop) (l : list A) :
  Forall (λ a, ∀ h h' v, f a h = (h', v) → ∃ K, h' = (h ++ K)%list ∧ R (length h) a v K) l →
  ∀ h h' vs, alloc_each f l h = (h', vs) →
    ∃ K, h' = (h ++ K)%list ∧ chain R (length h) l vs K.
Proof.
  intros HF. induction HF as [|a l Ha HF IH]; intros h h' vs Hal; simpl in Hal.
  - injection Hal as <- <-. exists []. split; [by rewrite app_nil_r | constructor].
  - destruct (f a h) as [h1 v] eqn:Hf.
    destruct (alloc_each f l h1) as [h2 vs'] eqn:Hl. injection Hal as <- <-.
    destruct (Ha h h1 v Hf) as (K1 & -> & HR).
    destruct (IH _ _ _ Hl) as (K2 & -> & Hc).
    exists (K1 ++ K2)%list. split; [by rewrite app_assoc |].
    constructor; [done |]. by rewrite length_app in Hc.
Qed.

Lemma chain_fmap {A B} (g : A → B) (R : nat → B → val → list obj → Prop)
    (b : nat) (l : list A) (vs : list val) (K : list obj) :
  chain (λ b a, R b (g a)) b l vs K → chain R b (g <$> l) vs K.
Proof. induction 1; simpl; by constructor. Qed.

Lemma alloc_json_own (j : json) (h h' : heap) (v : val) :
  alloc_json j h = (h', v) → ∃ K, h' = (h ++ K)%list ∧ own (length h) j v K.
Proof.
  revert h h' v.
  induction j as [|b|q|s|js IH|kvs IH] using json_ind; intros h h' v Hal; simpl in Hal;
    try (injection Hal as <- <-; exists []; split; [by rewrite app_nil_r | constructor]).
  - destruct (alloc_each alloc_json js h) as [h1 vs] eqn:Hl. injection Hal as <- <-.
    destruct (alloc_each_chain alloc_json own js IH h h1 vs Hl) as (K & -> & Hc).
    exists (K ++ [Obj (Some vs) []])%list. split; [by rewrite app_assoc |].
    rewrite length_app. by constructor.
  - destruct (alloc_each _ kvs h) as [h1 vs] eqn:Hl. injection Hal as <- <-.
    destruct (alloc_each_chain (λ kj, alloc_json kj.2) (λ b kj, own b kj.2) kvs IH h h1 vs Hl)
      as (K & -> & Hc).
    exists (K ++ [Obj None (zip kvs.*1 vs)])%list. split; [by rewrite app_assoc |].
    rewrite length_app. constructor. by apply chain_fmap.
Qed.

Lemma chain_Forall2 {A} (R : nat → A → val → list obj → Prop) (Q : A → val → Prop)
    (hh : heap) (b : nat) (l : list A) (vs : list val) (K : list obj) :
  chain R b l vs K →
  Forall (λ a, ∀ b v K, R b a v K → fits hh b K → Q a v) l →
  fits hh b K → Forall2 Q l vs.
Proof.
  induction 1 as [|b a v K l vs K' HR Hc IH]; intros HF Hfit; [constructor |].
  apply Forall_cons in HF as [Ha HF]. apply fits_app in Hfit as [H1 H2].
  constructor; [by eapply Ha | by apply IH].
Qed.

Lemma members_zip (hh : heap) (kvs : list (string * json)) (vs : list val) :
  Forall2 (repr hh) kvs.*2 vs →
  Forall2 (λ kj p, p.1 = kj.1 ∧ repr hh kj.2 p.2) kvs (zip kvs.*1 vs).
Proof.
  revert vs. induction kvs as [|[k j] kvs IH]; intros vs H; simpl in *.
  - constructor.
  - apply Forall2_cons_inv_l in H as (v & vs' & Hv & Hvs & ->). simpl.
    constructor; [done | by apply IH].
Qed.

(** A tree laid out in a segment is the tree in every heap that has the
    segment in its place. *)
Lemma own_repr (j : json) (b : nat) (v : val) (K : list obj) (hh : heap) :
  own b j v K → fits hh b K → repr hh j v.
Proof.
  revert b v K.
  induction j as [|x|q|s|js IH|kvs IH] using json_ind; intros b v K Ho Hfit;
    inversion Ho; subst; try constructor.
  - apply fits_app in Hfit as [Hf1 Hf2].
    econstructor.
    + specialize (Hf2 0%nat _ eq_refl). by rewrite Nat.add_0_r in Hf2.
    + eapply chain_Forall2; [done | | done].
      eapply Forall_impl; [exact IH |]. intros j Hj b' v' K' Hown Hf. by eapply Hj.
  - apply fits_app in Hfit as [Hf1 Hf2].
    econstructor.
    + specialize (Hf2 0%nat _ eq_refl). by rewrite Nat.add_0_r in Hf2.
    + apply members_zip. eapply chain_Forall2; [done | | done].
      apply Forall_fmap. eapply Forall_impl; [exact IH |].
      intros kj Hj b' v' K' Hown Hf. by eapply Hj.
Qed.

Lemma chain_members (hh : heap) (b : nat) (kvs : list (string * json)) (vs : list val)
    (K : list obj) :
  chain own b kvs.*2 vs K → fits hh b K →
  Forall2 (λ kj p, p.1 = kj.1 ∧ repr hh kj.2 p.2) kvs (zip kvs.*1 vs).
Proof.
  intros Hc Hfit. apply members_zip. eapply chain_Forall2; [exact Hc | | exact Hfit].
  apply Forall_forall. intros j _ b' v' K' Ho Hf. by eapply own_repr.
Qed.

(** The members of a laid-out object when member [k] is set: the member
    that had the key keeps its segment, which the heap need not have any
    more; the other members are where they were. *)
Lemma chain_set (k : string) (kvs : list (string * json)) (b : nat) (vs : list val)
    (K : list obj) :
  chain own b kvs.*2 vs K →
  match assoc k kvs with
  | Some j =>
      ∃ v K1 Kj K2,
        assoc k (zip kvs.*1 vs) = Some v ∧ K = (K1 ++ Kj ++ K2)%list ∧
        own (b + length K1) j v Kj ∧
        ∀ hh j' v',
          fits hh b K1 → fits hh (b + length K1 + length Kj) K2 → repr hh j' v' →
          Forall2 (λ kj p, p.1 = kj.1 ∧ repr hh kj.2 p.2)
                  (assoc_set k j' kvs) (assoc_set k v' (zip kvs.*1 vs))
  | None =>
      assoc k (zip kvs.*1 vs) = None ∧
      ∀ hh j' v',
        fits hh b K → repr hh j' v' →
        Forall2 (λ kj p, p.1 = kj.1 ∧ repr hh kj.2 p.2)
                (assoc_set k j' kvs) (assoc_set k v' (zip kvs.*1 vs))
  end.
Proof.
  revert b vs K. induction kvs as [|[k1 j1] kvs IH]; intros b vs K Hc; simpl in Hc.
  - inversion Hc; subst. simpl. split; [done |].
    intros hh j' v' _ Hr. by repeat constructor.
  - inversion Hc as [|b0 a v K0 l vs' K' Ho Hc']; subst. simpl.
    destruct (String.eqb k k1) eqn:Ek.
    + exists v, [], K0, K'. rewrite Nat.add_0_r. split_and!; [done.. |].
      intros hh j' v' _ Hf2 Hr.
      constructor; [done |]. by eapply chain_members.
    + specialize (IH _ _ _ Hc'). destruct (assoc k kvs) as [j|].
      * destruct IH as (w & K1 & Kj & K2 & Hw & -> & Hown & Hset).
        exists w, (K0 ++ K1)%list, Kj, K2.
        rewrite length_app, !Nat.add_assoc, <- app_assoc. split_and!; [done.. |].
        intros hh j' v' [Hf0 Hf1]%fits_app Hf2 Hr.
        constructor; [split; [done | by eapply own_repr] |].
        by apply Hset.
      * destruct IH as (Hnone & Hset). split; [done |].
        intros hh j' v' [Hf0 Hf1]%fits_app Hr.
        constructor; [split; [done | by eapply own_repr] |].
        by apply Hset.
Qed.

Lemma zoom_options_eq (h : heap) :
  zoom_options h = (let '(h', v) := alloc_json zoom_tree h in (h', Ok v)).
Proof. reflexivity. Qed.

Lemma truthy_repr (h : heap) (j : json) (v : val) :
  repr h j v → truthy v = jtruthy (Some j).
Proof. by inversion 1. Qed.

Lemma assoc_assoc_set {A} (k : string) (v : A) (l : list (string * A)) :
  assoc k (assoc_set k v l) = Some v.
Proof.
  induction l as [|[k' v'] l IH]; simpl.
  - by rewrite String.eqb_refl.
  - destruct (String.eqb k k') eqn:E; simpl; rewrite E; [done | exact IH].
Qed.

Lemma members_assoc_set (hh : heap) (k : string) (j : json) (v : val)
    (kvs : list (string * json)) (ps : list (string * val)) :
  Forall2 (λ kj p, p.1 = kj.1 ∧ repr hh kj.2 p.2) kvs ps →
  repr hh j v →
  Forall2 (λ kj p, p.1 = kj.1 ∧ repr hh kj.2 p.2) (assoc_set k j kvs) (assoc_set k v ps).
Proof.
  intros HF Hr. induction HF as [|[k1 j1] [k2 v2] kvs ps [Hk Hr1] HF IH]; simpl in *.
  - by repeat constructor.
  - subst k2. destruct (String.eqb k k1); constructor; done.
Qed.

Lemma agree_refl (S : list nat) (h : heap) : agree S h h.
Proof. by intros l x. Qed.

Lemma agree_trans (S : list nat) (h1 h2 h3 : heap) :
  agree S h1 h2 → agree S h2 h3 → agree S h1 h3.
Proof. intros H1 H2 l x Hl Hs. apply H2; [by apply H1 | done]. Qed.

Lemma agree_app (S : list nat) (h k : heap) : agree S h (h ++ k).
Proof. intros l x Hl _. by apply lookup_app_l_Some. Qed.

Lemma agree_insert (S : list nat) (h : heap) (l : nat) (x : obj) :
  l ∈ S → agree S h (<[l := x]> h).
Proof.
  intros Hl l' x' Hl' Hs. rewrite list_lookup_insert_ne; [done |]. intros ->. done.
Qed.

Lemma fits_agree (S : list nat) (h hh : heap) (b : nat) (K : list obj) :
  fits h b K → (∀ l, l ∈ S → (l < b ∨ b + length K ≤ l)%nat) → agree S h hh →
  fits hh b K.
Proof.
  intros Hf HS Ha i x Hi. apply Ha; [by apply Hf |].
  intros Hin. apply HS in Hin. apply lookup_lt_Some in Hi. lia.
Qed.

Lemma lookup_insert_here (h : heap) (l : nat) (x y : obj) :
  h !! l = Some y → <[l := x]> h !! l = Some x.
Proof.
  intros Hl. rewrite list_lookup_insert, decide_True; [done |].
  split; [done | by eapply lookup_lt_Some].
Qed.

Lemma set_prop_at (h : heap) (l : nat) (e : option (list val)) (ps : list (string * val))
    (k : string) (x : val) :
  h !! l = Some (Obj e ps) →
  set_prop (VRef l) k x h = (<[l := Obj e (assoc_set k x ps)]> h, Ok ()).
Proof. intros Hl. unfold set_prop. by rewrite Hl. Qed.

Lemma get_prop_at (h : heap) (l : nat) (ps : list (string * val)) (k : string) :
  h !! l = Some (Obj None ps) →
  get_prop (VRef l) k h = (h, Ok (default VUndef (assoc k ps))).
Proof. intros Hl. unfold get_prop. by rewrite Hl. Qed.

(** The legend of the plugins, or a new one at the top. *)
Lemma legend_step (S : list nat) (h3 : heap) (lp : nat)
    (pkvs0 : list (string * json)) (pps0 : list (string * val)) :
  (∀ l, l ∈ S → (l < length h3)%nat) →
  (∀ hh, agree S h3 hh → members hh pkvs0 pps0) →
  ∃ h4 lv,
    or_else (default VUndef (assoc "legend" pps0))
      (new_object [("position", VStr "top")]) h3 = (h4, Ok lv) ∧
    agree [] h3 h4 ∧
    (∀ hh, agree S h4 hh → repr hh (legend_of pkvs0) lv).
Proof.
  intros HS Hmem.
  pose proof (Hmem h3 (agree_refl _ _)) as Hm3.
  pose proof (repr_members_assoc h3 pkvs0 pps0 "legend" Hm3) as Hl.
  assert (Hnew : ∃ h4 lv,
            new_object [("position", VStr "top")] h3 = (h4, Ok lv) ∧ agree [] h3 h4 ∧
            ∀ hh, agree S h4 hh → repr hh legend_top lv).
  { eexists _, _. split_and!; [reflexivity | apply agree_app |].
    intros hh Ha. eapply (repr_obj _ _ [("position", JStr "top")]).
    - apply Ha; [apply lookup_snoc_length |]. intros Hin%HS. lia.
    - repeat constructor. }
  unfold legend_of.
  destruct (assoc "legend" pkvs0) as [l|] eqn:El.
  - simpl in Hl. pose proof (truthy_repr _ _ _ Hl) as Ht.
    destruct (jtruthy (Some l)) eqn:Ej.
    + exists h3, (default VUndef (assoc "legend" pps0)). split_and!.
      * unfold or_else. by rewrite Ht.
      * apply agree_refl.
      * intros hh Ha. pose proof (repr_members_assoc hh pkvs0 pps0 "legend" (Hmem hh Ha)) as H.
        by rewrite El in H.
    + destruct Hnew as (h4 & lv & Hn & Ha & Hr). exists h4, lv. split_and!; [| done..].
      unfold or_else. by rewrite Ht.
  - destruct Hnew as (h4 & lv & Hn & Ha & Hr). exists h4, lv. split_and!; [| done..].
    by rewrite (members_assoc_none h3 pkvs0 pps0 "legend" Hm3 El).
Qed.

Lemma agree_weaken (S : list nat) (h hh : heap) : agree [] h hh → agree S h hh.
Proof. intros H l x Hl _. apply H; [done | apply not_elem_of_nil]. Qed.

Lemma merge_zoom (h3 : heap) (lo lp : nat) (ps3 pps0 : list (string * val))
    (kvs pkvs0 : list (string * json)) :
  lo ≠ lp →
  h3 !! lo = Some (Obj None ps3) → h3 !! lp = Some (Obj None pps0) →
  assoc "plugins" ps3 = Some (VRef lp) →
  (∀ hh jp', agree [lo; lp] h3 hh → repr hh jp' (VRef lp) →
             members hh (assoc_set "plugins" jp' kvs) ps3) →
  (∀ hh, agree [lo; lp] h3 hh → members hh pkvs0 pps0) →
  ∃ hF,
    merge_tail (VRef lo) h3 = (hF, Ok (VRef lo)) ∧
    repr hF
      (JObj (assoc_set "maintainAspectRatio" (JBool false)
               (assoc_set "plugins"
                  (JObj (assoc_set "zoom" zoom_tree
                           (assoc_set "legend" (legend_of pkvs0) pkvs0))) kvs)))
      (VRef lo).
Proof.
  intros Hne Hlo Hlp Hpl Htop Hplug.
  assert (HS : ∀ l, l ∈ [lo; lp] → (l < length h3)%nat).
  { intros l [->|[->|[]%elem_of_nil]%elem_of_cons]%elem_of_cons; by eapply lookup_lt_Some. }
  destruct (legend_step [lo; lp] h3 lp pkvs0 pps0 HS Hplug)
    as (h4 & lv & Hleg & Ha34 & Hlv).
  assert (Hlo4 : h4 !! lo = Some (Obj None ps3)) by (apply Ha34; [done | apply not_elem_of_nil]).
  assert (Hlp4 : h4 !! lp = Some (Obj None pps0)) by (apply Ha34; [done | apply not_elem_of_nil]).
  set (pps1 := assoc_set "legend" lv pps0).
  set (h5 := <[lp := Obj None pps1]> h4).
  assert (Hlo5 : h5 !! lo = Some (Obj None ps3)).
  { unfold h5. by rewrite list_lookup_insert_ne. }
  assert (Hlp5 : h5 !! lp = Some (Obj None pps1)) by (by eapply lookup_insert_here).
  destruct (alloc_json zoom_tree h5) as [h6 z] eqn:Hz.
  destruct (alloc_json_own zoom_tree h5 h6 z Hz) as (Z & -> & Hown).
  set (h6 := (h5 ++ Z)%list) in *.
  assert (Hlo6 : h6 !! lo = Some (Obj None ps3)) by (by apply lookup_app_l_Some).
  assert (Hlp6 : h6 !! lp = Some (Obj None pps1)) by (by apply lookup_app_l_Some).
  set (pps2 := assoc_set "zoom" z pps1).
  set (h7 := <[lp := Obj None pps2]> h6).
  assert (Hlo7 : h7 !! lo = Some (Obj None ps3)).
  { unfold h7. by rewrite list_lookup_insert_ne. }
  assert (Hlp7 : h7 !! lp = Some (Obj None pps2)) by (by eapply lookup_insert_here).
  set (psF := assoc_set "maintainAspectRatio" (VBool false) ps3).
  set (hF := <[lo := Obj None psF]> h7).
  assert (HloF : hF !! lo = Some (Obj None psF)) by (by eapply lookup_insert_here).
  assert (HlpF : hF !! lp = Some (Obj None pps2)).
  { unfold hF. by rewrite list_lookup_insert_ne by done. }
  assert (Ha5F : agree [lo; lp] h5 hF).
  { eapply agree_trans; [apply agree_app |].
    eapply agree_trans;
      [apply (agree_insert _ _ lp), list_elem_of_further, list_elem_of_here
      |apply (agree_insert _ _ lo), list_elem_of_here]. }
  assert (Ha4F : agree [lo; lp] h4 hF).
  { eapply agree_trans; [| exact Ha5F].
    apply (agree_insert _ _ lp), list_elem_of_further, list_elem_of_here. }
  assert (Ha3F : agree [lo; lp] h3 hF).
  { eapply agree_trans; [by apply agree_weaken | exact Ha4F]. }
  assert (Hlen5 : length h5 = length h4) by apply length_insert.
  assert (Hlen34 : (length h3 <= length h4)%nat).
  { destruct (decide (length h3 <= length h4)%nat) as [|Hn]; [done|].
    destruct (lookup_lt_is_Some_2 h3 (length h4)) as [x Hx]; [lia |].
    pose proof (Ha34 _ _ Hx (not_elem_of_nil _)) as Hy. apply lookup_lt_Some in Hy. lia. }
  assert (HfitZ : fits hF (length h5) Z).
  { unfold hF, h7. intros i x Hi.
    rewrite !list_lookup_insert_ne.
    - by apply fits_self.
    - apply lookup_lt_Some in Hlp4. lia.
    - apply lookup_lt_Some in Hlo4. lia. }
  exists hF. split.
  - unfold merge_tail.
    erewrite bindH_ok by (by apply get_prop_at). rewrite Hpl. cbn [default].
    erewrite bindH_ok by (by apply get_prop_at).
    erewrite bindH_ok by exact Hleg.
    erewrite bindH_ok by (by apply get_prop_at). rewrite Hpl. cbn [default].
    rewrite (bindH_ok _ _ h4 h5 () (set_prop_at h4 lp None pps0 "legend" lv Hlp4)).
    erewrite bindH_ok by (by apply get_prop_at). rewrite Hpl. cbn [default].
    rewrite (bindH_ok zoom_options _ h5 h6 z) by (by rewrite zoom_options_eq, Hz).
    rewrite (bindH_ok _ _ h6 h7 () (set_prop_at h6 lp None pps1 "zoom" z Hlp6)).
    rewrite (bindH_ok _ _ h7 hF () (set_prop_at h7 lo None ps3 "maintainAspectRatio" _ Hlo7)).
    reflexivity.
  - assert (Hrz : repr hF zoom_tree z) by (by eapply own_repr).
    assert (Hrl : repr hF (legend_of pkvs0) lv) by (by apply Hlv).
    assert (Hrp : repr hF (JObj (assoc_set "zoom" zoom_tree
                                   (assoc_set "legend" (legend_of pkvs0) pkvs0))) (VRef lp)).
    { eapply repr_obj; [exact HlpF |].
      apply members_assoc_set; [| done]. apply members_assoc_set; [| done].
      by apply Hplug. }
    eapply repr_obj; [exact HloF |].
    apply members_assoc_set; [| constructor]. by apply Htop.
Qed.

Lemma modal_options_clone (srcOpts : val) :
  modal_options srcOpts = json_clone srcOpts ≫= merge_plugins.
Proof. reflexivity. Qed.

Lemma merge_plugins_old (h1 : heap) (lo lp : nat) (ps0 pps0 : list (string * val))
    (kvs pkvs : list (string * json)) :
  lo ≠ lp →
  h1 !! lo = Some (Obj None ps0) → h1 !! lp = Some (Obj None pps0) →
  assoc "plugins" ps0 = Some (VRef lp) →
  (∀ hh jp' v', agree [lo; lp] h1 hh → repr hh jp' v' →
                members hh (assoc_set "plugins" jp' kvs) (assoc_set "plugins" v' ps0)) →
  (∀ hh, agree [lo; lp] h1 hh → members hh pkvs pps0) →
  ∃ hF, merge_plugins (VRef lo) h1 = (hF, Ok (VRef lo)) ∧ repr hF (merged kvs pkvs) (VRef lo).
Proof.
  intros Hne Hlo Hlp Hpl Htop Hplug.
  set (ps3 := assoc_set "plugins" (VRef lp) ps0).
  set (h3 := <[lo := Obj None ps3]> h1).
  assert (Ha : agree [lo; lp] h1 h3).
  { apply (agree_insert _ _ lo), list_elem_of_here. }
  destruct (merge_zoom h3 lo lp ps3 pps0 kvs pkvs) as (hF & Hrun & Hr); try done.
  - by eapply lookup_insert_here.
  - unfold h3. by rewrite list_lookup_insert_ne.
  - apply assoc_assoc_set.
  - intros hh jp' Hag Hrp. apply Htop; [| done]. by eapply agree_trans.
  - intros hh Hag. apply Hplug. by eapply agree_trans.
  - exists hF. split; [| done]. unfold merge_plugins.
    erewrite bindH_ok by (by apply get_prop_at). rewrite Hpl. cbn [default].
    rewrite (bindH_ok _ _ h1 h1 (VRef lp)) by reflexivity.
    by rewrite (bindH_ok _ _ h1 h3 () (set_prop_at h1 lo None ps0 "plugins" _ Hlo)).
Qed.

Lemma merge_plugins_new (h1 : heap) (lo : nat) (ps0 : list (string * val))
    (kvs : list (string * json)) :
  h1 !! lo = Some (Obj None ps0) →
  truthy (default VUndef (assoc "plugins" ps0)) = false →
  (∀ hh jp' v', agree [lo] h1 hh → repr hh jp' v' →
                members hh (assoc_set "plugins" jp' kvs) (assoc_set "plugins" v' ps0)) →
  ∃ hF, merge_plugins (VRef lo) h1 = (hF, Ok (VRef lo)) ∧ repr hF (merged kvs []) (VRef lo).
Proof.
  intros Hlo Hfalse Htop.
  set (lp := length h1).
  set (h2 := (h1 ++ [Obj None []])%list).
  set (ps3 := assoc_set "plugins" (VRef lp) ps0).
  set (h3 := <[lo := Obj None ps3]> h2).
  assert (Hlt : (lo < lp)%nat) by (by eapply lookup_lt_Some).
  assert (Hlo2 : h2 !! lo = Some (Obj None ps0)) by (by apply lookup_app_l_Some).
  assert (Ha : agree [lo] h1 h3).
  { eapply agree_trans; [apply agree_app |]. apply (agree_insert _ _ lo), list_elem_of_here. }
  destruct (merge_zoom h3 lo lp ps3 [] kvs []) as (hF & Hrun & Hr); try done.
  - lia.
  - by eapply lookup_insert_here.
  - unfold h3. rewrite list_lookup_insert_ne by lia. apply lookup_snoc_length.
  - apply assoc_assoc_set.
  - intros hh jp' Hag Hrp. apply Htop; [| done].
    intros l x Hl Hn. apply Hag.
    + apply Ha; [done | exact Hn].
    + intros [->|[->|[]%elem_of_nil]%elem_of_cons]%elem_of_cons.
      * apply Hn, list_elem_of_here.
      * apply lookup_lt_Some in Hl. unfold lp in Hl. lia.
  - exists hF. split; [| done]. unfold merge_plugins.
    erewrite bindH_ok by (by apply get_prop_at).
    unfold or_else at 1. rewrite Hfalse.
    rewrite (bindH_ok (new_object []) _ h1 h2 (VRef lp)) by reflexivity.
    by rewrite (bindH_ok _ _ h2 h3 () (set_prop_at h2 lo None ps0 "plugins" _ Hlo2)).
Qed.

Lemma modal_options_repr (srcOpts : val) (kvs : list (string * json)) (h : heap) :
  JSON_stringify h srcOpts = Ok (Some (JObj kvs)) →
  plain_plugins kvs →
  ∃ h' lo, modal_options srcOpts h = (h', Ok (VRef lo)) ∧ repr h' (with_zoom kvs) (VRef lo).
Proof.
  intros Hs Hp. rewrite modal_options_clone. unfold with_zoom.
  destruct (alloc_json (JObj kvs) h) as [h1 v] eqn:Ha.
  assert (Hclone : json_clone srcOpts h = (h1, Ok v)).
  { unfold json_clone, JSON_parse. by rewrite Hs, Ha. }
  rewrite (bindH_ok _ _ h h1 v Hclone).
  destruct (alloc_json_own _ _ _ _ Ha) as (K & -> & Hown).
  inversion Hown as [| | | | |b kvs' vs Kc Hch]; subst.
  clear Hown Ha Hclone.
  set (b := length h) in *. set (lo := (b + length Kc)%nat).
  set (ps0 := zip kvs.*1 vs).
  set (h1 := (h ++ Kc ++ [Obj None ps0])%list).
  assert (Hlo : h1 !! lo = Some (Obj None ps0)).
  { unfold h1, lo, b. rewrite app_assoc, <- length_app. apply lookup_snoc_length. }
  assert (HfitKc : fits h1 b Kc).
  { unfold h1. rewrite app_assoc. intros i x Hi. apply lookup_app_l_Some.
    by apply fits_self. }
  pose proof (chain_set "plugins" kvs b vs Kc Hch) as Hset.
  unfold plain_plugins in Hp. unfold plugins_of.
  destruct (assoc "plugins" kvs) as [j|] eqn:Ej.
  - destruct Hset as (v & K1 & Kj & K2 & Hv & HK & Hownj & Hset).
    assert (Hlen : length Kc = (length K1 + length Kj + length K2)%nat).
    { rewrite HK, !length_app. lia. }
    rewrite HK in HfitKc.
    apply fits_app in HfitKc as [Hf1 [Hfj Hf2]%fits_app].
    assert (Hnew : jtruthy (Some j) = false →
              ∃ hF, merge_plugins (VRef lo) h1 = (hF, Ok (VRef lo)) ∧
                    repr hF (merged kvs []) (VRef lo)).
    { intros Hfalse. apply (merge_plugins_new h1 lo ps0 kvs Hlo).
      - unfold ps0. rewrite Hv. cbn [default from_option id].
        by rewrite (truthy_repr h1 j v (own_repr _ _ _ _ _ Hownj Hfj)).
      - intros hh jp' v' Hag Hr. apply Hset; [| | done].
        + eapply fits_agree; [exact Hf1 | | exact Hag].
          intros l ->%list_elem_of_singleton. unfold lo. lia.
        + eapply fits_agree; [exact Hf2 | | exact Hag].
          intros l ->%list_elem_of_singleton. unfold lo. lia. }
    destruct j as [|x|q|s|js|pkvs];
      try (destruct (Hnew Hp) as (hF & HF); by exists hF, lo).
    inversion Hownj as [| | | | |b' kvs' pvs Kp Hchp]; subst v Kj.
    rewrite length_app in Hlen. cbn [length] in Hlen.
    apply fits_app in Hfj as [Hfp Hfobj].
    set (lp := (b + length K1 + length Kp)%nat) in *.
    destruct (merge_plugins_old h1 lo lp ps0 (zip pkvs.*1 pvs) kvs pkvs)
      as (hF & HF); try done.
    + unfold lo, lp. lia.
    + specialize (Hfobj 0%nat _ eq_refl). by rewrite Nat.add_0_r in Hfobj.
    + intros hh jp' v' Hag Hr. apply Hset; [| | done].
      * eapply fits_agree; [exact Hf1 | | exact Hag].
        intros l [->|[->|[]%elem_of_nil]%elem_of_cons]%elem_of_cons; unfold lo, lp; lia.
      * eapply fits_agree; [exact Hf2 | | exact Hag].
        intros l [->|[->|[]%elem_of_nil]%elem_of_cons]%elem_of_cons;
          unfold lo, lp; rewrite ?length_app; cbn [length]; lia.
    + intros hh Hag. eapply chain_members; [exact Hchp |].
      eapply fits_agree; [exact Hfp | | exact Hag].
      intros l [->|[->|[]%elem_of_nil]%elem_of_cons]%elem_of_cons; unfold lo, lp; lia.
    + by exists hF, lo.
  - destruct Hset as [Hnone Hset].
    destruct (merge_plugins_new h1 lo ps0 kvs Hlo) as (hF & HF).
    + unfold ps0. by rewrite Hnone.
    + intros hh jp' v' Hag Hr. apply Hset; [| done].
      eapply fits_agree; [exact HfitKc | | exact Hag].
      intros l ->%list_elem_of_singleton. unfold lo. lia.
    + by exists hF, lo.
Qed.

Lemma stringify_object_truthy (h : heap) (v : val) (kvs : list (string * json)) :
  JSON_stringify h v = Ok (Some (JObj kvs)) → truthy v = true.
Proof.
  unfold JSON_stringify. destruct v; simpl; try done.
Qed.

(** The clones the modal chart is made of, for a chart whose data and
    options have trees. *)
Lemma modal_config_runs (src : Chart) (jd : json) (kvs : list (string * json)) (h : heap) :
  JSON_stringify h (config_data src) = Ok (Some jd) →
  JSON_stringify h (config_options src) = Ok (Some (JObj kvs)) →
  plain_plugins kvs →
  ∃ h' cfg, modal_config src h = (h', Ok cfg) ∧ repr h' (with_zoom kvs) cfg.2.
Proof.
  intros Hd Ho Hp. unfold modal_config.
  destruct (alloc_json jd h) as [h1 d] eqn:Ha.
  assert (Hclone : json_clone (config_data src) h = (h1, Ok d)).
  { unfold json_clone, JSON_parse. by rewrite Hd, Ha. }
  rewrite (bindH_ok _ _ h h1 d Hclone).
  apply alloc_json_spec in Ha as (Hg & _ & _).
  assert (Hor : or_else (config_options src) (new_object []) h1
                = (h1, Ok (config_options src))).
  { unfold or_else. by rewrite (stringify_object_truthy h _ kvs Ho). }
  rewrite (bindH_ok _ _ h1 h1 _ Hor).
  destruct (modal_options_repr (config_options src) kvs h1) as (h' & lo & Hrun & Hr);
    [by eapply JSON_stringify_extends, grown_extends | done |].
  rewrite (bindH_ok _ _ h1 h' _ Hrun). by exists h', (d, VRef lo).
Qed.

Lemma openModalForChart_runs (i : nat) (src : Chart) (title : string) (h' : heap)
    (cfg : val * val) (st : State) :
  charts st !! i = Some src →
  modal_config src (store st) = (h', Ok cfg) →
  ∃ st', openModalForChart (Some i) title st = (st', Ok ()).
Proof.
  intros Hsrc Hcfg.
  unfold openModalForChart, mbind, M_bind, bindM.
  pose proof (ensureModal_ok st) as Hok.
  destruct (ensureModal_frame st) as (Hd & Hc & Hs & Hv & Hm & _ & [m Hmod]).
  destruct (ensureModal st) as [st1 r]. simpl in *. subst r.
  unfold config_of. simpl. rewrite Hc, Hsrc.
  unfold liftH. simpl. rewrite Hs, Hcfg.
  rewrite replace_modal_chart_eq. simpl. by eexists.
Qed.

(** X14. Opening the modal on a chart whose data and options have trees,
    the options being an object whose [plugins] are absent, an object or a
    value that counts as false, succeeds. The options of the modal chart
    are then the source options with [maintainAspectRatio] false and with
    plugins that are the source's plugins with the zoom settings in place
    of any earlier [zoom] and with a legend at the top unless the source
    has a legend that counts as true; the other options are as in the
    source. The source chart keeps the options it had. *)
Theorem modal_options_are_merged (i : nat) (src : Chart) (title : string) (jd : json)
    (kvs : list (string * json)) (st : State) :
  charts st !! i = Some src →
  JSON_stringify (store st) (config_data src) = Ok (Some jd) →
  JSON_stringify (store st) (config_options src) = Ok (Some (JObj kvs)) →
  plain_plugins kvs →
  ∃ st' m mc,
    openModalForChart (Some i) title st = (st', Ok ()) ∧
    modalChartInstance st' = Some m ∧ charts st' !! m = Some mc ∧
    reads_as (store st') (config_options mc) (Some (with_zoom kvs)) ∧
    JSON_stringify (store st') (config_options src) = Ok (Some (JObj kvs)).
Proof.
  intros Hsrc Hd Ho Hp.
  destruct (modal_config_runs src jd kvs (store st) Hd Ho Hp) as (h' & cfg & Hcfg & Hr).
  destruct (openModalForChart_runs i src title h' cfg st Hsrc Hcfg) as [st' Hrun].
  destruct (openModalForChart_done _ _ _ _ Hrun)
    as (i' & src' & cfg' & [= <-] & Hsrc' & Hcfg' & Hcharts & Hinst & _).
  rewrite Hsrc in Hsrc'. injection Hsrc' as <-.
  rewrite Hcfg in Hcfg'. injection Hcfg' as -> <-.
  exists st', (length (charts st)), (MkChart modal_canvas (chart_type src) cfg.1 cfg.2 true).
  split_and!; [done | done | | by apply repr_reads |].
  - rewrite Hcharts, lookup_app_r by (by rewrite length_after_destroy).
    by rewrite length_after_destroy, Nat.sub_diag.
  - eapply JSON_stringify_extends; [exact Ho |].
    by destruct (modal_config_spec _ _ _ _ Hcfg) as (_ & _ & _ & [He _] & _).
Qed.

(** ** A whole load of the statistics *)

Lemma grows_ret {A} (a : A) : grows (mret a).
Proof. intros h. apply extends_refl. Qed.

Lemma grows_bind {A B} (m : H A) (k : A → H B) :
  grows m → (∀ a, grows (k a)) → grows (m ≫= k).
Proof.
  intros Hm Hk h. unfold mbind, H_bind, bindH.
  specialize (Hm h). destruct (m h) as [h1 [a|e]]; simpl in *; [| done].
  eapply extends_trans; [exact Hm | apply Hk].
Qed.

Lemma grows_alloc (o : obj) : grows (alloc o).
Proof. intros h. apply extends_app. Qed.

Lemma grows_get_prop (v : val) (k : string) : grows (get_prop v k).
Proof. intros h. apply extends_refl. Qed.

Lemma grows_or_else (a : val) (b : H val) : grows b → grows (or_else a b).
Proof. intros Hb. unfold or_else. destruct (truthy a); [apply grows_ret | done]. Qed.

Lemma grows_call_slice (v : val) (n : nat) : grows (call_slice v n).
Proof.
  intros h. unfold call_slice. repeat case_match; try apply extends_refl.
  apply extends_app.
Qed.

Lemma grows_mapH (f : val → H val) (vs : list val) :
  (∀ v, grows (f v)) → grows (mapH f vs).
Proof.
  intros Hf. induction vs as [|v vs IH]; simpl; [apply grows_ret |].
  apply grows_bind; [apply Hf | intros w].
  apply grows_bind; [apply IH | intros ws; apply grows_ret].
Qed.

Lemma grows_call_map (v : val) (f : val → H val) :
  (∀ x, grows (f x)) → grows (call_map v f).
Proof.
  intros Hf h. unfold call_map. repeat case_match; try apply extends_refl.
  apply (grows_bind (mapH f _)); [by apply grows_mapH | intros ws; apply grows_alloc].
Qed.

Ltac store_grows :=
  repeat first
    [ apply grows_ret | apply grows_alloc | apply grows_get_prop
    | apply grows_call_slice
    | (apply grows_call_map; intros ?)
    | (apply grows_or_else)
    | (apply grows_bind; [| intros ?]) ].

Lemma grows_prep_entries (list_key : string) (limit : nat) (label_key value_key : string)
    (data : val) :
  grows (prep_entries list_key limit label_key value_key data).
Proof. unfold prep_entries, buildBarColors, new_array. store_grows. Qed.

Lemma grows_status_entries (data : val) : grows (status_entries data).
Proof. unfold status_entries, buildBarColors, new_array. store_grows. Qed.

Lemma grows_time_series_of (data : val) : grows (time_series_of data).
Proof. unfold time_series_of, new_array, new_object. store_grows. Qed.

Lemma grows_line_config (ts : val) : grows (line_config ts).
Proof. unfold line_config, new_array, new_object. store_grows. Qed.

Lemma grows_data_literal (label : string) (labels values colors : val) :
  grows (data_literal label labels values colors).
Proof. unfold data_literal, new_array, new_object. store_grows. Qed.

Lemma grows_options (options : H val) :
  (∀ h, ∃ k o, options h = ((h ++ k)%list, Ok o)) → grows options.
Proof. intros Ho h. destruct (Ho h) as (k & o & ->). apply extends_app. Qed.

Lemma slot_shows_store (s' : slot) (D : json) (st : State) (h : heap) :
  extends (store st) h → slot_shows s' st D → slot_shows s' (set_store h st) D.
Proof.
  intros He (c & Hc & Ha & Hr). exists c. split_and!; [| done |].
  - revert Hc. unfold slot_chart. by destruct s'.
  - by eapply reads_as_extends.
Qed.

Lemma others_kept_liftH {A} (s' : slot) (D : json) (m : H A) :
  grows m → preserves (others_kept s' D) (liftH m).
Proof.
  intros Hm st [Hv Hs]. unfold liftH. specialize (Hm (store st)).
  destruct (m (store st)) as [h r]. simpl in *. split.
  - eapply vars_inv_ext; [..| exact Hv]; done.
  - by apply slot_shows_store.
Qed.

Lemma others_kept_install (s s' : slot) (D : json) (type : string)
    (config : H (val * val)) (title : string) :
  s' ≠ s → grows config →
  preserves (others_kept s' D) (install s type config title).
Proof.
  intros Hne Hg st [Hv Hs]. split; [by apply vars_inv_install |].
  destruct Hs as (c & Hc & Ha & Hr).
  unfold slot_chart in Hc. destruct (slot_var s' st) as [i|] eqn:Hi; [| done].
  simpl in Hc.
  assert (Hkeep : charts_after_destroy (slot_var s st) (charts st) !! i = Some c).
  { destruct (slot_var s st) as [k|] eqn:Hk; simpl; [| done].
    rewrite list_lookup_alter_ne; [done |]. intros Hki.
    destruct Hv as [H1 _]. rewrite Hki in Hk.
    destruct (H1 s i Hk) as (c1 & Hc1 & Hcv1). destruct (H1 s' i Hi) as (c2 & Hc2 & Hcv2).
    apply Hne, canvas_id_inj. congruence. }
  specialize (Hg (store st)).
  rewrite install_eq. cbv zeta.
  destruct (config (store st)) as [h [cfg|e]]; simpl in Hg.
  - rewrite listen_eq. exists c. split_and!; [| done | by eapply reads_as_extends].
    unfold slot_chart. simpl.
    change (slot_var s' (set_dom ?d (set_next_fn ?n ?x))) with (slot_var s' x).
    rewrite slot_var_set, decide_False by done.
    change (slot_var s' (set_charts ?c (set_store ?h ?x))) with (slot_var s' x).
    rewrite Hi. simpl. by apply lookup_app_l_Some.
  - exists c. split_and!; [| done | by eapply reads_as_extends].
    unfold slot_chart. simpl.
    change (slot_var s' (set_store ?h (set_charts ?c ?x))) with (slot_var s' x).
    rewrite Hi. simpl. done.
Qed.

Lemma others_kept_render (s s' : slot) (D : json) (data : val) :
  s' ≠ s → preserves (others_kept s' D) (render s data).
Proof.
  intros Hne.
  assert (Hds : ∀ type label title prep options,
            (∀ d, grows (prep d)) → grows options →
            preserves (others_kept s' D)
              (dataset_render s type label title prep options data)).
  { intros type label title prep options Hp Ho. unfold dataset_render.
    apply preserves_bind; [by apply others_kept_liftH | intros [[labels values] colors]].
    apply preserves_getElementById; [| apply preserves_ret].
    apply others_kept_install; [done |].
    apply grows_bind; [apply grows_data_literal | intros d].
    apply grows_bind; [done | intros o; apply grows_ret]. }
  destruct s; cbn [render].
  - apply Hds; [intros d; apply grows_prep_entries |].
    apply grows_options, doughnut_options_grow.
  - rewrite renderLoansOverTimeChart_shape.
    apply preserves_bind; [apply others_kept_liftH, grows_time_series_of | intros ts].
    apply preserves_getElementById; [| apply preserves_ret].
    apply others_kept_install; [done | apply grows_line_config].
  - apply Hds; [intros d; apply grows_status_entries |].
    apply grows_options, doughnut_options_grow.
  - apply Hds; [intros d; apply grows_prep_entries |].
    apply grows_options, bar_options_grow.
Qed.

Lemma ready_liftH {A} (j : json) (data : val) (c0 : list (level * string * error))
    (m : H A) :
  grows m → preserves (ready j data c0) (liftH m).
Proof.
  intros Hm st (Hr & Hd & Hc & Hv). unfold liftH. specialize (Hm (store st)).
  destruct (m (store st)) as [h r]. simpl in *. split_and!; [| done | done |].
  - by eapply repr_extends.
  - eapply vars_inv_ext; [..| exact Hv]; done.
Qed.

Lemma ready_install (j : json) (data : val) (c0 : list (level * string * error))
    (s : slot) (type : string) (config : H (val * val)) (title : string) :
  grows config → preserves (ready j data c0) (install s type config title).
Proof.
  intros Hg st (Hr & Hd & Hc & Hv).
  pose proof (vars_inv_install s type config title st Hv) as Hv'.
  pose proof (install_console c0 s type config title st Hc) as Hc'.
  split_and!; [| | done | done].
  - specialize (Hg (store st)). rewrite install_eq. cbv zeta.
    destruct (config (store st)) as [h [cfg|e]]; [rewrite listen_eq |]; simpl in *.
    all: exact (repr_extends _ _ _ _ Hr Hg).
  - intros s'. specialize (Hd s'). rewrite install_eq. cbv zeta.
    destruct (config (store st)) as [h [cfg|e]]; [rewrite listen_eq |]; simpl; [| done].
    rewrite lookup_alter. case_decide as E; [rewrite E; by apply fmap_is_Some | done].
Qed.

Lemma ready_render (j : json) (data0 : val) (c0 : list (level * string * error))
    (s : slot) (data : val) :
  preserves (ready j data0 c0) (render s data).
Proof.
  assert (Hds : ∀ type label title prep options,
            (∀ d, grows (prep d)) → grows options →
            preserves (ready j data0 c0)
              (dataset_render s type label title prep options data)).
  { intros type label title prep options Hp Ho. unfold dataset_render.
    apply preserves_bind; [by apply ready_liftH | intros [[labels values] colors]].
    apply preserves_getElementById; [| apply preserves_ret].
    apply ready_install.
    apply grows_bind; [apply grows_data_literal | intros d].
    apply grows_bind; [done | intros o; apply grows_ret]. }
  destruct s; cbn [render].
  - apply Hds; [intros d; apply grows_prep_entries |].
    apply grows_options, doughnut_options_grow.
  - rewrite renderLoansOverTimeChart_shape.
    apply preserves_bind; [apply ready_liftH, grows_time_series_of | intros ts].
    apply preserves_getElementById; [| apply preserves_ret].
    apply ready_install, grows_line_config.
  - apply Hds; [intros d; apply grows_status_entries |].
    apply grows_options, doughnut_options_grow.
  - apply Hds; [intros d; apply grows_prep_entries |].
    apply grows_options, bar_options_grow.
Qed.

Lemma forallb_readable (l : list json) :
  forallb (λ e, readable (Some e)) l = true → Forall (λ e, readable (Some e) = true) l.
Proof.
  induction l as [|e l IH]; simpl; [constructor |].
  intros [He Hl]%andb_true_iff. constructor; auto.
Qed.

(** The chart of one slot, drawn from a complete payload that is in the
    store. *)
Lemma render_complete (s : slot) (j : json) (data : val) (st : State) :
  complete j = true →
  repr (store st) j data →
  is_Some (dom st !! canvas_id s) →
  ∃ st', render s data st = (st', Ok ()) ∧ slot_shows s st' (expected s j).
Proof.
  intros Hc Hr Hcv. unfold complete in Hc.
  apply andb_true_iff in Hc as [[Hlists HL%bool_decide_eq_true]%andb_true_iff
                                  HV%bool_decide_eq_true].
  cbn [forallb] in Hlists.
  apply andb_true_iff in Hlists as [Hb [Hs [Hl _]%andb_true_iff]%andb_true_iff].
  unfold shown_entries in Hb, Hs, Hl. cbn [list_key] in Hb, Hs, Hl.
  destruct s; cbn [render expected]; unfold shown_entries; cbn [list_key].
  - destruct (field (Some j) "category_book_counts") as [[| | | |es|]|] eqn:Hf; try done.
    apply forallb_readable in Hb.
    destruct (prep_entries_spec (store st) j data "category_book_counts" 20 "name"
                "total_books" es Hr Hf Hb)
      as (h4 & labels & values & colors & Hprep & _ & Hlab & Hval & Hcol).
    exact (dataset_render_spec BooksPerCategory "doughnut" "Sách"
             "Số lượng sách theo thể loại"
             (prep_entries "category_book_counts" 20 "name" "total_books") doughnut_options
             data st h4 labels values colors _ _ _ Hprep Hlab Hval Hcol
             doughnut_options_grow Hcv).
  - destruct (field (Some j) "time_series") as [ts|] eqn:Hts; [| by destruct HL].
    destruct HL as [L HL], HV as [V HV]. rewrite HL, HV. cbn [default from_option id].
    assert (Hj : readable (Some j) = true) by (by destruct j).
    assert (Ht : readable (Some ts) = true) by (by destruct ts).
    destruct (repr_get_prop (store st) j data "time_series" Hr Hj) as (w & Hw & Hrw).
    rewrite Hts in Hrw. simpl in Hrw.
    destruct (repr_get_prop (store st) ts w "labels" Hrw Ht) as (lw & Hlw & Hrl).
    destruct (repr_get_prop (store st) ts w "values" Hrw Ht) as (vw & Hvw & Hrv).
    rewrite HL in Hrl. rewrite HV in Hrv. simpl in Hrl, Hrv.
    assert (Htr : truthy w = true) by (destruct ts; try done; by inversion Hrw).
    assert (Hser : time_series_of data (store st) = (store st, Ok w)).
    { unfold time_series_of. erewrite bindH_ok by exact Hw. unfold or_else. by rewrite Htr. }
    destruct (line_config_reads (store st) w lw vw L V Hlw Hvw
                (repr_reads _ _ _ Hrl) (repr_reads _ _ _ Hrv)) as (k & d & o & Hcfg & Hread).
    destruct Hcv as [el Hel].
    destruct (install_shows LoansOverTime "line" (line_config w)
                "Xu hướng mượn theo thời gian" (set_store (store st) st)
                (store st ++ k)%list d o (line_data L V) Hcfg Hread) as (st' & Hi & Hshow).
    exists st'. split; [| done].
    rewrite renderLoansOverTimeChart_shape.
    unfold mbind at 1, M_bind at 1, bindM at 1, liftH at 1. rewrite Hser.
    unfold mbind at 1, M_bind at 1, bindM at 1, getElementById at 1.
    change (dom (set_store (store st) st)) with (dom st). rewrite Hel.
    exact Hi.
  - destruct (field (Some j) "status_distribution") as [[| | | |es|]|] eqn:Hf; try done.
    apply forallb_readable in Hs.
    destruct (status_entries_spec (store st) j data es Hr Hf Hs)
      as (h4 & labels & values & colors & Hprep & Hlab & Hval & Hcol).
    exact (dataset_render_spec LoanStatus "doughnut" "Yêu cầu"
             "Trạng thái yêu cầu mượn sách" status_entries doughnut_options
             data st h4 labels values colors _ _ _ Hprep Hlab Hval Hcol
             doughnut_options_grow Hcv).
  - destruct (field (Some j) "language_distribution") as [[| | | |es|]|] eqn:Hf; try done.
    apply forallb_readable in Hl.
    destruct (prep_entries_spec (store st) j data "language_distribution" 12 "language"
                "total" es Hr Hf Hl)
      as (h4 & labels & values & colors & Hprep & _ & Hlab & Hval & Hcol).
    exact (dataset_render_spec Language "bar" "Số lượng sách"
             "Ngôn ngữ sách trong thư viện"
             (prep_entries "language_distribution" 12 "language" "total") bar_options
             data st h4 labels values colors _ _ _ Hprep Hlab Hval Hcol
             bar_options_grow Hcv).
Qed.

Lemma render_step (s : slot) (j : json) (data : val) (c0 : list (level * string * error))
    (st : State) :
  complete j = true → ready j data c0 st →
  ∃ st', render s data st = (st', Ok ()) ∧ ready j data c0 st' ∧
         slot_shows s st' (expected s j) ∧
         ∀ s' D, s' ≠ s → slot_shows s' st D → slot_shows s' st' D.
Proof.
  intros Hc Hrd.
  pose proof Hrd as (Hr & Hd & _ & Hv).
  destruct (render_complete s j data st Hc Hr (Hd s)) as (st' & Hrun & Hshow).
  exists st'. split_and!; [done | | done |].
  - pose proof (ready_render j data c0 s data st Hrd) as H. by rewrite Hrun in H.
  - intros s' D Hne Hs'.
    pose proof (others_kept_render s s' D data Hne st (conj Hv Hs')) as [_ H].
    by rewrite Hrun in H.
Qed.

(** X15. When the statistics response arrives on a page with the four
    canvases and its body is a complete payload, whatever the status and
    the content type of the response, the load ends without an error and
    without a console entry, and each of the four slots then holds a live
    chart with the data of its part of the payload: the first 20
    categories, the time series as it is, every status, the first 12
    languages. The later renders leave the charts of the earlier ones and
    their data as they are. *)
Theorem stats_response_renders_all (page : gmap string element) (es : list event)
    (r : response) (j : json) :
  let st := run es (initial page) in
  resp_json r = Some j →
  complete j = true →
  (∀ s, is_Some (dom st !! canvas_id s)) →
  ∃ st', loadBookStats_settled (Responded r) st = (st', Ok ()) ∧
         console st' = console st ∧
         ∀ s, slot_shows s st' (expected s j).
Proof.
  intros st Hj Hc Hd.
  destruct (alloc_json j (store st)) as [h0 data] eqn:Hal.
  destruct (alloc_json_spec j (store st) h0 data Hal) as (_ & Hr & _).
  assert (Hrd : ready j data (console st) (set_store h0 st)).
  { split_and!; [done | done | done |].
    eapply vars_inv_ext; [..| apply vars_inv_run, vars_inv_initial]; done. }
  destruct (render_step BooksPerCategory j data _ _ Hc Hrd) as (st1 & H1 & Hrd1 & S1 & _).
  destruct (render_step LoansOverTime j data _ _ Hc Hrd1) as (st2 & H2 & Hrd2 & S2 & K2).
  destruct (render_step LoanStatus j data _ _ Hc Hrd2) as (st3 & H3 & Hrd3 & S3 & K3).
  destruct (render_step Language j data _ _ Hc Hrd3) as (st4 & H4 & Hrd4 & S4 & K4).
  exists st4. split_and!.
  - unfold loadBookStats_settled, try_catch, stats_chain. rewrite Hj.
    unfold mbind at 1, M_bind at 1, bindM at 1, liftH at 1, JSON_parse. rewrite Hal.
    unfold renderCharts.
    cbn [render] in H1, H2, H3, H4.
    unfold mbind at 1, M_bind at 1, bindM at 1. rewrite H1.
    unfold mbind at 1, M_bind at 1, bindM at 1. rewrite H2.
    unfold mbind at 1, M_bind at 1, bindM at 1. rewrite H3.
    by rewrite H4.
  - by destruct Hrd4 as (_ & _ & ? & _).
  - intros [].
    + apply K4, K3, K2; done.
    + apply K4, K3; done.
    + by apply K4.
    + done.
Qed.

(** ** A click on a chart *)

Lemma canvas_ok_ext (st st' : State) :
  (∀ s, listeners <$> dom st' !! canvas_id s = listeners <$> dom st !! canvas_id s) →
  (∀ s, slot_var s st' = slot_var s st) →
  canvas_ok st → canvas_ok st'.
Proof.
  intros Hd Hv HI s. destruct (HI s) as [H1 H2]. specialize (Hd s). split.
  - intros el l Hel Hl. rewrite Hel in Hd. simpl in Hd.
    destruct (dom st !! canvas_id s) as [el0|] eqn:E; [| done].
    injection Hd as Hd. apply (H1 el0 l eq_refl). by rewrite <- Hd.
  - rewrite Hv. intros Hs. destruct (H2 Hs) as (el0 & Hel0 & Hne).
    rewrite Hel0 in Hd. simpl in Hd.
    destruct (dom st' !! canvas_id s) as [el|] eqn:E; [| done].
    injection Hd as Hd. exists el. split; [done |]. by rewrite Hd.
Qed.

(** A change of the state that leaves the page and the slots' variables
    as they are. *)
Lemma canvas_ok_modify (f : State → State) :
  (∀ st, dom (f st) = dom st) → (∀ st s, slot_var s (f st) = slot_var s st) →
  preserves canvas_ok (modify f).
Proof.
  intros Hd Hv st HI. simpl. eapply canvas_ok_ext; [| | exact HI].
  - intros s. by rewrite Hd.
  - intros s. apply Hv.
Qed.

Lemma canvas_ok_update (id : string) (f : element → element) :
  (∀ el, listeners (f el) = listeners el) → preserves canvas_ok (update_element id f).
Proof.
  intros Hf st HI. rewrite update_element_eq. simpl.
  eapply canvas_ok_ext; [| | exact HI]; [| done].
  intros s. simpl. rewrite lookup_alter. case_decide as E; [| done].
  rewrite E. destruct (dom st !! canvas_id s); simpl; [by rewrite Hf | done].
Qed.

Lemma canvas_ok_fetch (url : string) : preserves canvas_ok (fetch url).
Proof. by apply canvas_ok_modify. Qed.

Lemma canvas_ok_console (l : level) (msg : string) (e : error) :
  preserves canvas_ok (console_log l msg e).
Proof. by apply canvas_ok_modify. Qed.

Lemma canvas_ok_liftH {A} (m : H A) : preserves canvas_ok (liftH m).
Proof.
  apply preserves_liftH. intros h st HI. eapply canvas_ok_ext; [| | exact HI]; done.
Qed.

(** A listener on an element that is no canvas. *)
Lemma canvas_ok_add (id type : string) (f : callback) :
  (∀ s, id ≠ canvas_id s) → preserves canvas_ok (addEventListener id type f).
Proof.
  intros Hid st HI. unfold addEventListener. rewrite update_element_eq. simpl.
  eapply canvas_ok_ext; [| | exact HI]; [| done].
  intros s. simpl. by rewrite lookup_alter, decide_False by apply Hid.
Qed.

Lemma canvas_ok_listen (id type : string) (body : closure) :
  (∀ s, id ≠ canvas_id s) → preserves canvas_ok (listen id type body).
Proof.
  intros Hid st HI. rewrite listen_eq. simpl.
  eapply canvas_ok_ext; [| | exact HI]; [| by intros []].
  intros s. simpl. by rewrite lookup_alter, decide_False by apply Hid.
Qed.

(** A render installs the chart only when the page has the canvas; the
    listener it registers is the slot's. *)
Lemma canvas_ok_install (s : slot) (type : string) (config : H (val * val)) :
  preserves canvas_ok
    (ctx ← getElementById (canvas_id s);
     match ctx with
     | None => mret ()
     | Some _ => install s type config (slot_title s)
     end).
Proof.
  intros st HI. unfold mbind at 1, M_bind at 1, bindM at 1, getElementById at 1.
  destruct (dom st !! canvas_id s) as [el0|] eqn:Hel; [| done].
  rewrite install_eq. cbv zeta.
  destruct (config (store st)) as [h [cfg|e]].
  - rewrite listen_eq. intros s'. destruct (HI s') as [H1 H2]. simpl.
    change (slot_var s' (set_dom ?d (set_next_fn ?n ?x))) with (slot_var s' x).
    rewrite slot_var_set.
    change (slot_var s' (set_charts ?c (set_store ?h ?x))) with (slot_var s' x).
    rewrite lookup_alter.
    destruct (decide (canvas_id s = canvas_id s')) as [E|E].
    + apply canvas_id_inj in E as <-. rewrite Hel. simpl. split.
      * intros el l [= <-]. simpl.
        intros [Hl| ->]%elem_of_add_listener; [by apply (H1 el0) | by eexists].
      * intros _. eexists. split; [done |]. simpl.
        unfold add_listener. case_decide as Hin; [by destruct Hin |].
        by destruct (listeners el0).
    + split; [apply H1 |]. rewrite decide_False by congruence. apply H2.
  - eapply canvas_ok_ext; [| | exact HI]; done.
Qed.

Lemma canvas_ok_render (s : slot) (data : val) : preserves canvas_ok (render s data).
Proof.
  assert (Hds : ∀ type label prep options,
            preserves canvas_ok
              (dataset_render s type label (slot_title s) prep options data)).
  { intros type label prep options. unfold dataset_render.
    apply preserves_bind; [apply canvas_ok_liftH | intros [[labels values] colors]].
    apply canvas_ok_install. }
  destruct s; cbn [render].
  - apply Hds.
  - rewrite renderLoansOverTimeChart_shape.
    apply preserves_bind; [apply canvas_ok_liftH | intros ts].
    apply (canvas_ok_install LoansOverTime).
  - apply Hds.
  - apply Hds.
Qed.

Lemma canvas_ok_ensureModal : preserves canvas_ok ensureModal.
Proof.
  intros st HI. destruct (ensureModal_frame st) as (Hd & _ & _ & Hv & _).
  eapply canvas_ok_ext; [| | exact HI]; [by rewrite Hd | exact Hv].
Qed.

Lemma canvas_ok_open (c : option nat) (title : string) :
  preserves canvas_ok (openModalForChart c title).
Proof.
  unfold openModalForChart.
  apply preserves_bind; [apply canvas_ok_ensureModal | intros _].
  apply preserves_bind; [by apply canvas_ok_modify | intros _].
  apply preserves_bind; [apply preserves_config_of | intros src].
  apply preserves_bind; [apply canvas_ok_liftH | intros cfg].
  apply preserves_bind; [| intros _; by apply canvas_ok_modify].
  intros st HI. rewrite replace_modal_chart_eq. cbv zeta. simpl.
  eapply canvas_ok_ext; [| | exact HI]; done.
Qed.

Lemma canvas_ok_closeModal : preserves canvas_ok closeModal.
Proof.
  intros st HI. rewrite closeModal_eq. simpl.
  eapply canvas_ok_ext; [| | exact HI]; done.
Qed.

Section CanvasListeners.
Hint Resolve canvas_ok_fetch canvas_ok_console canvas_ok_liftH canvas_ok_open
  canvas_ok_closeModal canvas_ok_render : pres.
Hint Extern 1 (preserves _ (update_element _ _)) =>
  (apply canvas_ok_update; intros ?; reflexivity) : pres.
Hint Extern 1 (preserves _ (addEventListener _ _ _)) =>
  (apply canvas_ok_add; by intros []) : pres.
Hint Extern 1 (preserves _ (listen _ _ _)) =>
  (apply canvas_ok_listen; by intros []) : pres.

Lemma canvas_ok_updateElement (id : string) (v : jval) :
  preserves canvas_ok (updateElement id v).
Proof. unfold updateElement. pres. Qed.
Hint Resolve canvas_ok_updateElement : pres.

Lemma canvas_ok_loadBookStats : preserves canvas_ok loadBookStats.
Proof. unfold loadBookStats. pres. Qed.

Lemma canvas_ok_toggle : preserves canvas_ok toggleMonthVisibility.
Proof. unfold toggleMonthVisibility. pres. Qed.
Hint Resolve canvas_ok_loadBookStats canvas_ok_toggle : pres.

Lemma canvas_ok_init (a b : string) (z : zoom_plugin) (year month0 : Z) :
  preserves canvas_ok (init a b z year month0).
Proof.
  unfold init.
  apply preserves_bind; [by apply canvas_ok_modify | intros _].
  apply preserves_bind; [destruct z; simpl; pres; by apply canvas_ok_modify | intros _].
  apply preserves_bind; [unfold loadDashboardStats; pres | intros _].
  apply preserves_bind; [unfold loadRecentActivity; pres | intros _].
  apply preserves_bind; [| intros _; pres].
  unfold setupStatsControls.
  apply preserves_getElementById; [| pres].
  apply preserves_getElementById; [| pres].
  apply preserves_getElementById; [| pres].
  pres.
Qed.

Lemma canvas_ok_renderCharts (data : val) : preserves canvas_ok (renderCharts data).
Proof.
  unfold renderCharts.
  apply preserves_bind; [apply (canvas_ok_render BooksPerCategory) | intros _].
  apply preserves_bind; [apply (canvas_ok_render LoansOverTime) | intros _].
  apply preserves_bind; [apply (canvas_ok_render LoanStatus) | intros _].
  apply (canvas_ok_render Language).
Qed.
Hint Resolve canvas_ok_renderCharts : pres.

Lemma canvas_ok_call (on_overlay : bool) (f : callback) :
  preserves canvas_ok (call on_overlay f).
Proof. destruct f as [|id []]; simpl; pres. Qed.

Lemma canvas_ok_dispatch (on_overlay : bool) (type : string) (ls : list listener) :
  preserves canvas_ok (dispatch on_overlay type ls).
Proof.
  induction ls as [|l ls IH]; simpl; [pres |].
  apply preserves_bind; [| intros _; apply IH].
  destruct (String.eqb (on l) type); [| pres].
  apply preserves_try_catch; [apply canvas_ok_call | intros e; pres].
Qed.

Lemma canvas_ok_handle (e : event) : preserves canvas_ok (handle e).
Proof.
  destruct e; simpl.
  - apply canvas_ok_init.
  - unfold loadDashboardStats_settled, summary_chain, stats_then, stats_catch. pres.
  - unfold loadRecentActivity_settled, activity_chain, activity_then, activity_catch. pres.
  - unfold loadBookStats_settled, stats_chain, stats_catch_log. pres.
  - pres.
  - intros st HI. unfold fire. destruct (dom st !! id); [by apply canvas_ok_dispatch | done].
  - intros st HI. unfold modal_click. destruct (modal st) as [m|]; [| done].
    destruct t;
      first [ by apply canvas_ok_dispatch
            | refine (preserves_bind canvas_ok _ _ _ _ st HI);
              [apply canvas_ok_dispatch | intros _; apply canvas_ok_dispatch] ].
Qed.
End CanvasListeners.

Lemma canvas_ok_run (page : gmap string element) (es : list event) :
  unscripted page → canvas_ok (run es (initial page)).
Proof.
  intros Hu.
  assert (H0 : canvas_ok (initial page)).
  { intros s. split; [| by destruct s; intros [? ?]].
    intros el l Hel Hl. apply Hu in Hel. simpl in Hel. rewrite Hel in Hl.
    by apply elem_of_nil in Hl. }
  revert H0. generalize (initial page).
  induction es as [|e es IH]; intros st HI; [done |].
  apply IH. by apply canvas_ok_handle.
Qed.

Lemma openModalForChart_title (c : option nat) (title : string) (st st' : State) :
  openModalForChart c title st = (st', Ok ()) →
  console st' = console st ∧
  modal_title <$> modal st' =
    Some (if String.eqb title EmptyString then "Biểu đồ" else title).
Proof.
  unfold openModalForChart, mbind, M_bind, bindM.
  pose proof (ensureModal_ok st) as Hok.
  destruct (ensureModal_frame st) as (Hd & Hc & Hs & Hv & Hm & _ & [m Hmod]).
  assert (Hcon : console (ensureModal st).1 = console st).
  { unfold ensureModal. by destruct (modal st). }
  destruct (ensureModal st) as [st1 r]. simpl in *. subst r.
  unfold config_of. simpl. rewrite Hc.
  destruct c as [i|]; [| done].
  destruct (charts st !! i) as [src|] eqn:Hsrc; [| done].
  unfold liftH. simpl. rewrite Hs.
  destruct (modal_config src (store st)) as [h [cfg|e]] eqn:Hcfg; [| done].
  rewrite replace_modal_chart_eq. simpl. intros [= <-]. simpl.
  by rewrite Hmod.
Qed.

Lemma open_once (s : slot) (i : nat) (src : Chart) (jd : json)
    (kvs : list (string * json)) (c0 : list (level * string * error)) (title : string)
    (st : State) :
  plain_plugins kvs → title ≠ EmptyString →
  holds s i src jd kvs c0 st →
  ∃ st', openModalForChart (Some i) title st = (st', Ok ()) ∧
         holds s i src jd kvs c0 st' ∧ opened title src jd kvs st'.
Proof.
  intros Hp Ht (Hs & Hsrc & Hd & Ho & Hv & Hc).
  destruct (modal_config_runs src jd kvs (store st) Hd Ho Hp) as (h' & cfg & Hcfg & Hr).
  destruct (openModalForChart_runs i src title h' cfg st Hsrc Hcfg) as [st' Hrun].
  destruct (openModalForChart_done _ _ _ _ Hrun)
    as (i' & src' & cfg' & [= <-] & Hsrc' & Hcfg' & Hcharts & Hinst & Hvars & _ & Hdisp).
  rewrite Hsrc in Hsrc'. injection Hsrc' as <-.
  rewrite Hcfg in Hcfg'. injection Hcfg' as -> <-.
  destruct (modal_config_spec _ _ _ _ Hcfg) as (j & Hj & Hrd & [Hext _] & _).
  rewrite Hd in Hj. injection Hj as <-.
  destruct (openModalForChart_title _ _ _ _ Hrun) as [Hcon Htitle].
  exists st'. split; [done |]. split.
  - split_and!.
    + by rewrite Hvars.
    + rewrite Hcharts. apply lookup_app_l_Some.
      destruct (modalChartInstance st) as [k|] eqn:Hk; simpl; [| done].
      rewrite list_lookup_alter_ne; [done |]. intros ->.
      destruct Hv as [H1 H2].
      destruct (H1 s i Hs) as (c1 & Hc1 & Hcv1). destruct (H2 i Hk) as (c2 & Hc2 & Hcv2).
      apply (canvas_id_not_modal s). congruence.
    + by eapply JSON_stringify_extends.
    + by eapply JSON_stringify_extends.
    + pose proof (vars_inv_open (Some i) title st Hv) as H. by rewrite Hrun in H.
    + congruence.
  - split_and!; [done | |].
    + rewrite Htitle. by destruct title.
    + exists (length (charts st)), (MkChart modal_canvas (chart_type src) cfg.1 cfg.2 true).
      split_and!; try done; [| by apply repr_reads..].
      rewrite Hcharts, lookup_app_r by (by rewrite length_after_destroy).
      by rewrite length_after_destroy, Nat.sub_diag.
Qed.

Lemma dispatch_opens (s : slot) (i : nat) (src : Chart) (jd : json)
    (kvs : list (string * json)) (c0 : list (level * string * error))
    (ls : list listener) (st : State) :
  plain_plugins kvs →
  (∀ l, l ∈ ls → ∃ n, l = Listener "click" (Closure n (OpenModal s (slot_title s)))) →
  holds s i src jd kvs c0 st →
  ∃ st', dispatch false "click" ls st = (st', Ok ()) ∧
         holds s i src jd kvs c0 st' ∧
         (ls = [] ∧ st' = st ∨ opened (slot_title s) src jd kvs st').
Proof.
  intros Hp. revert st. induction ls as [|l ls IH]; intros st Hall Hh.
  - exists st. split_and!; [done | done | by left].
  - destruct (Hall l) as [n ->]; [apply list_elem_of_here |].
    destruct (open_once s i src jd kvs c0 (slot_title s) st Hp) as (st1 & Hrun & Hh1 & Ho1);
      [by destruct s | done |].
    destruct (IH st1) as (st' & Hd & Hh' & Ho'); [| done |].
    { intros l Hl. apply Hall. by apply list_elem_of_further. }
    exists st'. split_and!; [| done |].
    + cbn [dispatch on handler]. cbn [String.eqb Ascii.eqb Bool.eqb].
      unfold mbind at 1, M_bind at 1, bindM at 1, try_catch.
      cbn [call]. unfold mbind at 1, M_bind at 1, bindM at 1, slot_of_var.
      destruct Hh as (Hs & _). rewrite Hs, Hrun. exact Hd.
    + right. destruct Ho' as [[-> ->]|Ho']; done.
Qed.

(** X16. On a page that had no listeners of its own, after any events, a
    slot that holds a chart has a click listener on its canvas, and a
    click on the canvas, when the data and the options of the slot's
    chart have trees (the options an object with plain plugins), opens
    the modal: it is displayed, its title is the slot's, and its chart is
    a live chart on the modal canvas of the source's type, with the
    source's data and with the source's options merged with the zoom
    settings. This holds however many click listeners the renders have
    left on the canvas. Nothing is logged, and the slot keeps its
    chart. *)
Theorem canvas_click_opens_modal (page : gmap string element) (es : list event)
    (s : slot) (i : nat) (src : Chart) (jd : json) (kvs : list (string * json)) :
  let st := run es (initial page) in
  unscripted page →
  slot_var s st = Some i → charts st !! i = Some src →
  JSON_stringify (store st) (config_data src) = Ok (Some jd) →
  JSON_stringify (store st) (config_options src) = Ok (Some (JObj kvs)) →
  plain_plugins kvs →
  let st' := run [EvFire (canvas_id s) "click"] st in
  (0 < click_listeners s st)%nat ∧
  opened (slot_title s) src jd kvs st' ∧
  console st' = console st ∧
  slot_var s st' = Some i ∧ charts st' !! i = Some src.
Proof.
  intros st Hu Hs Hsrc Hd Ho Hp st'.
  destruct (canvas_ok_run page es Hu s) as [H1 H2]. fold st in H1, H2.
  destruct H2 as (el & Hel & Hne); [by rewrite Hs |].
  assert (Hh : holds s i src jd kvs (console st) st).
  { split_and!; try done. apply vars_inv_run, vars_inv_initial. }
  destruct (dispatch_opens s i src jd kvs (console st) (listeners el) st Hp
              (λ l, H1 el l Hel) Hh)
    as (st1 & Hrun & (Hs1 & Hsrc1 & _ & _ & _ & Hc1) & Hopen).
  assert (Hst' : st' = st1).
  { unfold st', run. cbn [foldl]. unfold step. cbn [handle]. unfold fire.
    by rewrite Hel, Hrun. }
  rewrite Hst'. split_and!; try done.
  - unfold click_listeners. rewrite Hel.
    destruct (listeners el) as [|l ls] eqn:E; [done |].
    destruct (H1 el l Hel) as [n ->]; [rewrite E; apply list_elem_of_here |].
    rewrite filter_cons_True by done. simpl. lia.
  - by destruct Hopen as [[? _]|?].
Qed.

(** ** The options of the charts *)

Lemma doughnut_options_eq (h : heap) :
  doughnut_options h = (let '(h', v) := alloc_json (JObj doughnut_tree) h in (h', Ok v)).
Proof. reflexivity. Qed.

Lemma bar_options_eq (h : heap) :
  bar_options h = (let '(h', v) := alloc_json (JObj bar_tree) h in (h', Ok v)).
Proof. reflexivity. Qed.

Lemma render_options_extends (h h' : heap) (o : val) :
  extends h h' → render_options h o → render_options h' o.
Proof.
  intros He (kvs & Hk & Hr & Hl). exists kvs. split_and!; [done | by eapply repr_extends |].
  apply extends_length in He. lia.
Qed.

Lemma alloc_options (kvs : list (string * json)) (h h' : heap) (o : val) :
  kvs = doughnut_tree ∨ kvs = bar_tree →
  alloc_json (JObj kvs) h = (h', o) → render_options h' o.
Proof.
  intros Hk Ha. exists kvs. split_and!; [done | by apply alloc_json_spec in Ha as (_ & ? & _) |].
  destruct Hk as [-> | ->]; simpl in Ha; injection Ha as <- _; rewrite !length_app; simpl; lia.
Qed.

Lemma line_config_options (ts : val) (h h' : heap) (d o : val) :
  line_config ts h = (h', Ok (d, o)) → render_options h' o.
Proof.
  unfold line_config.
  destruct (get_prop ts "labels" h) as [h1 [lw|e]] eqn:E1;
    [| unfold mbind, H_bind, bindH; by rewrite E1].
  assert (h1 = h) as -> by (by injection E1).
  rewrite (bindH_ok _ _ h h lw E1).
  destruct (get_prop ts "values" h) as [h2 [vw|e]] eqn:E2;
    [| unfold mbind, H_bind, bindH; by rewrite E2].
  assert (h2 = h) as -> by (by injection E2).
  rewrite (bindH_ok _ _ h h vw E2).
  erewrite bindH_ok by reflexivity. erewrite bindH_ok by reflexivity.
  erewrite bindH_ok by reflexivity.
  intros Hrun.
  assert (Ha : ∃ h3, alloc_json (JObj bar_tree) h3 = (h', o)).
  { eexists. cbv [mbind H_bind bindH new_object alloc mret H_ret retH] in Hrun.
    injection Hrun as <- _ <-. reflexivity. }
  destruct Ha as [h3 Ha]. eapply alloc_options; [by right | done].
Qed.

Lemma options_inv_step (st st' : State) :
  extends (store st) (store st') →
  (∀ i c', charts st' !! i = Some c' → canvas c' ≠ modal_canvas →
           (∃ c, charts st !! i = Some c ∧ canvas c = canvas c' ∧
                 config_options c = config_options c') ∨
           render_options (store st') (config_options c')) →
  options_inv st → options_inv st'.
Proof.
  intros He Hc HI i c' Hi Hcv.
  destruct (Hc i c' Hi Hcv) as [(c & Hci & Hcc & Hco)|Hnew]; [| done].
  rewrite <- Hco. eapply render_options_extends; [done |].
  apply (HI i c Hci). by rewrite Hcc.
Qed.

Lemma options_inv_ext (st st' : State) :
  charts st' = charts st → store st' = store st → options_inv st → options_inv st'.
Proof.
  intros Hc Hs. apply options_inv_step; [rewrite Hs; apply extends_refl |].
  intros i c' Hi _. left. exists c'. rewrite Hc in Hi. done.
Qed.

Lemma options_inv_modify (f : State → State) :
  (∀ st, charts (f st) = charts st) → (∀ st, store (f st) = store st) →
  preserves options_inv (modify f).
Proof.
  intros Hc Hs st HI. simpl. eapply options_inv_ext; [apply Hc | apply Hs | exact HI].
Qed.

Lemma options_inv_liftH {A} (m : H A) : grows m → preserves options_inv (liftH m).
Proof.
  intros Hm st HI. unfold liftH. specialize (Hm (store st)).
  destruct (m (store st)) as [h r]. simpl in *.
  eapply options_inv_step; [exact Hm | | exact HI]. intros i c' Hi _. left. by exists c'.
Qed.

Lemma after_destroy_config (old : option nat) (cs : list Chart) (i : nat) (c' : Chart) :
  charts_after_destroy old cs !! i = Some c' →
  ∃ c, cs !! i = Some c ∧ canvas c = canvas c' ∧ config_options c = config_options c'.
Proof.
  destruct old as [k|]; simpl; [| eauto].
  rewrite list_lookup_alter. case_decide as E; [subst k | eauto].
  destruct (cs !! i) as [c|]; simpl; [| done]. intros [= <-]. by exists c.
Qed.

Lemma options_inv_install (s : slot) (type : string) (config : H (val * val))
    (title : string) :
  grows config →
  (∀ h h' d o, config h = (h', Ok (d, o)) → render_options h' o) →
  preserves options_inv (install s type config title).
Proof.
  intros Hg Hopt st HI. rewrite install_eq. cbv zeta.
  specialize (Hg (store st)). specialize (Hopt (store st)).
  destruct (config (store st)) as [h [[d o]|e]]; simpl in Hg.
  - rewrite listen_eq. eapply options_inv_step; [exact Hg | | exact HI].
    intros i c' Hi Hcv. simpl in Hi.
    apply lookup_app_Some in Hi as [Hi|[_ Hi]].
    + left. exact (after_destroy_config _ _ _ _ Hi).
    + right. apply list_lookup_singleton_Some in Hi as [_ <-]. simpl. by eapply Hopt.
  - eapply options_inv_step; [exact Hg | | exact HI].
    intros i c' Hi Hcv. left. exact (after_destroy_config _ _ _ _ Hi).
Qed.

Lemma options_inv_render (s : slot) (data : val) : preserves options_inv (render s data).
Proof.
  assert (Hds : ∀ type label title prep options kvs,
            (∀ d, grows (prep d)) →
            kvs = doughnut_tree ∨ kvs = bar_tree →
            (∀ h, options h = (let '(h', v) := alloc_json (JObj kvs) h in (h', Ok v))) →
            preserves options_inv (dataset_render s type label title prep options data)).
  { intros type label title prep options kvs Hp Hk Ho. unfold dataset_render.
    assert (Hgo : grows options).
    { intros h. rewrite Ho. destruct (alloc_json (JObj kvs) h) as [h' v] eqn:E.
      apply alloc_json_spec in E as (Hg & _). by apply grown_extends. }
    apply preserves_bind; [by apply options_inv_liftH | intros [[labels values] colors]].
    apply preserves_getElementById; [| apply preserves_ret].
    apply options_inv_install.
    - apply grows_bind; [apply grows_data_literal | intros d].
      apply grows_bind; [done | intros o; apply grows_ret].
    - intros h h' d o. unfold mbind, H_bind, bindH.
      destruct (data_literal label labels values colors h) as [h1 [d1|e]]; [| done].
      rewrite Ho. destruct (alloc_json (JObj kvs) h1) as [h2 v] eqn:E.
      intros [= <- _ <-]. by eapply alloc_options. }
  destruct s; cbn [render].
  - apply (Hds _ _ _ _ _ doughnut_tree); [intros d; apply grows_prep_entries | by left |].
    apply doughnut_options_eq.
  - rewrite renderLoansOverTimeChart_shape.
    apply preserves_bind; [apply options_inv_liftH, grows_time_series_of | intros ts].
    apply preserves_getElementById; [| apply preserves_ret].
    apply options_inv_install; [apply grows_line_config | apply line_config_options].
  - apply (Hds _ _ _ _ _ doughnut_tree); [intros d; apply grows_status_entries | by left |].
    apply doughnut_options_eq.
  - apply (Hds _ _ _ _ _ bar_tree); [intros d; apply grows_prep_entries | by right |].
    apply bar_options_eq.
Qed.

Lemma grows_json_clone (v : val) : grows (json_clone v).
Proof.
  intros h. unfold json_clone, JSON_parse.
  destruct (JSON_stringify h v) as [[j|]|e]; try apply extends_refl.
  destruct (alloc_json j h) as [h' v'] eqn:E.
  apply alloc_json_spec in E as (Hg & _). by apply grown_extends.
Qed.

Lemma grows_modal_config (src : Chart) : grows (modal_config src).
Proof.
  unfold modal_config.
  apply grows_bind; [apply grows_json_clone | intros d].
  apply grows_bind; [apply grows_or_else, grows_alloc | intros so].
  apply grows_bind; [| intros o; apply grows_ret].
  intros h. by destruct (modal_options_apart h so h (apart_from_refl h)) as [[He _] _].
Qed.

Lemma options_inv_open (c : option nat) (title : string) :
  preserves options_inv (openModalForChart c title).
Proof.
  unfold openModalForChart.
  apply preserves_bind; [| intros _].
  { intros st HI. destruct (ensureModal_frame st) as (_ & Hc & Hs & _).
    by eapply options_inv_ext. }
  apply preserves_bind; [by apply options_inv_modify | intros _].
  apply preserves_bind; [apply preserves_config_of | intros src].
  apply preserves_bind; [apply options_inv_liftH, grows_modal_config | intros cfg].
  apply preserves_bind; [| intros _; by apply options_inv_modify].
  intros st HI. rewrite replace_modal_chart_eq. cbv zeta. simpl.
  apply (options_inv_step st); [apply extends_refl | | exact HI].
  intros i c' Hi Hcv. simpl in Hi. left.
  apply lookup_app_Some in Hi as [Hi|[_ Hi]]; [exact (after_destroy_config _ _ _ _ Hi) |].
  apply list_lookup_singleton_Some in Hi as [_ <-]. done.
Qed.

Lemma options_inv_closeModal : preserves options_inv closeModal.
Proof.
  intros st HI. rewrite closeModal_eq. simpl.
  apply (options_inv_step st); [apply extends_refl | | exact HI].
  intros i c' Hi Hcv. simpl in Hi. left. exact (after_destroy_config _ _ _ _ Hi).
Qed.

Section ChartOptions.
Hint Resolve options_inv_open options_inv_closeModal options_inv_render : pres.
Hint Extern 1 (preserves options_inv (fetch _)) => (by apply options_inv_modify) : pres.
Hint Extern 1 (preserves options_inv (console_log _ _ _)) =>
  (by apply options_inv_modify) : pres.
Hint Extern 1 (preserves options_inv (update_element _ _)) =>
  (by apply options_inv_modify) : pres.
Hint Extern 1 (preserves options_inv (addEventListener _ _ _)) =>
  (by apply options_inv_modify) : pres.
Hint Extern 1 (preserves options_inv (listen _ _ _)) =>
  (intros ? ?; rewrite listen_eq; by eapply options_inv_ext) : pres.

Lemma options_inv_updateElement (id : string) (v : jval) :
  preserves options_inv (updateElement id v).
Proof. unfold updateElement. pres. Qed.
Hint Resolve options_inv_updateElement : pres.

Lemma options_inv_loadBookStats : preserves options_inv loadBookStats.
Proof. unfold loadBookStats. pres. Qed.

Lemma options_inv_toggle : preserves options_inv toggleMonthVisibility.
Proof. unfold toggleMonthVisibility. pres. Qed.
Hint Resolve options_inv_loadBookStats options_inv_toggle : pres.

Lemma options_inv_init (a b : string) (z : zoom_plugin) (year month0 : Z) :
  preserves options_inv (init a b z year month0).
Proof.
  unfold init.
  apply preserves_bind; [by apply options_inv_modify | intros _].
  apply preserves_bind; [destruct z; simpl; pres; by apply options_inv_modify | intros _].
  apply preserves_bind; [unfold loadDashboardStats; pres | intros _].
  apply preserves_bind; [unfold loadRecentActivity; pres | intros _].
  apply preserves_bind; [| intros _; pres].
  unfold setupStatsControls.
  apply preserves_getElementById; [| pres].
  apply preserves_getElementById; [| pres].
  apply preserves_getElementById; [| pres].
  pres.
Qed.

Lemma options_inv_renderCharts (data : val) : preserves options_inv (renderCharts data).
Proof.
  unfold renderCharts.
  apply preserves_bind; [apply (options_inv_render BooksPerCategory) | intros _].
  apply preserves_bind; [apply (options_inv_render LoansOverTime) | intros _].
  apply preserves_bind; [apply (options_inv_render LoanStatus) | intros _].
  apply (options_inv_render Language).
Qed.
Hint Resolve options_inv_renderCharts : pres.

Lemma options_inv_call (on_overlay : bool) (f : callback) :
  preserves options_inv (call on_overlay f).
Proof. destruct f as [|id []]; simpl; pres. Qed.

Lemma options_inv_dispatch (on_overlay : bool) (type : string) (ls : list listener) :
  preserves options_inv (dispatch on_overlay type ls).
Proof.
  induction ls as [|l ls IH]; simpl; [pres |].
  apply preserves_bind; [| intros _; apply IH].
  destruct (String.eqb (on l) type); [| pres].
  apply preserves_try_catch; [apply options_inv_call | intros e; pres].
Qed.

Lemma options_inv_handle (e : event) : preserves options_inv (handle e).
Proof.
  destruct e; simpl.
  - apply options_inv_init.
  - unfold loadDashboardStats_settled, summary_chain, stats_then, stats_catch. pres.
  - unfold loadRecentActivity_settled, activity_chain, activity_then, activity_catch. pres.
  - unfold loadBookStats_settled, stats_chain, stats_catch_log.
    apply preserves_try_catch; [| intros e; pres].
    destruct o as [e|r]; [pres |]. destruct (resp_json r) as [j|]; [| pres].
    apply preserves_bind; [| intros data; pres].
    apply options_inv_liftH. intros h. unfold JSON_parse.
    destruct (alloc_json j h) as [h' v] eqn:E.
    apply alloc_json_spec in E as (Hg & _). by apply grown_extends.
  - pres.
  - intros st HI. unfold fire. destruct (dom st !! id); [by apply options_inv_dispatch | done].
  - intros st HI. unfold modal_click. destruct (modal st) as [m|]; [| done].
    destruct t;
      first [ by apply options_inv_dispatch
            | refine (preserves_bind options_inv _ _ _ _ st HI);
              [apply options_inv_dispatch | intros _; apply options_inv_dispatch] ].
Qed.
End ChartOptions.

Lemma options_inv_run (page : gmap string element) (es : list event) :
  options_inv (run es (initial page)).
Proof.
  assert (H0 : options_inv (initial page)) by (by intros i c Hi).
  revert H0. generalize (initial page).
  induction es as [|e es IH]; intros st HI; [done |].
  apply IH. by apply options_inv_handle.
Qed.

(** C8. After any run of events, a call of [openModalForChart] on the chart
    of a slot that returns has made a new instance on the modal's canvas,
    of the source's type, whose data has the tree of the source's data and
    whose options have the tree of the source's options with the zoom
    settings and the free aspect ratio of the modal merged in; the
    source's options are the options literal of its render and still have
    their tree after the call.
    Every object that can be reached from the data or the options of the
    modal chart was allocated by the call, and every object the store had
    before is unchanged: the slot still holds the same instance with the
    same data. A write to an object of the modal chart leaves the older
    objects and the slot chart's data as they are; a write to an older
    object leaves the modal chart's data and options as they are.
    Destroying the modal chart, directly or by [closeModal], leaves the
    slot chart as it is, and destroying the slot chart leaves the modal
    chart as it is. *)
Theorem modal_chart_is_isolated (page : gmap string element) (es : list event)
    (s : slot) (title : string) (st' : State) :
  let st := run es (initial page) in
  openModalForChart (slot_var s st) title st = (st', Ok ()) →
  ∃ i m src mc j kvs,
    slot_var s st = Some i ∧ charts st !! i = Some src ∧
    modalChartInstance st' = Some m ∧ charts st' !! m = Some mc ∧ m ≠ i ∧
    canvas mc = modal_canvas ∧ chart_type mc = chart_type src ∧
    JSON_stringify (store st) (config_data src) = Ok (Some j) ∧
    JSON_stringify (store st') (config_data mc) = Ok (Some j) ∧
    (kvs = doughnut_tree ∨ kvs = bar_tree) ∧
    JSON_stringify (store st) (config_options src) = Ok (Some (JObj kvs)) ∧
    JSON_stringify (store st') (config_options mc) = Ok (Some (with_zoom kvs)) ∧
    JSON_stringify (store st') (config_options src) = Ok (Some (JObj kvs)) ∧
    (∀ l, reach (store st') (config_data mc) l ∨ reach (store st') (config_options mc) l →
          (length (store st) ≤ l)%nat) ∧
    extends (store st) (store st') ∧
    slot_var s st' = Some i ∧ charts st' !! i = Some src ∧
    JSON_stringify (store st') (config_data src) = Ok (Some j) ∧
    (∀ l k x,
       reach (store st') (config_data mc) l ∨ reach (store st') (config_options mc) l →
       let h := (set_prop (VRef l) k x (store st')).1 in
       extends (store st) h ∧ JSON_stringify h (config_data src) = Ok (Some j)) ∧
    (∀ l k x,
       (l < length (store st))%nat →
       let h := (set_prop (VRef l) k x (store st')).1 in
       JSON_stringify h (config_data mc) = Ok (Some j) ∧
       JSON_stringify h (config_options mc) =
         JSON_stringify (store st') (config_options mc)) ∧
    (let st1 := (destroy m st').1 in
     charts st1 !! i = Some src ∧ store st1 = store st') ∧
    (let st1 := (closeModal st').1 in
     charts st1 !! i = Some src ∧ store st1 = store st') ∧
    (let st1 := (destroy i st').1 in
     charts st1 !! m = Some mc ∧ store st1 = store st').
Proof.
  intros st Ho.
  assert (HV : vars_inv st) by apply vars_inv_run, vars_inv_initial.
  destruct (openModalForChart_done _ _ _ _ Ho)
    as (i & src & cfg & Hi & Hsrc & Hcfg & Hcs & Hm & Hslots & _).
  destruct (modal_config_spec _ _ _ _ Hcfg) as (j & Hj & Hr & [Hext Hclosed] & Hf1 & Hf2).
  pose proof (lookup_lt_Some _ _ _ Hsrc) as Hlt.
  pose proof (extends_length _ _ Hext) as Hlen.
  set (mc := MkChart modal_canvas (chart_type src) cfg.1 cfg.2 true).
  assert (Hmc : charts st' !! length (charts st) = Some mc).
  { rewrite Hcs, <- (length_after_destroy (modalChartInstance st)).
    apply lookup_snoc_chart. }
  assert (Hsrc' : charts st' !! i = Some src).
  { rewrite Hcs, lookup_app_l by (by rewrite length_after_destroy).
    destruct (modalChartInstance st) as [k|] eqn:Hk; simpl; [| done].
    rewrite list_lookup_alter, decide_False; [done |]. intros ->.
    destruct HV as [H1 H2].
    destruct (H1 s i Hi) as (c1 & Hc1 & Hcv1). destruct (H2 i Hk) as (c2 & Hc2 & Hcv2).
    rewrite Hc1 in Hc2. injection Hc2 as <-. rewrite Hcv1 in Hcv2. by destruct s. }
  assert (Hcopy : JSON_stringify (store st') (config_data mc) = Ok (Some j)).
  { unfold JSON_stringify. apply repr_stringify; [done |].
    apply stringify_depth in Hj. lia. }
  assert (Hnew : ∀ l, reach (store st') (config_data mc) l ∨
                      reach (store st') (config_options mc) l →
                      (length (store st) ≤ l)%nat).
  { intros l [Hl|Hl]; eapply reach_fresh; try exact Hl; done. }
  assert (Hopts : render_options (store st) (config_options src)).
  { apply (options_inv_run page es i src Hsrc).
    destruct HV as [H1 _]. destruct (H1 s i Hi) as (c1 & Hc1 & Hcv1).
    rewrite Hsrc in Hc1. injection Hc1 as <-. rewrite Hcv1. apply canvas_id_not_modal. }
  destruct Hopts as (kvs & Hk & Hrk & Hlen3).
  assert (Hdk : (json_depth (JObj kvs) ≤ 3)%nat ∧ (json_depth (with_zoom kvs) ≤ 5)%nat ∧
                plain_plugins kvs).
  { destruct Hk as [-> | ->]; split_and!; vm_compute; by repeat constructor. }
  destruct Hdk as (Hd3 & Hd5 & Hplain).
  assert (Hso : JSON_stringify (store st) (config_options src) = Ok (Some (JObj kvs))).
  { unfold JSON_stringify. apply repr_stringify; [done | lia]. }
  assert (Hmo : repr (store st') (with_zoom kvs) cfg.2).
  { destruct (modal_config_runs src j kvs (store st) Hj Hso Hplain)
      as (h' & cfg' & Hcfg' & Hr').
    rewrite Hcfg in Hcfg'. by injection Hcfg' as <- <-. }
  assert (Hlen4 : (4 ≤ length (store st'))%nat).
  { unfold with_zoom, merged in Hmo.
    inversion Hmo as [| | | | |lo kvs' ps Hlo _ E1 E2]. rewrite <- E2 in Hf2.
    apply lookup_lt_Some in Hlo. simpl in Hf2. lia. }
  exists i, (length (charts st)), src, mc, j, kvs.
  split_and!; try done.
  - lia.
  - unfold JSON_stringify. apply repr_stringify; [done | lia].
  - by eapply JSON_stringify_extends.
  - by rewrite Hslots.
  - by eapply JSON_stringify_extends.
  - intros l k x Hl%Hnew h.
    assert (He : extends (store st) h).
    { destruct (set_prop_ref l k x (store st')) as [E|[o E]]; subst h; rewrite E;
        [done | by apply extends_insert]. }
    split; [done | by eapply JSON_stringify_extends].
  - intros l k x Hl h.
    assert (Hsame : ∀ v, fresh_val (length (store st)) v →
                         JSON_stringify h v = JSON_stringify (store st') v).
    { intros v Hv.
      destruct (set_prop_ref l k x (store st')) as [E|[o E]]; subst h; rewrite E; [done |].
      unfold JSON_stringify. rewrite length_insert.
      apply (stringify_agree (length (store st))); [done.. |].
      intros l' Hl'. apply list_lookup_insert_ne. lia. }
    split; [by rewrite Hsame | by apply Hsame].
  - simpl. rewrite list_lookup_alter, decide_False by lia. done.
  - rewrite closeModal_eq. simpl. rewrite Hm. simpl.
    rewrite list_lookup_alter, decide_False by lia. done.
  - simpl. rewrite list_lookup_alter, decide_False by lia. done.
Qed.

(** ** A failed load of the statistics *)

Lemma kept_refl (s : slot) (st : State) : kept s st st.
Proof. by split_and!. Qed.

Lemma kept_trans (s : slot) (a b c : State) : kept s a b → kept s b c → kept s a c.
Proof.
  intros (H1 & H2 & H3 & H4) (K1 & K2 & K3 & K4).
  split_and!; [congruence.. |]. intros r Hr. by apply K4, H4.
Qed.

Lemma onward_refl (st : State) : onward st st.
Proof. split_and!; try done. - apply extends_refl. - intros i c Hi Ha. by exists c. Qed.

Lemma onward_trans (a b c : State) : onward a b → onward b c → onward a c.
Proof.
  intros (H1 & H2 & H3 & H4 & H5 & H6 & H7 & H8) (K1 & K2 & K3 & K4 & K5 & K6 & K7 & K8).
  split_and!; try congruence.
  - by eapply extends_trans.
  - lia.
  - intros i x Hi Ha. destruct (H3 i x Hi Ha) as (y & Hy & Hay). by apply (K3 i y).
  - intros id Hid. by rewrite K8, H8.
Qed.

Lemma replaced_kept (s : slot) (a b c : State) :
  replaced s a b → kept s b c → onward b c → replaced s a c.
Proof.
  intros (i & x & Hv & Hlen & Hx & Ha & Hcv & Hold) (K1 & K2 & _) (_ & _ & Hdead & _).
  exists i, x. split_and!; try done.
  - congruence.
  - unfold slot_chart in K2. rewrite K1, Hv in K2. simpl in K2. congruence.
  - intros i0 Hi0. destruct (Hold i0 Hi0) as (c0 & Hc0 & Ha0). by apply (Hdead i0 c0).
Qed.

Lemma kept_replaced (s : slot) (a b c : State) :
  kept s a b → onward a b → replaced s b c → replaced s a c.
Proof.
  intros (K1 & _) (_ & Hlen & _) (i & x & Hv & Hl & Hx & Ha & Hcv & Hold).
  exists i, x. split_and!; try done; [lia |].
  intros i0 Hi0. apply Hold. congruence.
Qed.

Lemma rendered_kept (s : slot) (a b c : State) :
  rendered s a b → kept s b c → onward b c → rendered s a c.
Proof.
  intros [[Hd Hk]|[Hd Hr]] Hkc Ho.
  - left. split; [done | by eapply kept_trans].
  - right. split; [done | by eapply replaced_kept].
Qed.

Lemma kept_rendered (s : slot) (a b c : State) :
  kept s a b → onward a b → rendered s b c → rendered s a c.
Proof.
  intros Hk Ho Hr. pose proof Hk as (_ & _ & K3 & _).
  destruct Hr as [[Hd Hkc]|[Hd Hr]]; rewrite K3 in Hd.
  - left. split; [done | by eapply kept_trans].
  - right. split; [done | by eapply kept_replaced].
Qed.

(** New objects in the store change no slot. *)
Lemma store_only (st : State) (h : heap) :
  extends (store st) h →
  (∀ s, kept s st (set_store h st)) ∧ onward st (set_store h st).
Proof.
  intros He. split.
  - intros s. split_and!; [by destruct s | by destruct s | done |].
    unfold slot_data. replace (slot_chart s (set_store h st)) with (slot_chart s st)
      by (by destruct s).
    destruct (slot_chart s st) as [c|]; simpl; [| done].
    intros r [= Hr]. f_equal. by eapply JSON_stringify_extends.
  - split_and!; try done. intros i c Hi Ha. by exists c.
Qed.

(** What the installation of a chart changes. *)
Lemma install_effect (s : slot) (type title : string) (d o : val) (st : State) :
  vars_inv st → is_Some (dom st !! canvas_id s) →
  let cs := charts_after_destroy (slot_var s st) (charts st) in
  let st' := (listen (canvas_id s) "click" (OpenModal s title)
                (set_slot_var s (Some (length cs))
                   (set_charts (cs ++ [MkChart (canvas_id s) type d o true])%list st))).1 in
  replaced s st st' ∧ (∀ s', s' ≠ s → kept s' st st') ∧ onward st st'.
Proof.
  intros [H1 H2] Hcv cs st'.
  set (new := MkChart (canvas_id s) type d o true).
  assert (Hlen : length cs = length (charts st)) by apply length_after_destroy.
  assert (Hvar : ∀ s', slot_var s' st' = if decide (s' = s) then Some (length cs)
                                         else slot_var s' st).
  { intros s'. unfold st'. rewrite listen_eq. cbn [fst].
    change (slot_var s' (set_dom ?x (set_next_fn ?n ?y))) with (slot_var s' y).
    rewrite slot_var_set. case_decide; [done | by destruct s']. }
  assert (Hch : charts st' = (cs ++ [new])%list) by (by destruct s).
  assert (Hst : store st' = store st) by (by destruct s).
  assert (Hdom : ∀ s', s' ≠ s → dom st' !! canvas_id s' = dom st !! canvas_id s').
  { intros s' Hne. unfold st'. rewrite listen_eq. cbn [fst]. simpl.
    rewrite lookup_alter, decide_False; [by destruct s |].
    intros E. by apply Hne, canvas_id_inj. }
  assert (Hrest : console st' = console st ∧ modal st' = modal st ∧
                  modalChartInstance st' = modalChartInstance st ∧
                  requests st' = requests st) by (by destruct s).
  assert (Hother : ∀ id, (∀ s, id ≠ canvas_id s) → dom st' !! id = dom st !! id).
  { intros id Hid. unfold st'. rewrite listen_eq. cbn [fst]. simpl.
    rewrite lookup_alter, decide_False; [by destruct s | by apply not_eq_sym]. }
  clearbody st'. split_and!.
  - exists (length cs), new. split_and!; try done.
    + by rewrite Hvar, decide_True.
    + lia.
    + rewrite Hch. apply lookup_snoc_chart.
    + intros i0 Hi0. destruct (H1 s i0 Hi0) as (c0 & Hc0 & _).
      exists (destroyed c0). split; [| done]. rewrite Hch.
      apply lookup_app_l_Some. unfold cs. rewrite Hi0. simpl.
      by rewrite list_lookup_alter, decide_True, Hc0.
  - intros s' Hne.
    assert (Hv : slot_var s' st' = slot_var s' st) by (by rewrite Hvar, decide_False).
    assert (Hsc : slot_chart s' st' = slot_chart s' st).
    { unfold slot_chart. rewrite Hv, Hch.
      destruct (slot_var s' st) as [k|] eqn:Hk; simpl; [| done].
      destruct (H1 s' k Hk) as (c & Hc & Hcc).
      rewrite lookup_app_l by (rewrite Hlen; by eapply lookup_lt_Some).
      unfold cs. destruct (slot_var s st) as [i0|] eqn:Hi0; simpl; [| done].
      rewrite list_lookup_alter, decide_False; [done |]. intros ->.
      destruct (H1 s k Hi0) as (c' & Hc' & Hcc').
      apply Hne. apply canvas_id_inj. congruence. }
    split_and!; [done | done | by apply Hdom |].
    unfold slot_data. by rewrite Hsc, Hst.
  - destruct Hrest as (? & ? & ? & ?). split_and!; try done.
    + rewrite Hst. apply extends_refl.
    + rewrite Hch, length_app, Hlen. simpl. lia.
    + intros i c Hi Ha. rewrite Hch.
      destruct (canvas_after_destroy (slot_var s st) (charts st) i (canvas c)) as (c' & Hc' & _);
        [by exists c |].
      exists c'. split; [by apply lookup_app_l_Some |].
      destruct (slot_var s st) as [k|]; simpl in Hc'.
      * rewrite list_lookup_alter in Hc'. case_decide; [subst k | congruence].
        rewrite Hi in Hc'. simpl in Hc'. by injection Hc' as <-.
      * congruence.
Qed.

Lemma guarded_eq {A} (id : string) (k : option string → M A) (st : State) :
  (getElementById id ≫= k) st =
    k (match dom st !! id with Some _ => Some id | None => None end) st.
Proof. reflexivity. Qed.

(** The part of a render that finds the canvas and installs the chart,
    for a configuration literal that is built without an error. *)
Lemma guarded_install_effect (s : slot) (type : string) (config : H (val * val))
    (title : string) (st : State) :
  vars_inv st →
  (∀ h, ∃ h' d o, config h = (h', Ok (d, o)) ∧ extends h h') →
  let res := (ctx ← getElementById (canvas_id s);
              match ctx with
              | None => mret ()
              | Some _ => install s type config title
              end) st in
  res.2 = Ok () ∧ onward st res.1 ∧ vars_inv res.1 ∧
  (∀ s', s' ≠ s → kept s' st res.1) ∧ rendered s st res.1.
Proof.
  intros Hv Hc res. unfold res. clear res. rewrite guarded_eq.
  destruct (dom st !! canvas_id s) as [el|] eqn:Hel.
  - pose proof (vars_inv_install s type config title st Hv) as Hv'.
    rewrite install_eq in *. cbv zeta in *.
    destruct (Hc (store st)) as (h' & d & o & Hcfg & He). rewrite Hcfg in *.
    destruct (store_only st h' He) as [Hk Ho].
    assert (Hvb : vars_inv (set_store h' st)) by (eapply vars_inv_ext; [..| exact Hv]; done).
    destruct (install_effect s type title d o (set_store h' st) Hvb) as (Hr & Hks & Hon);
      [simpl; by rewrite Hel |].
    cbn [fst snd] in *. split_and!; [done | | done | |].
    + eapply onward_trans; [exact Ho | exact Hon].
    + intros s' Hne. eapply kept_trans; [apply Hk | by apply Hks].
    + right. split; [by rewrite Hel |]. eapply kept_replaced; [apply Hk | exact Ho | exact Hr].
  - simpl. split_and!; [done | apply onward_refl | done | intros; apply kept_refl |].
    left. split; [done | apply kept_refl].
Qed.

Lemma outcome_after_prep {A} (s : slot) (prep : H A) (k : A → M ()) (st : State) :
  vars_inv st → grows prep →
  (∀ h a, prep (store st) = (h, Ok a) →
          outcome s (set_store h st) (k a (set_store h st))) →
  outcome s st ((liftH prep ≫= k) st).
Proof.
  intros Hv Hg Hk. unfold mbind, M_bind, bindM, liftH.
  pose proof (Hg (store st)) as He.
  destruct (prep (store st)) as [h [a|e]] eqn:Hp; simpl in He.
  - destruct (store_only st h He) as [Hks Ho].
    destruct (Hk h a eq_refl) as (Ho' & Hv' & Hks' & Hr).
    split_and!; [by eapply onward_trans | done | |].
    + intros s' Hne. eapply kept_trans; [apply Hks | by apply Hks'].
    + destruct (k a (set_store h st)) as [st' [[]|e]]; simpl in *.
      * eapply kept_rendered; [apply Hks | done | done].
      * eapply kept_trans; [apply Hks | done].
  - destruct (store_only st h He) as [Hks Ho]. simpl.
    split_and!; [done | | by intros; apply Hks | apply Hks].
    eapply vars_inv_ext; [..| exact Hv]; done.
Qed.

Lemma outcome_guarded (s : slot) (type : string) (config : H (val * val))
    (title : string) (st : State) :
  vars_inv st →
  (∀ h, ∃ h' d o, config h = (h', Ok (d, o)) ∧ extends h h') →
  outcome s st ((ctx ← getElementById (canvas_id s);
                 match ctx with
                 | None => mret ()
                 | Some _ => install s type config title
                 end) st).
Proof.
  intros Hv Hc.
  destruct (guarded_install_effect s type config title st Hv Hc) as (Hr & Ho & Hv' & Hk & Hd).
  unfold outcome. rewrite Hr. by split_and!.
Qed.

Lemma dataset_config_runs (label : string) (labels values colors : val) (options : H val) :
  (∀ h, ∃ k o, options h = ((h ++ k)%list, Ok o)) →
  ∀ h, ∃ h' d o,
    (d ← data_literal label labels values colors; o ← options; mret (d, o)) h =
      (h', Ok (d, o)) ∧ extends h h'.
Proof.
  intros Ho h.
  destruct (data_literal label labels values colors h) as [h1 r] eqn:Hd.
  assert (∃ d, r = Ok d) as [d ->].
  { revert Hd. unfold data_literal, mbind, H_bind, bindH, new_object, new_array, alloc.
    intros [= _ <-]. by eexists. }
  destruct (Ho h1) as (k & o & Hopt).
  exists (h1 ++ k)%list, d, o. split.
  - erewrite bindH_ok by exact Hd. erewrite bindH_ok by exact Hopt. reflexivity.
  - eapply extends_trans; [| apply extends_app].
    pose proof (grows_data_literal label labels values colors h) as Hg. by rewrite Hd in Hg.
Qed.

Lemma dataset_render_outcome (s : slot) (type label title : string)
    (prep : val → H (val * val * val)) (options : H val) (data : val) (st : State) :
  vars_inv st → grows (prep data) →
  (∀ h, ∃ k o, options h = ((h ++ k)%list, Ok o)) →
  outcome s st (dataset_render s type label title prep options data st).
Proof.
  intros Hv Hg Ho. unfold dataset_render.
  apply outcome_after_prep; [done | done |].
  intros h [[labels values] colors] _.
  apply outcome_guarded; [| by apply dataset_config_runs].
  eapply vars_inv_ext; [..| exact Hv]; done.
Qed.

Lemma time_series_truthy (data ts : val) (h h' : heap) :
  time_series_of data h = (h', Ok ts) → truthy ts = true.
Proof.
  unfold time_series_of, mbind, H_bind, bindH, get_prop.
  destruct data as [| | | | | |l]; try discriminate.
  all: unfold or_else; simpl.
  all: try (intros [= _ <-]; reflexivity).
  destruct (h !! l) as [o|]; simpl.
  - destruct (truthy (obj_get o "time_series")) eqn:Ht; simpl.
    + by intros [= _ <-].
    + by intros [= _ <-].
  - by intros [= _ <-].
Qed.

Lemma line_config_runs (ts : val) (h : heap) :
  truthy ts = true → ∃ h' d o, line_config ts h = (h', Ok (d, o)) ∧ extends h h'.
Proof.
  intros Ht.
  assert (∀ k, ∃ w, get_prop ts k h = (h, Ok w)) as Hget.
  { intros k. unfold get_prop. destruct ts; try discriminate; try by eexists.
    destruct (h !! _); by eexists. }
  destruct (Hget "labels") as (lw & Hl). destruct (Hget "values") as (vw & Hw).
  destruct (line_config ts h) as [h' r] eqn:Hrun.
  pose proof (grows_line_config ts h) as Hg. rewrite Hrun in Hg. simpl in Hg.
  assert (∃ d o, r = Ok (d, o)) as (d & o & ->).
  { revert Hrun. unfold line_config.
    erewrite bindH_ok by exact Hl. erewrite bindH_ok by exact Hw.
    cbv [mbind H_bind bindH new_object new_array alloc mret H_ret retH].
    intros [= _ <-]. by do 2 eexists. }
  by exists h', d, o.
Qed.

Lemma render_outcome (s : slot) (data : val) (st : State) :
  vars_inv st → outcome s st (render s data st).
Proof.
  intros Hv. destruct s; unfold render.
  - rewrite renderBooksPerCategoryChart_shape, one_dataset_render_shape.
    apply dataset_render_outcome;
      [done | apply grows_prep_entries | apply doughnut_options_grow].
  - rewrite renderLoansOverTimeChart_shape.
    apply outcome_after_prep; [done | apply grows_time_series_of |].
    intros h ts Hts. apply outcome_guarded.
    + eapply vars_inv_ext; [..| exact Hv]; done.
    + intros h0. apply line_config_runs. by eapply time_series_truthy.
  - rewrite renderLoanStatusChart_shape.
    apply dataset_render_outcome;
      [done | apply grows_status_entries | apply doughnut_options_grow].
  - rewrite renderLanguageChart_shape, one_dataset_render_shape.
    apply dataset_render_outcome;
      [done | apply grows_prep_entries | apply bar_options_grow].
Qed.

Lemma progress_start (st : State) : vars_inv st → progress [] st st.
Proof.
  intros Hv. split_and!; [apply onward_refl | done | | intros; apply kept_refl].
  intros s Hs. by apply elem_of_nil in Hs.
Qed.

Lemma progress_step (done : list slot) (s : slot) (st a : State) (res : State * result ()) :
  progress done st a → s ∉ done → outcome s a res →
  match res.2 with
  | Ok _ => progress (done ++ [s]) st res.1
  | Throw _ => progress done st res.1
  end.
Proof.
  intros (Ho & Hv & Hd & Hk) Hs (Ho' & Hv' & Hk' & Hr).
  assert (Hon : onward st res.1) by (by eapply onward_trans).
  assert (Hdone : ∀ s', s' ∈ done → rendered s' st res.1).
  { intros s' Hs'. eapply rendered_kept; [by apply Hd | | done].
    apply Hk'. by intros ->. }
  destruct (res.2) as [[]|e].
  - split_and!; [done | done | |].
    + intros s' [Hs'| ->%list_elem_of_singleton]%elem_of_app; [by apply Hdone |].
      eapply kept_rendered; [by apply Hk | done | done].
    + intros s' Hs'. apply not_elem_of_app in Hs' as [H1 H2%not_elem_of_cons].
      eapply kept_trans; [by apply Hk | apply Hk'; tauto].
  - split_and!; [done | done | done |].
    intros s' Hs'. eapply kept_trans; [by apply Hk |].
    destruct (decide (s' = s)) as [->|Hne]; [done | by apply Hk'].
Qed.

Lemma progress_after_store (done : list slot) (st : State) (h : heap) (st' : State) :
  extends (store st) h → progress done (set_store h st) st' → progress done st st'.
Proof.
  intros He (Ho & Hv & Hd & Hk). destruct (store_only st h He) as [Hks Hos].
  split_and!; [by eapply onward_trans | done | |].
  - intros s Hs. eapply kept_rendered; [apply Hks | done | by apply Hd].
  - intros s Hs. eapply kept_trans; [apply Hks | by apply Hk].
Qed.

(** A render that throws ends [renderCharts]: the renders before it have
    run to their end, and the slots from it on are as they were. *)
Lemma renderCharts_progress (data : val) (st st1 : State) (e : error) :
  vars_inv st → renderCharts data st = (st1, Throw e) →
  ∃ done s0 rest, all_slots = (done ++ s0 :: rest)%list ∧ progress done st st1.
Proof.
  intros Hv. unfold renderCharts.
  pose proof (progress_start st Hv) as P0.
  pose proof (progress_step [] BooksPerCategory st st _ P0 (not_elem_of_nil _)
                (render_outcome BooksPerCategory data st Hv)) as P1.
  unfold mbind at 1, M_bind at 1, bindM at 1. simpl in P1.
  destruct (renderBooksPerCategoryChart data st) as [a1 [[]|e1]]; simpl in P1.
  2: { intros [= <- <-]. by exists [], BooksPerCategory, [LoansOverTime; LoanStatus; Language]. }
  pose proof (progress_step _ LoansOverTime st a1 _ P1 ltac:(by apply (bool_decide_unpack _))
                (render_outcome LoansOverTime data a1 (proj1 (proj2 P1)))) as P2.
  unfold mbind at 1, M_bind at 1, bindM at 1. simpl in P2.
  destruct (renderLoansOverTimeChart data a1) as [a2 [[]|e2]]; simpl in P2.
  2: { intros [= <- <-]. by exists [BooksPerCategory], LoansOverTime, [LoanStatus; Language]. }
  pose proof (progress_step _ LoanStatus st a2 _ P2 ltac:(by apply (bool_decide_unpack _))
                (render_outcome LoanStatus data a2 (proj1 (proj2 P2)))) as P3.
  unfold mbind at 1, M_bind at 1, bindM at 1. simpl in P3.
  destruct (renderLoanStatusChart data a2) as [a3 [[]|e3]]; simpl in P3.
  2: { intros [= <- <-]. by exists [BooksPerCategory; LoansOverTime], LoanStatus, [Language]. }
  pose proof (progress_step _ Language st a3 _ P3 ltac:(by apply (bool_decide_unpack _))
                (render_outcome Language data a3 (proj1 (proj2 P3)))) as P4.
  simpl in P4.
  destruct (renderLanguageChart data a3) as [a4 [[]|e4]]; simpl in P4; [done |].
  intros [= <- <-]. by exists [BooksPerCategory; LoansOverTime; LoanStatus], Language, [].
Qed.

Lemma grows_JSON_parse (j : json) : grows (JSON_parse j).
Proof.
  intros h. unfold JSON_parse. destruct (alloc_json j h) as [h' v] eqn:E.
  apply alloc_json_spec in E as (Hg & _). by apply grown_extends.
Qed.

(** An error of the statistics chain: either nothing has run, or the
    renders up to the one that threw. *)
Lemma stats_chain_progress (o : fetch_outcome) (st st1 : State) (e : error) :
  vars_inv st → stats_chain o st = (st1, Throw e) →
  ∃ done s0 rest, all_slots = (done ++ s0 :: rest)%list ∧ progress done st st1.
Proof.
  intros Hv. unfold stats_chain.
  destruct o as [e0|r].
  - intros [= <- _]. exists [], BooksPerCategory, [LoansOverTime; LoanStatus; Language].
    split; [done | by apply progress_start].
  - destruct (resp_json r) as [j|].
    + unfold mbind, M_bind, bindM, liftH.
      pose proof (grows_JSON_parse j (store st)) as He.
      destruct (JSON_parse j (store st)) as [h [data|e1]] eqn:Hp; simpl in He.
      * intros Hr. apply renderCharts_progress in Hr as (done & s0 & rest & Hd & P).
        -- exists done, s0, rest. split; [done | by eapply progress_after_store].
        -- eapply vars_inv_ext; [..| exact Hv]; done.
      * unfold JSON_parse in Hp. by destruct (alloc_json j (store st)).
    + intros [= <- _]. exists [], BooksPerCategory, [LoansOverTime; LoanStatus; Language].
      split; [done | by apply progress_start].
Qed.


End Dashboard.

(** * Examples *)

(** ** A host and a page to run the script on *)

Fixpoint group_thousands (digits : list ascii) : list ascii :=
  match digits with
  | a :: b :: c :: (_ :: _) as rest => a :: b :: c :: ","%char :: group_thousands rest
  | _ => digits
  end.

(** Integers the way the [en-US] locale writes them. *)
Definition en_US (q : Q) : string :=
  let n := Qfloor q in
  let digits := list_ascii_of_string (pretty (Z.abs n)) in
  let grouped := rev (group_thousands (rev digits)) in
  (if (n <? 0) then "-" else EmptyString) +:+ string_of_list_ascii grouped.

Fixpoint digits_value (s : string) (acc : Z) : option Z :=
  match s with
  | EmptyString => Some acc
  | String c s' =>
      let n := Z.of_N (N_of_ascii c) in
      if (48 <=? n) && (n <=? 57) then digits_value s' (10 * acc + (n - 48)) else None
  end.

(** A host for the examples, which use whole numbers only. *)
Definition demo_host : Host := {|
  toLocaleString := en_US;
  number_to_string q := pretty (Qfloor q);
  string_to_number s := inject_Z <$> digits_value s 0
|}.

Definition json_string (s : string) : string :=
  dquote +:+
  string_of_list_ascii
    (flat_map (λ c, if Ascii.eqb c "034" || Ascii.eqb c "\" then ["\"; c] else [c])%char
              (list_ascii_of_string s))
  +:+ dquote.

(** The text of a tree of whole numbers. *)
Fixpoint json_text (j : json) : string :=
  match j with
  | JNull => "null"
  | JBool true => "true"
  | JBool false => "false"
  | JNum q => pretty (Qfloor q)
  | JStr s => json_string s
  | JArr js => "[" +:+ join "," (map json_text js) +:+ "]"
  | JObj kvs =>
      "{" +:+ join "," (map (λ kj, json_string kj.1 +:+ ":" +:+ json_text kj.2) kvs) +:+ "}"
  end.

(** A successful JSON response with body [j]. *)
Definition json_response (j : json) : fetch_outcome :=
  Responded (Response 200 (Some "application/json") (json_text j) (Some j)).

Definition blank : element := Element (Text EmptyString) EmptyString EmptyString [].

Definition control (v : string) : element := Element (Text EmptyString) v EmptyString [].

(** The dashboard page: counters, activity list, controls and canvases. *)
Definition admin_page : gmap string element :=
  list_to_map
    ([("books-count", blank); ("users-count", blank); ("pending-requests", blank);
      ("overdue-loans", blank); ("recent-activity-list", blank);
      ("stats-period", control "year"); ("stats-year", control "2024");
      ("stats-month", control "5"); ("label-month", blank)]
     ++ map (λ s, (canvas_id s, blank)) all_slots)%list.

Definition dashboard : State := set_urls "/api/stats" "/api/activity" (initial admin_page).

(** A statistics payload with two categories, a time series, two statuses
    and two languages. *)
Definition stats_payload : json :=
  JObj [("basic", JObj [("total_books", JNum 1234); ("total_users", JNum 56)]);
        ("requests", JObj [("pending", JNum 7)]);
        ("loans", JObj [("overdue", JNum 3)]);
        ("category_book_counts",
         JArr [JObj [("name", JStr "Fiction"); ("total_books", JNum 800)];
               JObj [("name", JStr "Science"); ("total_books", JNum 434)]]);
        ("time_series",
         JObj [("labels", JArr [JStr "Jan"; JStr "Feb"]); ("values", JArr [JNum 12; JNum 9])]);
        ("status_distribution",
         JArr [JObj [("status", JStr "pending"); ("total", JNum 7)];
               JObj [("status", JStr "approved"); ("total", JNum 40)]]);
        ("language_distribution",
         JArr [JObj [("language", JStr "vi"); ("total", JNum 900)];
               JObj [("language", JStr "en"); ("total", JNum 334)]])].

(** The page is set up and the first statistics arrive. *)
Definition first_load : list event :=
  [EvInit "/api/stats" "/api/activity" Plugin 2024 4;
   EvStats (json_response stats_payload)].

Lemma admin_page_unscripted : unscripted admin_page.
Proof. unfold unscripted. apply (bool_decide_unpack _). vm_compute. exact I. Qed.

(** ** Chart instances and click listeners *)

Lemma one_live_chart_per_slot_witness :
  let st := run demo_host first_load (initial admin_page) in
  live_count (canvas_id BooksPerCategory)
    (rerender BooksPerCategory [stats_payload; stats_payload; stats_payload] st).1 = 1%nat.
Proof.
  refine (proj2 (proj2 (one_live_chart_per_slot demo_host admin_page first_load
                          BooksPerCategory))
            [stats_payload; stats_payload; stats_payload] _ _ _ _).
  - done.
  - vm_compute. eauto.
  - vm_compute. reflexivity.
Defined.

(** C2, as stated, fails: the statistics arrive twice; every canvas then
    has two click listeners, and one live chart. *)
Lemma two_renders_two_listeners :
  let st := run demo_host (first_load ++ [EvStats (json_response stats_payload)])
              (initial admin_page) in
  map (λ s, click_listeners s st) all_slots = [2; 2; 2; 2]%nat ∧
  map (λ s, live_count (canvas_id s) st) all_slots = [1; 1; 1; 1]%nat.
Proof. vm_compute. done. Qed.

Lemma click_listeners_accumulate_witness :
  let st := run demo_host first_load (initial admin_page) in
  click_listeners Language
    (rerender Language [stats_payload; stats_payload; stats_payload] st).1
  = (click_listeners Language st + 3)%nat.
Proof.
  refine (proj2 (click_listeners_accumulate demo_host admin_page first_load Language
                   admin_page_unscripted)
            [stats_payload; stats_payload; stats_payload] _ _ _).
  - vm_compute. eauto.
  - vm_compute. reflexivity.
Defined.

Lemma one_modal_chart_witness :
  let st := run demo_host first_load (initial admin_page) in
  let st1 := (openModalForChart (Some 1%nat) "Loans" st).1 in
  let st2 := (openModalForChart (Some 3%nat) "Languages" st1).1 in
  live_count modal_canvas st2 = 1%nat.
Proof.
  refine (proj2 (proj2 (proj2 (proj1 (proj2
            (one_modal_chart demo_host admin_page first_load))
            (Some 1%nat) "Loans" _ _)) (Some 3%nat) "Languages" _ _)).
  - vm_compute. reflexivity.
  - vm_compute. reflexivity.
Defined.

(** ** [fetchJSON] *)

(** C4, as stated, fails: a success status and a JSON content type with an
    empty body. The body does not parse and the call fails, with an error
    that carries neither the status nor an excerpt. *)
Lemma fetchJSON_rejects_unparsable_body :
  let r := Response 200 (Some "application/json") EmptyString None in
  ok r = true ∧ declares_json r = true ∧
  fetchJSON (Responded r) = Throw (SyntaxError "Unexpected token").
Proof. done. Qed.

Lemma fetchJSON_outcomes_witness :
  let r := Response 500 (Some "text/html") "<h1>Server Error</h1>" None in
  ∃ excerpt,
    fetchJSON (Responded r) =
      Throw (Error ("Unexpected response (" +:+ pretty (status r) +:+ "): "
                    +:+ excerpt +:+ "...")) ∧
    utf16 excerpt = take 200 (utf16 (resp_text r)) ∧
    (length (utf16 excerpt) ≤ 200)%nat.
Proof.
  apply (fetchJSON_outcomes (Response 500 (Some "text/html") "<h1>Server Error</h1>" None)).
  left. reflexivity.
Defined.

(** A body of 150 letters of two bytes each and three more letters has
    153 code units: the message carries all of it. *)
Definition accents : string := String.concat EmptyString (repeat "é" 150) +:+ "END".

Lemma excerpt_counts_code_units :
  String.length accents = 303%nat ∧ length (utf16 accents) = 153%nat ∧
  fetchJSON (Responded (Response 404 (Some "text/plain") accents None)) =
    Throw (Error ("Unexpected response (404): " +:+ accents +:+ "...")).
Proof. vm_compute. done. Qed.

(** A body whose code units 200 and 201 are the pair of one character: the
    excerpt ends with the first half of the pair. *)
Definition pair_at_the_cut : string :=
  String.concat EmptyString (repeat "a" 199) +:+ "😀b".

Lemma excerpt_can_end_inside_a_pair :
  utf16 "😀" = [55357; 56832]%N ∧
  utf16 (substring0 200 pair_at_the_cut) = (repeat 97 199 ++ [55357])%N.
Proof. vm_compute. done. Qed.

(** ** The statistics request *)

Definition with_control (id v : string) (st : State) : State :=
  set_dom (<[id := control v]> (dom st)) st.

Definition without_element (id : string) (st : State) : State :=
  set_dom (delete id (dom st)) st.

(** C5, as stated, fails: the month control holds 13 and the period is
    [month]; the request carries [month=13]. *)
Lemma month_thirteen_is_sent :
  let st := with_control "stats-month" "13" (with_control "stats-period" "month" dashboard) in
  requests (loadBookStats st).1 = ["/api/stats?period=month&year=2024&month=13"] ∧
  query_param "month" "period=month&year=2024&month=13" = Some "13".
Proof. vm_compute. done. Qed.

Lemma stats_query_parameters_witness :
  let st := with_control "stats-period" "month" dashboard in
  ∃ qs,
    loadBookStats st =
      (set_requests (requests st ++ [statsApiUrl st +:+ "?" +:+ qs])%list st, Ok ()) ∧
    query_param "period" qs = Some "month" ∧
    query_param "year" qs = Some "2024" ∧
    query_param "month" qs = Some "5".
Proof.
  apply (stats_query_parameters
           (with_control "stats-period" "month" dashboard) (control "month") (control "2024"));
    reflexivity.
Defined.

Lemma month_fallback_is_one_witness :
  let st := without_element "stats-month"
              (with_control "stats-period" "month" dashboard) in
  loadBookStats st =
    (set_requests
       (requests st ++ [statsApiUrl st +:+ "?" +:+ "period=month&year=2024&month=1"])%list st,
     Ok ()) ∧
  query_param "month" "period=month&year=2024&month=1" = Some "1".
Proof.
  apply (month_fallback_is_one
           (without_element "stats-month" (with_control "stats-period" "month" dashboard))
           (control "month") (control "2024")); [reflexivity.. | done].
Defined.

(** ** The summary counters *)

(** C3, as stated, fails: a payload without [total_books]. No failure
    handler runs; the first counter shows the empty text and the others
    their numbers. *)
Lemma missing_counter_field_is_not_blanked :
  let data := JObj [("basic", JObj [("total_users", JNum 5)]);
                    ("requests", JObj [("pending", JNum 1)]);
                    ("loans", JObj [("overdue", JNum 2)])] in
  let st' := (loadDashboardStats_settled demo_host (json_response data) dashboard).1 in
  has_counter_fields data = false ∧
  map (λ id, shown id st') counter_ids =
    [Some (Text EmptyString); Some (Text "5"); Some (Text "1"); Some (Text "2")] ∧
  console st' = [].
Proof. vm_compute. done. Qed.

Lemma summary_failure_blanks_counters_witness :
  let o := Responded (Response 500 (Some "text/html") "<h1>Server Error</h1>" None) in
  let st' := (loadDashboardStats_settled demo_host o dashboard).1 in
  (∀ id el, id ∈ counter_ids → dom dashboard !! id = Some el →
            dom st' !! id = Some (set_contents (Text "-") el)) ∧
  ∃ e, console st' = (console dashboard ++ [(LogError, "Error loading stats:", e)])%list.
Proof.
  apply (summary_failure_blanks_counters demo_host
           (Responded (Response 500 (Some "text/html") "<h1>Server Error</h1>" None))
           dashboard).
  reflexivity.
Defined.

(** ** Long lists *)

Definition category_entry (i : nat) : json :=
  JObj [("name", JStr ("Category " +:+ pretty i));
        ("total_books", JNum (inject_Z (Z.of_nat i)))].

Definition language_entry (i : nat) : json :=
  JObj [("language", JStr ("lang-" +:+ pretty i));
        ("total", JNum (inject_Z (Z.of_nat i)))].

(** A statistics payload with 25 categories and 15 languages. *)
Definition long_payload : json :=
  JObj [("category_book_counts", JArr (map category_entry (seq 1 25)));
        ("time_series",
         JObj [("labels", JArr [JStr "Jan"; JStr "Feb"]); ("values", JArr [JNum 12; JNum 9])]);
        ("status_distribution",
         JArr [JObj [("status", JStr "pending"); ("total", JNum 7)]]);
        ("language_distribution", JArr (map language_entry (seq 1 15)))].

Lemma charts_show_first_entries_witness :
  let entries := map category_entry (seq 1 25) in
  ∃ st', rerender_once BooksPerCategory long_payload dashboard = (st', Ok ()) ∧
         slot_shows BooksPerCategory st'
           (chart_data "Sách" (column "name" (take 20 entries))
                       (column "total_books" (take 20 entries))
                       (palette (length (take 20 entries)))).
Proof.
  apply (proj1 (charts_show_first_entries long_payload dashboard
                  (map category_entry (seq 1 25)))).
  - reflexivity.
  - simpl. repeat constructor.
  - vm_compute. eauto.
Defined.

(** The labels of a chart's data. *)
Definition labels_of (r : option (result (option json))) : jval :=
  match r with
  | Some (Ok j) => field j "labels"
  | _ => None
  end.

(** The page loads the long payload: the category chart has the first 20
    names and the language chart the first 12, in the payload's order. *)
Lemma long_lists_are_cut :
  let st := run demo_host
              [EvInit "/api/stats" "/api/activity" Plugin 2024 4;
               EvStats (json_response long_payload)] (initial admin_page) in
  labels_of (slot_data BooksPerCategory st)
    = Some (JArr (column "name" (map category_entry (seq 1 20)))) ∧
  labels_of (slot_data Language st)
    = Some (JArr (column "language" (map language_entry (seq 1 12)))).
Proof. vm_compute. done. Qed.

(** ** The modal chart and its source *)

(** The chart [modalChartInstance] holds. *)
Definition modal_chart (st : State) : option Chart :=
  modalChartInstance st ≫= λ m, charts st !! m.

(** The page after the first load, and after the modal is then opened on
    the loans chart. *)
Definition loaded : State := run demo_host first_load (initial admin_page).

Definition loans_modal : State :=
  (openModalForChart (slot_var LoansOverTime loaded) "Loans" loaded).1.

Lemma modal_chart_is_isolated_witness :
  ∃ i m src mc j kvs,
    slot_var LoansOverTime loaded = Some i ∧ charts loaded !! i = Some src ∧
    modalChartInstance loans_modal = Some m ∧ charts loans_modal !! m = Some mc ∧
    m ≠ i ∧
    JSON_stringify (store loaded) (config_data src) = Ok (Some j) ∧
    JSON_stringify (store loans_modal) (config_data mc) = Ok (Some j) ∧
    JSON_stringify (store loaded) (config_options src) = Ok (Some (JObj kvs)) ∧
    JSON_stringify (store loans_modal) (config_options mc) = Ok (Some (with_zoom kvs)) ∧
    JSON_stringify (store loans_modal) (config_options src) = Ok (Some (JObj kvs)) ∧
    extends (store loaded) (store loans_modal).
Proof.
  destruct (modal_chart_is_isolated demo_host admin_page first_load LoansOverTime "Loans"
              loans_modal)
    as (i & m & src & mc & j & kvs & H1 & H2 & H3 & H4 & H5 & _ & _ & H8 & H9 & _ &
        O1 & O2 & O3 & _ & H11 & _).
  { vm_compute. reflexivity. }
  exists i, m, src, mc, j, kvs.
  exact (conj H1 (conj H2 (conj H3 (conj H4 (conj H5 (conj H8 (conj H9
           (conj O1 (conj O2 (conj O3 H11)))))))))).
Defined.

(** The data of the chart the modal shows. *)
Definition modal_data (st : State) : val :=
  default VUndef (config_data <$> modal_chart st).

(** The store once the labels of the modal chart's data are overwritten. *)
Definition relabelled : heap :=
  (set_prop (modal_data loans_modal) "labels" VNull (store loans_modal)).1.

(** The modal is opened on the loans chart and the labels of its chart are
    overwritten: the modal chart's data changes, the slot chart's data
    does not. *)
Lemma modal_write_leaves_slot_chart :
  (λ c, JSON_stringify relabelled (config_data c)) <$> slot_chart LoansOverTime loans_modal
    = slot_data LoansOverTime loaded ∧
  labels_of (slot_data LoansOverTime loaded) = Some (JArr [JStr "Jan"; JStr "Feb"]) ∧
  labels_of (Some (JSON_stringify (store loans_modal) (modal_data loans_modal)))
    = Some (JArr [JStr "Jan"; JStr "Feb"]) ∧
  labels_of (Some (JSON_stringify relabelled (modal_data loans_modal))) = Some JNull.
Proof. vm_compute. done. Qed.

(** ** Failed loads *)


(** A reload whose status list holds a [null]: the render of the status
    chart throws when it reads the entry. *)
Definition null_status_payload : json :=
  JObj [("category_book_counts",
         JArr [JObj [("name", JStr "History"); ("total_books", JNum 5)]]);
        ("time_series",
         JObj [("labels", JArr [JStr "Mar"]); ("values", JArr [JNum 4])]);
        ("status_distribution", JArr [JNull]);
        ("language_distribution",
         JArr [JObj [("language", JStr "fr"); ("total", JNum 2)]])].

Definition half_rendered : State :=
  (loadBookStats_settled (json_response null_status_payload) loaded).1.

(** The error is logged; the category and loans charts are new and show
    the reload, the status and language charts are those of the first
    load; the two instances that were replaced are destroyed. *)
Lemma failed_render_keeps_later_charts :
  map (λ s, slot_var s loaded) all_slots = [Some 0; Some 1; Some 2; Some 3]%nat ∧
  map (λ s, slot_var s half_rendered) all_slots = [Some 4; Some 5; Some 2; Some 3]%nat ∧
  map (λ i, alive <$> charts half_rendered !! i) (seq 0 7) =
    [Some false; Some false; Some true; Some true; Some true; Some true; None] ∧
  map (λ s, labels_of (slot_data s half_rendered)) all_slots =
    [Some (JArr [JStr "History"]); Some (JArr [JStr "Mar"]);
     Some (JArr [JStr "pending"; JStr "approved"]); Some (JArr [JStr "vi"; JStr "en"])] ∧
  console half_rendered =
    [(LogError, "Error loading book stats:", TypeError "Cannot read properties of null")].
Proof. vm_compute. done. Qed.


(** ** The activity feed *)

Definition activity_entries : list json :=
  [JObj [("message", JStr "<script>alert(1)</script>"); ("details", JStr "a & b");
         ("ago", JStr "2 min")];
   JObj [("message", JStr "Book returned"); ("details", JNum 3); ("ago", JStr "1 h")]].

Definition activity_payload : json := JObj [("activities", JArr activity_entries)].

Lemma activity_list_shows_entries_witness :
  ∃ items,
    Forall2 (λ e s, activity_item demo_host (Some e) = Ok s) activity_entries items ∧
    loadRecentActivity_settled demo_host (json_response activity_payload) dashboard =
      (set_dom (alter (set_contents (Html (concat_all items)))
                      "recent-activity-list" (dom dashboard)) dashboard, Ok ()) ∧
    count_char "<" (concat_all items) = (11 * length activity_entries)%nat ∧
    count_char ">" (concat_all items) = (11 * length activity_entries)%nat.
Proof.
  apply (activity_list_shows_entries demo_host (json_response activity_payload)
           activity_payload activity_entries dashboard).
  - reflexivity.
  - reflexivity.
  - discriminate.
  - repeat constructor.
  - vm_compute. eauto.
Defined.

(** The markup of the list for [activity_payload]: the script tag of the
    first message is text, not markup. *)
Lemma activity_markup_is_escaped :
  match shown "recent-activity-list"
          (loadRecentActivity_settled demo_host (json_response activity_payload)
             dashboard).1 with
  | Some (Html html) =>
      includes html "<strong>&lt;script&gt;alert(1)&lt;/script&gt;</strong>" = true ∧
      includes html "<script>" = false ∧
      includes html "<small>a &amp; b</small>" = true
  | _ => False
  end.
Proof. vm_compute. done. Qed.

Lemma activity_list_fallbacks_witness :
  loadRecentActivity_settled demo_host (json_response (JObj [("activities", JArr [])]))
    dashboard =
    (set_dom (alter (set_contents (Html "<p>No recent activity</p>"))
                    "recent-activity-list" (dom dashboard)) dashboard, Ok ()).
Proof.
  apply (activity_list_fallbacks demo_host
           (json_response (JObj [("activities", JArr [])]))
           (JObj [("activities", JArr [])]) dashboard).
  - reflexivity.
  - reflexivity.
  - set_solver.
Defined.

(** ** The controls *)

Lemma setupStatsControls_effect_witness :
  let st' := (setupStatsControls 2024 4 dashboard).1 in
  value <$> dom st' !! "stats-year" = Some "2024" ∧
  value <$> dom st' !! "stats-month" = Some "5" ∧
  style_display <$> dom st' !! "stats-month" = Some "none".
Proof.
  destruct (proj2 (setupStatsControls_effect 2024 4 dashboard)
              (control "year") (control "2024") (control "5") eq_refl eq_refl eq_refl)
    as (_ & _ & Hy & Hm & _).
  cbv zeta. rewrite Hy, Hm. done.
Defined.

Lemma init_requests_witness :
  requests (init "/api/stats" "/api/activity" Plugin 2024 4 (initial admin_page)).1 =
    ["/api/stats"; "/api/activity"; "/api/stats?period=year&year=2024"].
Proof.
  exact (proj1 (proj2 (proj2 (proj2
           (init_requests "/api/stats" "/api/activity" Plugin 2024 4 (initial admin_page)))))
           (control "year") (control "2024") (control "5") eq_refl eq_refl eq_refl).
Defined.

Lemma control_events_reload_witness :
  let st0 := run demo_host [EvInit "/api/stats" "/api/activity" Plugin 2024 4]
               (initial admin_page) in
  let st1 := run demo_host [EvEdit "stats-period" "month"; EvFire "stats-period" "change"]
               st0 in
  requests st1 = (requests st0 ++ ["/api/stats?period=month&year=2024&month=5"])%list ∧
  style_display <$> dom st1 !! "stats-month" = Some "inline-block".
Proof.
  exact (proj1 (control_events_reload demo_host admin_page "/api/stats" "/api/activity"
                  Plugin 2024 4 (control "year") (control "2024") (control "5")
                  admin_page_unscripted eq_refl eq_refl eq_refl) "month").
Defined.

(** ** The status chart, the loans chart and missing lists *)

Definition status_entry (i : nat) : json :=
  JObj [("status", JStr ("status-" +:+ pretty i)); ("total", JNum (inject_Z (Z.of_nat i)))].

Definition many_statuses : json :=
  JObj [("status_distribution", JArr (map status_entry (seq 1 25)))].

Lemma status_chart_shows_every_entry_witness :
  ∃ st', rerender_once LoanStatus many_statuses dashboard = (st', Ok ()) ∧
         slot_shows LoanStatus st'
           (chart_data "Yêu cầu" (column "status" (map status_entry (seq 1 25)))
                       (column "total" (map status_entry (seq 1 25)))
                       (palette (length (map status_entry (seq 1 25))))).
Proof.
  apply (status_chart_shows_every_entry many_statuses (map status_entry (seq 1 25))
           dashboard).
  - reflexivity.
  - simpl. repeat constructor.
  - vm_compute. eauto.
Defined.

(** A payload with nothing but 25 statuses: the status chart has 25
    labels, the other charts are built and empty. *)
Lemma statuses_are_not_cut :
  let st := run demo_host
              [EvInit "/api/stats" "/api/activity" Plugin 2024 4;
               EvStats (json_response many_statuses)] (initial admin_page) in
  labels_of (slot_data LoanStatus st)
    = Some (JArr (column "status" (map status_entry (seq 1 25)))) ∧
  labels_of (slot_data BooksPerCategory st) = Some (JArr []) ∧
  labels_of (slot_data LoansOverTime st) = Some (JArr []) ∧
  labels_of (slot_data Language st) = Some (JArr []) ∧
  map (λ s, live_count (canvas_id s) st) all_slots = [1; 1; 1; 1]%nat ∧
  console st = [].
Proof. vm_compute. done. Qed.

Lemma chart_without_list_is_empty_witness :
  ∃ st', rerender_once Language (JObj []) dashboard = (st', Ok ()) ∧
         slot_shows Language st' (chart_data "Số lượng sách" [] [] []).
Proof.
  apply (chart_without_list_is_empty Language [] dashboard).
  - discriminate.
  - by left.
  - vm_compute. eauto.
Defined.

Lemma loans_chart_shows_series_witness :
  ∃ st', rerender_once LoansOverTime stats_payload dashboard = (st', Ok ()) ∧
         slot_shows LoansOverTime st'
           (line_data (JArr [JStr "Jan"; JStr "Feb"]) (JArr [JNum 12; JNum 9])).
Proof.
  refine (proj1 (loans_chart_shows_series dashboard _) stats_payload
            (JObj [("labels", JArr [JStr "Jan"; JStr "Feb"]);
                   ("values", JArr [JNum 12; JNum 9])]) _ _ eq_refl eq_refl eq_refl).
  vm_compute. eauto.
Defined.

(** ** Clicks in the modal *)

(** The first load, then a click on the loans chart. *)
Definition modal_open : list event :=
  (first_load ++ [EvFire "loansOverTimeChart" "click"])%list.

Lemma modal_closes_on_overlay_and_button_witness :
  let st := run demo_host modal_open (initial admin_page) in
  let st1 := (modal_click OnOverlay st).1 in
  modal_click OnOverlay st = closeModal st ∧
  modal_display <$> modal st1 = Some "none" ∧
  modalChartInstance st1 = None ∧
  live_count modal_canvas st1 = 0%nat.
Proof.
  refine (proj1 (proj2 (modal_closes_on_overlay_and_button demo_host admin_page modal_open))
            OnOverlay (or_introl eq_refl) _).
  vm_compute. eauto.
Defined.

(** The modal is open with one live chart before the click, and a click
    on its content leaves it so. *)
Lemma click_on_content_keeps_modal :
  let st := run demo_host modal_open (initial admin_page) in
  let st1 := run demo_host [EvModalClick OnContent] st in
  modal_display <$> modal st = Some "flex" ∧ live_count modal_canvas st = 1%nat ∧
  modal_display <$> modal st1 = Some "flex" ∧ live_count modal_canvas st1 = 1%nat.
Proof. vm_compute. done. Qed.

(** ** The options of the modal chart *)

Definition loans_chart : Chart :=
  default (MkChart EmptyString EmptyString VUndef VUndef false)
          (slot_chart LoansOverTime loaded).

(** The options [renderLoansOverTimeChart] gives its chart. *)
Definition loans_options : list (string * json) :=
  [("responsive", JBool true);
   ("plugins", JObj [("legend", JObj [("display", JBool false)])]);
   ("scales", JObj [("y", JObj [("beginAtZero", JBool true); ("precision", JNum 0)])])].

Lemma modal_options_are_merged_witness :
  ∃ st' m mc,
    openModalForChart (Some 1%nat) "Loans" loaded = (st', Ok ()) ∧
    modalChartInstance st' = Some m ∧ charts st' !! m = Some mc ∧
    reads_as (store st') (config_options mc) (Some (with_zoom loans_options)) ∧
    JSON_stringify (store st') (config_options loans_chart) = Ok (Some (JObj loans_options)).
Proof.
  apply (modal_options_are_merged 1 loans_chart "Loans"
           (line_data (JArr [JStr "Jan"; JStr "Feb"]) (JArr [JNum 12; JNum 9]))
           loans_options loaded).
  - vm_compute. reflexivity.
  - vm_compute. reflexivity.
  - vm_compute. reflexivity.
  - exact I.
Defined.

(** The modal opened on the loans chart: the legend of the source is kept
    and the zoom settings are beside it. *)
Lemma loans_modal_options :
  (λ c, JSON_stringify (store loans_modal) (config_options c)) <$> modal_chart loans_modal
    = Some (Ok (Some (with_zoom loans_options))) ∧
  with_zoom loans_options =
    JObj [("responsive", JBool true);
          ("plugins", JObj [("legend", JObj [("display", JBool false)]);
                            ("zoom", zoom_tree)]);
          ("scales", JObj [("y", JObj [("beginAtZero", JBool true);
                                       ("precision", JNum 0)])]);
          ("maintainAspectRatio", JBool false)].
Proof. split; [vm_compute |]; reflexivity. Qed.

(** ** A whole load of the statistics *)

Lemma stats_response_renders_all_witness :
  let st := run demo_host [EvInit "/api/stats" "/api/activity" Plugin 2024 4]
              (initial admin_page) in
  ∃ st', loadBookStats_settled (json_response stats_payload) st = (st', Ok ()) ∧
         console st' = console st ∧
         ∀ s, slot_shows s st' (expected s stats_payload).
Proof.
  apply (stats_response_renders_all demo_host admin_page
           [EvInit "/api/stats" "/api/activity" Plugin 2024 4]
           (Response 200 (Some "application/json") (json_text stats_payload)
                     (Some stats_payload))
           stats_payload).
  - reflexivity.
  - vm_compute. reflexivity.
  - intros []; vm_compute; eauto.
Defined.

(** ** A click on a chart *)

Lemma canvas_click_opens_modal_witness :
  let st' := run demo_host [EvFire (canvas_id LoansOverTime) "click"] loaded in
  (0 < click_listeners LoansOverTime loaded)%nat ∧
  opened (slot_title LoansOverTime) loans_chart
    (line_data (JArr [JStr "Jan"; JStr "Feb"]) (JArr [JNum 12; JNum 9])) loans_options st' ∧
  console st' = console loaded ∧
  slot_var LoansOverTime st' = Some 1%nat ∧ charts st' !! 1%nat = Some loans_chart.
Proof.
  apply (canvas_click_opens_modal demo_host admin_page first_load LoansOverTime 1 loans_chart
           (line_data (JArr [JStr "Jan"; JStr "Feb"]) (JArr [JNum 12; JNum 9]))
           loans_options).
  - exact admin_page_unscripted.
  - vm_compute. reflexivity.
  - vm_compute. reflexivity.
  - vm_compute. reflexivity.
  - vm_compute. reflexivity.
  - exact I.
Defined.
